(* ===== verification/_CoqProject ===== *)
-Q . S2P
Prelude.v
Types.v
PriceLevel.v
SortedMap.v
OrderBook.v
BookRep.v
BookProps.v
ProRata.v
Matcher.v
FillProps.v
MatchSpec.v
MatchProps.v
SubmitProps.v
TradeProps.v
Engine.v
CoreTheorems.v
Text.v
Messages.v
Serializer.v
Parser.v
ParserProps.v
CodecProps.v
CodecTheorems.v
Session.v
SessionProps.v
Resend.v
UtcClock.v
SessionTheorems.v
Server.v
ServerTheorems.v
Reports.v
Conversation.v
Pieces.v
Threads.v
Stored.v
ThreadTheorems.v
Connections.v
Turns.v
Double.v
Histogram.v
Logger.v
Main.v
Process.v
ReplayBench.v
BenchRun.v
BenchMain.v
Layout.v
CachelineStudy.v
