(* ===== verification/Prelude.v ===== *)
(** * orderbook-fix: a verification development

    orderbook-fix is a FIX 4.4 matching engine in C++. A TCP server runs one
    session per connection; a session turns bytes into messages, keeps the
    FIX sequence numbers and timers, and hands order messages to the server,
    which submits them to one shared order book and sends back execution
    reports. This library models that program and proves what its parts
    promise. The sources are under [src/src/]; below, [core/], [fix/],
    [net/] and [obs/] are its directories, and [bench/] is [src/bench/].

    ** How the model is written

    - Code is translated function by function, with the names of the source.
      Code that can fail returns [res]: a value, an exception, undefined
      behaviour ([Undef]: dangling pointer, read outside a buffer, signed
      overflow), or [Hang]: a loop out of fuel, or a call that never returns.
      A theorem that some code works states an equation [... = Ok ...], so none
      of these happens.
    - Integers are [Z] with the wrap-around of their width written out:
      [u64], [i32], [i64_of_u64], and [add_i64] whose overflow is [Undef].
    - Orders live in an object store ([heap]); a pointer is an address, and
      dereferencing one that is not allocated is [Undef]. Addresses are never
      reused, so a dangling pointer stays visible. Ownership by [unique_ptr]
      is modelled by freeing the object where the owner is destroyed.
    - Strings are lists of [ascii]; positions are [Z]; [std::unordered_map]
      is a [gmap], [std::map] a list sorted by its comparator.
    - What the program reads from outside is a parameter: the clocks and the
      iteration order of a hash map are the class [Env] of [Session], with
      what is assumed of them in the class [EnvLaws] of [Resend]; what a call of
      [send] comes to (a count, blocking for ever, or SIGPIPE) is the class
      [Net] of [Server], with [NetLaws]. Every connection has an [Env] and a
      [Net] of its own. What [poll], [recv], [accept] and the socket calls answer
      is an argument of the step that makes the call. The benchmarks' random draws and measured times
      are the classes [BenchEnv] and [StudyEnv].
    - Doubles are binary64 as specified in the Standard Library ([Double]).
    - Threads interleave: [Threads] gives the server as a relation whose steps
      are the pieces of code between two points where threads meet. A thread
      inside a [send] that blocks has no step; steps that need nothing from
      outside the process are singled out ([prompt]), for the claims about
      progress.

    ** Files

    Shared: [Prelude] (outcomes, machine integers, sums, lists, tactics),
    [Types] (core/types.h, order.h, events.h and the object store), [Text]
    (decimal conversion, [parse_uint], string positions).

    The order book and the matching engine:
    - [PriceLevel] (core/price_level.h): the intrusive doubly-linked queue;
      [level_rep] relates it to a list of orders;
    - [SortedMap]: [std::map] with either comparator, behind the interface
      [StrictCmp]; [OrderBook] (core/order_book.h, order_book.cpp): [rest],
      [find], [cancel], [remove], best prices and the level walk;
    - [BookRep], [BookProps]: the abstract book (two ordered maps of queues),
      the representation invariant [book_rep], and refinement of the book
      operations;
    - [ProRata] (core/matcher.cpp, allocation arithmetic): the coded
      allocation, the documented one, and their equivalence;
    - [Matcher] (core/matcher.h, matcher.cpp): the matcher object, level
      fills, the aggressive walk, the sweep, [submit]; [FillProps], [MatchSpec], [MatchProps],
      [SubmitProps], [TradeProps]: the abstract matching function and the
      proof that the code computes it;
    - [Engine]: book and matcher over a sequence of submissions,
      cancellations and changes of the algorithm, with the invariant of whole
      runs; [CoreTheorems]: the
      theorems about this part.

    The FIX codec: [Messages] (fix/messages.h), [Serializer]
    (fix/serializer.cpp and the checksum of fix/parser.cpp), [Parser]
    (fix/parser.cpp); [ParserProps], [CodecProps]: framing and field lemmas;
    [CodecTheorems]: the theorems.

    The session: [Session] (fix/session.h, session.cpp), [SessionProps] (what
    operations leave alone, the receive loop), [Resend] (outbound history,
    replay, the session invariant over its interface), [UtcClock] ([utc_now]
    of session.cpp: calendar and text of the wall clock), [SessionTheorems].

    The server (net/tcp_server.h, tcp_server.cpp):
    - [Server]: the reports ([exec_report_for_ack], [exec_report_for_trade]),
      one application message under the book lock ([handle_app]), [write_all],
      and one turn of [session_loop] ([session_turn]);
    - [ServerTheorems]: the abstract server over the abstract book and the
      simulation between the two; [Reports]: from an order message to the
      reports the client's parser reads back; [Conversation]: what a turn does
      for a client that logs on and sends orders; [Pieces]: a connection from
      its Logon to the reports of its last order, in whatever pieces the bytes
      arrive;
    - [Threads]: [start], [stop], [accept_loop] and the session threads as
      interleaving steps, with both mutexes; [Stored]: what the book holds when
      nothing is assumed of the clients, and that its loops end; [ThreadTheorems]:
      linearizability, and what [stop] waits for; [Connections]: the session
      invariant of every connection over every run; [Turns]: what the loop of one
      connection computes, as [Server] and [Conversation] have it, is a run of
      the process.

    Around it:
    - [Double]: the floating-point arithmetic and [%.nf] text the program uses,
      with the rounding lemma behind quantiles; [Histogram] (obs/histogram.h);
      [Logger] (obs/logger.h);
    - [Main] (main.cpp: options and environment), [Process] (main.cpp from start
      to exit, interleaved with the server's threads and with signals);
    - [ReplayBench] (the client loops of bench/replay_bench.cpp), [BenchRun] (a
      block of the benchmark against the server), [BenchMain] (its [main]);
    - [Layout] (the structures of bench/cacheline_study.cpp in memory and in
      cache lines), [CachelineStudy] (its code).

    ** What the theorems show

    - Matching: [submit] implements an abstract function on queues (refinement)
      on every well-formed book, with conservation of quantity, price and time
      priority, and safety of every run with unused keys and a total quantity
      below 2^63: no undefined behaviour, no leak, book uncrossed.
    - Allocation: the 64-bit code fills exactly [min(available, total)] within
      each order's size, and equals the documented pro-rata allocation when the
      products fit.
    - Codec: round trip, soundness of acceptance, stability under further
      bytes, detection of single-byte corruption, and the exact inputs on
      which the length arithmetic reads out of bounds.
    - Session: independence of how bytes are cut into reads, termination,
      sequence checks, Logon admission, correctness of what is sent, the ring
      invariant over all runs, complete answers to ResendRequest, and
      detection of a silent peer.
    - Server: whatever the interleaving, the shared book is the one of the
      abstract server on the messages in lock order; the reports of a message
      reach its client in order and numbered consecutively; a whole
      conversation, Logon and timers included, read in any pieces and between
      any polls without input, says to the client exactly the abstract server's
      events; [write_all] is exact; handling a message never runs for ever,
      whatever the clients have sent; [stop] ends and joins everything unless a
      client does not read, and then it never returns; every session keeps its
      invariant on every run; the sequential model of a connection is a run of
      the process.
    - Process: exit codes, log lines, and that a signal leads to [stop] and, but
      for clients that do not read, to the exit with everything joined; the time
      stamp reads back as the clock's milliseconds.
    - Histogram, options: counts and merge; the floating-point rank is the
      product rounded down or up, and a quantile is the power of two above the
      sample of that rank;
      options are read back as written.
    - Benchmarks: the replay benchmark run against the server completes and
      prints its whole report, with the quantiles of the times it measured,
      whatever the pieces in which bytes arrive; its feed is admissible; which
      report each measurement waits for; that every fill the cache-line study
      measures drains its level in both variants, and which cache lines that
      work touches in each.
    - Theorems about misbehaviour (reused ClOrdID, product and total overflow,
      length overflow, tag truncation, unnumbered messages, EndSeqNo
      2^64 - 1, ClOrdIDs shared by clients, replace requests, quantiles of
      rank zero, unreadable hosts, a malformed answer to the benchmark's Logon,
      clients that do not read or have gone, [reset_seq]) state what the code does on such inputs.

    ** Fuel

    Loops that follow pointers or consume a buffer take fuel. List walks take
    the size of the store plus one, which exceeds the length of any acyclic
    list; the field loop and the receive loop take the length of the buffer,
    and each turn consumes at least one byte. The loop of [write_all] takes
    the length of the message, and each successful [send] takes a byte; the
    bucket loop of the histogram takes 64 for a 64-bit value; the calendar
    walk takes 400 years, a full cycle; the benchmark's wait for its Logon takes
    what its socket still delivers, after which it really polls for ever. The
    theorems prove that this is enough; they never assume it.

    ** Not modelled

    The operating system behind the socket calls, and how long they take; the
    bytes a [send] that blocks has already passed on (its thread is left where
    it was before the write); a [recv] that blocks although [poll] has reported
    data; a signal that arrives before [main] has installed its handlers; the
    sign a NaN is printed with; the standard library's hash functions
    (parameters of [index_hash]; key equality decides); allocation failure and
    strings longer than memory. Clock readings are unbounded integers of
    nanoseconds. The other accessors of the classes are the projections of
    their records; the providers that [set_now_provider] and
    [set_clock_provider] install are covered by the functions of [Env], which
    may answer every call differently. *)

From Stdlib Require Export ZArith Lia Ascii String.
From stdpp Require Export base tactics numbers sorting strings gmap list.

#[global] Open Scope Z_scope.

(** ** Outcomes of C++ code *)

(** What ends the process from inside a function: the exceptions the standard
    library raises on behalf of the program ([std::stoull], [std::stoll],
    [std::stoi], [std::vector::reserve]), which nothing catches, and SIGPIPE,
    whose default action nothing replaces. *)
Inductive exn := invalid_argument | out_of_range | length_error | broken_pipe.

(** Result of running a piece of C++ code: a value, an exception that leaves
    the function, undefined behaviour (dangling pointer, out-of-bounds read,
    signed overflow, oversized shift), or a loop that does not finish. *)
Inductive res (A : Type) : Type :=
| Ok (a : A)
| Throw (e : exn)
| Undef
| Hang.
Arguments Ok {A} a.
Arguments Throw {A} e.
Arguments Undef {A}.
Arguments Hang {A}.

Definition rbind {A B} (m : res A) (k : A → res B) : res B :=
  match m with
  | Ok a => k a
  | Throw e => Throw e
  | Undef => Undef
  | Hang => Hang
  end.

Declare Scope res_scope.
Delimit Scope res_scope with res.
Notation "'let!' x ':=' e 'in' k" := (rbind e (λ x, k))
  (at level 200, x name, e at level 100, k at level 200, right associativity,
   format "'[v' 'let!'  x  ':='  e  'in' '/' k ']'") : res_scope.
Notation "'let!' ' x ':=' e 'in' k" := (rbind e (λ x, k))
  (at level 200, x strict pattern, e at level 100, k at level 200, right associativity,
   format "'[v' 'let!'  ' x  ':='  e  'in' '/' k ']'") : res_scope.
#[global] Open Scope res_scope.

#[global] Instance exn_eq_dec : EqDecision exn.
Proof. solve_decision. Defined.
#[global] Instance res_eq_dec {A} `{EqDecision A} : EqDecision (res A).
Proof. solve_decision. Defined.

Lemma rbind_Ok {A B} (m : res A) (k : A → res B) b :
  rbind m k = Ok b ↔ ∃ a, m = Ok a ∧ k a = Ok b.
Proof. destruct m; simpl; naive_solver. Qed.

Lemma rbind_assoc {A B C} (m : res A) (f : A → res B) (g : B → res C) :
  rbind (rbind m f) g = rbind m (λ a, rbind (f a) g).
Proof. by destruct m. Qed.

(** Splits a successful computation into its successful steps. *)
Ltac res_inv :=
  repeat match goal with
  | H : rbind _ _ = Ok _ |- _ =>
      apply rbind_Ok in H; destruct H as (?&?&H)
  | H : Ok _ = Ok _ |- _ => injection H as H
  | H : Throw _ = Ok _ |- _ => discriminate H
  | H : Undef = Ok _ |- _ => discriminate H
  | H : Hang = Ok _ |- _ => discriminate H
  end; simplify_eq.

(** Closes a decidable goal about closed terms by evaluation. *)
Ltac decided := apply (bool_decide_unpack _); vm_compute; exact I.

(** Proves equations between concatenations by associativity. *)
Ltac app_normal := repeat (cbn [app]; rewrite <- !app_assoc); cbn [app]; reflexivity.

(** ** Machine integers *)

(** [std::uint64_t], [std::size_t] arithmetic wraps modulo 2^64. *)
Notation two64 := 18446744073709551616.
Notation two63 := 9223372036854775808.
Notation two32 := 4294967296.
Notation two31 := 2147483648.

Definition u64 (z : Z) : Z := z mod two64.

(** Conversion of a [std::uint64_t] to [std::int64_t] is modular in C++20. *)
Definition i64_of_u64 (z : Z) : Z := if z <? two63 then z else z - two64.

(** Conversion to [int]: the value modulo 2^32 in the signed range. *)
Definition i32 (z : Z) : Z :=
  let r := z mod two32 in if r <? two31 then r else r - two32.

(** Signed 64-bit addition: overflow is undefined behaviour. *)
Definition add_i64 (a b : Z) : res Z :=
  let s := a + b in
  if (- two63 <=? s) && (s <? two63) then Ok s else Undef.
Definition sub_i64 (a b : Z) : res Z := add_i64 a (- b).

Definition in_u64 (z : Z) : Prop := 0 ≤ z < two64.
#[global] Instance in_u64_dec z : Decision (in_u64 z).
Proof. unfold in_u64. apply _. Defined.

Lemma u64_small z : in_u64 z → u64 z = z.
Proof. intros. by apply Z.mod_small. Qed.
Lemma u64_range z : in_u64 (u64 z).
Proof. apply Z.mod_pos_bound. lia. Qed.
Lemma u64_add_l a b : u64 (u64 a + b) = u64 (a + b).
Proof. apply Z.add_mod_idemp_l. lia. Qed.
Lemma u64_add_r a b : u64 (a + u64 b) = u64 (a + b).
Proof. apply Z.add_mod_idemp_r. lia. Qed.
Lemma u64_sub_l a b : u64 (u64 a - b) = u64 (a - b).
Proof. apply Zminus_mod_idemp_l. Qed.
Lemma u64_i64 z : in_u64 z → u64 (i64_of_u64 z) = z.
Proof.
  unfold in_u64, u64, i64_of_u64. intros.
  destruct (Z.ltb_spec z two63); [by rewrite Z.mod_small|].
  rewrite <- (Z.mod_add _ 1) by lia. rewrite Z.mod_small; lia.
Qed.
Lemma i64_of_u64_small z : 0 ≤ z < two63 → i64_of_u64 z = z.
Proof. unfold i64_of_u64. intros. destruct (Z.ltb_spec z two63); lia. Qed.
Lemma i32_small z : 0 ≤ z < two31 → i32 z = z.
Proof.
  intros. unfold i32. rewrite Z.mod_small by lia.
  destruct (Z.ltb_spec z two31); lia.
Qed.
Lemma add_i64_ok a b : - two63 ≤ a + b < two63 → add_i64 a b = Ok (a + b).
Proof.
  unfold add_i64. intros.
  destruct (Z.leb_spec (- two63) (a + b)), (Z.ltb_spec (a + b) two63); simpl; done || lia.
Qed.
Lemma sub_i64_ok a b : - two63 ≤ a - b < two63 → sub_i64 a b = Ok (a - b).
Proof. apply add_i64_ok. Qed.

Create HintDb obfix.
#[export] Hint Rewrite u64_add_l u64_add_r u64_sub_l : obfix.
#[export] Hint Resolve u64_range : obfix.

(** ** Sums of quantities *)

Definition sumz (l : list Z) : Z := foldr Z.add 0 l.

Lemma sumz_app l k : sumz (l ++ k) = sumz l + sumz k.
Proof. induction l; simpl; unfold sumz in *; simpl; lia. Qed.
Lemma sumz_cons x l : sumz (x :: l) = x + sumz l.
Proof. done. Qed.
Lemma sumz_nonneg l : Forall (λ x, 0 ≤ x) l → 0 ≤ sumz l.
Proof. induction 1; rewrite ?sumz_cons; simpl; lia. Qed.
Lemma sumz_elem_le l x : Forall (λ x, 0 ≤ x) l → x ∈ l → x ≤ sumz l.
Proof.
  induction 1 as [|y l Hy Hl IH]; [by intros ?%not_elem_of_nil|].
  rewrite sumz_cons. intros [->|Hx]%elem_of_cons.
  - apply sumz_nonneg in Hl. lia.
  - specialize (IH Hx). lia.
Qed.
#[global] Instance sumz_perm : Proper (Permutation ==> eq) sumz.
Proof. induction 1; rewrite ?sumz_cons in *; lia. Qed.
Lemma sumz_const n x : sumz (replicate n x) = Z.of_nat n * x.
Proof. induction n as [|n IH]; [done|]. cbn [replicate]. rewrite sumz_cons, IH. lia. Qed.
Lemma sumz_replicate n : sumz (replicate n 0) = 0.
Proof. by induction n. Qed.
#[export] Hint Rewrite sumz_app sumz_cons sumz_replicate : obfix.

(** ** List lengths as [std::size_t] values *)

Definition zlen {A} (l : list A) : Z := Z.of_nat (length l).

Lemma zlen_nil {A} : zlen (@nil A) = 0.
Proof. done. Qed.
Lemma zlen_cons {A} (x : A) l : zlen (x :: l) = zlen l + 1.
Proof. unfold zlen. simpl. lia. Qed.
Lemma zlen_app {A} (l k : list A) : zlen (l ++ k) = zlen l + zlen k.
Proof. unfold zlen. rewrite length_app. lia. Qed.
Lemma zlen_nonneg {A} (l : list A) : 0 ≤ zlen l.
Proof. unfold zlen. lia. Qed.
#[export] Hint Rewrite @zlen_nil @zlen_cons @zlen_app : obfix.

Lemma NoDup_app_remove_middle {A} (l1 l2 : list A) x :
  NoDup (l1 ++ x :: l2) → NoDup (l1 ++ l2).
Proof. rewrite !NoDup_app, NoDup_cons. set_solver. Qed.

Lemma StronglySorted_sublist {A} (R : relation A) (l k : list A) :
  l `sublist_of` k → StronglySorted R k → StronglySorted R l.
Proof.
  induction 1 as [|x l k Hs IH|x l k Hs IH]; intros Hk; [done|..];
    apply StronglySorted_cons in Hk as [Hx Hk]; [|auto].
  apply StronglySorted_cons. split; [|auto]. rewrite Forall_forall in *. intros y Hy. apply Hx.
  eapply elem_of_submseteq; [exact Hy|]. by apply sublist_submseteq.
Qed.

Lemma filter_id {A} (P : A → Prop) `{!∀ x, Decision (P x)} (l : list A) :
  (∀ x, x ∈ l → P x) → filter P l = l.
Proof.
  induction l as [|x l IH]; intros Hl; [done|].
  rewrite filter_cons_True by (apply Hl; left). f_equal. apply IH. intros. apply Hl. by right.
Qed.
Lemma filter_none {A} (P : A → Prop) `{!∀ x, Decision (P x)} l : Forall (λ x, ¬ P x) l → filter P l = [].
Proof. induction 1 as [|x l Hx _ IH]; [done|]. by rewrite filter_cons, decide_False. Qed.

Lemma Forall2_and_intro {A B} (P Q : A → B → Prop) l k :
  Forall2 P l k → Forall2 Q l k → Forall2 (λ x y, P x y ∧ Q x y) l k.
Proof. induction 1; inversion 1; constructor; auto. Qed.

(** ** Options *)

(** [a <|> b] of C++ pointers: the first one unless it is null. *)
Definition or_else {A} (a b : option A) : option A :=
  match a with Some _ => a | None => b end.

Lemma or_else_None_r {A} (a : option A) : or_else a None = a.
Proof. by destruct a. Qed.
#[export] Hint Rewrite @or_else_None_r : obfix.
