(* ===== verification/Types.v ===== *)
(** * Core data types

    The types of [src/core/types.h], [src/core/order.h] and
    [src/core/events.h]: identifiers and quantities at their machine width,
    the order with its intrusive list links, and the events the matching
    engine emits. *)

From S2P Require Import Prelude.

(** Byte strings ([std::string], [std::string_view]). *)
Notation bytes := (list ascii).

(** String literals of the source as byte strings. *)
Definition B (s : string) : bytes := String.list_ascii_of_string s.

(** [OrderId], [Quantity], [SeqNum], [SessionId], [Timestamp] are 64-bit
    unsigned, [Price] is 64-bit signed. *)
Notation OrderId := Z (only parsing).
Notation Quantity := Z (only parsing).
Notation Price := Z (only parsing).
Notation SeqNum := Z (only parsing).
Notation SessionId := Z (only parsing).
Notation Timestamp := Z (only parsing).
Notation ClOrdID := (list ascii) (only parsing).

(** [enum class Side : char]: the underlying type is fixed, so every [char]
    is a value of the enumeration. [Buy] and [Sell] are the named ones. *)
Inductive Side := Buy | Sell | SideChar (c : ascii).

(** [static_cast<Side>(c)]. *)
Definition side_of_char (c : ascii) : Side :=
  if Ascii.eqb c "1" then Buy
  else if Ascii.eqb c "2" then Sell
  else SideChar c.

(** [s == Side::Buy], the only test the code makes on a side. *)
Definition is_buy (s : Side) : bool :=
  match s with Buy => true | _ => false end.

Inductive OrdType := Limit.
Inductive MatchAlgo := ProRata | Fifo.

#[global] Instance Side_eq_dec : EqDecision Side.
Proof. solve_decision. Defined.
#[global] Instance OrdType_eq_dec : EqDecision OrdType.
Proof. solve_decision. Defined.
#[global] Instance MatchAlgo_eq_dec : EqDecision MatchAlgo.
Proof. solve_decision. Defined.

(** Addresses of [Order] objects. *)
Notation loc := positive.

Record Order := mkOrder {
  o_id : OrderId;
  o_session : SessionId;
  o_clord : ClOrdID;
  o_side : Side;
  o_type : OrdType;
  o_price : Price;
  o_orig : Quantity;
  o_leaves : Quantity;
  o_ts : Timestamp;
  o_prev : option loc;
  o_next : option loc
}.

#[global] Instance Order_eq_dec : EqDecision Order.
Proof. solve_decision. Defined.

(** [Order::cum_filled]. *)
Definition cum_filled (o : Order) : Quantity := u64 (o_orig o - o_leaves o).

(** Assignments to the mutable members. *)
Definition set_prev (p : option loc) (o : Order) : Order :=
  mkOrder (o_id o) (o_session o) (o_clord o) (o_side o) (o_type o) (o_price o)
    (o_orig o) (o_leaves o) (o_ts o) p (o_next o).
Definition set_next (n : option loc) (o : Order) : Order :=
  mkOrder (o_id o) (o_session o) (o_clord o) (o_side o) (o_type o) (o_price o)
    (o_orig o) (o_leaves o) (o_ts o) (o_prev o) n.
Definition set_leaves (q : Quantity) (o : Order) : Order :=
  mkOrder (o_id o) (o_session o) (o_clord o) (o_side o) (o_type o) (o_price o)
    (o_orig o) q (o_ts o) (o_prev o) (o_next o).

(** The order without its list links: what an observer of the queue sees. *)
Definition strip (o : Order) : Order := set_prev None (set_next None o).

Lemma strip_set_prev p o : strip (set_prev p o) = strip o.
Proof. done. Qed.
Lemma strip_set_next n o : strip (set_next n o) = strip o.
Proof. done. Qed.
Lemma strip_set_leaves q o : strip (set_leaves q o) = set_leaves q (strip o).
Proof. done. Qed.
Lemma strip_strip o : strip (strip o) = strip o.
Proof. done. Qed.
#[export] Hint Rewrite strip_set_prev strip_set_next strip_set_leaves strip_strip : obfix.

(** ** Events *)

Record Trade := mkTrade {
  t_aggressor_id : OrderId;
  t_resting_id : OrderId;
  t_aggressor_clord : ClOrdID;
  t_resting_clord : ClOrdID;
  t_price : Price;
  t_qty : Quantity;
  t_aggressor_side : Side
}.
Record Ack := mkAck { a_id : OrderId; a_clord : ClOrdID }.
Record OrdReject := mkOrdReject { r_clord : ClOrdID; r_reason : bytes }.
Record CancelAck := mkCancelAck {
  c_id : OrderId; c_clord : ClOrdID; c_orig_clord : ClOrdID
}.
Record ReplaceAck := mkReplaceAck {
  ra_id : OrderId; ra_clord : ClOrdID; ra_orig_clord : ClOrdID;
  ra_new_qty : Quantity; ra_new_price : Price
}.

(** [std::variant<Trade, Ack, OrdReject, CancelAck, ReplaceAck>]. *)
Inductive Event :=
| ETrade (t : Trade)
| EAck (a : Ack)
| EOrdReject (r : OrdReject)
| ECancelAck (c : CancelAck)
| EReplaceAck (r : ReplaceAck).

Notation EventList := (list Event).

#[global] Instance Trade_eq_dec : EqDecision Trade.
Proof. solve_decision. Defined.
#[global] Instance Ack_eq_dec : EqDecision Ack.
Proof. solve_decision. Defined.
#[global] Instance OrdReject_eq_dec : EqDecision OrdReject.
Proof. solve_decision. Defined.
#[global] Instance CancelAck_eq_dec : EqDecision CancelAck.
Proof. solve_decision. Defined.
#[global] Instance ReplaceAck_eq_dec : EqDecision ReplaceAck.
Proof. solve_decision. Defined.
#[global] Instance Event_eq_dec : EqDecision Event.
Proof. solve_decision. Defined.

(** ** The object store *)

(** Orders live in dynamically allocated objects; reading or writing an
    object that is not allocated is undefined behaviour. *)
Notation heap := (gmap loc Order).

Definition deref (h : heap) (l : loc) : res Order :=
  match h !! l with Some o => Ok o | None => Undef end.
Definition store (h : heap) (l : loc) (f : Order → Order) : res heap :=
  match h !! l with Some o => Ok (<[l := f o]> h) | None => Undef end.

Lemma deref_Some (h : heap) l o : h !! l = Some o → deref h l = Ok o.
Proof. unfold deref. by intros ->. Qed.
Lemma store_Some (h : heap) l o f : h !! l = Some o → store h l f = Ok (<[l := f o]> h).
Proof. unfold store. by intros ->. Qed.
