(* ===== verification/PriceLevel.v ===== *)
(** * Price levels: the intrusive FIFO queue

    Models [src/core/price_level.h]. A level is a doubly-linked list threaded
    through the orders themselves, so its operations work on the object store
    and dereference raw pointers; every dereference of the source is a
    [deref]/[store] of the model, which is [Undef] on a dangling pointer.

    [level_rep h lv es] is the representation predicate: in store [h] the
    level [lv] holds the queue [es] (addresses and order contents, oldest
    first). The theorems show that [push_back] appends and [unlink] removes in
    the middle, that neither dereferences a bad pointer, and that both leave
    the rest of the store alone. *)

From S2P Require Import Prelude Types.

Record PriceLevel := mkLevel {
  head_ : option loc;
  tail_ : option loc;
  count_ : Z;
  total_qty_ : Quantity
}.

Definition empty_level : PriceLevel := mkLevel None None 0 0.

Definition push_back (o : loc) (lv : PriceLevel) (h : heap) : res (PriceLevel * heap) :=
  let! h := store h o (set_prev (tail_ lv)) in
  let! h := store h o (set_next None) in
  let! '(head, h) :=
    match tail_ lv with
    | Some t => let! h := store h t (set_next (Some o)) in Ok (head_ lv, h)
    | None => Ok (Some o, h)
    end in
  let! ord := deref h o in
  Ok (mkLevel head (Some o) (u64 (count_ lv + 1))
        (u64 (total_qty_ lv + o_leaves ord)), h).

Definition unlink (o : loc) (lv : PriceLevel) (h : heap) : res (PriceLevel * heap) :=
  let! ord := deref h o in
  let! '(head, h) :=
    match o_prev ord with
    | Some p => let! h := store h p (set_next (o_next ord)) in Ok (head_ lv, h)
    | None => Ok (o_next ord, h)
    end in
  let! ord := deref h o in
  let! '(tail, h) :=
    match o_next ord with
    | Some n => let! h := store h n (set_prev (o_prev ord)) in Ok (tail_ lv, h)
    | None => Ok (o_prev ord, h)
    end in
  let! h := store h o (set_next None) in
  let! h := store h o (set_prev None) in
  let! ord := deref h o in
  Ok (mkLevel head tail (u64 (count_ lv - 1))
        (u64 (total_qty_ lv - o_leaves ord)), h).

Definition note_qty_delta (delta : Z) (lv : PriceLevel) : res PriceLevel :=
  let! s := add_i64 (i64_of_u64 (total_qty_ lv)) delta in
  Ok (mkLevel (head_ lv) (tail_ lv) (count_ lv) (u64 s)).

Definition level_empty (lv : PriceLevel) : bool :=
  match head_ lv with None => true | Some _ => false end.

(** ** The representation predicate *)

(** A queue entry: the address of the order and what it holds. *)
Notation entry := (loc * Order)%type.

Definition link (p n : option loc) (a : Order) : Order := set_prev p (set_next n a).

Definition first (es : list entry) : option loc := fst <$> head es.
Definition final (es : list entry) : option loc := fst <$> last es.

(** [dseg h p es n]: a well-linked segment whose first node points back to
    [p] and whose last node points on to [n]. *)
Fixpoint dseg (h : heap) (p : option loc) (es : list entry) (n : option loc) : Prop :=
  match es with
  | [] => True
  | (l, a) :: es' =>
      h !! l = Some (link p (or_else (first es') n) a) ∧ dseg h (Some l) es' n
  end.

Definition leaves_of (es : list entry) : list Z := (o_leaves ∘ snd) <$> es.

(** The links of a level, without the cached total. *)
Definition level_links (h : heap) (lv : PriceLevel) (es : list entry) : Prop :=
  dseg h None es None ∧ NoDup es.*1 ∧
  head_ lv = first es ∧ tail_ lv = final es ∧ count_ lv = u64 (zlen es).

Definition level_rep (h : heap) (lv : PriceLevel) (es : list entry) : Prop :=
  level_links h lv es ∧ total_qty_ lv = u64 (sumz (leaves_of es)).

Lemma strip_link p n a : strip (link p n a) = strip a.
Proof. done. Qed.

Lemma final_snoc es e : final (es ++ [e]) = Some e.1.
Proof. unfold final. by rewrite last_snoc. Qed.
Lemma first_app es es' : first (es ++ es') = or_else (first es) (first es').
Proof. by destruct es. Qed.
Lemma final_cons e es : final (e :: es) = or_else (final es) (Some e.1).
Proof. unfold final. rewrite last_cons. by destruct (last es). Qed.
Lemma final_app es es' : final (es ++ es') = or_else (final es') (final es).
Proof. unfold final. rewrite last_app. by destruct (last es'). Qed.
Lemma if_final {A} es (x y : A) :
  (if final es then x else y) = match es with [] => y | _ => x end.
Proof. destruct es as [|e es]; [done|]. rewrite final_cons. by destruct (final es). Qed.
Lemma or_else_assoc {A} (a b c : option A) :
  or_else (or_else a b) c = or_else a (or_else b c).
Proof. by destruct a. Qed.

#[global] Instance leaves_of_proper : Proper (Permutation ==> Permutation) leaves_of.
Proof. intros es es' Hp. unfold leaves_of. by rewrite Hp. Qed.
Lemma leaves_of_cons e es : leaves_of (e :: es) = o_leaves e.2 :: leaves_of es.
Proof. done. Qed.
Lemma leaves_of_length es : length (leaves_of es) = length es.
Proof. apply length_fmap. Qed.
Lemma leaves_of_app es es' : leaves_of (es ++ es') = leaves_of es ++ leaves_of es'.
Proof. apply fmap_app. Qed.

Lemma dseg_app h p es1 es2 n :
  dseg h p (es1 ++ es2) n ↔
  dseg h p es1 (or_else (first es2) n) ∧ dseg h (or_else (final es1) p) es2 n.
Proof.
  revert p. induction es1 as [|[l a] es1 IH]; intros p; [naive_solver|].
  cbn [dseg app]. rewrite IH, first_app, final_cons, !or_else_assoc. naive_solver.
Qed.

Lemma dseg_frame h h' p es n :
  (∀ l, l ∈ es.*1 → h' !! l = h !! l) → dseg h p es n → dseg h' p es n.
Proof.
  revert p. induction es as [|[l a] es IH]; intros p Hf; [done|].
  cbn [dseg]. intros [Hl Hd]. split.
  - rewrite Hf; [done|]. csimpl. set_solver.
  - apply IH; [|done]. intros. apply Hf. csimpl. set_solver.
Qed.

Lemma dseg_insert_ne h p es n l o :
  l ∉ es.*1 → dseg h p es n → dseg (<[l:=o]> h) p es n.
Proof.
  intros Hl. apply dseg_frame. intros l' Hl'. apply lookup_insert_ne. set_solver.
Qed.

Lemma dseg_lookup h p es n l a :
  dseg h p es n → (l, a) ∈ es → ∃ q m, h !! l = Some (link q m a).
Proof.
  revert p. induction es as [|[l' a'] es IH]; intros p; [by intros _ ?%not_elem_of_nil|].
  cbn [dseg]. intros [H1 H2] [?|?]%elem_of_cons; simplify_eq; eauto.
Qed.

Lemma dseg_dom h p es n l : dseg h p es n → l ∈ es.*1 → is_Some (h !! l).
Proof.
  intros Hd [[l' a] [-> Hin]]%list_elem_of_fmap.
  destruct (dseg_lookup _ _ _ _ _ _ Hd Hin) as (?&?&?). eauto.
Qed.

(** Redirecting the outgoing pointer of the last node. *)
Lemma dseg_set_next h p es l a n n' :
  l ∉ es.*1 → dseg h p (es ++ [(l, a)]) n →
  ∃ o, h !! l = Some o ∧ o = link (or_else (final es) p) n a ∧
  dseg (<[l := set_next n' o]> h) p (es ++ [(l, a)]) n'.
Proof.
  intros Hl [H1 [H2 _]]%dseg_app. eexists. split; [exact H2|]. split; [done|].
  apply dseg_app. split; [by apply dseg_insert_ne|].
  cbn. by rewrite lookup_insert_eq.
Qed.

(** Redirecting the back pointer of the first node. *)
Lemma dseg_set_prev h p p' l a es n :
  l ∉ es.*1 → dseg h p ((l, a) :: es) n →
  ∃ o, h !! l = Some o ∧ o = link p (or_else (first es) n) a ∧
  dseg (<[l := set_prev p' o]> h) p' ((l, a) :: es) n.
Proof.
  cbn [dseg]. intros Hl [H1 H2]. eexists. split; [exact H1|]. split; [done|].
  split; [by rewrite lookup_insert_eq | by apply dseg_insert_ne].
Qed.

(** ** [push_back] *)

Definition same_outside (ls : list loc) (h h' : heap) : Prop :=
  dom h' = dom h ∧ ∀ l, l ∉ ls → h' !! l = h !! l.

Lemma same_outside_refl ls h : same_outside ls h h.
Proof. done. Qed.
Lemma same_outside_trans ls h1 h2 h3 :
  same_outside ls h1 h2 → same_outside ls h2 h3 → same_outside ls h1 h3.
Proof. intros [Hd1 H1] [Hd2 H2]. split; [congruence|]. intros. by rewrite H2, H1. Qed.
Lemma same_outside_weaken ls ls' h h' :
  (∀ l, l ∈ ls → l ∈ ls') → same_outside ls h h' → same_outside ls' h h'.
Proof. intros Hs [? H]. split; [done|]. intros. apply H. auto. Qed.
Lemma same_outside_insert ls (h : heap) l o o' :
  h !! l = Some o' → l ∈ ls → same_outside ls h (<[l:=o]> h).
Proof.
  intros Hl Hin. split.
  - rewrite dom_insert_L. apply elem_of_dom_2 in Hl. set_solver.
  - intros l' Hl'. apply lookup_insert_ne. set_solver.
Qed.

Lemma level_links_snoc h h' o ord lv es :
  level_links h lv es → o ∉ es.*1 →
  dseg h' None (es ++ [(o, strip ord)]) None →
  ∀ t, level_links h' (mkLevel (or_else (head_ lv) (Some o)) (Some o) (u64 (count_ lv + 1)) t)
    (es ++ [(o, strip ord)]).
Proof.
  intros (Hd & Hnd & Hh & Ht & Hc) Ho Hd' t. split_and!; cbn; [done| | | |].
  - rewrite fmap_app. apply NoDup_app. split_and!; [done| |apply NoDup_singleton]. set_solver.
  - by rewrite Hh, first_app.
  - by rewrite final_snoc.
  - rewrite Hc. by autorewrite with obfix.
Qed.

Lemma push_back_eval h lv es o ord :
  level_links h lv es → h !! o = Some ord → o ∉ es.*1 →
  ∃ h', push_back o lv h =
    Ok (mkLevel (or_else (head_ lv) (Some o)) (Some o) (u64 (count_ lv + 1))
          (u64 (total_qty_ lv + o_leaves ord)), h') ∧
  dseg h' None (es ++ [(o, strip ord)]) None ∧ same_outside (o :: es.*1) h h'.
Proof.
  intros (Hd & Hnd & Hh & Ht & Hc) Ho Hin. unfold push_back.
  rewrite (store_Some _ _ _ _ Ho). cbn [rbind].
  erewrite store_Some by apply lookup_insert_eq. cbn [rbind].
  rewrite insert_insert_eq.
  destruct es as [|[t a] es' _] using rev_ind.
  - rewrite Ht, Hh. cbn. unfold deref. rewrite lookup_insert_eq. cbn.
    eexists. split_and!; [done| |done|].
    + by rewrite lookup_insert_eq.
    + eapply same_outside_insert; [done|set_solver].
  - rewrite fmap_app in Hin, Hnd. apply NoDup_app in Hnd as (Hnd & Hdj & _).
    destruct (dseg_set_next h None es' t a None (Some o)) as (to & Hto & _ & Hd');
      [set_solver|done|].
    rewrite Ht, final_snoc. cbn [fst].
    erewrite store_Some by (rewrite lookup_insert_ne by set_solver; exact Hto).
    cbn [rbind]. unfold deref.
    rewrite lookup_insert_ne, lookup_insert_eq by set_solver. cbn.
    assert (or_else (head_ lv) (Some o) = head_ lv) as ->
      by (rewrite Hh, first_app; by destruct es').
    eexists. split_and!; [done| |].
    + rewrite insert_insert_ne by set_solver. apply dseg_app. split.
      * apply dseg_insert_ne; [set_solver|]. exact Hd'.
      * rewrite final_snoc. cbn. by rewrite lookup_insert_eq.
    + eapply same_outside_trans; [eapply (same_outside_insert _ _ o); [done|set_solver]|].
      eapply same_outside_insert; [by rewrite lookup_insert_ne by set_solver|].
      rewrite fmap_app. set_solver.
Qed.

(** [push_back] appends: the new order becomes the youngest of the queue, the
    cached count and total follow, no pointer is dangling, and only the order
    and the level's own nodes are written. *)
Lemma push_back_rep h lv es o ord :
  level_rep h lv es → h !! o = Some ord → o ∉ es.*1 →
  ∃ lv' h', push_back o lv h = Ok (lv', h') ∧
    level_rep h' lv' (es ++ [(o, strip ord)]) ∧ same_outside (o :: es.*1) h h'.
Proof.
  intros [Hl Ht] Ho Hin.
  destruct (push_back_eval _ _ _ _ _ Hl Ho Hin) as (h' & He & Hd & Hs).
  do 2 eexists. split_and!; [exact He| |done]. split.
  - by eapply level_links_snoc.
  - cbn. rewrite Ht, leaves_of_app. autorewrite with obfix. f_equal. cbn. lia.
Qed.

(** ** [unlink] *)

Lemma relink_left h es n n' (hd : option loc) :
  NoDup es.*1 → dseg h None es n →
  ∃ h', match final es with
        | Some p => let! h := store h p (set_next n') in Ok (hd, h)
        | None => Ok (n', h)
        end = Ok (if final es then hd else n', h') ∧
    dseg h' None es n' ∧ same_outside es.*1 h h'.
Proof.
  intros Hnd Hd. destruct es as [|[l a] es _] using rev_ind; [by exists h|].
  rewrite fmap_app in Hnd. apply NoDup_app in Hnd as (_ & Hdj & _).
  destruct (dseg_set_next h None es l a n n') as (o & Ho & _ & Hd'); [set_solver|done|].
  rewrite final_snoc. cbn [fst]. rewrite (store_Some _ _ _ _ Ho). cbn [rbind].
  eexists. split_and!; [done|done|].
  eapply same_outside_insert; [done|]. rewrite fmap_app. set_solver.
Qed.

Lemma relink_right h p p' es (tl : option loc) :
  NoDup es.*1 → dseg h p es None →
  ∃ h', match first es with
        | Some n => let! h := store h n (set_prev p') in Ok (tl, h)
        | None => Ok (p', h)
        end = Ok (if first es then tl else p', h') ∧
    dseg h' p' es None ∧ same_outside es.*1 h h'.
Proof.
  intros Hnd Hd. destruct es as [|[l a] es]; [by exists h|].
  apply NoDup_cons in Hnd as [Hl Hnd].
  destruct (dseg_set_prev h p p' l a es None) as (o & Ho & _ & Hd'); [done|done|].
  cbn. rewrite (store_Some _ _ _ _ Ho). cbn [rbind].
  eexists. split_and!; [done|apply Hd'|apply Hd'|].
  eapply same_outside_insert; [done|]. set_solver.
Qed.

Lemma unlink_eval h lv es1 o a es2 :
  level_links h lv (es1 ++ (o, a) :: es2) →
  ∃ h', unlink o lv h =
    Ok (mkLevel (first (es1 ++ es2)) (final (es1 ++ es2)) (u64 (count_ lv - 1))
          (u64 (total_qty_ lv - o_leaves a)), h') ∧
  dseg h' None (es1 ++ es2) None ∧ h' !! o = Some (strip a) ∧
  same_outside (es1 ++ (o, a) :: es2).*1 h h'.
Proof.
  intros (Hd & Hnd & Hh & Ht & Hc).
  rewrite fmap_app, fmap_cons in Hnd. cbn [fst] in Hnd.
  apply NoDup_app in Hnd as (Hnd1 & Hdj & [Ho2 Hnd2]%NoDup_cons).
  apply dseg_app in Hd as [Hd1 [Ho Hd2]]. cbn [or_else first head fmap option_fmap option_map fst] in Hd1.
  rewrite !or_else_None_r in *.
  destruct (relink_left h es1 (Some o) (first es2) (head_ lv) Hnd1 Hd1) as (h1 & E1 & D1 & S1).
  assert (h1 !! o = h !! o) as Ho1 by (apply S1; set_solver).
  destruct (relink_right h1 (Some o) (final es1) es2 (tail_ lv) Hnd2) as (h2 & E2 & D2 & S2).
  { eapply dseg_frame; [|done]. intros l Hl. apply S1. set_solver. }
  assert (h2 !! o = h1 !! o) as Ho2' by (apply S2; set_solver).
  unfold unlink. rewrite (deref_Some _ _ _ Ho). cbn [rbind link o_prev o_next set_prev set_next].
  rewrite E1. cbn [rbind]. unfold deref at 1. rewrite Ho1, Ho. cbn [rbind link o_prev o_next set_prev set_next].
  rewrite E2. cbn [rbind].
  erewrite store_Some by (rewrite Ho2', Ho1; exact Ho). cbn [rbind].
  erewrite store_Some by apply lookup_insert_eq. cbn [rbind].
  rewrite insert_insert_eq. unfold deref. rewrite lookup_insert_eq. cbn [rbind o_leaves set_prev set_next link].
  eexists. split_and!.
  - rewrite Hh, Ht, first_app, final_app, first_app, final_app, final_cons. cbn.
    rewrite if_final. repeat f_equal; [by destruct es1|].
    destruct es2 as [|e es2]; [done|]. rewrite final_cons. cbn. by destruct (final es2).
  - apply dseg_insert_ne; [rewrite fmap_app; set_solver|].
    apply dseg_app. rewrite !or_else_None_r. split; [|done].
    eapply dseg_frame; [|done]. intros l Hl. apply S2. set_solver.
  - by rewrite lookup_insert_eq.
  - rewrite fmap_app, fmap_cons. cbn [fst].
    eapply same_outside_trans; [eapply same_outside_weaken, S1; set_solver|].
    eapply same_outside_trans; [eapply same_outside_weaken, S2; set_solver|].
    eapply same_outside_insert; [by rewrite Ho2', Ho1|set_solver].
Qed.

(** [unlink] removes exactly the given order from wherever it stands in the
    queue, in one step and without walking the list. *)
Lemma unlink_rep h lv es1 o a es2 :
  level_rep h lv (es1 ++ (o, a) :: es2) →
  ∃ lv' h', unlink o lv h = Ok (lv', h') ∧
    level_rep h' lv' (es1 ++ es2) ∧ h' !! o = Some (strip a) ∧
    same_outside (es1 ++ (o, a) :: es2).*1 h h'.
Proof.
  intros [Hl Ht]. destruct (unlink_eval _ _ _ _ _ _ Hl) as (h' & He & Hd & Ho & Hs).
  destruct Hl as (_ & Hnd & _ & _ & Hc).
  do 2 eexists. split_and!; [exact He| |done..]. split.
  - split_and!; [done| |done..|].
    + rewrite fmap_app in *. rewrite fmap_cons in Hnd. by apply NoDup_app_remove_middle in Hnd.
    + cbn. rewrite Hc. autorewrite with obfix. f_equal. lia.
  - cbn. rewrite Ht, !leaves_of_app. cbn. autorewrite with obfix. f_equal. 
    unfold leaves_of. cbn. lia.
Qed.
