(* ===== verification/SortedMap.v ===== *)
(** * Ordered maps

    [std::map<Price, PriceLevel, Compare>] as an association list kept in the
    comparator's order, with the operations the book uses: [find],
    [operator[]] (find or default-insert) with assignment, and [erase] by
    iterator. [BidMap] orders by [std::greater], [AskMap] by [std::less];
    both are instances of the class [StrictCmp]. *)

From S2P Require Import Prelude.

(** The comparator of a [std::map]: a strict total order. *)
Class StrictCmp (ltb : Z → Z → bool) := {
  cmp_irrefl x : ltb x x = false;
  cmp_trans x y z : ltb x y = true → ltb y z = true → ltb x z = true;
  cmp_total x y : ltb x y = false → ltb y x = false → x = y
}.

#[export] Instance less_cmp : StrictCmp Z.ltb.
Proof.
  split; intros *; rewrite ?Z.ltb_lt, ?Z.ltb_ge; lia.
Qed.
#[export] Instance greater_cmp : StrictCmp Z.gtb.
Proof.
  split; intros *; rewrite !Z.gtb_ltb, ?Z.ltb_lt, ?Z.ltb_ge; lia.
Qed.

Notation smap V := (list (Z * V)).

Fixpoint smap_find {V} (p : Z) (m : smap V) : option V :=
  match m with
  | [] => None
  | (k, v) :: m' => if k =? p then Some v else smap_find p m'
  end.

(** Assignment through [operator[]]: overwrites the mapped value of an
    existing key, otherwise inserts at the key's place in the order. *)
Fixpoint smap_set {V} (ltb : Z → Z → bool) (p : Z) (v : V) (m : smap V) : smap V :=
  match m with
  | [] => [(p, v)]
  | (k, w) :: m' =>
      if k =? p then (p, v) :: m'
      else if ltb p k then (p, v) :: m
      else (k, w) :: smap_set ltb p v m'
  end.

Fixpoint smap_erase {V} (p : Z) (m : smap V) : smap V :=
  match m with
  | [] => []
  | (k, w) :: m' => if k =? p then m' else (k, w) :: smap_erase p m'
  end.

Lemma smap_find_set {V} ltb p (v : V) m : smap_find p (smap_set ltb p v m) = Some v.
Proof.
  induction m as [|[k w] m IH]; cbn; [by rewrite Z.eqb_refl|].
  destruct (Z.eqb_spec k p) as [->|Hne]; cbn; [by rewrite Z.eqb_refl|].
  destruct (ltb p k); cbn; [by rewrite Z.eqb_refl|]. by destruct (Z.eqb_spec k p).
Qed.

Section smap.
Context {V : Type} (ltb : Z → Z → bool) `{!StrictCmp ltb}.
Implicit Types (m : smap V) (p : Z) (v : V).

Definition cmp_lt (x y : Z) : Prop := ltb x y = true.
Definition smap_sorted (m : smap V) : Prop := StronglySorted cmp_lt m.*1.

Lemma smap_sorted_cons k v m :
  smap_sorted ((k, v) :: m) ↔ smap_sorted m ∧ Forall (cmp_lt k) m.*1.
Proof.
  unfold smap_sorted. cbn. split; [by inversion 1|].
  intros []. by constructor.
Qed.

Lemma cmp_lt_ne x y : cmp_lt x y → x ≠ y.
Proof. unfold cmp_lt. intros H ->. by rewrite cmp_irrefl in H. Qed.

Lemma smap_sorted_NoDup m : smap_sorted m → NoDup m.*1.
Proof.
  unfold smap_sorted. induction 1 as [|k ks _ IH Hk]; constructor; [|done].
  intros Hin. rewrite Forall_forall in Hk. by apply (cmp_lt_ne k k (Hk _ Hin)).
Qed.

Lemma smap_find_elem p v m : smap_find p m = Some v → (p, v) ∈ m.
Proof.
  induction m as [|[k w] m IH]; cbn; [done|]. destruct (Z.eqb_spec k p) as [->|].
  - intros [= ->]. left.
  - right. auto.
Qed.

Lemma smap_find_None p m : smap_find p m = None ↔ p ∉ m.*1.
Proof.
  induction m as [|[k w] m IH]; cbn; [set_solver|].
  destruct (Z.eqb_spec k p) as [->|]; set_solver.
Qed.

(** Where an existing key stands, and what [set] and [erase] do there. *)
Lemma smap_split_Some p v m :
  smap_find p m = Some v →
  ∃ m1 m2, m = m1 ++ (p, v) :: m2 ∧ p ∉ m1.*1 ∧
    smap_erase p m = m1 ++ m2 ∧
    (smap_sorted m → ∀ v', smap_set ltb p v' m = m1 ++ (p, v') :: m2).
Proof.
  induction m as [|[k w] m IH]; cbn; [done|]. destruct (Z.eqb_spec k p) as [->|Hne].
  - intros [= ->]. exists [], m. split_and!; [done|set_solver|done|done].
  - intros (m1 & m2 & Hm & Hp & He & Hs)%IH. exists ((k, w) :: m1), m2.
    split_and!; [by rewrite Hm|set_solver|by rewrite He|].
    intros [Hsm Hk]%smap_sorted_cons v'. rewrite Hs by done.
    destruct (ltb p k) eqn:Hpk; [|done]. exfalso.
    rewrite Forall_forall in Hk. assert (cmp_lt k p) as Hkp by (apply Hk; set_solver).
    apply (cmp_lt_ne k k); [|done]. by eapply cmp_trans.
Qed.

(** Where a new key is inserted. *)
Lemma smap_split_None p m :
  smap_sorted m → smap_find p m = None →
  ∃ m1 m2, m = m1 ++ m2 ∧ Forall (λ k, cmp_lt k p) m1.*1 ∧ Forall (cmp_lt p) m2.*1 ∧
    ∀ v, smap_set ltb p v m = m1 ++ (p, v) :: m2.
Proof.
  induction m as [|[k w] m IH]; cbn; [intros _ _; by exists [], []|].
  intros [Hsm Hk]%smap_sorted_cons. destruct (Z.eqb_spec k p) as [|Hne]; [done|].
  intros (m1 & m2 & -> & H1 & H2 & Hs)%IH; [|done].
  destruct (ltb p k) eqn:Hpk.
  - exists [], ((k, w) :: m1 ++ m2). split_and!; [done|constructor| |done].
    cbn. constructor; [done|]. eapply Forall_impl; [exact Hk|].
    intros x Hx. by eapply cmp_trans.
  - exists ((k, w) :: m1), m2. split_and!; [done| |done|by intros; rewrite Hs].
    cbn. constructor; [|done]. unfold cmp_lt.
    destruct (ltb k p) eqn:Hkp; [done|]. by rewrite (cmp_total k p) in Hne.
Qed.

Lemma smap_sorted_app m1 m2 :
  smap_sorted (m1 ++ m2) ↔
  smap_sorted m1 ∧ smap_sorted m2 ∧ (∀ x y, x ∈ m1.*1 → y ∈ m2.*1 → cmp_lt x y).
Proof.
  induction m1 as [|[k v] m1 IH]; cbn [app].
  - split; [|tauto]. intros. split_and!; [constructor|done|]. set_solver.
  - rewrite !smap_sorted_cons, IH, fmap_app, Forall_app, !Forall_forall.
    split.
    + intros ((?&?&Hlt)&Hk1&Hk2). split_and!; [done..|]. csimpl.
      intros x y [->|Hx]%elem_of_cons Hy; eauto.
    + intros ((?&?)&?&Hlt). csimpl in *. split_and!; [done..| |done|];
        intros; apply Hlt; set_solver.
Qed.

Lemma smap_set_sorted p v m : smap_sorted m → smap_sorted (smap_set ltb p v m).
Proof.
  intros Hs. destruct (smap_find p m) as [w|] eqn:Hf.
  - apply smap_split_Some in Hf as (m1 & m2 & -> & _ & _ & Hset). rewrite Hset by done.
    unfold smap_sorted in *. by rewrite fmap_app, fmap_cons in *.
  - apply smap_split_None in Hf as (m1 & m2 & -> & H1 & H2 & Hset); [|done].
    rewrite Hset. apply smap_sorted_app in Hs as (Hs1 & Hs2 & Hlt).
    rewrite Forall_forall in H1. pose proof H2 as H2'. rewrite Forall_forall in H2.
    apply smap_sorted_app. rewrite smap_sorted_cons. split_and!; [done..|]. csimpl.
    intros x y Hx [->|Hy]%elem_of_cons; auto.
Qed.

Lemma smap_erase_sorted p m : smap_sorted m → smap_sorted (smap_erase p m).
Proof.
  induction m as [|[k w] m IH]; cbn; [done|]. intros [Hs Hk]%smap_sorted_cons.
  destruct (k =? p); [done|]. apply smap_sorted_cons. split; [auto|].
  rewrite Forall_forall in *. intros x Hx. apply Hk.
  clear -Hx. induction m as [|[k' w'] m IH]; cbn in *; [set_solver|].
  destruct (k' =? p); set_solver.
Qed.

Lemma smap_elem_find p v m : smap_sorted m → (p, v) ∈ m → smap_find p m = Some v.
Proof.
  induction m as [|[k w] m IH]; [by intros _ ?%not_elem_of_nil|].
  intros [Hs Hk]%smap_sorted_cons. cbn. intros [[= -> ->]|Hin]%elem_of_cons.
  - by rewrite Z.eqb_refl.
  - destruct (Z.eqb_spec k p) as [->|]; [|auto]. exfalso.
    rewrite Forall_forall in Hk. apply (cmp_lt_ne p p); [|done]. apply Hk.
    apply list_elem_of_fmap. by exists (p, v).
Qed.

(** [set] and [erase] at a known position. *)
Lemma smap_sorted_middle m1 p v m2 :
  smap_sorted (m1 ++ (p, v) :: m2) → p ∉ m1.*1 ∧ p ∉ m2.*1.
Proof.
  intros Hnd%smap_sorted_NoDup. rewrite fmap_app, fmap_cons in Hnd. cbn in Hnd.
  apply NoDup_app in Hnd as (_ & Hdj & [Hp _]%NoDup_cons). split; [|done].
  intros Hin. apply (Hdj _ Hin). left.
Qed.

Lemma smap_set_middle m1 p v v' m2 :
  smap_sorted (m1 ++ (p, v) :: m2) →
  smap_set ltb p v' (m1 ++ (p, v) :: m2) = m1 ++ (p, v') :: m2.
Proof.
  induction m1 as [|[k w] m1 IH]; intros Hs; cbn.
  - by rewrite Z.eqb_refl.
  - cbn in Hs. apply smap_sorted_cons in Hs as [Hs Hk].
    rewrite Forall_forall in Hk. assert (cmp_lt k p) as Hkp.
    { apply Hk. rewrite fmap_app, fmap_cons. set_solver. }
    destruct (Z.eqb_spec k p) as [->|]; [by apply cmp_lt_ne in Hkp|].
    destruct (ltb p k) eqn:Hpk; [|by rewrite IH].
    by destruct (cmp_lt_ne p p (cmp_trans _ _ _ Hpk Hkp)).
Qed.

Lemma smap_erase_middle m1 p v m2 :
  smap_sorted (m1 ++ (p, v) :: m2) → smap_erase p (m1 ++ (p, v) :: m2) = m1 ++ m2.
Proof.
  intros [Hp _]%smap_sorted_middle. induction m1 as [|[k w] m1 IH]; cbn in *.
  - by rewrite Z.eqb_refl.
  - destruct (Z.eqb_spec k p); [set_solver|]. rewrite IH; [done|set_solver].
Qed.
End smap.
