(* ===== verification/OrderBook.v ===== *)
(** * The order book

    Models [src/core/order_book.h] and [src/core/order_book.cpp]: two ordered
    maps of price levels and the index that owns the orders. The C++ code
    writes each operation once per side; the model selects the side with a
    boolean ([true] for [bids_], [false] for [asks_]).

    The index owns the orders through [std::unique_ptr], so erasing an index
    entry frees the order, and an [emplace] that is refused because the key is
    taken frees the order it was given.

    [book_rep b h ab] says that the book [b] in store [h] represents the
    abstract book [ab], two ordered maps from prices to queues of orders. *)

From S2P Require Import Prelude Types PriceLevel SortedMap.

(** [IndexKey]: compared component by component. *)
Notation IndexKey := (Z * list ascii)%type.

Record OrderBook := mkBook {
  symbol_ : bytes;
  bids_ : smap PriceLevel;
  asks_ : smap PriceLevel;
  index_ : gmap IndexKey loc
}.

Definition new_book (symbol : bytes) : OrderBook := mkBook symbol [] [] ∅.

Definition levels (buy : bool) (b : OrderBook) : smap PriceLevel :=
  if buy then bids_ b else asks_ b.
Definition set_levels (buy : bool) (m : smap PriceLevel) (b : OrderBook) : OrderBook :=
  if buy then mkBook (symbol_ b) m (asks_ b) (index_ b)
  else mkBook (symbol_ b) (bids_ b) m (index_ b).
Definition set_index (i : gmap IndexKey loc) (b : OrderBook) : OrderBook :=
  mkBook (symbol_ b) (bids_ b) (asks_ b) i.

(** [std::greater<Price>] for the bids, [std::less<Price>] for the asks. *)
Definition cmp (buy : bool) : Z → Z → bool := if buy then Z.gtb else Z.ltb.
#[export] Instance cmp_strict buy : StrictCmp (cmp buy).
Proof. destruct buy; apply _. Qed.

Definition order_key (o : Order) : IndexKey := (o_session o, o_clord o).

Definition rest (raw : loc) (b : OrderBook) (h : heap) : res (OrderBook * heap) :=
  let! o := deref h raw in
  let buy := is_buy (o_side o) in
  let p := o_price o in
  let! '(lv, h) := push_back raw (default empty_level (smap_find p (levels buy b))) h in
  let b := set_levels buy (smap_set (cmp buy) p lv (levels buy b)) b in
  let! o := deref h raw in
  match index_ b !! order_key o with
  | Some _ => Ok (b, delete raw h)
  | None => Ok (set_index (<[order_key o := raw]> (index_ b)) b, h)
  end.

Definition find (s : SessionId) (clord : ClOrdID) (b : OrderBook) : option loc :=
  index_ b !! (s, clord).

(** The block [cancel] and [remove] share: take the order out of its level. *)
Definition unlink_order (o : loc) (b : OrderBook) (h : heap) : res (OrderBook * heap) :=
  let! ord := deref h o in
  let buy := is_buy (o_side ord) in
  let p := o_price ord in
  match smap_find p (levels buy b) with
  | Some lv =>
      let! '(lv, h) := unlink o lv h in
      Ok (set_levels buy (smap_set (cmp buy) p lv (levels buy b)) b, h)
  | None => Ok (b, h)
  end.

Record CancelResult := mkCancelResult { ok : bool; reason : bytes }.

Definition cancel (s : SessionId) (clord : ClOrdID) (b : OrderBook) (h : heap) :
    res (CancelResult * OrderBook * heap) :=
  match index_ b !! (s, clord) with
  | None => Ok (mkCancelResult false (B "unknown order"), b, h)
  | Some o =>
      let! '(b, h) := unlink_order o b h in
      Ok (mkCancelResult true [], set_index (delete (s, clord) (index_ b)) b, delete o h)
  end.

Definition remove (o : loc) (b : OrderBook) (h : heap) : res (OrderBook * heap) :=
  let! '(b, h) := unlink_order o b h in
  let! ord := deref h o in
  match index_ b !! order_key ord with
  | Some owned => Ok (set_index (delete (order_key ord) (index_ b)) b, delete owned h)
  | None => Ok (b, h)
  end.

(** The first non-empty level in the map's order. *)
Fixpoint best_price (m : smap PriceLevel) : option Price :=
  match m with
  | [] => None
  | (p, lv) :: m' => if level_empty lv then best_price m' else Some p
  end.
Definition best_bid (b : OrderBook) : option Price := best_price (bids_ b).
Definition best_ask (b : OrderBook) : option Price := best_price (asks_ b).

Definition bid_level (p : Price) (b : OrderBook) : option PriceLevel := smap_find p (bids_ b).
Definition ask_level (p : Price) (b : OrderBook) : option PriceLevel := smap_find p (asks_ b).

(** [walk_bids] and [walk_asks]. The state [S] is whatever the callback
    captures by reference; [get] and [put] reach the book inside it. The walk
    visits the prices present at entry in order; the callback is handed the
    price and finds the level in the book, as the source's reference does, and
    an iterator whose level has vanished is undefined behaviour. *)
Fixpoint walk_keys {S} (get : S → OrderBook) (put : OrderBook → S → S) (buy : bool)
    (fn : Price → S → res (bool * S)) (keys : list Price) (s : S) : res S :=
  let erase p s :=
    put (set_levels buy (smap_erase p (levels buy (get s))) (get s)) s in
  match keys with
  | [] => Ok s
  | p :: keys =>
      match smap_find p (levels buy (get s)) with
      | None => Undef
      | Some lv =>
          if level_empty lv then walk_keys get put buy fn keys (erase p s)
          else
            let! '(continue, s) := fn p s in
            if negb continue then Ok s
            else
              match smap_find p (levels buy (get s)) with
              | None => Undef
              | Some lv =>
                  if level_empty lv then walk_keys get put buy fn keys (erase p s)
                  else walk_keys get put buy fn keys s
              end
      end
  end.
Definition walk {S} (get : S → OrderBook) (put : OrderBook → S → S) (buy : bool)
    (fn : Price → S → res (bool * S)) (s : S) : res S :=
  walk_keys get put buy fn (levels buy (get s)).*1 s.

(** ** The hash of a key *)

(** [IndexHash]; the standard library's hashes of a string and of a number are
    parameters. *)
Section hash.
Context (hash_string : list ascii → Z) (hash_session : Z → Z).

Definition index_hash (k : IndexKey) : Z :=
  let h := hash_string k.2 in
  Z.lxor h (u64 (hash_session k.1 + 0x9e3779b97f4a7c15 + u64 (Z.shiftl h 6) + Z.shiftr h 2)).

Lemma index_hash_range k : in_u64 (hash_string k.2) → in_u64 (index_hash k).
Proof.
  intros Hh. unfold index_hash. set (x := u64 _). assert (in_u64 x) as Hx by (apply Z.mod_pos_bound; lia).
  unfold in_u64 in *. assert (0 ≤ Z.lxor (hash_string k.2) x) by (apply Z.lxor_nonneg; lia). split; [done|].
  change two64 with (2 ^ 64) in *. apply Z.bounded_iff_bits_nonneg; [lia|done|]. intros l Hl. rewrite Z.lxor_spec.
  rewrite (proj1 (Z.bounded_iff_bits_nonneg 64 (hash_string k.2) ltac:(lia) ltac:(lia)) (proj2 Hh) l Hl).
  by rewrite (proj1 (Z.bounded_iff_bits_nonneg 64 x ltac:(lia) ltac:(lia)) (proj2 Hx) l Hl).
Qed.

(** The sessions' hashes are mixed without loss: keys of one ClOrdID collide only
    when the hashes of their sessions do. *)
Lemma index_hash_sessions c s s' :
  in_u64 (hash_session s) → in_u64 (hash_session s') →
  index_hash (s, c) = index_hash (s', c) ↔ hash_session s = hash_session s'.
Proof.
  intros Hs Hs'. unfold index_hash. cbn [fst snd]. split; [|by intros ->]. set (h := hash_string c). intros He.
  apply (f_equal (Z.lxor h)) in He. rewrite <- !Z.lxor_assoc, Z.lxor_nilpotent, !Z.lxor_0_l in He.
  unfold u64, in_u64 in *. Z.to_euclidean_division_equations. lia.
Qed.

End hash.
