(* ===== verification/BookRep.v ===== *)
(** * The abstract book and what represents it

    The abstract book is what the order book promises to the matcher: for each
    side an ordered map from prices to queues of orders, oldest first. The
    representation invariant [book_rep] ties it to the pointer structure:
    well-linked levels, sorted maps, orders at the level of their price and on
    their side, and an index that owns exactly the resting orders. *)

From S2P Require Import Prelude Types PriceLevel SortedMap OrderBook.

Record ABook := mkABook {
  ab_bids : smap (list entry);
  ab_asks : smap (list entry)
}.

Definition a_empty : ABook := mkABook [] [].
Definition a_levels (buy : bool) (ab : ABook) : smap (list entry) :=
  if buy then ab_bids ab else ab_asks ab.
Definition a_set_levels (buy : bool) (m : smap (list entry)) (ab : ABook) : ABook :=
  if buy then mkABook m (ab_asks ab) else mkABook (ab_bids ab) m.

(** The queue at a price; empty when there is no level. *)
Definition a_queue (buy : bool) (p : Price) (ab : ABook) : list entry :=
  default [] (smap_find p (a_levels buy ab)).
Definition a_update (buy : bool) (p : Price) (es : list entry) (ab : ABook) : ABook :=
  a_set_levels buy (smap_set (cmp buy) p es (a_levels buy ab)) ab.

Definition side_entries (m : smap (list entry)) : list entry := mjoin m.*2.
Definition entries (ab : ABook) : list entry :=
  side_entries (ab_bids ab) ++ side_entries (ab_asks ab).

(** Abstract [rest] and removal. *)
Definition a_rest (l : loc) (o : Order) (ab : ABook) : ABook :=
  let buy := is_buy (o_side o) in
  a_update buy (o_price o) (a_queue buy (o_price o) ab ++ [(l, strip o)]) ab.
Definition without (l : loc) (es : list entry) : list entry := filter (λ e, e.1 ≠ l) es.
Definition a_remove (l : loc) (o : Order) (ab : ABook) : ABook :=
  let buy := is_buy (o_side o) in
  a_update buy (o_price o) (without l (a_queue buy (o_price o) ab)) ab.

(** ** Representation *)

Definition side_rep (h : heap) (m : smap PriceLevel) (am : smap (list entry)) : Prop :=
  Forall2 (λ x y, x.1 = y.1 ∧ level_rep h x.2 y.2) m am.

(** Orders rest at the level of their price, on their own side. *)
Definition entry_ok (buy : bool) (p : Price) (a : Order) : Prop :=
  o_price a = p ∧ is_buy (o_side a) = buy ∧ in_u64 (o_leaves a).

Definition placed (ab : ABook) : Prop :=
  ∀ buy p es l a, (p, es) ∈ a_levels buy ab → (l, a) ∈ es → entry_ok buy p a.

Definition index_rep (i : gmap IndexKey loc) (es : list entry) : Prop :=
  ∀ k l, i !! k = Some l ↔ ∃ a, (l, a) ∈ es ∧ order_key a = k.

Record book_rep (b : OrderBook) (h : heap) (ab : ABook) : Prop := {
  br_side buy : side_rep h (levels buy b) (a_levels buy ab);
  br_sorted buy : smap_sorted (cmp buy) (a_levels buy ab);
  br_nodup : NoDup (entries ab).*1;
  br_placed : placed ab;
  br_index : index_rep (index_ b) (entries ab)
}.

(** ** Sides, levels and queues *)

Lemma levels_set buy m b : levels buy (set_levels buy m b) = m.
Proof. by destruct buy. Qed.
Lemma levels_set_other buy m b : levels (negb buy) (set_levels buy m b) = levels (negb buy) b.
Proof. by destruct buy. Qed.
Lemma index_set_levels buy m b : index_ (set_levels buy m b) = index_ b.
Proof. by destruct buy. Qed.
Lemma levels_set_index buy i b : levels buy (set_index i b) = levels buy b.
Proof. by destruct buy. Qed.
Lemma index_set_index i b : index_ (set_index i b) = i.
Proof. done. Qed.
Lemma a_levels_set buy m ab : a_levels buy (a_set_levels buy m ab) = m.
Proof. by destruct buy. Qed.
Lemma a_levels_set_other buy m ab :
  a_levels (negb buy) (a_set_levels buy m ab) = a_levels (negb buy) ab.
Proof. by destruct buy. Qed.
#[export] Hint Rewrite levels_set levels_set_other index_set_levels levels_set_index
  index_set_index a_levels_set a_levels_set_other : obfix.

(** Two facts for every side: split a side into "this one" and "the other". *)
Lemma side_cases (P : bool → Prop) buy : P buy → P (negb buy) → ∀ b, P b.
Proof. destruct buy; intros ? ? []; done. Qed.

Lemma entries_side buy ab : side_entries (a_levels buy ab) ++ side_entries (a_levels (negb buy) ab) ≡ₚ entries ab.
Proof. destruct buy; [done|]. apply Permutation_app_comm. Qed.

Lemma side_entries_elem e am : e ∈ side_entries am ↔ ∃ p es, (p, es) ∈ am ∧ e ∈ es.
Proof.
  unfold side_entries. rewrite list_elem_of_join. split.
  - intros (es & He & ([p es'] & -> & Hin)%list_elem_of_fmap). eauto.
  - intros (p & es & Hin & He). exists es. split; [done|]. apply list_elem_of_fmap. by exists (p, es).
Qed.

Lemma entries_elem e ab : e ∈ entries ab ↔ ∃ buy p es, (p, es) ∈ a_levels buy ab ∧ e ∈ es.
Proof.
  unfold entries. rewrite elem_of_app, !side_entries_elem. split.
  - intros [(p&es&?&?)|(p&es&?&?)]; [exists true|exists false]; eauto.
  - intros ([]&p&es&?&?); [left|right]; eauto.
Qed.

(** Replacing one queue: the entries of the book are the old queue and the
    rest, and become the new queue and the same rest. *)
Lemma side_entries_update buy p am :
  smap_sorted (cmp buy) am →
  ∃ others, side_entries am ≡ₚ default [] (smap_find p am) ++ others ∧
    (∀ es', side_entries (smap_set (cmp buy) p es' am) ≡ₚ es' ++ others).
Proof.
  intros Hs. destruct (smap_find p am) as [es|] eqn:Hf; cbn.
  - apply (smap_split_Some (cmp buy)) in Hf as (m1 & m2 & -> & _ & _ & Hset).
    exists (side_entries m1 ++ side_entries m2). split; [|intros es'; rewrite Hset by done];
      unfold side_entries; rewrite fmap_app, join_app; csimpl;
      rewrite !app_assoc; f_equiv; apply Permutation_app_comm.
  - apply (smap_split_None (cmp buy)) in Hf as (m1 & m2 & -> & _ & _ & Hset); [|done].
    exists (side_entries m1 ++ side_entries m2). split; [|intros es'; rewrite Hset];
      unfold side_entries; rewrite fmap_app, join_app; csimpl; [done|].
    rewrite !app_assoc. f_equiv. apply Permutation_app_comm.
Qed.

Lemma entries_update buy p ab :
  smap_sorted (cmp buy) (a_levels buy ab) →
  ∃ others, entries ab ≡ₚ a_queue buy p ab ++ others ∧
    ∀ es', entries (a_update buy p es' ab) ≡ₚ es' ++ others.
Proof.
  intros (others & Ho & Hu)%(side_entries_update buy p).
  exists (others ++ side_entries (a_levels (negb buy) ab)). split.
  - by rewrite <- (entries_side buy), Ho, app_assoc.
  - intros es'. unfold a_update. rewrite <- (entries_side buy). autorewrite with obfix.
    by rewrite Hu, app_assoc.
Qed.

Lemma a_queue_elem buy p ab e :
  e ∈ a_queue buy p ab → ∃ es, (p, es) ∈ a_levels buy ab ∧ e ∈ es.
Proof.
  unfold a_queue. destruct (smap_find p (a_levels buy ab)) as [es|] eqn:Hf; cbn.
  - intros. exists es. split; [|done]. by apply smap_find_elem.
  - by intros ?%not_elem_of_nil.
Qed.

Lemma a_update_levels_elem buy p es' ab buy' q es :
  smap_sorted (cmp buy) (a_levels buy ab) →
  (q, es) ∈ a_levels buy' (a_update buy p es' ab) →
  (buy' = buy ∧ q = p ∧ es = es') ∨ (q, es) ∈ a_levels buy' ab.
Proof.
  intros Hs. unfold a_update. destruct (decide (buy' = buy)) as [->|Hne].
  - autorewrite with obfix. destruct (smap_find p (a_levels buy ab)) as [es0|] eqn:Hf.
    + apply (smap_split_Some (cmp buy)) in Hf as (m1 & m2 & Hm & _ & _ & Hset).
      rewrite Hset, Hm by done. set_solver.
    + apply (smap_split_None (cmp buy)) in Hf as (m1 & m2 & Hm & _ & _ & Hset); [|done].
      rewrite Hset, Hm. set_solver.
  - assert (buy' = negb buy) as -> by (by destruct buy, buy').
    autorewrite with obfix. auto.
Qed.

(** ** Representation of one side *)

Lemma side_rep_find h m am p :
  side_rep h m am →
  match smap_find p m, smap_find p am with
  | Some lv, Some es => level_rep h lv es
  | None, None => True
  | _, _ => False
  end.
Proof.
  induction 1 as [|[k lv] [k' es] m am [Hk Hl] _ IH]; cbn in *; [done|].
  subst k'. by destruct (k =? p).
Qed.

Lemma side_rep_keys h m am : side_rep h m am → m.*1 = am.*1.
Proof. induction 1 as [|[] [] ?? [??]]; csimpl in *; congruence. Qed.

Lemma level_rep_frame h h' lv es :
  (∀ l, l ∈ es.*1 → h' !! l = h !! l) → level_rep h lv es → level_rep h' lv es.
Proof.
  intros Hf [(Hd&?) ?]. split; [split|]; [|done..]. by eapply dseg_frame.
Qed.

Lemma side_rep_frame h h' m am :
  (∀ l, l ∈ (side_entries am).*1 → h' !! l = h !! l) → side_rep h m am → side_rep h' m am.
Proof.
  intros Hf Hr. induction Hr as [|[k lv] [k' es] m am [Hk Hl] _ IH]; [constructor|].
  unfold side_entries in Hf. csimpl in *. setoid_rewrite fmap_app in Hf. constructor.
  - split; [done|]. cbn in *. eapply level_rep_frame; [|done]. set_solver.
  - apply IH. unfold side_entries. set_solver.
Qed.

Lemma side_rep_cons h k lv m es am :
  level_rep h lv es → side_rep h m am → side_rep h ((k, lv) :: m) ((k, es) :: am).
Proof. by constructor. Qed.

Lemma side_rep_erase h m am p :
  side_rep h m am → side_rep h (smap_erase p m) (smap_erase p am).
Proof.
  induction 1 as [|[k lv'] [k' es'] m am [Hk Hl'] Hr IH]; cbn in *; [constructor|].
  subst k'. destruct (k =? p); [done|]. by apply side_rep_cons.
Qed.

(** The part of the store the levels at other prices live in is unchanged. *)
Definition others_same (p : Price) (am : smap (list entry)) (h h' : heap) : Prop :=
  ∀ q es l, (q, es) ∈ am → q ≠ p → l ∈ es.*1 → h' !! l = h !! l.

Lemma side_rep_others h h' m am p :
  others_same p am h h' → p ∉ am.*1 → side_rep h m am → side_rep h' m am.
Proof.
  intros Ho Hp. apply side_rep_frame. intros l.
  intros ([l' a] & -> & (q & es & Hin & Hl)%side_entries_elem)%list_elem_of_fmap.
  apply (Ho q es); [done| |].
  - intros ->. apply Hp. apply list_elem_of_fmap. by exists (p, es).
  - apply list_elem_of_fmap. by exists (l', a).
Qed.

(** Replacing a level and its queue together. *)
Lemma side_rep_set h h' m am ltb `{!StrictCmp ltb} p lv es :
  side_rep h m am → smap_sorted ltb am → level_rep h' lv es → others_same p am h h' →
  side_rep h' (smap_set ltb p lv m) (smap_set ltb p es am).
Proof.
  intros Hr Hs Hl. induction Hr as [|[k lv'] [k' es'] m am [Hk Hl'] Hr IH]; intros Ho; cbn in *.
  - by apply side_rep_cons; [|constructor].
  - subst k'. pose proof (smap_sorted_NoDup ltb _ Hs) as [Hkn _]%NoDup_cons. cbn in Hkn.
    apply smap_sorted_cons in Hs as [Hs Hk].
    assert (others_same p am h h') as Ho' by (intros q ? ? ?; eapply Ho; by right).
    destruct (Z.eqb_spec k p) as [->|Hne].
    + apply side_rep_cons; [done|]. by eapply side_rep_others.
    + assert (level_rep h' lv' es') as Hl''.
      { eapply level_rep_frame; [|done]. intros l Hin. eapply Ho; [by left|done|done]. }
      destruct (ltb p k) eqn:Hpk; [|apply side_rep_cons; auto].
      do 2 (apply side_rep_cons; [done|]). eapply side_rep_others; [done| |done].
      intros Hin. rewrite Forall_forall in Hk. apply Hk in Hin.
      apply (cmp_lt_ne ltb p p); [|done]. by eapply cmp_trans.
Qed.

(** ** The whole book *)

Lemma NoDup_fst_inj {A B} (es : list (A * B)) l a a' :
  NoDup es.*1 → (l, a) ∈ es → (l, a') ∈ es → a = a'.
Proof.
  induction es as [|[l0 a0] es IH]; [set_solver|]. csimpl.
  intros [Hl Hnd]%NoDup_cons [?|Ha]%elem_of_cons [?|Ha']%elem_of_cons; simplify_eq; auto;
    destruct Hl; apply list_elem_of_fmap; by eexists (_, _).
Qed.

(** An address belongs to one level of one side. *)
Lemma level_unique ab buy buy' p q es es' l :
  NoDup (entries ab).*1 → placed ab →
  (p, es) ∈ a_levels buy ab → (q, es') ∈ a_levels buy' ab →
  l ∈ es.*1 → l ∈ es'.*1 → buy = buy' ∧ p = q.
Proof.
  intros Hnd Hpl Hp Hq ([l0 a] & -> & Ha)%list_elem_of_fmap
    ([l1 a'] & Heq & Ha')%list_elem_of_fmap. cbn in Heq. subst l1.
  assert (a = a') as ->.
  { eapply NoDup_fst_inj; [done| |]; apply entries_elem; eauto. }
  destruct (Hpl _ _ _ _ _ Hp Ha) as (?&?&?), (Hpl _ _ _ _ _ Hq Ha') as (?&?&?).
  split; congruence.
Qed.

Lemma a_queue_locs buy p ab l :
  l ∈ (a_queue buy p ab).*1 → ∃ es, (p, es) ∈ a_levels buy ab ∧ l ∈ es.*1.
Proof.
  intros ([l' a] & -> & (es & ? & ?)%a_queue_elem)%list_elem_of_fmap.
  exists es. split; [done|]. apply list_elem_of_fmap. by exists (l', a).
Qed.

Lemma entries_locs ab l buy p es :
  (p, es) ∈ a_levels buy ab → l ∈ es.*1 → l ∈ (entries ab).*1.
Proof.
  intros Hin ([l' a] & -> & Ha)%list_elem_of_fmap. apply list_elem_of_fmap.
  exists (l', a). split; [done|]. apply entries_elem. eauto.
Qed.

(** A change confined to one queue and objects outside the book. *)
Definition confined (buy : bool) (p : Price) (ab : ABook) (h h' : heap) : Prop :=
  ∀ l, l ∈ (entries ab).*1 → l ∉ (a_queue buy p ab).*1 → h' !! l = h !! l.

Lemma confined_others b h ab buy p h' :
  book_rep b h ab → confined buy p ab h h' → others_same p (a_levels buy ab) h h'.
Proof.
  intros Hb Hc q es l Hin Hne Hl. apply Hc; [by eapply entries_locs|].
  intros (es' & Hin' & Hl')%a_queue_locs.
  by destruct (level_unique _ _ _ _ _ _ _ _ (br_nodup _ _ _ Hb) (br_placed _ _ _ Hb) Hin Hin' Hl Hl').
Qed.

Lemma confined_other_side b h ab buy p h' :
  book_rep b h ab → confined buy p ab h h' →
  side_rep h' (levels (negb buy) b) (a_levels (negb buy) ab).
Proof.
  intros Hb Hc. eapply side_rep_frame; [|apply (br_side _ _ _ Hb)].
  intros l ([l' a] & -> & (q & es & Hin & Hl)%side_entries_elem)%list_elem_of_fmap.
  assert (l' ∈ es.*1) as Hl' by (apply list_elem_of_fmap; by exists (l', a)).
  apply Hc; [by eapply entries_locs|]. intros (es' & Hin' & Hl'')%a_queue_locs.
  destruct (level_unique _ _ _ _ _ _ _ _ (br_nodup _ _ _ Hb) (br_placed _ _ _ Hb) Hin Hin' Hl' Hl'').
  by destruct buy.
Qed.

(** The level found for a price, or a default one, represents the queue. *)
Lemma level_rep_empty h : level_rep h empty_level [].
Proof. split; [|done]. split_and!; [done|constructor|done..]. Qed.

Lemma queue_level b h ab buy p :
  book_rep b h ab →
  level_rep h (default empty_level (smap_find p (levels buy b))) (a_queue buy p ab).
Proof.
  intros Hb. pose proof (side_rep_find _ _ _ p (br_side _ _ _ Hb buy)) as Hf.
  unfold a_queue. destruct (smap_find p (levels buy b)), (smap_find p (a_levels buy ab));
    cbn; [done..|apply level_rep_empty].
Qed.

(** Rebuilding the invariant after one queue changed. *)
Lemma book_rep_update b h ab buy p lv es h' i :
  book_rep b h ab → confined buy p ab h h' → level_rep h' lv es →
  NoDup (entries (a_update buy p es ab)).*1 →
  Forall (λ e, entry_ok buy p e.2) es →
  index_rep i (entries (a_update buy p es ab)) →
  book_rep (set_index i (set_levels buy (smap_set (cmp buy) p lv (levels buy b)) b)) h'
    (a_update buy p es ab).
Proof.
  intros Hb Hc Hl Hnd Hok Hi. split; [| |done| |exact Hi].
  - apply (side_cases _ buy); unfold a_update; autorewrite with obfix.
    + eapply side_rep_set; [apply _|apply (br_side _ _ _ Hb)|apply (br_sorted _ _ _ Hb)|done|].
      by eapply confined_others.
    + by eapply confined_other_side.
  - apply (side_cases _ buy); unfold a_update; autorewrite with obfix.
    + apply smap_set_sorted; [apply _|apply (br_sorted _ _ _ Hb)].
    + apply (br_sorted _ _ _ Hb).
  - intros buy' q es' l a Hin Ha.
    apply a_update_levels_elem in Hin as [(->&->&->)|Hin]; [..|apply (br_sorted _ _ _ Hb)].
    + rewrite Forall_forall in Hok. exact (Hok _ Ha).
    + by eapply (br_placed _ _ _ Hb).
Qed.
