(* ===== verification/BookProps.v ===== *)
(** * The book operations refine the abstract book

    [rest], [cancel] and [remove] return without undefined behaviour on every
    well-formed book and take the represented abstract book to the one the
    abstract operation computes; the index keeps owning exactly the resting
    orders. [rest] needs the order's key to be free: what happens otherwise is
    stated as well. *)

From S2P Require Import Prelude Types PriceLevel SortedMap OrderBook BookRep.

(** ** The index *)

Lemma index_rep_perm i es es' : es ≡ₚ es' → index_rep i es → index_rep i es'.
Proof. unfold index_rep. intros Hp Hi k l. rewrite Hi. by setoid_rewrite Hp. Qed.

Lemma index_rep_insert i es l a :
  index_rep i es → i !! order_key a = None →
  index_rep (<[order_key a := l]> i) ((l, a) :: es).
Proof.
  intros Hi Hn k l'. rewrite lookup_insert. case_decide as Hk.
  - subst k. split; [intros [= <-]; exists a; set_solver|].
    intros (a' & [[= -> ->]|Ha]%elem_of_cons & Hka); [done|].
    assert (i !! order_key a = Some l') by (apply Hi; eauto). congruence.
  - rewrite (Hi k l'). split; [intros (a'&?&?); exists a'; set_solver|].
    intros (a' & [[= -> ->]|Ha]%elem_of_cons & Hka); [done|eauto].
Qed.

Lemma index_rep_delete i es l a :
  NoDup ((l, a) :: es).*1 → index_rep i ((l, a) :: es) →
  index_rep (delete (order_key a) i) es.
Proof.
  csimpl. intros [Hl _]%NoDup_cons Hi k l'. rewrite lookup_delete. case_decide as Hk.
  - subst k. split; [done|]. intros (a' & Ha & Hka).
    assert (i !! order_key a = Some l) as H1 by (apply Hi; exists a; split; [left|done]).
    assert (i !! order_key a = Some l') as H2 by (apply Hi; exists a'; split; [by right|done]).
    rewrite H1 in H2. injection H2 as <-. destruct Hl. apply list_elem_of_fmap. by exists (l, a').
  - rewrite (Hi k l'). split; [|intros (a'&?&?); exists a'; set_solver].
    intros (a' & [[= -> ->]|Ha]%elem_of_cons & Hka); [done|eauto].
Qed.

(** ** [rest] *)

Lemma entries_rest b h ab l o :
  book_rep b h ab → entries (a_rest l o ab) ≡ₚ (l, strip o) :: entries ab.
Proof.
  intros Hb. unfold a_rest.
  destruct (entries_update (is_buy (o_side o)) (o_price o) ab) as (others & He & Hu);
    [apply (br_sorted _ _ _ Hb)|].
  rewrite Hu, He. rewrite <- app_assoc. cbn. by rewrite Permutation_middle.
Qed.

Lemma book_rep_lookup b h ab l a :
  book_rep b h ab → (l, a) ∈ entries ab → ∃ q m, h !! l = Some (link q m a).
Proof.
  intros Hb (buy & p & es & Hin & Ha)%entries_elem.
  pose proof (side_rep_find _ _ _ p (br_side _ _ _ Hb buy)) as Hf.
  rewrite (smap_elem_find (cmp buy) _ _ _ (br_sorted _ _ _ Hb buy) Hin) in Hf.
  destruct (smap_find p (levels buy b)); [|done]. destruct Hf as [(Hd&_) _].
  by eapply dseg_lookup.
Qed.

Lemma rest_push b h ab raw o :
  book_rep b h ab → h !! raw = Some o → raw ∉ (entries ab).*1 →
  let buy := is_buy (o_side o) in
  ∃ lv h' q m,
    push_back raw (default empty_level (smap_find (o_price o) (levels buy b))) h = Ok (lv, h') ∧
    level_rep h' lv (a_queue buy (o_price o) ab ++ [(raw, strip o)]) ∧
    h' !! raw = Some (link q m (strip o)) ∧
    same_outside (raw :: (a_queue buy (o_price o) ab).*1) h h'.
Proof.
  intros Hb Ho Hraw buy.
  destruct (push_back_rep h _ _ raw o (queue_level _ _ _ buy (o_price o) Hb) Ho)
    as (lv & h' & He & Hl & Hs).
  { intros (es & ? & ?)%a_queue_locs. apply Hraw. by eapply entries_locs. }
  assert (∃ q m, h' !! raw = Some (link q m (strip o))) as (q & m & Hq).
  { destruct Hl as [(Hd&_) _]. eapply dseg_lookup; [done|]. set_solver. }
  by exists lv, h', q, m.
Qed.

Lemma rest_rep b h ab raw o :
  book_rep b h ab → h !! raw = Some o → raw ∉ (entries ab).*1 →
  in_u64 (o_leaves o) → index_ b !! order_key o = None →
  ∃ b' h', rest raw b h = Ok (b', h') ∧ book_rep b' h' (a_rest raw o ab) ∧
    same_outside (raw :: (entries ab).*1) h h'.
Proof.
  intros Hb Ho Hraw Hlv Hk.
  destruct (rest_push _ _ _ _ _ Hb Ho Hraw) as (lv & h' & q & m & He & Hl & Hq & Hs).
  pose proof (entries_rest _ _ _ raw o Hb) as Hperm.
  unfold rest. rewrite (deref_Some _ _ _ Ho). cbn [rbind]. rewrite He. cbn [rbind].
  rewrite (deref_Some _ _ _ Hq). cbn [rbind].
  change (order_key (link q m (strip o))) with (order_key o).
  rewrite index_set_levels, Hk.
  do 2 eexists. split_and!; [done| |].
  - unfold a_rest in *. eapply book_rep_update; [done| |done|..].
    + intros l Hin Hnq. apply Hs. set_solver.
    + rewrite Hperm. csimpl. apply NoDup_cons. split; [done|]. apply (br_nodup _ _ _ Hb).
    + apply Forall_app. split; [|by apply Forall_singleton].
      apply Forall_forall. intros [l a] (es & Hin & Ha)%a_queue_elem. by eapply (br_placed _ _ _ Hb).
    + eapply index_rep_perm; [symmetry; exact Hperm|].
      change (order_key o) with (order_key (strip o)). apply index_rep_insert; [|done].
      apply (br_index _ _ _ Hb).
  - eapply same_outside_weaken; [|done]. intros l [->|(es&?&?)%a_queue_locs]%elem_of_cons; [by left|].
    right. by eapply entries_locs.
Qed.

(** ** Taking an order out *)

Lemma without_split l a es1 es2 :
  NoDup (es1 ++ (l, a) :: es2).*1 → without l (es1 ++ (l, a) :: es2) = es1 ++ es2.
Proof.
  rewrite fmap_app, fmap_cons. cbn [fst]. intros (_ & Hdj & [Hl _]%NoDup_cons)%NoDup_app.
  assert (∀ es, l ∉ es.*1 → without l es = es) as Hid.
  { intros es Hn. apply filter_id. intros [l' a'] Hin Heq.
    apply Hn. apply list_elem_of_fmap. exists (l', a'). by split. }
  unfold without in *. rewrite filter_app, filter_cons_False by (cbn; tauto).
  f_equal; apply Hid; set_solver.
Qed.

Lemma a_queue_in b h ab l a :
  book_rep b h ab → (l, a) ∈ entries ab →
  let buy := is_buy (o_side a) in
  (l, a) ∈ a_queue buy (o_price a) ab ∧
  ∃ lv, smap_find (o_price a) (levels buy b) = Some lv ∧ level_rep h lv (a_queue buy (o_price a) ab).
Proof.
  intros Hb (buy & p & es & Hin & Ha)%entries_elem.
  destruct (br_placed _ _ _ Hb _ _ _ _ _ Hin Ha) as (-> & -> & _). cbn.
  pose proof (side_rep_find _ _ _ p (br_side _ _ _ Hb buy)) as Hf.
  pose proof (smap_elem_find (cmp buy) _ _ _ (br_sorted _ _ _ Hb buy) Hin) as Hfa.
  unfold a_queue. rewrite Hfa in *. cbn. split; [done|].
  destruct (smap_find p (levels buy b)) as [lv|]; [eauto|done].
Qed.

Lemma entries_remove b h ab l a :
  book_rep b h ab → (l, a) ∈ entries ab →
  entries ab ≡ₚ (l, a) :: entries (a_remove l a ab).
Proof.
  intros Hb Hin. destruct (a_queue_in _ _ _ _ _ Hb Hin) as [Hq (lv & _ & [(_&Hnd&_) _])].
  unfold a_remove. set (buy := is_buy (o_side a)) in *.
  destruct (entries_update buy (o_price a) ab) as (others & He & Hu); [apply (br_sorted _ _ _ Hb)|].
  rewrite Hu, He. apply list_elem_of_split in Hq as (es1 & es2 & Hq). rewrite Hq in *.
  rewrite without_split by done. rewrite <- !app_assoc. cbn. symmetry. apply Permutation_middle.
Qed.

Lemma unlink_order_rep b h ab l a :
  book_rep b h ab → (l, a) ∈ entries ab →
  let buy := is_buy (o_side a) in
  ∃ lv h', unlink_order l b h =
      Ok (set_levels buy (smap_set (cmp buy) (o_price a) lv (levels buy b)) b, h') ∧
    level_rep h' lv (without l (a_queue buy (o_price a) ab)) ∧
    h' !! l = Some (strip a) ∧
    same_outside (a_queue buy (o_price a) ab).*1 h h'.
Proof.
  intros Hb Hin buy. destruct (book_rep_lookup _ _ _ _ _ Hb Hin) as (q & m & Hl).
  destruct (a_queue_in _ _ _ _ _ Hb Hin) as [Hq (lv & Hf & Hlv)]. fold buy in Hq, Hf, Hlv.
  apply list_elem_of_split in Hq as (es1 & es2 & Hq). rewrite Hq in *.
  destruct (unlink_rep _ _ _ _ _ _ Hlv) as (lv' & h' & He & Hlv' & Ho & Hs).
  unfold unlink_order. rewrite (deref_Some _ _ _ Hl). cbn [rbind].
  change (is_buy (o_side (link q m a))) with buy. change (o_price (link q m a)) with (o_price a).
  rewrite Hf, He. cbn [rbind]. do 2 eexists. split_and!; [done| |done|done].
  rewrite without_split; [done|]. apply Hlv.
Qed.

(** Unlinking, dropping the index entry and freeing the order. *)
Lemma erase_rep b h ab l a :
  book_rep b h ab → (l, a) ∈ entries ab →
  ∃ b' h', unlink_order l b h = Ok (b', h') ∧ index_ b' = index_ b ∧
    h' !! l = Some (strip a) ∧ dom h' = dom h ∧
    (∀ l', l' ∉ (entries ab).*1 → h' !! l' = h !! l') ∧
    book_rep (set_index (delete (order_key a) (index_ b)) b') (delete l h') (a_remove l a ab).
Proof.
  intros Hb Hin. destruct (unlink_order_rep _ _ _ _ _ Hb Hin) as (lv & h' & He & Hlv & Hl & Hs).
  pose proof (entries_remove _ _ _ _ _ Hb Hin) as Hperm.
  assert (l ∉ (entries (a_remove l a ab)).*1) as Hfresh.
  { pose proof (br_nodup _ _ _ Hb) as Hnd. rewrite Hperm in Hnd. by apply NoDup_cons in Hnd as [? _]. }
  do 2 eexists. split_and!; [exact He|apply index_set_levels|done|apply Hs| |].
  { intros l' Hl'. apply Hs. intros (es&?&?)%a_queue_locs. apply Hl'. by eapply entries_locs. }
  unfold a_remove in *. set (buy := is_buy (o_side a)) in *.
  eapply book_rep_update; [done|..].
  - intros l' Hin' Hnq. rewrite lookup_delete_ne; [by apply Hs|]. intros ->. apply Hnq.
    apply list_elem_of_fmap. exists (l', a). split; [done|]. by eapply a_queue_in.
  - eapply level_rep_frame; [|done]. intros l' Hl'. apply lookup_delete_ne. intros ->.
    apply list_elem_of_fmap in Hl' as ([l0 a0] & -> & [Hne _]%list_elem_of_filter). done.
  - pose proof (br_nodup _ _ _ Hb) as Hnd. rewrite Hperm in Hnd. by apply NoDup_cons in Hnd as [_ ?].
  - apply Forall_forall. intros [l' a'] [_ (es & Hin' & Ha)%a_queue_elem]%list_elem_of_filter.
    by eapply (br_placed _ _ _ Hb).
  - eapply index_rep_delete; [|eapply index_rep_perm; [exact Hperm|apply (br_index _ _ _ Hb)]].
    rewrite <- Hperm. apply (br_nodup _ _ _ Hb).
Qed.

Lemma index_lookup b h ab l a :
  book_rep b h ab → (l, a) ∈ entries ab → index_ b !! order_key a = Some l.
Proof. intros Hb Hin. apply (br_index _ _ _ Hb). eauto. Qed.

Lemma dom_delete_free (h h' : heap) l : dom h' = dom h → dom (delete l h') = dom h ∖ {[l]}.
Proof. intros <-. apply dom_delete_L. Qed.

Lemma remove_rep b h ab l a :
  book_rep b h ab → (l, a) ∈ entries ab →
  ∃ b' h', remove l b h = Ok (b', h') ∧ book_rep b' h' (a_remove l a ab) ∧
    dom h' = dom h ∖ {[l]} ∧ ∀ l', l' ∉ (entries ab).*1 → h' !! l' = h !! l'.
Proof.
  intros Hb Hin. destruct (erase_rep _ _ _ _ _ Hb Hin) as (b' & h' & He & Hi & Hl & Hd & Hs & Hr).
  unfold remove. rewrite He. cbn [rbind]. rewrite (deref_Some _ _ _ Hl). cbn [rbind].
  change (order_key (strip a)) with (order_key a). rewrite Hi, (index_lookup _ _ _ _ _ Hb Hin).
  do 2 eexists. split_and!; [done|done|by apply dom_delete_free|].
  intros l' Hl'. rewrite lookup_delete_ne; [by apply Hs|]. intros ->. apply Hl'.
  apply list_elem_of_fmap. by exists (l', a).
Qed.

Lemma cancel_rep b h ab s c l a :
  book_rep b h ab → (l, a) ∈ entries ab → order_key a = (s, c) →
  ∃ b' h', cancel s c b h = Ok (mkCancelResult true [], b', h') ∧
    book_rep b' h' (a_remove l a ab) ∧ dom h' = dom h ∖ {[l]}.
Proof.
  intros Hb Hin Hk. destruct (erase_rep _ _ _ _ _ Hb Hin) as (b' & h' & He & Hi & Hl & Hd & _ & Hr).
  unfold cancel. rewrite <- Hk, (index_lookup _ _ _ _ _ Hb Hin), He. cbn [rbind]. rewrite Hi.
  do 2 eexists. split_and!; [done|done|]. by apply dom_delete_free.
Qed.

Lemma cancel_unknown b h ab s c :
  book_rep b h ab → (∀ l a, (l, a) ∈ entries ab → order_key a ≠ (s, c)) →
  cancel s c b h = Ok (mkCancelResult false (B "unknown order"), b, h).
Proof.
  intros Hb Hno. unfold cancel. destruct (index_ b !! (s, c)) as [l|] eqn:Hi; [|done].
  apply (br_index _ _ _ Hb) in Hi as (a & Hin & Hk). by destruct (Hno _ _ Hin).
Qed.
