(* ===== verification/ProRata.v ===== *)
(** * Allocation arithmetic

    The arithmetic of [Matcher::fill_level_prorata] and
    [Matcher::fill_level_fifo] ([src/core/matcher.cpp]) on 64-bit unsigned
    quantities, and the reference allocations over unbounded integers it is
    compared with: [docs/pro-rata-matching.md] in closed form.

    - [slots_total], [proportional], [distribute]: steps 0 to 2 of the
      pro-rata pass, as coded;
    - [fifo_alloc], [prorata_alloc]: the reference allocations. *)

From S2P Require Import Prelude Types.

(** The local [struct Slot]. *)
Record Slot := mkSlot { s_o : loc; s_orig_leaves : Quantity; s_alloc : Quantity }.
Definition set_alloc (a : Quantity) (s : Slot) : Slot := mkSlot (s_o s) (s_orig_leaves s) a.

(** [total += o->leaves_qty] over the snapshot. *)
Definition slots_total (slots : list Slot) : Quantity :=
  foldl (λ t s, u64 (t + s_orig_leaves s)) 0 slots.

(** Step 1: [floor(to_fill * size_i / total)] for each resting order, and the
    running sum [allocated]. *)
Fixpoint proportional (to_fill total : Quantity) (slots : list Slot) (allocated : Quantity) :
    list Slot * Quantity :=
  match slots with
  | [] => ([], allocated)
  | s :: slots =>
      let num := u64 (to_fill * s_orig_leaves s) in
      let alloc := num / total in
      let '(slots, allocated) := proportional to_fill total slots (u64 (allocated + alloc)) in
      (set_alloc alloc s :: slots, allocated)
  end.

(** Step 2: the rounding residual goes, oldest first, to orders with capacity. *)
Fixpoint distribute (residual : Quantity) (slots : list Slot) : list Slot :=
  match slots with
  | [] => []
  | s :: slots' =>
      if residual =? 0 then slots
      else
        let remaining_cap := u64 (s_orig_leaves s - s_alloc s) in
        let take := Z.min remaining_cap residual in
        set_alloc (u64 (s_alloc s + take)) s :: distribute (u64 (residual - take)) slots'
  end.

(** Steps 0 to 2 together: the allocation of a level. [None] is the early
    return on an empty level or an exhausted aggressor. *)
Definition allocate (slots : list Slot) (available : Quantity) : option (list Slot) :=
  let total := slots_total slots in
  if (total =? 0) || (available =? 0) then None
  else
    let to_fill := Z.min available total in
    let '(slots, allocated) := proportional to_fill total slots 0 in
    let residual := u64 (to_fill - allocated) in
    Some (distribute residual slots).

(** ** Reference allocations *)

(** Oldest first, as much as each one takes. *)
Fixpoint fifo_alloc (available : Z) (qs : list Z) : list Z :=
  match qs with
  | [] => []
  | q :: qs => Z.min available q :: fifo_alloc (available - Z.min available q) qs
  end.

Definition base_alloc (t T : Z) (qs : list Z) : list Z := (λ q, t * q / T) <$> qs.

(** The documented algorithm: floors of the proportional shares, then the
    residual first-in-first-out over what is left of each order. *)
Definition prorata_alloc (available : Z) (qs : list Z) : list Z :=
  let T := sumz qs in
  let t := Z.min available T in
  let f := base_alloc t T qs in
  zip_with Z.add f (fifo_alloc (t - sumz f) (zip_with Z.sub qs f)).

(** The same with the product truncated to 64 bits, as the code computes it. *)
Definition base_alloc64 (t T : Z) (qs : list Z) : list Z := (λ q, u64 (t * q) / T) <$> qs.
Definition prorata_alloc64 (available : Z) (qs : list Z) : list Z :=
  let T := sumz qs in
  let t := Z.min available T in
  let f := base_alloc64 t T qs in
  zip_with Z.add f (fifo_alloc (t - sumz f) (zip_with Z.sub qs f)).

(** What the matcher gives to each order of a level. *)
Definition alloc_of (algo : MatchAlgo) (available : Z) (qs : list Z) : list Z :=
  match algo with ProRata => prorata_alloc64 available qs | Fifo => fifo_alloc available qs end.

(** An allocation is admissible when it gives each order between zero and
    what it has left, and fills exactly what can be filled. *)
Definition admissible (available : Z) (qs fs : list Z) : Prop :=
  Forall2 (λ q f, 0 ≤ f ≤ q) qs fs ∧ sumz fs = Z.min available (sumz qs).

Notation nonneg l := (Forall (λ q : Z, 0 ≤ q) l).

Lemma shares_sum (qs fs : list Z) :
  Forall2 (λ q f, 0 ≤ f ≤ q) qs fs → 0 ≤ sumz fs ≤ sumz qs.
Proof. induction 1; rewrite ?sumz_cons; [cbn; lia|lia]. Qed.

(** ** FIFO *)

Lemma fifo_alloc_admissible available qs :
  0 ≤ available → nonneg qs → admissible available qs (fifo_alloc available qs).
Proof.
  intros Ha Hq. revert available Ha.
  induction Hq as [|q qs Hq Hqs IH]; intros available Ha.
  - split; [constructor|]. cbn. lia.
  - destruct (IH (available - Z.min available q)) as [IH1 IH2]; [lia|].
    split; cbn [fifo_alloc].
    + constructor; [lia|done].
    + rewrite !sumz_cons, IH2. pose proof (sumz_nonneg _ Hqs). lia.
Qed.

Lemma fifo_alloc_length available qs : length (fifo_alloc available qs) = length qs.
Proof. revert available. induction qs; intros; cbn; [done|]. by f_equal. Qed.

Lemma fifo_alloc_zero qs : nonneg qs → fifo_alloc 0 qs = replicate (length qs) 0.
Proof. induction 1 as [|q qs Hq _ IH]; cbn; [done|]. rewrite !Z.min_l, Z.sub_diag by done. by rewrite IH. Qed.

(** Time priority: an order is touched only when every older one is full. *)
Lemma fifo_alloc_priority available qs i j qi qj fi fj :
  0 ≤ available → nonneg qs → (i < j)%nat →
  qs !! i = Some qi → qs !! j = Some qj →
  fifo_alloc available qs !! i = Some fi → fifo_alloc available qs !! j = Some fj →
  0 < fj → fi = qi.
Proof.
  intros Ha Hq. revert available i j Ha.
  induction Hq as [|q qs Hq Hqs IH]; intros available i j Ha Hij; [done|].
  destruct j as [|j]; [lia|]. destruct i as [|i]; cbn; intros ? Hj ? Hfj Hpos; simplify_eq.
  - destruct (Z.le_gt_cases qi available); [lia|].
    rewrite Z.min_l, Z.sub_diag, fifo_alloc_zero in Hfj by (lia || done).
    apply lookup_replicate in Hfj as [-> _]. lia.
  - eapply (IH (available - Z.min available q) i j); eauto; lia.
Qed.

(** ** The floors *)

Lemma base_alloc_bounds t T qs :
  0 ≤ t ≤ T → 0 < T → nonneg qs → Forall2 (λ q f, 0 ≤ f ≤ q) qs (base_alloc t T qs).
Proof.
  intros Ht HT Hq. apply Forall2_fmap_r, Forall_Forall2_diag.
  eapply Forall_impl; [exact Hq|]. cbn. intros q Hq'. split.
  - apply Z.div_pos; nia.
  - apply Z.div_le_upper_bound; nia.
Qed.

Lemma base_alloc_cons t T q qs : base_alloc t T (q :: qs) = t * q / T :: base_alloc t T qs.
Proof. done. Qed.

Lemma base_alloc_sum t T qs : 0 < T → T * sumz (base_alloc t T qs) ≤ t * sumz qs.
Proof.
  intros HT. induction qs as [|q qs IH]; [cbn; lia|].
  rewrite base_alloc_cons, !sumz_cons. pose proof (Z.mul_div_le (t * q) T HT). lia.
Qed.

Lemma base_alloc_sum_le t T qs :
  0 < T → T = sumz qs → sumz (base_alloc t T qs) ≤ t.
Proof. intros HT HTq. pose proof (base_alloc_sum t T qs HT). subst T. nia. Qed.

(** Each floor loses less than one unit, so the residual is below the number
    of orders. *)
Lemma base_alloc_residual t T qs :
  0 < T → 0 < zlen qs → t * sumz qs - T * sumz (base_alloc t T qs) < T * zlen qs.
Proof.
  intros HT. induction qs as [|q qs IH]; [cbn; lia|]. intros _.
  rewrite base_alloc_cons, !sumz_cons, zlen_cons.
  pose proof (Z.mul_succ_div_gt (t * q) T HT).
  destruct qs as [|q' qs'].
  { unfold sumz, zlen, base_alloc. cbn [fmap list_fmap foldr length Z.of_nat]. lia. }
  assert (0 < zlen (q' :: qs')) by (rewrite zlen_cons; pose proof (zlen_nonneg qs'); lia).
  specialize (IH H0). lia.
Qed.

(** ** Raising a lower bound first-in-first-out *)

Lemma raise_bounds (qs bs : list Z) r :
  Forall2 (λ q b, 0 ≤ b ≤ q) qs bs → 0 ≤ r ≤ sumz qs - sumz bs →
  let fs := zip_with Z.add bs (fifo_alloc r (zip_with Z.sub qs bs)) in
  Forall2 (λ q f, 0 ≤ f ≤ q) qs fs ∧ Forall2 Z.le bs fs ∧ sumz fs = sumz bs + r.
Proof.
  intros H. revert r. induction H as [|q b qs bs Hqb H IH]; intros r Hr;
    cbn zeta in *; cbn [zip_with fifo_alloc] in *.
  - split_and!; [constructor..|]. cbn in *. lia.
  - rewrite !sumz_cons in *.
    pose proof (shares_sum _ _ H).
    destruct (IH (r - Z.min r (q - b))) as (H1 & H2 & H3); [lia|].
    split_and!; [constructor; [lia|done]|constructor; [lia|done]|].
    rewrite H3. lia.
Qed.

(** ** The code computes the reference *)

Definition origs (slots : list Slot) : list Z := s_orig_leaves <$> slots.
Definition allocs (slots : list Slot) : list Z := s_alloc <$> slots.

Lemma slots_total_acc slots acc :
  in_u64 acc →
  foldl (λ t s, u64 (t + s_orig_leaves s)) acc slots = u64 (acc + sumz (origs slots)).
Proof.
  revert acc. induction slots as [|s slots IH]; intros acc Hacc; cbn.
  - by rewrite Z.add_0_r, u64_small.
  - rewrite IH by apply u64_range. autorewrite with obfix. f_equal. unfold sumz, origs. lia.
Qed.

Lemma slots_total_eq slots : slots_total slots = u64 (sumz (origs slots)).
Proof. unfold slots_total. by rewrite slots_total_acc. Qed.

Lemma proportional_eq t T slots acc :
  in_u64 acc →
  ∃ ss, proportional t T slots acc = (ss, u64 (acc + sumz (base_alloc64 t T (origs slots)))) ∧
    s_o <$> ss = s_o <$> slots ∧ origs ss = origs slots ∧
    allocs ss = base_alloc64 t T (origs slots).
Proof.
  revert acc. induction slots as [|s slots IH]; intros acc Hacc; cbn [proportional].
  - exists []. cbn. by rewrite Z.add_0_r, u64_small.
  - destruct (IH (u64 (acc + u64 (t * s_orig_leaves s) / T)) (u64_range _)) as (ss & -> & H1 & H2 & H3).
    exists (set_alloc (u64 (t * s_orig_leaves s) / T) s :: ss).
    split; [|unfold origs, allocs in *; cbn; split_and!; by f_equal].
    f_equal. autorewrite with obfix. f_equal. unfold sumz, base_alloc64, origs. cbn. lia.
Qed.

Lemma zip_add_zero (bs : list Z) n : length bs = n → zip_with Z.add bs (replicate n 0) = bs.
Proof. intros <-. induction bs; cbn; [done|]. by rewrite Z.add_0_r, IHbs. Qed.

Lemma zip_sub_nonneg (qs bs : list Z) :
  Forall2 (λ q b, 0 ≤ b ≤ q) qs bs → nonneg (zip_with Z.sub qs bs).
Proof. induction 1; cbn; constructor; [lia|done]. Qed.

Lemma distribute_eq r slots :
  in_u64 r → Forall (λ s, 0 ≤ s_alloc s ≤ s_orig_leaves s ∧ s_orig_leaves s < two64) slots →
  s_o <$> distribute r slots = s_o <$> slots ∧ origs (distribute r slots) = origs slots ∧
  allocs (distribute r slots) =
    zip_with Z.add (allocs slots) (fifo_alloc r (zip_with Z.sub (origs slots) (allocs slots))).
Proof.
  intros Hr Hs. revert r Hr. induction Hs as [|s slots [Ha Ho] Hs IH]; intros r Hr; [done|].
  cbn [distribute]. destruct (Z.eqb_spec r 0) as [->|Hne].
  - split_and!; [done..|]. rewrite fifo_alloc_zero.
    + rewrite zip_add_zero; [done|]. unfold origs, allocs.
      by rewrite length_zip_with, !length_fmap, Nat.min_id.
    + apply zip_sub_nonneg. unfold origs, allocs. constructor; [lia|].
      clear -Hs. induction Hs as [|? ? []]; constructor; [lia|done].
  - unfold in_u64 in Hr. rewrite (u64_small (s_orig_leaves s - s_alloc s)) by (unfold in_u64; lia).
    set (take := Z.min (s_orig_leaves s - s_alloc s) r).
    rewrite !(u64_small (_ - take)), !(u64_small (_ + take)) by (unfold in_u64; lia).
    destruct (IH (r - take)) as (H1 & H2 & H3); [unfold in_u64; lia|].
    unfold origs, allocs in *. csimpl. rewrite H1, H2, H3. split_and!; [done..|].
    unfold take. rewrite (Z.min_comm r). done.
Qed.

(** Truncating the product only lowers a share. *)
Lemma base_alloc64_le t T qs :
  0 < T → 0 ≤ t → nonneg qs →
  Forall2 (λ b b', 0 ≤ b' ≤ b) (base_alloc t T qs) (base_alloc64 t T qs).
Proof.
  intros HT Ht Hq. unfold base_alloc, base_alloc64. apply Forall2_fmap, Forall_Forall2_diag.
  eapply Forall_impl; [exact Hq|]. cbn. intros q Hq'. unfold u64. split.
  - apply Z.div_pos; [|lia]. by apply Z.mod_pos_bound.
  - apply Z.div_le_mono; [lia|]. apply Z.mod_le; nia.
Qed.

Lemma base_alloc64_bounds t T qs :
  0 ≤ t ≤ T → 0 < T → nonneg qs → Forall2 (λ q f, 0 ≤ f ≤ q) qs (base_alloc64 t T qs).
Proof.
  intros Ht HT Hq. apply Forall2_fmap_r, Forall_Forall2_diag.
  eapply Forall_impl; [exact Hq|]. cbn. intros q Hq'. unfold u64. split.
  - apply Z.div_pos; [|lia]. by apply Z.mod_pos_bound.
  - transitivity (t * q / T); [apply Z.div_le_mono, Z.mod_le; nia|].
    apply Z.div_le_upper_bound; nia.
Qed.

Lemma sumz_le (l k : list Z) : Forall2 Z.le l k → sumz l ≤ sumz k.
Proof. induction 1; rewrite ?sumz_cons; lia. Qed.

Lemma base_alloc64_sum_le t T qs :
  0 < T → 0 ≤ t → nonneg qs → T = sumz qs → 0 ≤ sumz (base_alloc64 t T qs) ≤ t.
Proof.
  intros HT Ht Hq HTq. pose proof (base_alloc64_le t T qs HT Ht Hq) as Hle. split.
  - apply sumz_nonneg. clear -Hle. induction Hle; constructor; [lia|done].
  - transitivity (sumz (base_alloc t T qs)); [|by apply base_alloc_sum_le].
    apply sumz_le. clear -Hle. induction Hle; constructor; [lia|done].
Qed.

Lemma prorata_alloc64_admissible available qs :
  0 ≤ available → nonneg qs → 0 < sumz qs →
  admissible available qs (prorata_alloc64 available qs).
Proof.
  intros Ha Hq HT. unfold prorata_alloc64.
  set (T := sumz qs) in *. set (t := Z.min available T).
  pose proof (base_alloc64_sum_le t T qs HT ltac:(lia) Hq eq_refl).
  destruct (raise_bounds qs (base_alloc64 t T qs) (t - sumz (base_alloc64 t T qs)))
    as (H1 & _ & H2); [apply base_alloc64_bounds; [lia..|done]|fold T; lia|].
  split; [done|]. rewrite H2. fold T. lia.
Qed.

Lemma allocate_eq slots available :
  nonneg (origs slots) → 0 < sumz (origs slots) < two64 → 0 < available < two64 →
  ∃ ss, allocate slots available = Some ss ∧ s_o <$> ss = s_o <$> slots ∧
    origs ss = origs slots ∧ allocs ss = prorata_alloc64 available (origs slots).
Proof.
  intros Hq HT Ha. unfold allocate, prorata_alloc64.
  rewrite slots_total_eq, u64_small by (unfold in_u64; lia).
  set (T := sumz (origs slots)) in *. set (t := Z.min available T).
  destruct (Z.eqb_spec T 0), (Z.eqb_spec available 0); [lia..|]. cbn.
  destruct (proportional_eq t T slots 0) as (ss & -> & H1 & H2 & H3); [unfold in_u64; lia|].
  pose proof (base_alloc64_sum_le t T (origs slots) ltac:(lia) ltac:(lia) Hq eq_refl).
  rewrite (u64_small (0 + _)), u64_small, Z.add_0_l by (unfold in_u64; lia).
  eexists. split; [done|]. rewrite <- H1, <- H3, <- H2.
  apply distribute_eq; [unfold in_u64; rewrite H3; lia|].
  assert (Forall2 (λ q f, 0 ≤ f ≤ q) (origs ss) (allocs ss)) as Hb.
  { rewrite H2, H3. apply base_alloc64_bounds; [lia..|done]. }
  assert (Forall (λ q, q < two64) (origs ss)) as Hm.
  { apply Forall_forall. rewrite H2. intros q Hin.
    pose proof (sumz_elem_le _ _ Hq Hin). fold T in H0. lia. }
  clear -Hb Hm. induction ss as [|s ss IH]; constructor.
  - inversion_clear Hb. inversion_clear Hm. lia.
  - inversion_clear Hb. inversion_clear Hm. auto.
Qed.

Lemma allocate_None slots available :
  sumz (origs slots) = 0 ∨ available = 0 → allocate slots available = None.
Proof.
  unfold allocate. rewrite slots_total_eq. intros [-> | ->]; cbn; [done|].
  by rewrite orb_true_r.
Qed.

Lemma base_alloc64_exact t T qs :
  0 ≤ t → Forall (λ q, 0 ≤ q ∧ t * q < two64) qs → base_alloc64 t T qs = base_alloc t T qs.
Proof.
  intros Ht. induction 1 as [|q qs [Hq Hm] _ IH]; [done|].
  unfold base_alloc64, base_alloc in *. csimpl. rewrite IH, u64_small; [done|].
  unfold in_u64. nia.
Qed.

Lemma admissible_full available qs fs :
  sumz qs ≤ available → admissible available qs fs → fs = qs.
Proof.
  intros Ha [Hb Hs]. rewrite Z.min_r in Hs by done. clear Ha.
  induction Hb as [|q f qs fs Hqf Hb IH]; [done|]. rewrite !sumz_cons in Hs.
  pose proof (shares_sum _ _ Hb).
  f_equal; [lia|]. apply IH. lia.
Qed.

Lemma alloc_of_admissible algo available qs :
  0 ≤ available → nonneg qs → 0 < sumz qs → admissible available qs (alloc_of algo available qs).
Proof.
  destruct algo; cbn; [apply prorata_alloc64_admissible|]. intros. by apply fifo_alloc_admissible.
Qed.

Lemma prorata_alloc_fair available qs :
  0 ≤ available → nonneg qs → 0 < sumz qs →
  let T := sumz qs in
  let t := Z.min available T in
  Forall2 (λ q f, f ≤ q) qs (prorata_alloc available qs) ∧
  Forall2 Z.le (base_alloc t T qs) (prorata_alloc available qs) ∧
  sumz (prorata_alloc available qs) = t ∧
  0 ≤ t - sumz (base_alloc t T qs) < zlen qs.
Proof.
  intros Ha Hq HT T t. unfold prorata_alloc. fold T. fold t.
  pose proof (base_alloc_sum_le t T qs HT eq_refl) as Hsum.
  destruct (raise_bounds qs (base_alloc t T qs) (t - sumz (base_alloc t T qs))) as (H1 & H2 & H3).
  { apply base_alloc_bounds; [lia..|done]. }
  { fold T. lia. }
  split_and!; [|done|rewrite H3; lia|lia|].
  - eapply Forall2_impl; [exact H1|]. cbn. lia.
  - assert (0 < zlen qs) as Hn.
    { destruct qs; [cbn in HT; lia|]. rewrite zlen_cons. pose proof (zlen_nonneg qs). lia. }
    pose proof (base_alloc_residual t T qs HT Hn). fold T in H. nia.
Qed.

Lemma alloc_of_full algo available qs :
  nonneg qs → 0 < sumz qs ≤ available → alloc_of algo available qs = qs.
Proof.
  intros Hq [HT Ha]. eapply admissible_full; [exact Ha|]. apply alloc_of_admissible; [lia|done|done].
Qed.

Lemma allocate_exact slots available :
  nonneg (origs slots) → 0 < sumz (origs slots) < two64 → 0 < available < two64 →
  Forall (λ q, Z.min available (sumz (origs slots)) * q < two64) (origs slots) →
  ∃ ss, allocate slots available = Some ss ∧
    allocs ss = prorata_alloc available (origs slots).
Proof.
  intros Hq HT Ha Hm. destruct (allocate_eq slots available Hq HT Ha) as (ss & H1 & _ & _ & H3).
  exists ss. split; [done|]. rewrite H3. unfold prorata_alloc64, prorata_alloc.
  rewrite base_alloc64_exact; [done|lia|]. apply Forall_and. done.
Qed.

(** ** Properties of the allocation *)

(** C15: pro-rata conservation. On a level whose sizes add up below 2^64, the
    coded allocation fills exactly [min(available, total)], never gives an
    order more than its size, and keeps the snapshot's orders and sizes, even
    when the 64-bit product [to_fill * size] wraps around. *)
Theorem allocate_conserves slots available :
  nonneg (origs slots) → 0 < sumz (origs slots) < two64 → 0 < available < two64 →
  ∃ ss, allocate slots available = Some ss ∧ s_o <$> ss = s_o <$> slots ∧
    admissible available (origs slots) (allocs ss).
Proof.
  intros Hq HT Ha. destruct (allocate_eq slots available Hq HT Ha) as (ss & H1 & H2 & _ & H3).
  exists ss. split_and!; [done..|]. rewrite H3. apply prorata_alloc64_admissible; [lia|done|lia].
Qed.

Lemma allocate_conserves_witness :
  ∃ ss, allocate [mkSlot 1 100 0; mkSlot 2 200 0; mkSlot 3 300 0] 500 = Some ss ∧
    s_o <$> ss = [1; 2; 3]%positive ∧ admissible 500 [100; 200; 300] (allocs ss).
Proof.
  apply (allocate_conserves [mkSlot 1 100 0; mkSlot 2 200 0; mkSlot 3 300 0] 500).
  - decided.
  - cbn. lia.
  - lia.
Defined.

(** C14: the allocation is the documented one. When the products
    [to_fill * size] fit in 64 bits, the code allocates
    [floor(to_fill * size / total)] to each order and then the residual
    oldest-first over remaining capacity. *)
Theorem allocate_is_prorata slots available :
  nonneg (origs slots) → 0 < sumz (origs slots) < two64 → 0 < available < two64 →
  Forall (λ q, Z.min available (sumz (origs slots)) * q < two64) (origs slots) →
  ∃ ss, allocate slots available = Some ss ∧
    allocs ss = prorata_alloc available (origs slots).
Proof. apply allocate_exact. Qed.

Lemma allocate_is_prorata_witness :
  ∃ ss, allocate [mkSlot 1 100 0; mkSlot 2 200 0; mkSlot 3 300 0] 500 = Some ss ∧
    allocs ss = [84; 166; 250].
Proof.
  apply (allocate_is_prorata [mkSlot 1 100 0; mkSlot 2 200 0; mkSlot 3 300 0] 500).
  - decided.
  - cbn. lia.
  - lia.
  - decided.
Defined.

(** C25: fairness of the coded pro-rata allocation, when the products fit in 64
    bits: every order gets at least the floor of its proportional share and at
    most its size, and the rounding residual handed out first-in-first-out is
    smaller than the number of orders at the level. *)
Theorem prorata_fair slots available :
  nonneg (origs slots) → 0 < sumz (origs slots) < two64 → 0 < available < two64 →
  Forall (λ q, Z.min available (sumz (origs slots)) * q < two64) (origs slots) →
  let T := sumz (origs slots) in
  let t := Z.min available T in
  ∃ ss, allocate slots available = Some ss ∧
    Forall2 (λ q f, t * q / T ≤ f ≤ q) (origs slots) (allocs ss) ∧
    0 ≤ t - sumz (base_alloc t T (origs slots)) < zlen slots.
Proof.
  intros Hq HT Ha Hm T t. destruct (allocate_exact slots available Hq HT Ha Hm) as (ss & H1 & H3).
  exists ss. split; [done|]. rewrite H3. set (qs := origs slots) in *.
  destruct (prorata_alloc_fair available qs) as (F1 & F2 & _ & F3); [lia|done|lia|].
  split.
  - unfold base_alloc in F2. rewrite Forall2_fmap_l in F2. exact (Forall2_and_intro _ _ _ _ F2 F1).
  - assert (zlen qs = zlen slots) as <-; [|exact F3].
    unfold zlen, qs, origs. by rewrite length_fmap.
Qed.

Lemma prorata_fair_witness :
  ∃ ss, allocate [mkSlot 1 7 0; mkSlot 2 7 0; mkSlot 3 7 0] 11 = Some ss ∧
    Forall2 (λ q f, 11 * q / 21 ≤ f ≤ q) [7; 7; 7] (allocs ss) ∧
    0 ≤ 11 - sumz (base_alloc 11 21 [7; 7; 7]) < 3.
Proof.
  apply (prorata_fair [mkSlot 1 7 0; mkSlot 2 7 0; mkSlot 3 7 0] 11);
    [decided|cbn; lia|lia|decided].
Defined.

(** The proportional share is lost when the 64-bit product wraps. Two
    equal orders of 2^32 and an aggressor of 2^32: the older one is given
    everything, where the documented algorithm gives each one half. *)
Theorem prorata_product_overflow :
  allocs <$> allocate [mkSlot 1 4294967296 0; mkSlot 2 4294967296 0] 4294967296
    = Some [4294967296; 0] ∧
  prorata_alloc 4294967296 [4294967296; 4294967296] = [2147483648; 2147483648].
Proof. split; reflexivity. Qed.

(** Conservation is lost when the sizes of a level add up past 2^64: an
    aggressor of one unit is allocated 2^64 - 1 units of one order and two of
    the other. *)
Theorem prorata_total_overflow :
  allocs <$> allocate [mkSlot 1 18446744073709551615 0; mkSlot 2 2 0] 1
    = Some [18446744073709551615; 2].
Proof. reflexivity. Qed.
