(* ===== verification/Matcher.v ===== *)
(** * The matching engine

    Models [src/core/matcher.h] and [src/core/matcher.cpp]: filling one price
    level by either algorithm, walking the opposite side, sweeping filled
    orders and resting the remainder. The code works on the object store:
    [Order&] parameters are addresses, and the level a callback receives is the
    one in the book's map. *)

From S2P Require Import Prelude Types PriceLevel SortedMap OrderBook ProRata.

Definition crosses (aggr_side : Side) (aggr_price level_price : Price) : bool :=
  if is_buy aggr_side then level_price <=? aggr_price else level_price >=? aggr_price.

Definition mk_trade (aggr resting : Order) (px : Price) (q : Quantity) : Event :=
  ETrade (mkTrade (o_id aggr) (o_id resting) (o_clord aggr) (o_clord resting) px q (o_side aggr)).

Definition emit_trade (out : EventList) (aggr resting : Order) (px : Price) (q : Quantity) :
    EventList := out ++ [mk_trade aggr resting px q].

(** Following [next] pointers from [cur]; a cyclic list never ends. *)
Fixpoint snapshot (fuel : nat) (h : heap) (cur : option loc) : res (list Slot) :=
  match cur with
  | None => Ok []
  | Some l =>
      match fuel with
      | O => Hang
      | S fuel =>
          let! o := deref h l in
          let! slots := snapshot fuel h (o_next o) in
          Ok (mkSlot l (o_leaves o) 0 :: slots)
      end
  end.

(** A list without cycles has at most as many nodes as the store. *)
Definition list_fuel (h : heap) : nat := S (size h).

Definition take_from (q : Quantity) (o : Order) : Order := set_leaves (u64 (o_leaves o - q)) o.

(** Step 3 of the pro-rata pass: the loop over the slots with its running
    [filled] and [level_delta]. *)
Fixpoint apply_slots (aggr : loc) (px : Price) (slots : list Slot)
    (h : heap) (out : EventList) (filled delta : Z) : res (heap * EventList * Z * Z) :=
  match slots with
  | [] => Ok (h, out, filled, delta)
  | s :: slots =>
      if s_alloc s =? 0 then apply_slots aggr px slots h out filled delta
      else
        let! a := deref h aggr in
        let! r := deref h (s_o s) in
        let out := emit_trade out a r px (s_alloc s) in
        let! h := store h (s_o s) (take_from (s_alloc s)) in
        let! delta := sub_i64 delta (i64_of_u64 (s_alloc s)) in
        apply_slots aggr px slots h out (u64 (filled + s_alloc s)) delta
  end.

Definition fill_level_prorata (lv : PriceLevel) (aggr : loc) (level_price : Price)
    (available : Quantity) (h : heap) (out : EventList) :
    res (Quantity * PriceLevel * heap * EventList) :=
  let! slots := snapshot (list_fuel h) h (head_ lv) in
  match allocate slots available with
  | None => Ok (0, lv, h, out)
  | Some slots =>
      let! '(h, out, filled, delta) := apply_slots aggr level_price slots h out 0 0 in
      let! lv := note_qty_delta delta lv in
      let! h := store h aggr (take_from filled) in
      Ok (filled, lv, h, out)
  end.

Fixpoint fifo_loop (fuel : nat) (aggr : loc) (px : Price) (available : Quantity)
    (cur : option loc) (h : heap) (out : EventList) (filled delta : Z) :
    res (heap * EventList * Z * Z) :=
  match cur with
  | None => Ok (h, out, filled, delta)
  | Some l =>
      if negb (filled <? available) then Ok (h, out, filled, delta)
      else
        match fuel with
        | O => Hang
        | S fuel =>
            let! o := deref h l in
            let q := Z.min (u64 (available - filled)) (o_leaves o) in
            if q =? 0 then fifo_loop fuel aggr px available (o_next o) h out filled delta
            else
              let! a := deref h aggr in
              let out := emit_trade out a o px q in
              let! h := store h l (take_from q) in
              let! delta := sub_i64 delta (i64_of_u64 q) in
              fifo_loop fuel aggr px available (o_next o) h out (u64 (filled + q)) delta
        end
  end.

Definition fill_level_fifo (lv : PriceLevel) (aggr : loc) (level_price : Price)
    (available : Quantity) (h : heap) (out : EventList) :
    res (Quantity * PriceLevel * heap * EventList) :=
  let! '(h, out, filled, delta) :=
    fifo_loop (list_fuel h) aggr level_price available (head_ lv) h out 0 0 in
  let! lv := note_qty_delta delta lv in
  let! h := store h aggr (take_from filled) in
  Ok (filled, lv, h, out).

(** What the lambdas of the matcher capture by reference. *)
Record MState := mkM { m_book : OrderBook; m_heap : heap; m_out : EventList }.
Definition put_book (b : OrderBook) (s : MState) : MState := mkM b (m_heap s) (m_out s).

(** The lambda [on_level] of [match_aggressive]; [opp] is the side walked. *)
Definition on_level (algo : MatchAlgo) (aggr : loc) (opp : bool) (level_price : Price)
    (s : MState) : res (bool * MState) :=
  let! a := deref (m_heap s) aggr in
  if o_leaves a =? 0 then Ok (false, s)
  else if negb (crosses (o_side a) (o_price a) level_price) then Ok (false, s)
  else
    match smap_find level_price (levels opp (m_book s)) with
    | None => Undef
    | Some lv =>
        let fill := match algo with ProRata => fill_level_prorata | Fifo => fill_level_fifo end in
        let! '(_, lv, h, out) := fill lv aggr level_price (o_leaves a) (m_heap s) (m_out s) in
        let b := set_levels opp (smap_set (cmp opp) level_price lv (levels opp (m_book s)))
                   (m_book s) in
        let! a := deref h aggr in
        Ok (o_leaves a >? 0, mkM b h out)
    end.

Definition match_aggressive (algo : MatchAlgo) (aggr : loc) (s : MState) : res MState :=
  let! a := deref (m_heap s) aggr in
  let opp := negb (is_buy (o_side a)) in
  walk m_book put_book opp (on_level algo aggr opp) s.

(** The [while] loop of the lambda [sweep]. *)
Fixpoint sweep_loop (fuel : nat) (cur : option loc) (s : MState) : res MState :=
  match cur with
  | None => Ok s
  | Some l =>
      match fuel with
      | O => Hang
      | S fuel =>
          let! o := deref (m_heap s) l in
          let next := o_next o in
          if o_leaves o =? 0 then
            let! '(b, h) := remove l (m_book s) (m_heap s) in
            sweep_loop fuel next (mkM b h (m_out s))
          else sweep_loop fuel next s
      end
  end.
Definition sweep (opp : bool) (level_price : Price) (s : MState) : res (bool * MState) :=
  match smap_find level_price (levels opp (m_book s)) with
  | None => Undef
  | Some lv =>
      let! s := sweep_loop (list_fuel (m_heap s)) (head_ lv) s in
      Ok (true, s)
  end.

(** [Matcher::submit]. [incoming] is the address the [unique_ptr] owns: the
    order is freed at the end unless it was moved into the book. *)
Definition submit (algo : MatchAlgo) (raw : loc) (s : MState) : res MState :=
  let! o := deref (m_heap s) raw in
  let s := mkM (m_book s) (m_heap s) (m_out s ++ [EAck (mkAck (o_id o) (o_clord o))]) in
  let! s := match_aggressive algo raw s in
  let! o := deref (m_heap s) raw in
  let opp := negb (is_buy (o_side o)) in
  let! s := walk m_book put_book opp (sweep opp) s in
  let! o := deref (m_heap s) raw in
  if o_leaves o >? 0 then
    let! '(b, h) := rest raw (m_book s) (m_heap s) in
    Ok (mkM b h (m_out s))
  else Ok (mkM (m_book s) (delete raw (m_heap s)) (m_out s)).

(** The object: its one member is the algorithm, which can be changed between
    two submissions. *)
Record Matcher := mkMatcher { algo_ : MatchAlgo }.
Definition set_algo (a : MatchAlgo) (m : Matcher) : Matcher := mkMatcher a.
Definition algo (m : Matcher) : MatchAlgo := algo_ m.

(** ** Running the model *)

Definition new_order (id : OrderId) (c : bytes) (sd : Side) (px q : Z) : Order :=
  mkOrder id 0 c sd Limit px q q 0 None None.

(** Submits freshly allocated orders one after the other. Addresses are never
    reused: a pointer to a freed object stays dangling whatever the allocator
    does later. *)
Fixpoint run_orders (algo : MatchAlgo) (next : loc) (os : list Order) (s : MState) : res MState :=
  match os with
  | [] => Ok s
  | o :: os =>
      let! s := submit algo next (mkM (m_book s) (<[next := o]> (m_heap s)) (m_out s)) in
      run_orders algo (Pos.succ next) os s
  end.

Definition init_state : MState := mkM (new_book (B "SYM")) ∅ [].

Definition trade_qtys (out : EventList) : list (Z * Z) :=
  omap (λ e, match e with ETrade t => Some (t_resting_id t, t_qty t) | _ => None end) out.
