(* ===== verification/FillProps.v ===== *)
(** * Filling one price level

    [fill_level_prorata] and [fill_level_fifo] on a well-formed level: they
    terminate without undefined behaviour, give each resting order the share
    [alloc_of] computes, emit one trade per non-zero share in time order, and
    leave the level well-formed with its cached total in step. *)

From S2P Require Import Prelude Types PriceLevel SortedMap OrderBook ProRata Matcher.

(** The queue and the trades after giving [fs] to the orders of [es]. *)
Definition fill_entry (e : entry) (f : Z) : entry := (e.1, set_leaves (o_leaves e.2 - f) e.2).
Definition fill_entries (es : list entry) (fs : list Z) : list entry := zip_with fill_entry es fs.
Fixpoint fill_trades (a : Order) (px : Price) (es : list entry) (fs : list Z) : EventList :=
  match es, fs with
  | e :: es, f :: fs =>
      (if f =? 0 then [] else [mk_trade a e.2 px f]) ++ fill_trades a px es fs
  | _, _ => []
  end.

Lemma set_leaves_id a : set_leaves (o_leaves a) a = a.
Proof. by destruct a. Qed.
Lemma fill_entry_zero e : fill_entry e 0 = e.
Proof. destruct e as [l a]. unfold fill_entry. cbn. by rewrite Z.sub_0_r, set_leaves_id. Qed.

Lemma fill_entries_zero es : fill_entries es (replicate (length es) 0) = es.
Proof. induction es; cbn; [done|]. rewrite fill_entry_zero. by f_equal. Qed.
Lemma fill_trades_zero a px es n : fill_trades a px es (replicate n 0) = [].
Proof. revert n. induction es; intros [|n]; cbn; auto. Qed.

Lemma fill_entries_locs es fs : length fs = length es → (fill_entries es fs).*1 = es.*1.
Proof.
  revert fs. induction es as [|e es IH]; intros [|f fs]; cbn; try done.
  intros [= ?]. f_equal. by apply IH.
Qed.
Lemma first_fill_entries es fs : length fs = length es → first (fill_entries es fs) = first es.
Proof. by destruct es, fs. Qed.
Lemma final_fmap es : final es = last es.*1.
Proof. unfold final. by rewrite fmap_last. Qed.

Lemma fill_entries_leaves es fs :
  leaves_of (fill_entries es fs) = zip_with Z.sub (leaves_of es) fs.
Proof.
  revert fs. induction es as [|e es IH]; intros [|f fs]; cbn; [done..|]. by rewrite <- IH.
Qed.
Lemma sumz_zip_sub (qs fs : list Z) :
  length fs = length qs → sumz (zip_with Z.sub qs fs) = sumz qs - sumz fs.
Proof.
  revert fs. induction qs as [|q qs IH]; intros [|f fs]; cbn; try done.
  intros [= ?]. rewrite IH by done. unfold sumz. lia.
Qed.

Lemma dseg_length h p es n : NoDup es.*1 → dseg h p es n → (length es ≤ size h)%nat.
Proof.
  intros Hnd Hd. rewrite <- (length_fmap fst es), <- size_dom.
  rewrite <- (size_list_to_set (C := gset loc) es.*1 Hnd).
  apply subseteq_size. intros l. rewrite elem_of_list_to_set, elem_of_dom. by eapply dseg_dom.
Qed.

Lemma fill_entries_full es : Forall (λ e : entry, o_leaves e.2 = 0) (fill_entries es (leaves_of es)).
Proof. induction es as [|e es IH]; cbn; constructor; [cbn; lia|done]. Qed.
Lemma fill_entries_lookup es fs i e' :
  fill_entries es fs !! i = Some e' → ∃ e f, es !! i = Some e ∧ fs !! i = Some f ∧ e' = fill_entry e f.
Proof. intros (e & f & -> & ? & ?)%lookup_zip_with_Some. eauto. Qed.
Lemma leaves_of_lookup es i : leaves_of es !! i = (o_leaves ∘ snd) <$> es !! i.
Proof. apply list_lookup_fmap. Qed.

Definition slot_of (e : entry) : Slot := mkSlot e.1 (o_leaves e.2) 0.

Lemma snapshot_spec fuel h p es :
  (length es ≤ fuel)%nat → dseg h p es None →
  snapshot fuel h (first es) = Ok (slot_of <$> es).
Proof.
  revert fuel p. induction es as [|[l a] es IH]; intros fuel p Hf Hd; [by destruct fuel|].
  destruct fuel as [|fuel]; [cbn in Hf; lia|]. cbn in Hd. destruct Hd as [Hl Hd].
  cbn. rewrite (deref_Some _ _ _ Hl). cbn. rewrite or_else_None_r.
  rewrite (IH fuel (Some l)); [done|cbn in Hf; lia|done].
Qed.

Lemma origs_slots es : origs (slot_of <$> es) = leaves_of es.
Proof. unfold origs, leaves_of. rewrite <- list_fmap_compose. done. Qed.

Lemma mk_trade_link ao p n a px q : mk_trade ao (link p n a) px q = mk_trade ao a px q.
Proof. done. Qed.

Lemma take_from_link f p n a :
  0 ≤ f ≤ o_leaves a → o_leaves a < two64 →
  take_from f (link p n a) = link p n (set_leaves (o_leaves a - f) a).
Proof. intros. unfold take_from. cbn. by rewrite u64_small by (unfold in_u64; lia). Qed.

(** One fill of the head of a segment, then the rest of the segment. *)
Lemma dseg_fill_head (h' : heap) p l a es es' n f :
  l ∉ es.*1 → h' !! l = Some (link p (or_else (first es) n) (set_leaves (o_leaves a - f) a)) →
  first es' = first es → dseg h' (Some l) es' n →
  dseg h' p (fill_entry (l, a) f :: es') n.
Proof. intros Hl Hh Hf Hd. cbn. by rewrite Hf. Qed.

(** After the head of a segment has been filled and the rest processed. *)
Lemma fill_step_post h h' p n l a es f fs :
  h !! l = Some (link p (or_else (first es) n) a) → l ∉ es.*1 → length fs = length es →
  dseg h' (Some l) (fill_entries es fs) n →
  same_outside es.*1 (<[l := link p (or_else (first es) n) (set_leaves (o_leaves a - f) a)]> h) h' →
  dseg h' p (fill_entries ((l, a) :: es) (f :: fs)) n ∧ same_outside ((l, a) :: es).*1 h h'.
Proof.
  intros Hlk Hl Hlen Hd Hso. split.
  - eapply dseg_fill_head; [done| |by apply first_fill_entries|done].
    destruct Hso as [_ Hso]. rewrite Hso by done. apply lookup_insert_eq.
  - eapply same_outside_trans; [eapply same_outside_insert; [exact Hlk|set_solver]|].
    eapply same_outside_weaken; [|exact Hso]. set_solver.
Qed.

(** A fill of nothing does not touch the store. *)
Lemma fill_step_zero (h : heap) p n l a :
  h !! l = Some (link p n a) → <[l := link p n (set_leaves (o_leaves a - 0) a)]> h = h.
Proof. intros Hlk. rewrite Z.sub_0_r, set_leaves_id. by apply insert_id. Qed.

Notation fits es := (Forall (λ q, 0 ≤ q) (leaves_of es)).

Section loops.
Context (aggr : loc) (ao : Order) (px : Price).

Lemma apply_slots_spec es fs ss h p n out filled :
  s_o <$> ss = es.*1 → allocs ss = fs → NoDup es.*1 → aggr ∉ es.*1 → h !! aggr = Some ao →
  dseg h p es n → Forall2 (λ q f, 0 ≤ f ≤ q) (leaves_of es) fs →
  0 ≤ filled → filled + sumz (leaves_of es) < two63 →
  ∃ h', apply_slots aggr px ss h out filled (- filled) =
      Ok (h', out ++ fill_trades ao px es fs, filled + sumz fs, - (filled + sumz fs)) ∧
    dseg h' p (fill_entries es fs) n ∧ same_outside es.*1 h h'.
Proof.
  revert fs ss h p out filled.
  induction es as [|[l a] es IH]; intros fs ss h p out filled Hss Hal Hnd Hag Ha Hd Hb H0 Hm.
  - destruct ss; [|done]. apply Forall2_nil_inv_l in Hb. subst fs. rewrite Hb. cbn.
    exists h. rewrite app_nil_r, Z.add_0_r. by split_and!.
  - destruct ss as [|s ss]; [done|]. injection Hss as Hs Hss. cbn in Hs, Hd.
    destruct fs as [|f fs]; [done|]. injection Hal as Hf Hal.
    rewrite leaves_of_cons in Hb. apply Forall2_cons in Hb as [Hfb Hb]. cbn in Hfb.
    apply NoDup_cons in Hnd as [Hl Hnd]. cbn in Hl. destruct Hd as [Hlk Hd].
    rewrite leaves_of_cons, sumz_cons in Hm. cbn [snd] in Hm.
    assert (length fs = length es) as Hlen.
    { apply Forall2_length in Hb. by rewrite leaves_of_length in Hb. }
    assert (0 ≤ sumz (leaves_of es)) as Hnn.
    { apply sumz_nonneg. clear -Hb. induction Hb; constructor; [lia|done]. }
    cbn [apply_slots]. rewrite Hf, Hs. destruct (Z.eqb_spec f 0) as [->|Hne].
    + destruct (IH fs ss h (Some l) out filled) as (h' & He & Hd' & Hso); try done; [set_solver|lia|].
      exists h'. rewrite He, sumz_cons. split; [done|]. apply fill_step_post; try done. by rewrite fill_step_zero.
    + rewrite (deref_Some _ _ _ Ha). cbn [rbind]. rewrite (deref_Some _ _ _ Hlk). cbn [rbind].
      rewrite (store_Some _ _ _ _ Hlk). cbn [rbind].
      rewrite take_from_link by lia.
      rewrite i64_of_u64_small, sub_i64_ok by lia. cbn [rbind].
      rewrite u64_small by (unfold in_u64; lia).
      set (h1 := <[l := _]> h). replace (- filled - f) with (- (filled + f)) by lia.
      destruct (IH fs ss h1 (Some l) (emit_trade out ao (link p (or_else (first es) n) a) px f) (filled + f))
        as (h' & He & Hd' & Hso); try done; [set_solver|..|lia|lia|].
      { unfold h1. rewrite lookup_insert_ne; [done|set_solver]. }
      { by apply dseg_insert_ne. }
      exists h'. rewrite He, sumz_cons. cbn [fill_trades].
      destruct (Z.eqb_spec f 0); [done|]. split; [|by apply fill_step_post].
      rewrite <- Z.add_assoc. unfold emit_trade. rewrite <- app_assoc, mk_trade_link. done.
Qed.

Lemma fifo_loop_full es fuel h p out available filled :
  dseg h p es None → fits es → available ≤ filled →
  let fs := fifo_alloc 0 (leaves_of es) in
  fifo_loop fuel aggr px available (first es) h out filled (- filled) =
    Ok (h, out ++ fill_trades ao px es fs, filled + sumz fs, - (filled + sumz fs)) ∧
  dseg h p (fill_entries es fs) None.
Proof.
  intros Hd Hq Hge fs. subst fs. rewrite fifo_alloc_zero, leaves_of_length, fill_trades_zero, app_nil_r by done.
  rewrite sumz_replicate, Z.add_0_r, fill_entries_zero. split; [|done].
  destruct es as [|[l a] es]; [by destruct fuel|]. destruct fuel; cbn [fifo_loop first head fmap option_fmap option_map fst];
    by destruct (Z.ltb_spec filled available); [lia|].
Qed.

Lemma fifo_loop_spec es fuel h p out available filled :
  (length es ≤ fuel)%nat → NoDup es.*1 → aggr ∉ es.*1 → h !! aggr = Some ao →
  dseg h p es None → fits es → in_u64 available → 0 ≤ filled ≤ available →
  filled + sumz (leaves_of es) < two63 →
  let fs := fifo_alloc (available - filled) (leaves_of es) in
  ∃ h', fifo_loop fuel aggr px available (first es) h out filled (- filled) =
      Ok (h', out ++ fill_trades ao px es fs, filled + sumz fs, - (filled + sumz fs)) ∧
    dseg h' p (fill_entries es fs) None ∧ same_outside es.*1 h h'.
Proof.
  revert fuel h p out filled.
  induction es as [|[l a] es IH]; intros fuel h p out filled Hfu Hnd Hag Ha Hd Hq Hav H0 Hm fs.
  - exists h. unfold fs. rewrite app_nil_r, Z.add_0_r. by destruct fuel.
  - unfold in_u64 in Hav. destruct fuel as [|fuel]; [cbn in Hfu; lia|].
    destruct (Z.le_gt_cases available filled) as [Hge|Hlt].
    { assert (available - filled = 0) as Hz by lia. exists h. subst fs. rewrite Hz.
      destruct (fifo_loop_full ((l, a) :: es) (S fuel) h p out available filled Hd Hq Hge). by split_and!. }
    rewrite leaves_of_cons in *. rewrite sumz_cons in Hm. cbn [snd] in *.
    apply Forall_cons in Hq as [Hqa Hq]. pose proof (sumz_nonneg _ Hq) as Hnn.
    apply NoDup_cons in Hnd as [Hl Hnd]. cbn in Hl, Hd. destruct Hd as [Hlk Hd].
    cbn [fifo_loop first head fmap option_fmap option_map fst].
    destruct (Z.ltb_spec filled available); [|lia]. cbn [negb].
    + rewrite (deref_Some _ _ _ Hlk). cbn [rbind].
      rewrite u64_small by (unfold in_u64; lia).
      change (o_leaves (link p (or_else (first es) None) a)) with (o_leaves a).
      change (o_next (link p (or_else (first es) None) a)) with (or_else (first es) None).
      rewrite or_else_None_r in *. subst fs. rewrite leaves_of_cons. cbn [fifo_alloc snd].
      set (q := Z.min (available - filled) (o_leaves a)).
      cbn [fill_trades snd]. cbn [fill_entries zip_with]. rewrite sumz_cons.
      assert (length (fifo_alloc (available - filled - q) (leaves_of es)) = length es) as Hlen
        by (rewrite fifo_alloc_length; apply leaves_of_length).
      destruct (Z.eqb_spec q 0) as [Hq0|Hq0].
      * destruct (IH fuel h (Some l) out filled) as (h' & He & Hd' & Hso); try done;
          [cbn in Hfu; lia|set_solver|lia|].
        rewrite Hq0 in *. rewrite !Z.sub_0_r in *. exists h'. rewrite He. split; [done|].
        apply fill_step_post; try done; rewrite or_else_None_r; [done|]. by rewrite fill_step_zero.
      * rewrite (deref_Some _ _ _ Ha). cbn [rbind].
        rewrite (store_Some _ _ _ _ Hlk). cbn [rbind]. rewrite take_from_link by lia.
        rewrite i64_of_u64_small, sub_i64_ok by lia. cbn [rbind].
        rewrite u64_small by (unfold in_u64; lia).
        set (h1 := <[l := _]> h). replace (- filled - q) with (- (filled + q)) by lia.
        destruct (IH fuel h1 (Some l) (emit_trade out ao (link p (first es) a) px q) (filled + q))
          as (h' & He & Hd' & Hso); try done; [cbn in Hfu; lia|set_solver|..|lia|lia|].
        { unfold h1. rewrite lookup_insert_ne; [done|set_solver]. }
        { by apply dseg_insert_ne. }
        replace (available - (filled + q)) with (available - filled - q) in * by lia.
        exists h'. rewrite He. split; [|by apply fill_step_post; rewrite ?or_else_None_r].
        rewrite <- Z.add_assoc. unfold emit_trade. rewrite <- app_assoc, mk_trade_link. done.
Qed.
End loops.

Definition fill_level (algo : MatchAlgo) :=
  match algo with ProRata => fill_level_prorata | Fifo => fill_level_fifo end.

(** What a level must satisfy for the code to be free of overflow. *)
Definition level_bounded (es : list entry) : Prop :=
  fits es ∧ 0 < sumz (leaves_of es) < two63.

Lemma note_qty_delta_fill h h' lv es fs :
  level_rep h lv es → level_bounded es →
  Forall2 (λ q f, 0 ≤ f ≤ q) (leaves_of es) fs →
  dseg h' None (fill_entries es fs) None →
  ∃ lv', note_qty_delta (- sumz fs) lv = Ok lv' ∧ level_rep h' lv' (fill_entries es fs).
Proof.
  intros [(_ & Hnd & Hh & Ht & Hc) Htot] [Hf Hm] Hb Hd.
  assert (length fs = length es) as Hlen.
  { apply Forall2_length in Hb. by rewrite leaves_of_length in Hb. }
  pose proof (shares_sum _ _ Hb) as Hs.
  unfold note_qty_delta. rewrite Htot, u64_small, i64_of_u64_small, add_i64_ok by (unfold in_u64; lia).
  cbn [rbind]. eexists. split; [done|]. split; [split_and!; cbn; [done|..]|]; cbn.
  - by rewrite fill_entries_locs.
  - by rewrite first_fill_entries.
  - rewrite Ht, !final_fmap. by rewrite fill_entries_locs.
  - rewrite Hc. unfold zlen, fill_entries. by rewrite length_zip_with_l_eq.
  - f_equal. rewrite fill_entries_leaves, sumz_zip_sub; [lia|]. by rewrite leaves_of_length.
Qed.

Lemma same_outside_aggr h h1 aggr f ls ao :
  same_outside ls h h1 → aggr ∉ ls → h !! aggr = Some ao →
  store h1 aggr f = Ok (<[aggr := f ao]> h1) ∧
  same_outside (aggr :: ls) h (<[aggr := f ao]> h1).
Proof.
  intros Hs Hn Ha. assert (h1 !! aggr = Some ao) as Ha1 by (destruct Hs as [_ Hs]; by rewrite Hs).
  split; [by apply store_Some|]. eapply same_outside_trans.
  - eapply same_outside_weaken; [|exact Hs]. set_solver.
  - eapply same_outside_insert; [exact Ha1|left].
Qed.

Lemma fill_level_spec algo h lv es aggr ao px available out :
  level_rep h lv es → level_bounded es → aggr ∉ es.*1 → h !! aggr = Some ao →
  0 < available < two64 →
  let fs := alloc_of algo available (leaves_of es) in
  ∃ lv' h', fill_level algo lv aggr px available h out =
      Ok (sumz fs, lv', h', out ++ fill_trades ao px es fs) ∧
    level_rep h' lv' (fill_entries es fs) ∧
    h' !! aggr = Some (take_from (sumz fs) ao) ∧ same_outside (aggr :: es.*1) h h'.
Proof.
  intros Hl Hbd Hag Ha Hav fs. pose proof Hl as [(Hd & Hnd & Hh & _) _].
  pose proof Hbd as [Hf Hm].
  destruct (alloc_of_admissible algo available (leaves_of es)) as [Hb Hsum]; [lia|done|lia|].
  fold fs in Hb, Hsum.
  assert (length fs = length es) as Hlen.
  { apply Forall2_length in Hb. by rewrite leaves_of_length in Hb. }
  assert (length es ≤ list_fuel h)%nat as Hfu.
  { unfold list_fuel. pose proof (dseg_length _ _ _ _ Hnd Hd). lia. }
  assert (∃ h1, dseg h1 None (fill_entries es fs) None ∧ same_outside es.*1 h h1 ∧
    ∀ k, fill_level algo lv aggr px available h out = k →
    (let! lv := note_qty_delta (- sumz fs) lv in
     let! h := store h1 aggr (take_from (sumz fs)) in
     Ok (sumz fs, lv, h, out ++ fill_trades ao px es fs)) = k) as (h1 & Hd1 & Hs1 & Hk).
  { destruct algo; cbn [fill_level].
    - unfold fill_level_prorata. rewrite Hh, (snapshot_spec _ _ None es) by done. cbn [rbind].
      destruct (allocate_eq (slot_of <$> es) available) as (ss & -> & Hso & _ & Hal);
        [by rewrite origs_slots|rewrite origs_slots; lia|lia|].
      rewrite origs_slots in Hal. rewrite <- list_fmap_compose in Hso.
      destruct (apply_slots_spec aggr ao px es fs ss h None None out 0) as (h1 & He & Hd1 & Hs1);
        try done; try lia.
      change (- 0) with 0 in He. rewrite He. exists h1. split_and!; [done..|]. by intros k <-.
    - unfold fill_level_fifo. rewrite Hh.
      destruct (fifo_loop_spec aggr ao px es (list_fuel h) h None out available 0)
        as (h1 & He & Hd1 & Hs1); try done; try (unfold in_u64; lia).
      rewrite Z.sub_0_r in *. change (- 0) with 0 in He. rewrite He. exists h1. split_and!; [done..|]. by intros k <-. }
  destruct (note_qty_delta_fill h h1 lv es fs Hl Hbd Hb Hd1) as (lv' & Hn & Hlv').
  destruct (same_outside_aggr h h1 aggr (take_from (sumz fs)) es.*1 ao Hs1 Hag Ha) as [Hst Hs2].
  exists lv', (<[aggr := take_from (sumz fs) ao]> h1). split_and!.
  - rewrite <- (Hk _ eq_refl), Hn. cbn [rbind]. by rewrite Hst.
  - destruct Hlv' as [(Hd2&Hr) Ht]. split; [split; [|done]|done].
    apply dseg_insert_ne; [|done]. by rewrite fill_entries_locs.
  - apply lookup_insert_eq.
  - done.
Qed.
