(* ===== verification/MatchSpec.v ===== *)
(** * Abstract matching

    What [Matcher::submit] promises on the abstract book, as total functions
    on queues of orders: no pointers, no index, no fuel. [MatchProps] proves
    that the code computes these functions. *)

From S2P Require Import Prelude Types PriceLevel SortedMap OrderBook BookRep ProRata Matcher FillProps.

(** Walking the opposite side best price first. The result is the side after
    the fills, the trades, and the aggressor with what it has left. *)
Fixpoint match_levels (algo : MatchAlgo) (a : Order) (m : smap (list entry)) :
    smap (list entry) * EventList * Order :=
  match m with
  | [] => ([], [], a)
  | (p, []) :: m' => match_levels algo a m'
  | (p, es) :: m' =>
      if o_leaves a =? 0 then (m, [], a)
      else if negb (crosses (o_side a) (o_price a) p) then (m, [], a)
      else
        let fs := alloc_of algo (o_leaves a) (leaves_of es) in
        let a' := set_leaves (o_leaves a - sumz fs) a in
        let trades := fill_trades a p es fs in
        if o_leaves a' >? 0 then
          let '(m', trades', a'') := match_levels algo a' m' in
          ((p, fill_entries es fs) :: m', trades ++ trades', a'')
        else ((p, fill_entries es fs) :: m', trades, a')
  end.

Definition sweep_queue (es : list entry) : list entry := filter (λ e, o_leaves e.2 ≠ 0) es.
Fixpoint sweep_levels (m : smap (list entry)) : smap (list entry) :=
  match m with
  | [] => []
  | (p, es) :: m' =>
      match sweep_queue es with
      | [] => sweep_levels m'
      | es' => (p, es') :: sweep_levels m'
      end
  end.

(** The side after matching and sweeping, the trades, and the aggressor. *)
Definition match_side (algo : MatchAlgo) (a : Order) (ab : ABook) : ABook * EventList * Order :=
  let opp := negb (is_buy (o_side a)) in
  let '(m, trades, a') := match_levels algo a (a_levels opp ab) in
  (a_set_levels opp (sweep_levels m) ab, trades, a').

Definition a_submit (algo : MatchAlgo) (l : loc) (a : Order) (ab : ABook) : ABook * EventList :=
  let '(ab', trades, a') := match_side algo a ab in
  (if o_leaves a' >? 0 then a_rest l a' ab' else ab',
   EAck (mkAck (o_id a) (o_clord a)) :: trades).

(** The invariant the matcher relies on and keeps: resting orders have
    something left, and what a level holds fits in a signed 64-bit integer. *)
Definition queue_ok (es : list entry) : Prop :=
  Forall (λ q, 0 < q) (leaves_of es) ∧ sumz (leaves_of es) < two63.
Definition resting_ok (ab : ABook) : Prop :=
  ∀ buy p es, (p, es) ∈ a_levels buy ab → queue_ok es.

Lemma queue_ok_bounded es : queue_ok es → es ≠ [] → level_bounded es.
Proof.
  intros [Hp Hm] Hne. assert (fits es) as Hf by (eapply Forall_impl; [exact Hp|]; cbn; lia).
  split; [done|]. split; [|done]. destruct es as [|e es]; [done|].
  rewrite leaves_of_cons, sumz_cons in *. apply Forall_cons in Hp as [? _].
  apply Forall_cons in Hf as [_ Hf]. pose proof (sumz_nonneg _ Hf). lia.
Qed.
