(* ===== verification/MatchProps.v ===== *)
(** * The matcher computes the abstract matching

    Refinement of [match_aggressive], the sweep and [submit] to the functions
    of [MatchSpec]: from a well-formed book the code terminates without
    undefined behaviour, emits the abstract trades in order, and ends in a
    well-formed book that represents the abstract result. *)

From S2P Require Import Prelude Types PriceLevel SortedMap OrderBook BookRep BookProps ProRata Matcher FillProps MatchSpec.

(** ** One level inside the book *)

Lemma level_empty_spec h lv es : level_rep h lv es → level_empty lv = bool_decide (es = []).
Proof.
  intros [(_ & _ & Hh & _) _]. unfold level_empty. rewrite Hh. by destruct es.
Qed.

(** Entries that differ only in what is left to fill. *)
Definition refilled (e e' : entry) : Prop :=
  e'.1 = e.1 ∧ ∃ q, in_u64 q ∧ e'.2 = set_leaves q e.2.

Lemma fill_entries_refilled es fs :
  Forall2 (λ q f, 0 ≤ f ≤ q) (leaves_of es) fs → Forall (λ e, in_u64 (o_leaves e.2)) es →
  Forall2 refilled es (fill_entries es fs).
Proof.
  revert fs. induction es as [|[l a] es IH]; intros fs Hb Hu.
  - apply Forall2_nil_inv_l in Hb as ->. constructor.
  - rewrite leaves_of_cons in Hb. destruct fs as [|f fs]; [by inversion Hb|].
    apply Forall2_cons in Hb as [Hf Hb]. apply Forall_cons in Hu as [Hua Hu].
    constructor; [|by apply IH]. split; [done|]. exists (o_leaves a - f).
    cbn in *. unfold in_u64 in *. split; [lia|done].
Qed.

Lemma refilled_locs es es' : Forall2 refilled es es' → es'.*1 = es.*1.
Proof. induction 1 as [|? ? ? ? [??]]; csimpl; congruence. Qed.

Lemma index_rep_refilled i es es' others :
  Forall2 refilled es es' → index_rep i (es ++ others) → index_rep i (es' ++ others).
Proof.
  intros Hr Hi k l. rewrite (Hi k l).
  assert ((∃ a, (l, a) ∈ es ∧ order_key a = k) ↔ (∃ a, (l, a) ∈ es' ∧ order_key a = k)) as Hiff.
  { clear -Hr. induction Hr as [|[l1 a1] [l2 a2] es es' (?&q&_&Ha) _ IH]; [done|].
    cbn in *. subst l2 a2. destruct IH as [IH1 IH2].
    split; intros (a & [[= -> ->]|Hin]%elem_of_cons & Hk).
    - exists (set_leaves q a1). split; [left|done].
    - destruct IH1 as (a' & ? & ?); [by exists a|]. exists a'. split; [by right|done].
    - exists a1. split; [left|done].
    - destruct IH2 as (a' & ? & ?); [by exists a|]. exists a'. split; [by right|done]. }
  setoid_rewrite elem_of_app. clear Hr Hi. firstorder.
Qed.

Section zipper.
Context (opp : bool) (ab : ABook).

(** The book with one side written out. *)
Definition zb (m : smap (list entry)) : ABook := a_set_levels opp m ab.

Lemma zb_levels m : a_levels opp (zb m) = m.
Proof. apply a_levels_set. Qed.
Lemma zb_zb m m' : a_set_levels opp m' (zb m) = zb m'.
Proof. unfold zb. by destruct opp. Qed.

Lemma zb_find b h m1 p es m2 :
  book_rep b h (zb (m1 ++ (p, es) :: m2)) →
  a_queue opp p (zb (m1 ++ (p, es) :: m2)) = es ∧
  ∃ lv, smap_find p (levels opp b) = Some lv ∧ level_rep h lv es.
Proof.
  intros Hb. pose proof (br_sorted _ _ _ Hb opp) as Hs.
  pose proof (side_rep_find _ _ _ p (br_side _ _ _ Hb opp)) as Hf.
  unfold a_queue. rewrite zb_levels in *.
  assert (smap_find p (m1 ++ (p, es) :: m2) = Some es) as Hfa.
  { apply (smap_elem_find (cmp opp)); [done|]. set_solver. }
  rewrite Hfa in *. split; [done|].
  destruct (smap_find p (levels opp b)) as [lv|]; [eauto|done].
Qed.

Lemma zb_update b h m1 p es es' m2 :
  book_rep b h (zb (m1 ++ (p, es) :: m2)) →
  a_update opp p es' (zb (m1 ++ (p, es) :: m2)) = zb (m1 ++ (p, es') :: m2).
Proof.
  intros Hb. pose proof (br_sorted _ _ _ Hb opp) as Hs. unfold a_update.
  rewrite zb_levels in *. rewrite (smap_set_middle (cmp opp)) by done. apply zb_zb.
Qed.

(** Dropping a level whose queue is empty. *)
Lemma zb_erase b h m1 p m2 :
  book_rep b h (zb (m1 ++ (p, []) :: m2)) →
  book_rep (set_levels opp (smap_erase p (levels opp b)) b) h (zb (m1 ++ m2)) ∧
  entries (zb (m1 ++ m2)) ≡ₚ entries (zb (m1 ++ (p, []) :: m2)).
Proof.
  intros Hb. pose proof (br_sorted _ _ _ Hb opp) as Hs. rewrite zb_levels in Hs.
  pose proof (smap_erase_middle (cmp opp) _ _ _ _ Hs) as He.
  assert (entries (zb (m1 ++ m2)) ≡ₚ entries (zb (m1 ++ (p, []) :: m2))) as Hp.
  { rewrite <- !(entries_side opp). unfold zb. autorewrite with obfix. f_equiv.
    unfold side_entries. by rewrite !fmap_app, !join_app. }
  split; [|done]. split.
  - apply (side_cases _ opp); unfold zb; autorewrite with obfix.
    + rewrite <- He. apply side_rep_erase. rewrite <- (zb_levels (m1 ++ _ :: m2)). apply (br_side _ _ _ Hb).
    + pose proof (br_side _ _ _ Hb (negb opp)) as H. unfold zb in H. by autorewrite with obfix in H.
  - apply (side_cases _ opp); unfold zb; autorewrite with obfix.
    + rewrite <- He. by apply smap_erase_sorted.
    + pose proof (br_sorted _ _ _ Hb (negb opp)) as H. unfold zb in H. by autorewrite with obfix in H.
  - rewrite Hp. apply (br_nodup _ _ _ Hb).
  - intros buy q es l a Hin. apply (br_placed _ _ _ Hb). revert Hin. unfold zb.
    destruct (decide (buy = opp)) as [->|Hne]; [autorewrite with obfix; set_solver|].
    assert (buy = negb opp) as -> by (by destruct buy, opp). by autorewrite with obfix.
  - rewrite index_set_levels. eapply index_rep_perm; [symmetry; exact Hp|]. apply (br_index _ _ _ Hb).
Qed.

Lemma zb_fill b h m1 p es fs m2 h' lv' aggr :
  book_rep b h (zb (m1 ++ (p, es) :: m2)) →
  Forall2 (λ q f, 0 ≤ f ≤ q) (leaves_of es) fs →
  level_rep h' lv' (fill_entries es fs) → same_outside (aggr :: es.*1) h h' →
  aggr ∉ (entries (zb (m1 ++ (p, es) :: m2))).*1 →
  book_rep (set_levels opp (smap_set (cmp opp) p lv' (levels opp b)) b) h'
    (zb (m1 ++ (p, fill_entries es fs) :: m2)) ∧
  (entries (zb (m1 ++ (p, fill_entries es fs) :: m2))).*1 ≡ₚ
    (entries (zb (m1 ++ (p, es) :: m2))).*1.
Proof.
  intros Hb Hf Hl Hs Hag. destruct (zb_find _ _ _ _ _ _ Hb) as [Hq _].
  assert ((p, es) ∈ a_levels opp (zb (m1 ++ (p, es) :: m2))) as Hin by (rewrite zb_levels; set_solver).
  assert (Forall (λ e, entry_ok opp p e.2) es) as Hok.
  { apply Forall_forall. intros [l a] Ha. by eapply (br_placed _ _ _ Hb). }
  assert (Forall2 refilled es (fill_entries es fs)) as Hr.
  { apply fill_entries_refilled; [done|]. eapply Forall_impl; [exact Hok|]. by intros ? (_&_&?). }
  destruct (entries_update opp p (zb (m1 ++ (p, es) :: m2))) as (others & He & Hu);
    [apply (br_sorted _ _ _ Hb)|].
  rewrite Hq in He. specialize (Hu (fill_entries es fs)).
  rewrite (zb_update b h) in Hu by done.
  assert ((entries (zb (m1 ++ (p, fill_entries es fs) :: m2))).*1 ≡ₚ
    (entries (zb (m1 ++ (p, es) :: m2))).*1) as Hlocs.
  { rewrite Hu, He, !fmap_app, (refilled_locs _ _ Hr). done. }
  split; [|done]. rewrite <- (zb_update b h _ _ es) by done.
  replace (set_levels opp _ b) with
    (set_index (index_ b) (set_levels opp (smap_set (cmp opp) p lv' (levels opp b)) b))
    by (by destruct b, opp).
  eapply book_rep_update; [done|..|done| | |]; rewrite ?(zb_update b h) by done.
  - intros l Hl1 Hl2. rewrite Hq in Hl2. apply Hs. set_solver.
  - rewrite Hlocs. apply (br_nodup _ _ _ Hb).
  - clear -Hok Hr. induction Hr as [|e e' es es' (_&q&Hqr&He') _ IH]; constructor.
    + apply Forall_cons in Hok as [(?&?&_) _]. rewrite He'. by split_and!.
    + apply IH. by apply Forall_cons in Hok as [_ ?].
  - eapply index_rep_perm; [symmetry; exact Hu|]. eapply index_rep_refilled; [exact Hr|].
    eapply index_rep_perm; [exact He|]. apply (br_index _ _ _ Hb).
Qed.
End zipper.

(** ** Matching *)

(** A run in progress: the book represents [ab] and the only other object is
    the aggressor. *)
Definition running (s : MState) (ab : ABook) (aggr : loc) (a : Order) : Prop :=
  book_rep (m_book s) (m_heap s) ab ∧ m_heap s !! aggr = Some a ∧
  aggr ∉ (entries ab).*1 ∧
  ∀ l, l ∈ dom (m_heap s) ↔ l = aggr ∨ l ∈ (entries ab).*1.

Lemma take_from_exact q a :
  0 ≤ q ≤ o_leaves a → o_leaves a < two64 → take_from q a = set_leaves (o_leaves a - q) a.
Proof. intros. unfold take_from. by rewrite u64_small by (unfold in_u64; lia). Qed.

Lemma on_level_spec algo opp ab aggr m1 p es m2 s a :
  running s (zb opp ab (m1 ++ (p, es) :: m2)) aggr a →
  queue_ok es → es ≠ [] → in_u64 (o_leaves a) →
  o_leaves a ≠ 0 → crosses (o_side a) (o_price a) p = true →
  let fs := alloc_of algo (o_leaves a) (leaves_of es) in
  let a' := set_leaves (o_leaves a - sumz fs) a in
  in_u64 (o_leaves a') ∧
  ∃ s', on_level algo aggr opp p s = Ok (o_leaves a' >? 0, s') ∧
    running s' (zb opp ab (m1 ++ (p, fill_entries es fs) :: m2)) aggr a' ∧
    m_out s' = m_out s ++ fill_trades a p es fs.
Proof.
  intros (Hb & Ha & Hag & Hdom) Hq Hne Hu Hnz Hc fs a'.
  destruct (zb_find _ _ _ _ _ _ _ _ Hb) as [Hqu (lv & Hfind & Hlv)].
  pose proof (queue_ok_bounded _ Hq Hne) as Hbd.
  destruct (alloc_of_admissible algo (o_leaves a) (leaves_of es)) as [Hshare Hsum];
    [unfold in_u64 in Hu; lia|apply Hbd|apply Hbd|]. fold fs in Hshare, Hsum.
  pose proof (shares_sum _ _ Hshare) as Hss.
  assert (0 ≤ sumz fs ≤ o_leaves a) as Hle by (unfold in_u64 in Hu; lia).
  split; [cbn; unfold in_u64 in *; lia|].
  assert (aggr ∉ es.*1) as Hages.
  { intros Hin. apply Hag. eapply (entries_locs _ _ opp p es); [|done].
    rewrite zb_levels. set_solver. }
  destruct (fill_level_spec algo (m_heap s) lv es aggr a p (o_leaves a) (m_out s))
    as (lv' & h' & Hfill & Hlv' & Ha' & Hs'); try done; [unfold in_u64 in Hu; lia|].
  fold fs in Hfill, Hlv', Ha'. rewrite take_from_exact in Ha' by (unfold in_u64 in Hu; lia).
  destruct (zb_fill _ _ _ _ _ _ _ _ _ _ _ _ Hb Hshare Hlv' Hs' Hag) as [Hb' Hlocs].
  unfold on_level. rewrite (deref_Some _ _ _ Ha). cbn [rbind].
  destruct (Z.eqb_spec (o_leaves a) 0); [done|]. rewrite Hc. cbn [negb]. rewrite Hfind.
  unfold fill_level in Hfill. rewrite Hfill. cbn [rbind]. rewrite (deref_Some _ _ _ Ha'). cbn [rbind].
  eexists. split_and!; [done| |done]. split_and!; [done|done|by rewrite Hlocs|].
  intros l. rewrite Hlocs. cbn. destruct Hs' as [-> _]. apply Hdom.
Qed.

Lemma match_walk algo opp ab aggr m2 : ∀ m1 s a,
  running s (zb opp ab (m1 ++ m2)) aggr a → in_u64 (o_leaves a) →
  Forall (λ x, queue_ok x.2) m2 →
  ∃ s', walk_keys m_book put_book opp (on_level algo aggr opp) m2.*1 s = Ok s' ∧
    let '(m2', trades, a') := match_levels algo a m2 in
    running s' (zb opp ab (m1 ++ m2')) aggr a' ∧ m_out s' = m_out s ++ trades.
Proof.
  induction m2 as [|[p es] m2 IH]; intros m1 s a Hr Hu Hok.
  { exists s. cbn. split_and!; [done..|]. by rewrite app_nil_r. }
  apply Forall_cons in Hok as [Hq Hok]. cbn in Hq.
  pose proof Hr as (Hb & Ha & Hag & Hdom).
  destruct (zb_find _ _ _ _ _ _ _ _ Hb) as [_ (lv & Hfind & Hlv)].
  cbn [walk_keys fmap list_fmap fst]. rewrite Hfind, (level_empty_spec _ _ _ Hlv).
  destruct es as [|e es]; cbn [bool_decide decide_rel].
  { rewrite bool_decide_true by done. destruct (zb_erase _ _ _ _ _ _ _ Hb) as [Hb' Hp].
    apply (IH m1 (put_book (set_levels opp (smap_erase p (levels opp (m_book s))) (m_book s)) s) a);
      [|done|done]. split_and!; [done|done|by rewrite Hp|]. intros l. rewrite Hp. apply Hdom. }
  rewrite bool_decide_false by done. cbn [match_levels].
  destruct (Z.eqb_spec (o_leaves a) 0) as [H0|H0].
  { unfold on_level at 1. rewrite (deref_Some _ _ _ Ha). cbn [rbind].
    rewrite (proj2 (Z.eqb_eq _ _) H0). cbn. exists s. split_and!; [done..|]. by rewrite app_nil_r. }
  destruct (crosses (o_side a) (o_price a) p) eqn:Hc; cbn [negb].
  2: { unfold on_level at 1. rewrite (deref_Some _ _ _ Ha). cbn [rbind].
       rewrite (proj2 (Z.eqb_neq _ _) H0), Hc. cbn. exists s. split_and!; [done..|]. by rewrite app_nil_r. }
  destruct (on_level_spec algo opp ab aggr m1 p (e :: es) m2 s a Hr Hq ltac:(done) Hu H0 Hc)
    as (Hu' & s' & Hol & Hr' & Hout).
  set (fs := alloc_of algo (o_leaves a) (leaves_of (e :: es))) in *.
  set (a' := set_leaves (o_leaves a - sumz fs) a) in *.
  rewrite Hol. cbn [rbind].
  pose proof Hr' as (Hb' & _). destruct (zb_find _ _ _ _ _ _ _ _ Hb') as [_ (lv' & Hfind' & Hlv')].
  destruct (o_leaves a' >? 0) eqn:Hpos; cbn [negb]; [|by exists s'].
  rewrite Hfind', (level_empty_spec _ _ _ Hlv').
  assert (fill_entries (e :: es) fs ≠ []) as Hnil.
  { destruct fs as [|f fs'] eqn:Hfs; [|done]. exfalso.
    assert (length (alloc_of algo (o_leaves a) (leaves_of (e :: es))) = length (leaves_of (e :: es))) as Hlen.
    { symmetry. eapply Forall2_length. apply alloc_of_admissible;
        [unfold in_u64 in Hu; lia|apply (queue_ok_bounded _ Hq); done..]. }
    unfold fs in Hfs. by rewrite Hfs in Hlen. }
  rewrite bool_decide_false by done.
  replace (m1 ++ (p, fill_entries (e :: es) fs) :: m2)
    with ((m1 ++ [(p, fill_entries (e :: es) fs)]) ++ m2) in Hr' by (by rewrite <- app_assoc).
  destruct (IH _ s' a' Hr' Hu' Hok) as (s'' & Hw & Hres). exists s''. split; [done|].
  destruct (match_levels algo a' m2) as [[m2' trades'] a'']. destruct Hres as [Hr'' Ho''].
  rewrite <- app_assoc in Hr''. split; [done|]. by rewrite Ho'', Hout, <- app_assoc.
Qed.

(** ** Sweeping *)

Lemma running_remove s ab aggr a l e :
  running s ab aggr a → (l, e) ∈ entries ab →
  ∃ b' h', remove l (m_book s) (m_heap s) = Ok (b', h') ∧
    running (mkM b' h' (m_out s)) (a_remove l e ab) aggr a.
Proof.
  intros (Hb & Ha & Hag & Hdom) Hin.
  destruct (remove_rep _ _ _ _ _ Hb Hin) as (b' & h' & Hr & Hb' & Hd & Hs).
  pose proof (entries_remove _ _ _ _ _ Hb Hin) as Hp.
  pose proof (br_nodup _ _ _ Hb) as Hnd. rewrite Hp in Hnd. csimpl in Hnd.
  apply NoDup_cons in Hnd as [Hl _].
  do 2 eexists. split; [done|]. split_and!; cbn.
  - done.
  - by rewrite Hs.
  - intros Hx. apply Hag. rewrite Hp. csimpl. by right.
  - intros l'. rewrite Hd, elem_of_difference, not_elem_of_singleton, Hdom, Hp. csimpl.
    rewrite elem_of_cons. split.
    + intros [[->|[->|?]] ?]; naive_solver.
    + intros [->|Hin']; [|set_solver]. split; [by left|]. intros ->. apply Hag.
      rewrite Hp. csimpl. left.
Qed.

Lemma zb_remove opp ab b h m1 p kept l e rst m2 :
  book_rep b h (zb opp ab (m1 ++ (p, kept ++ (l, e) :: rst) :: m2)) →
  (l, e) ∈ entries (zb opp ab (m1 ++ (p, kept ++ (l, e) :: rst) :: m2)) ∧
  a_remove l e (zb opp ab (m1 ++ (p, kept ++ (l, e) :: rst) :: m2)) =
    zb opp ab (m1 ++ (p, kept ++ rst) :: m2).
Proof.
  intros Hb. set (m := m1 ++ (p, kept ++ (l, e) :: rst) :: m2).
  assert ((p, kept ++ (l, e) :: rst) ∈ a_levels opp (zb opp ab m)) as Hin.
  { rewrite zb_levels. unfold m. set_solver. }
  assert ((l, e) ∈ kept ++ (l, e) :: rst) as Hle by set_solver.
  destruct (br_placed _ _ _ Hb _ _ _ _ _ Hin Hle) as (Hp & Hsd & _).
  destruct (zb_find _ _ _ _ _ _ _ _ Hb) as [Hq (lv & _ & [(_ & Hnd & _) _])].
  split; [apply entries_elem; eauto|].
  unfold a_remove. rewrite Hp, Hsd. fold m in Hq. rewrite Hq, without_split by done.
  by apply (zb_update opp ab b h).
Qed.

Lemma sweep_loop_spec opp ab aggr a p m1 m2 rst : ∀ kept fuel s,
  (length rst ≤ fuel)%nat →
  running s (zb opp ab (m1 ++ (p, kept ++ rst) :: m2)) aggr a →
  ∃ s', sweep_loop fuel (first rst) s = Ok s' ∧
    running s' (zb opp ab (m1 ++ (p, kept ++ sweep_queue rst) :: m2)) aggr a ∧
    m_out s' = m_out s.
Proof.
  induction rst as [|[l e] rst IH]; intros kept fuel s Hfu Hr.
  { exists s. by destruct fuel. }
  destruct fuel as [|fuel]; [cbn in Hfu; lia|].
  pose proof Hr as (Hb & _). destruct (zb_find _ _ _ _ _ _ _ _ Hb) as [_ (lv & _ & [(Hd & _) _])].
  apply dseg_app in Hd as [_ [Hl _]]. rewrite !or_else_None_r in Hl.
  cbn [sweep_loop first head fmap option_fmap option_map fst]. rewrite (deref_Some _ _ _ Hl). cbn [rbind].
  change (o_leaves (link (final kept) (first rst) e)) with (o_leaves e).
  change (o_next (link (final kept) (first rst) e)) with (first rst).
  unfold sweep_queue. destruct (Z.eqb_spec (o_leaves e) 0) as [H0|H0].
  - rewrite filter_cons_False by (cbn; lia).
    destruct (zb_remove _ _ _ _ _ _ _ _ _ _ _ Hb) as [Hin Hrem].
    destruct (running_remove _ _ _ _ _ _ Hr Hin) as (b' & h' & -> & Hr'). cbn [rbind].
    rewrite Hrem in Hr'. apply (IH kept fuel (mkM b' h' (m_out s))); [cbn in Hfu; lia|done].
  - rewrite filter_cons_True by done.
    destruct (IH (kept ++ [(l, e)]) fuel s) as (s' & Hs' & Hr' & Ho);
      [cbn in Hfu; lia|by rewrite <- app_assoc|].
    exists s'. rewrite <- app_assoc in Hr'. done.
Qed.

Lemma sweep_walk opp ab aggr a m2 : ∀ m1 s,
  running s (zb opp ab (m1 ++ m2)) aggr a →
  ∃ s', walk_keys m_book put_book opp (sweep opp) m2.*1 s = Ok s' ∧
    running s' (zb opp ab (m1 ++ sweep_levels m2)) aggr a ∧ m_out s' = m_out s.
Proof.
  assert (∀ s m1 p m2, running s (zb opp ab (m1 ++ (p, []) :: m2)) aggr a →
    running (put_book (set_levels opp (smap_erase p (levels opp (m_book s))) (m_book s)) s)
      (zb opp ab (m1 ++ m2)) aggr a) as Herase.
  { intros s m1 p m (Hb & Ha & Hag & Hdom). destruct (zb_erase _ _ _ _ _ _ _ Hb) as [Hb' Hp].
    split_and!; [done|done|by rewrite Hp|]. intros l. rewrite Hp. apply Hdom. }
  induction m2 as [|[p es] m2 IH]; intros m1 s Hr; [by exists s|].
  pose proof Hr as (Hb & _). destruct (zb_find _ _ _ _ _ _ _ _ Hb) as [_ (lv & Hfind & Hlv)].
  cbn [walk_keys fmap list_fmap fst]. rewrite Hfind, (level_empty_spec _ _ _ Hlv).
  destruct (bool_decide_reflect (es = [])) as [->|Hne].
  { destruct (IH m1 _ (Herase _ _ _ _ Hr)) as (s' & ? & ? & Ho). by exists s'. }
  unfold sweep at 1. rewrite Hfind. cbn [sweep_levels].
  destruct (sweep_loop_spec opp ab aggr a p m1 m2 es [] (list_fuel (m_heap s)) s) as (s' & Hs' & Hr' & Ho).
  { destruct Hlv as [(Hd & Hnd & _) _]. pose proof (dseg_length _ _ _ _ Hnd Hd). unfold list_fuel. lia. }
  { done. }
  pose proof Hlv as [(_ & _ & Hh & _) _]. rewrite Hh, Hs'. cbn [rbind negb app] in *.
  pose proof Hr' as (Hb' & _). destruct (zb_find _ _ _ _ _ _ _ _ Hb') as [_ (lv' & Hfind' & Hlv')].
  rewrite Hfind', (level_empty_spec _ _ _ Hlv'). destruct (sweep_queue es) as [|e es'] eqn:Hq.
  - rewrite bool_decide_true by done.
    destruct (IH m1 _ (Herase _ _ _ _ Hr')) as (s'' & ? & ? & Ho''). exists s''. by rewrite <- Ho.
  - rewrite bool_decide_false by done.
    replace (m1 ++ (p, e :: es') :: m2) with ((m1 ++ [(p, e :: es')]) ++ m2) in Hr'
      by (by rewrite <- app_assoc).
    destruct (IH _ s' Hr') as (s'' & ? & Hr'' & Ho''). exists s''. rewrite <- app_assoc in Hr''.
    split_and!; [done|done|congruence].
Qed.
