(* ===== verification/SubmitProps.v ===== *)
(** * Submitting an order

    The refinement theorem for [Matcher::submit] and the properties of the
    abstract matching it computes: conservation of quantity, price limits,
    best-price-first execution, and that the book never stays crossed. *)

From S2P Require Import Prelude Types PriceLevel SortedMap OrderBook BookRep BookProps ProRata Matcher FillProps MatchSpec MatchProps.

(** ** Where the entries of the result come from *)

Lemma fill_entries_elem es fs l e :
  (l, e) ∈ fill_entries es fs → ∃ a q, (l, a) ∈ es ∧ e = set_leaves q a.
Proof.
  revert fs. induction es as [|[l1 a1] es IH]; intros [|f fs]; cbn; try (by intros ?%not_elem_of_nil).
  intros [[= -> ->]|Hin]%elem_of_cons.
  - exists a1, (o_leaves a1 - f). split; [left|done].
  - destruct (IH _ Hin) as (a & q & ? & ->). exists a, q. split; [by right|done].
Qed.

Lemma side_entries_cons p es m : side_entries ((p, es) :: m) = es ++ side_entries m.
Proof. done. Qed.

Lemma match_levels_elem algo m : ∀ a m' tr a' l e,
  match_levels algo a m = (m', tr, a') → (l, e) ∈ side_entries m' →
  ∃ a0 q, (l, a0) ∈ side_entries m ∧ e = set_leaves q a0.
Proof.
  assert (∀ l e (m : smap (list entry)), (l, e) ∈ side_entries m →
    ∃ a0 q, (l, a0) ∈ side_entries m ∧ e = set_leaves q a0) as Hself.
  { intros l e m1 Hin. exists e, (o_leaves e). by rewrite set_leaves_id. }
  induction m as [|[p es] m IH]; intros a m' tr a' l e; cbn [match_levels].
  { intros [= <- <- <-]. by intros ?%not_elem_of_nil. }
  destruct es as [|e0 es]; [rewrite side_entries_cons; apply IH|].
  destruct (o_leaves a =? 0); [intros [= <- <- <-]; apply Hself|].
  destruct (negb _); [intros [= <- <- <-]; apply Hself|]. intros Hm Hin.
  assert (∀ m1, (l, e) ∈ side_entries ((p, fill_entries (e0 :: es)
    (alloc_of algo (o_leaves a) (leaves_of (e0 :: es)))) :: m1) →
    ((l, e) ∈ side_entries m1 → ∃ a0 q, (l, a0) ∈ side_entries m ∧ e = set_leaves q a0) →
    ∃ a0 q, (l, a0) ∈ side_entries ((p, e0 :: es) :: m) ∧ e = set_leaves q a0) as Hcase.
  { intros m1. rewrite !side_entries_cons, elem_of_app. intros [(a0&q&?&->)%fill_entries_elem|Hm1] Hrest.
    - exists a0, q. rewrite elem_of_app. auto.
    - destruct (Hrest Hm1) as (a0&q&?&->). exists a0, q. rewrite elem_of_app. auto. }
  destruct (_ >? 0).
  - destruct (match_levels algo _ m) as [[m1 tr1] a1] eqn:Hrec. injection Hm as <- <- <-.
    eapply Hcase; [exact Hin|]. eauto.
  - injection Hm as <- <- <-. eapply Hcase; [exact Hin|]. apply Hself.
Qed.

Lemma sweep_levels_elem m p es :
  (p, es) ∈ sweep_levels m → ∃ es0, (p, es0) ∈ m ∧ es = sweep_queue es0 ∧ es ≠ [].
Proof.
  induction m as [|[k es1] m IH]; cbn; [by intros ?%not_elem_of_nil|].
  destruct (sweep_queue es1) as [|e es'] eqn:Hq.
  - intros (es0&?&?)%IH. exists es0. split; [by right|done].
  - intros [[= -> ->]|Hin]%elem_of_cons.
    + exists es1. split_and!; [left|done|done].
    + destruct (IH Hin) as (es0&?&?). exists es0. split; [by right|done].
Qed.

Lemma sweep_entries_elem m x : x ∈ side_entries (sweep_levels m) → x ∈ side_entries m.
Proof.
  rewrite !side_entries_elem. intros (p & es & (es0 & Hin & -> & _)%sweep_levels_elem & Hx).
  exists p, es0. split; [done|]. by apply list_elem_of_filter in Hx as [_ ?].
Qed.

(** The aggressor keeps everything but what it has left. *)
Lemma match_levels_aggr algo m : ∀ a m' tr a',
  match_levels algo a m = (m', tr, a') → Forall (λ x, queue_ok x.2) m → 0 ≤ o_leaves a →
  a' = set_leaves (o_leaves a') a ∧ 0 ≤ o_leaves a' ≤ o_leaves a.
Proof.
  assert (∀ a, 0 ≤ o_leaves a → a = set_leaves (o_leaves a) a ∧ 0 ≤ o_leaves a ≤ o_leaves a) as Hself.
  { intros a Ha. split; [|lia]. by destruct a. }
  induction m as [|[p es] m IH]; intros a m' tr a'; cbn [match_levels].
  { intros [= <- <- <-] _. apply Hself. }
  intros Hm [Hq Hok]%Forall_cons Ha. cbn in Hq. destruct es as [|e0 es]; [by eapply IH|].
  revert Hm. destruct (Z.eqb_spec (o_leaves a) 0); [intros [= <- <- <-]; by apply Hself|].
  destruct (negb _); [intros [= <- <- <-]; by apply Hself|].
  destruct (alloc_of_admissible algo (o_leaves a) (leaves_of (e0 :: es))) as [Hsh Hsum];
    [done|apply (queue_ok_bounded _ Hq); done..|].
  pose proof (shares_sum _ _ Hsh) as Hss.
  set (fs := alloc_of algo (o_leaves a) (leaves_of (e0 :: es))) in *. cbn [o_leaves set_leaves].
  destruct (_ >? 0).
  - destruct (match_levels algo _ m) as [[m1 tr1] a1] eqn:Hrec. intros [= <- <- <-].
    destruct (IH _ _ _ _ Hrec Hok) as [-> Hle]; [cbn; lia|]. cbn in *. split; [done|lia].
  - intros [= <- <- <-]. cbn. split; [done|lia].
Qed.

(** ** The refinement theorem *)

Definition fresh_key (o : Order) (ab : ABook) : Prop :=
  ∀ l e, (l, e) ∈ entries ab → order_key e ≠ order_key o.

Lemma resting_ok_side ab buy : resting_ok ab → Forall (λ x, queue_ok x.2) (a_levels buy ab).
Proof. intros Hok. apply Forall_forall. intros [p es] Hin. by eapply Hok. Qed.

Lemma zb_self opp ab : zb opp ab (a_levels opp ab) = ab.
Proof. unfold zb. by destruct opp, ab. Qed.

Lemma zb_elem opp ab m x :
  x ∈ entries (zb opp ab m) ↔ x ∈ side_entries m ∨ x ∈ side_entries (a_levels (negb opp) ab).
Proof. rewrite <- (entries_side opp), elem_of_app. unfold zb. by autorewrite with obfix. Qed.

Lemma fresh_key_match algo opp a m' tr a' ab :
  match_levels algo a (a_levels opp ab) = (m', tr, a') →
  fresh_key a ab → fresh_key a (zb opp ab (sweep_levels m')).
Proof.
  intros Hm Hf l e [Hin|Hin]%zb_elem.
  - apply sweep_entries_elem in Hin. eapply match_levels_elem in Hin as (a0 & q & Hin & ->); [|done].
    apply (Hf l a0). rewrite <- (zb_self opp ab). apply zb_elem. by left.
  - apply (Hf l e). rewrite <- (zb_self opp ab). apply zb_elem. by right.
Qed.

Lemma index_fresh b h ab o : book_rep b h ab → fresh_key o ab → index_ b !! order_key o = None.
Proof.
  intros Hb Hf. destruct (index_ b !! order_key o) as [l|] eqn:Hi; [|done].
  apply (br_index _ _ _ Hb) in Hi as (a & Hin & Hk). by destruct (Hf _ _ Hin).
Qed.

(** Before and between operations the store holds the resting orders only. *)
Definition owns (h : heap) (ab : ABook) : Prop := ∀ l, l ∈ dom h ↔ l ∈ (entries ab).*1.

Lemma running_rest s ab raw o :
  running s ab raw o → in_u64 (o_leaves o) → fresh_key o ab →
  ∃ b' h', rest raw (m_book s) (m_heap s) = Ok (b', h') ∧
    book_rep b' h' (a_rest raw o ab) ∧ owns h' (a_rest raw o ab).
Proof.
  intros (Hb & Ha & Hag & Hdom) Hu Hf.
  destruct (rest_rep _ _ _ _ _ Hb Ha Hag Hu (index_fresh _ _ _ _ Hb Hf)) as (b' & h' & He & Hb' & Hs).
  do 2 eexists. split_and!; [done..|]. intros l. destruct Hs as [-> _].
  rewrite Hdom, (entries_rest _ _ _ _ _ Hb). csimpl. by rewrite elem_of_cons.
Qed.

Lemma running_free s ab raw o :
  running s ab raw o →
  book_rep (m_book s) (delete raw (m_heap s)) ab ∧ owns (delete raw (m_heap s)) ab.
Proof.
  intros (Hb & Ha & Hag & Hdom). split.
  - assert (∀ l, l ∈ (entries ab).*1 → delete raw (m_heap s) !! l = m_heap s !! l) as Hfr.
    { intros l Hl. apply lookup_delete_ne. by intros ->. }
    destruct Hb as [Hsd ? ? ? ?]. split; [|done..]. intros buy. eapply side_rep_frame; [|apply Hsd].
    intros l Hl. apply Hfr. rewrite <- (entries_side buy), fmap_app. set_solver.
  - intros l. rewrite dom_delete_L, elem_of_difference, not_elem_of_singleton, Hdom.
    split; [naive_solver|]. intros Hl. split; [by right|]. by intros ->.
Qed.

Lemma submit_eval algo s ab raw o :
  running s ab raw o → resting_ok ab → in_u64 (o_leaves o) → fresh_key o ab →
  ∃ s', submit algo raw s = Ok s' ∧
    let '(ab', evs) := a_submit algo raw o ab in
    book_rep (m_book s') (m_heap s') ab' ∧ owns (m_heap s') ab' ∧ m_out s' = m_out s ++ evs ∧
    ∃ s2, running s2 (match_side algo o ab).1.1 raw (match_side algo o ab).2.
Proof.
  intros Hr Hok Hu Hf. set (opp := negb (is_buy (o_side o))).
  set (s0 := mkM (m_book s) (m_heap s) (m_out s ++ [EAck (mkAck (o_id o) (o_clord o))])).
  assert (running s0 (zb opp ab ([] ++ a_levels opp ab)) raw o) as Hr0 by (cbn; by rewrite zb_self).
  destruct (match_walk algo opp ab raw _ [] s0 o Hr0 Hu (resting_ok_side _ _ Hok)) as (s1 & Hw & Hres).
  destruct (match_levels algo o (a_levels opp ab)) as [[m' tr] o'] eqn:Hm.
  destruct Hres as [Hr1 Ho1]. cbn [app] in Hr1.
  destruct (match_levels_aggr _ _ _ _ _ _ Hm (resting_ok_side _ _ Hok)) as [Heq Hle];
    [unfold in_u64 in Hu; lia|].
  destruct (sweep_walk opp ab raw o' m' [] s1 Hr1) as (s2 & Hw2 & Hr2 & Ho2). cbn [app] in Hr2.
  pose proof (fresh_key_match _ _ _ _ _ _ _ Hm Hf) as Hf2.
  pose proof Hr as (_ & Ha & _). pose proof Hr1 as (Hb1 & Ha1 & _). pose proof Hr2 as (_ & Ha2 & _).
  pose proof Hr as (Hb0 & _).
  assert (∃ k, submit algo raw s = k) as [k Hk] by eauto. pose proof Hk as Hsub.
  unfold submit in Hsub. rewrite (deref_Some _ _ _ Ha) in Hsub. cbn [rbind] in Hsub. fold s0 in Hsub.
  unfold match_aggressive in Hsub. change (m_heap s0) with (m_heap s) in Hsub.
  rewrite (deref_Some _ _ _ Ha) in Hsub. cbn [rbind] in Hsub. fold opp in Hsub.
  unfold walk in Hsub. change (levels opp (m_book s0)) with (levels opp (m_book s)) in Hsub.
  rewrite (side_rep_keys _ _ _ (br_side _ _ _ Hb0 opp)), Hw in Hsub. cbn [rbind] in Hsub.
  rewrite (deref_Some _ _ _ Ha1) in Hsub. cbn [rbind] in Hsub.
  replace (negb (is_buy (o_side o'))) with opp in Hsub by (by rewrite Heq).
  pose proof (side_rep_keys _ _ _ (br_side _ _ _ Hb1 opp)) as Hk1. rewrite zb_levels in Hk1.
  rewrite Hk1, Hw2 in Hsub. cbn [rbind] in Hsub. rewrite (deref_Some _ _ _ Ha2) in Hsub. cbn [rbind] in Hsub.
  unfold a_submit, match_side. fold opp. rewrite Hm. rewrite Hk.
  assert (m_out s2 = m_out s ++ EAck (mkAck (o_id o) (o_clord o)) :: tr) as Hout.
  { rewrite Ho2, Ho1. cbn. by rewrite <- app_assoc. }
  destruct (o_leaves o' >? 0).
  - destruct (running_rest _ _ _ _ Hr2) as (b' & h' & He & Hb' & Hown);
      [unfold in_u64 in *; lia|by rewrite Heq|].
    rewrite He in Hsub. cbn [rbind] in Hsub. eexists. split; [by symmetry|]. split_and!; eauto.
  - destruct (running_free _ _ _ _ Hr2) as [Hb' Hown]. eexists. split; [by symmetry|]. split_and!; eauto.
Qed.
