(* ===== verification/TradeProps.v ===== *)
(** * What a submission trades

    Properties of the abstract matching: quantities are conserved, trades
    respect the limit and run best price first, and what remains of the
    aggressor no longer crosses the book. *)

From S2P Require Import Prelude Types PriceLevel SortedMap OrderBook BookRep BookProps ProRata Matcher FillProps MatchSpec MatchProps SubmitProps.

(** ** Quantities *)

Definition traded (evs : EventList) : Z :=
  sumz (omap (λ e, match e with ETrade t => Some (t_qty t) | _ => None end) evs).
Definition side_total (m : smap (list entry)) : Z := sumz (leaves_of (side_entries m)).

Lemma traded_app l k : traded (l ++ k) = traded l + traded k.
Proof. unfold traded. by rewrite omap_app, sumz_app. Qed.

Lemma traded_trades ts : traded (ETrade <$> ts) = sumz (t_qty <$> ts).
Proof. unfold traded. f_equal. induction ts as [|t ts IH]; [done|]. csimpl. by f_equal. Qed.

Lemma traded_fill a px es fs : length fs = length es → traded (fill_trades a px es fs) = sumz fs.
Proof.
  revert fs. induction es as [|e es IH]; intros [|f fs]; try done. intros [= Hlen].
  cbn [fill_trades]. rewrite traded_app, IH, sumz_cons by done.
  destruct (Z.eqb_spec f 0) as [->|]; cbn; [done|]. unfold traded, sumz. cbn. lia.
Qed.

Lemma side_total_cons p es m : side_total ((p, es) :: m) = sumz (leaves_of es) + side_total m.
Proof. unfold side_total. by rewrite side_entries_cons, leaves_of_app, sumz_app. Qed.

Lemma fill_entries_total es fs :
  length fs = length es → sumz (leaves_of (fill_entries es fs)) = sumz (leaves_of es) - sumz fs.
Proof. intros. rewrite fill_entries_leaves. apply sumz_zip_sub. by rewrite leaves_of_length. Qed.

Lemma sweep_queue_total es : sumz (leaves_of (sweep_queue es)) = sumz (leaves_of es).
Proof.
  induction es as [|e es IH]; [done|]. unfold sweep_queue in *. rewrite filter_cons.
  case_decide as He; rewrite leaves_of_cons, sumz_cons; [by rewrite leaves_of_cons, sumz_cons, IH|].
  rewrite IH. destruct (decide (o_leaves e.2 = 0)); [lia|tauto].
Qed.

Lemma sweep_total m : side_total (sweep_levels m) = side_total m.
Proof.
  induction m as [|[p es] m IH]; [done|]. cbn [sweep_levels]. pose proof (sweep_queue_total es) as Hq.
  destruct (sweep_queue es) as [|e es'] eqn:He.
  - rewrite IH, side_total_cons, <- Hq. done.
  - by rewrite !side_total_cons, IH, <- Hq.
Qed.

(** Destructs the steps of [match_levels] on a side whose first level is not
    empty, leaving the stopping cases and the filling case. *)
Lemma match_levels_cons algo a p e es m :
  queue_ok (e :: es) → 0 ≤ o_leaves a →
  let fs := alloc_of algo (o_leaves a) (leaves_of (e :: es)) in
  let a1 := set_leaves (o_leaves a - sumz fs) a in
  (match_levels algo a ((p, e :: es) :: m) = ((p, e :: es) :: m, [], a) ∧
     (o_leaves a = 0 ∨ crosses (o_side a) (o_price a) p = false)) ∨
  (0 < o_leaves a ∧ crosses (o_side a) (o_price a) p = true ∧
   admissible (o_leaves a) (leaves_of (e :: es)) fs ∧ length fs = length (e :: es) ∧
   ((o_leaves a1 = 0 ∧ match_levels algo a ((p, e :: es) :: m) =
       ((p, fill_entries (e :: es) fs) :: m, fill_trades a p (e :: es) fs, a1)) ∨
    (0 < o_leaves a1 ∧ fs = leaves_of (e :: es) ∧
     match_levels algo a ((p, e :: es) :: m) =
       let '(m', tr, a') := match_levels algo a1 m in
       ((p, fill_entries (e :: es) fs) :: m', fill_trades a p (e :: es) fs ++ tr, a')))).
Proof.
  intros Hq Ha fs a1. cbn [match_levels]. fold fs. fold a1.
  destruct (Z.eqb_spec (o_leaves a) 0); [left; auto|].
  destruct (crosses _ _ _) eqn:Hc; cbn [negb]; [right|left; auto].
  assert (admissible (o_leaves a) (leaves_of (e :: es)) fs) as Had.
  { apply alloc_of_admissible; [done|apply (queue_ok_bounded _ Hq); done..]. }
  pose proof Had as [Hsh Hsum]. pose proof (shares_sum _ _ Hsh) as Hss.
  split_and!; [lia|done|done| |].
  { apply Forall2_length in Hsh. by rewrite leaves_of_length in Hsh. }
  change (o_leaves a1) with (o_leaves a - sumz fs).
  destruct (Z.gtb_spec (o_leaves a - sumz fs) 0); [right|left].
  - split_and!; [lia| |done]. eapply admissible_full; [|exact Had]. lia.
  - split; [lia|done].
Qed.

Lemma match_levels_conserve algo m : ∀ a m' tr a',
  match_levels algo a m = (m', tr, a') → Forall (λ x, queue_ok x.2) m → 0 ≤ o_leaves a →
  traded tr = o_leaves a - o_leaves a' ∧ side_total m - side_total m' = traded tr.
Proof.
  induction m as [|[p es] m IH]; intros a m' tr a' Hm Hok Ha.
  { apply pair_eq in Hm as [[<- <-]%pair_eq <-]. unfold traded, side_total. cbn. lia. }
  apply Forall_cons in Hok as [Hq Hok]. cbn in Hq.
  destruct es as [|e es]; [by apply (IH a m' tr a')|].
  destruct (match_levels_cons algo a p e es m Hq Ha) as
    [[Heq _]|(Hpos & Hc & Had & Hlen & [[H0 Heq]|(H1 & Hfs & Heq)])]; rewrite Heq in Hm.
  - apply pair_eq in Hm as [[<- <-]%pair_eq <-]. unfold traded. cbn. lia.
  - apply pair_eq in Hm as [[<- <-]%pair_eq <-]. rewrite traded_fill, !side_total_cons, fill_entries_total by done.
    cbn. lia.
  - destruct (match_levels algo _ m) as [[m1 tr1] a1] eqn:Hrec. apply pair_eq in Hm as [[<- <-]%pair_eq <-].
    destruct (IH _ _ _ _ Hrec Hok) as [IH1 IH2]; [cbn in *; lia|].
    rewrite traded_app, traded_fill, !side_total_cons, fill_entries_total by done. cbn in *. lia.
Qed.

(** ** Prices *)

(** The price the aggressor [a] would rather trade at, and its limit; a buyer
    wants low prices. *)
Definition better (a : Order) (p q : Price) : Prop := if is_buy (o_side a) then p < q else q < p.
Definition within_limit (a : Order) (p : Price) : Prop :=
  if is_buy (o_side a) then p ≤ o_price a else o_price a ≤ p.

(** A trade of [a] with one of the orders [es] at price [p]. *)
Definition trade_with (a : Order) (p : Price) (es : list entry) (t : Trade) : Prop :=
  t_price t = p ∧ 0 < t_qty t ∧ t_aggressor_id t = o_id a ∧ t_aggressor_clord t = o_clord a ∧
  t_aggressor_side t = o_side a ∧ ∃ l r, (l, r) ∈ es ∧ t_resting_id t = o_id r ∧ t_resting_clord t = o_clord r.

Lemma trade_with_more a p es es' t : es ⊆ es' → trade_with a p es t → trade_with a p es' t.
Proof. intros Hs (? & ? & ? & ? & ? & l & r & Hin & ?). do 5 (split; [done|]). exists l, r. split; [by apply Hs|done]. Qed.

Lemma fill_trades_with a p es fs :
  Forall (λ f, 0 ≤ f) fs → ∃ ts, fill_trades a p es fs = ETrade <$> ts ∧ Forall (trade_with a p es) ts.
Proof.
  intros Hf. revert es. induction Hf as [|f fs Hf _ IH]; intros [|[l r] es]; try (by exists []).
  destruct (IH es) as (ts & He & Hts). cbn [fill_trades]. rewrite He. clear He.
  assert (Forall (trade_with a p ((l, r) :: es)) ts) as Hts'.
  { eapply Forall_impl; [exact Hts|]. intros t. apply trade_with_more. set_solver. }
  destruct (Z.eqb_spec f 0); [by exists ts|].
  exists (mkTrade (o_id a) (o_id r) (o_clord a) (o_clord r) p f (o_side a) :: ts). split; [done|]. constructor; [|done].
  split; [done|]. split; [cbn; lia|]. do 3 (split; [done|]). exists l, r. split; [left|done].
Qed.

Lemma shares_nonneg qs fs : Forall2 (λ q f, 0 ≤ f ≤ q) qs fs → Forall (λ f, 0 ≤ f) fs.
Proof. induction 1; constructor; [lia|done]. Qed.

Lemma crosses_within a p : crosses (o_side a) (o_price a) p = true ↔ within_limit a p.
Proof. unfold crosses, within_limit. destruct (is_buy (o_side a)); rewrite ?Z.geb_leb, Z.leb_le; done. Qed.
Lemma cmp_better a opp p q : opp = negb (is_buy (o_side a)) → cmp opp p q = true ↔ better a p q.
Proof. intros ->. unfold cmp, better. destruct (is_buy (o_side a)); cbn; rewrite ?Z.gtb_ltb, Z.ltb_lt; done. Qed.

(** No price of the list is better than [q]. *)
Definition none_better (a : Order) (q : Price) (m : smap (list entry)) : Prop := ∀ p es, (p, es) ∈ m → ¬ better a p q.

Lemma better_irrefl a p : ¬ better a p p.
Proof. unfold better. case_match; lia. Qed.
Lemma better_asym a p q : better a p q → ¬ better a q p.
Proof. unfold better. case_match; lia. Qed.

Definition trade_in (a : Order) (m : smap (list entry)) (t : Trade) : Prop :=
  within_limit a (t_price t) ∧ ∃ es, (t_price t, es) ∈ m ∧ trade_with a (t_price t) es t.

Lemma trade_in_more a m m' t : m ⊆ m' → trade_in a m t → trade_in a m' t.
Proof. intros Hs [Hw (es & Hin & Ht)]. split; [done|]. exists es. split; [by apply Hs|done]. Qed.
(** What is left of the aggressor trades like the aggressor. *)
Lemma trade_in_leaves a q m t : trade_in (set_leaves q a) m t ↔ trade_in a m t.
Proof. done. Qed.

Lemma worse_behind a opp p (m m' : smap (list entry)) :
  opp = negb (is_buy (o_side a)) → Forall (λ k, cmp opp p k = true) m.*1 → m'.*1 ⊆ m.*1 → none_better a p m'.
Proof.
  intros Ho Hk Hs q es Hin Hb. rewrite Forall_forall in Hk. apply (better_asym _ _ _ Hb). eapply cmp_better; [exact Ho|].
  apply Hk, Hs, list_elem_of_fmap. by exists (q, es).
Qed.
Lemma sweep_levels_keys m : (sweep_levels m).*1 ⊆ m.*1.
Proof.
  intros q ([q' es] & -> & (es0 & Hin & _)%sweep_levels_elem)%list_elem_of_fmap.
  apply list_elem_of_fmap. by exists (q', es0).
Qed.

Lemma same_price_sorted a p ts : Forall (λ t, t_price t = p) ts → StronglySorted (λ t u, ¬ better a (t_price u) (t_price t)) ts.
Proof.
  induction 1 as [|t ts Ht Hts IH]; constructor; [done|]. eapply Forall_impl; [exact Hts|].
  cbn. intros u Hu. rewrite Hu, Ht. apply better_irrefl.
Qed.
Lemma sorted_app {A} (R : A → A → Prop) l k :
  StronglySorted R l → StronglySorted R k → (∀ x y, x ∈ l → y ∈ k → R x y) → StronglySorted R (l ++ k).
Proof.
  intros Hl Hk Hlk. induction Hl as [|x l Hl IH Hx]; [done|]. cbn. constructor.
  - apply IH. intros y z Hy. apply Hlk. by right.
  - apply Forall_app. split; [done|]. apply Forall_forall. intros y. apply Hlk. left.
Qed.

(** ** The book is not left crossed *)

Lemma crosses_mono buy a p q :
  is_buy (o_side a) = negb buy → cmp buy p q = true →
  crosses (o_side a) (o_price a) p = false → crosses (o_side a) (o_price a) q = false.
Proof.
  unfold crosses, cmp. intros ->. destruct buy; cbn; rewrite ?Z.gtb_ltb, ?Z.geb_leb, ?Z.ltb_lt, ?Z.leb_gt; lia.
Qed.

Lemma fill_all_swept es : sweep_queue (fill_entries es (leaves_of es)) = [].
Proof.
  induction es as [|[l a] es IH]; [done|]. rewrite leaves_of_cons. cbn [fill_entries zip_with].
  unfold sweep_queue in *. rewrite filter_cons_False; [done|]. cbn. lia.
Qed.

Lemma match_levels_uncrossed algo buy m : ∀ a m' tr a',
  match_levels algo a m = (m', tr, a') → smap_sorted (cmp buy) m → is_buy (o_side a) = negb buy →
  Forall (λ x, queue_ok x.2) m → 0 ≤ o_leaves a → 0 < o_leaves a' →
  Forall (λ x, crosses (o_side a) (o_price a) x.1 = false) (sweep_levels m').
Proof.
  induction m as [|[p es] m IH]; intros a m' tr a' Hm Hs Hsd Hok Ha Hpos'.
  { apply pair_eq in Hm as [[<- <-]%pair_eq <-]. constructor. }
  apply Forall_cons in Hok as [Hq Hok]. cbn in Hq. apply smap_sorted_cons in Hs as [Hs Hk].
  destruct es as [|e es]; [by eapply IH|].
  destruct (match_levels_cons algo a p e es m Hq Ha) as
    [[Heq Hstop]|(Hpos & Hc & [Hsh _] & Hlen & [[H0 Heq]|(H1 & Hfs & Heq)])]; rewrite Heq in Hm.
  - apply pair_eq in Hm as [[<- <-]%pair_eq <-]. destruct Hstop as [|Hnc]; [lia|].
    apply Forall_forall. intros [q es'] (es0 & [[= -> ->]|Hin]%elem_of_cons & _)%sweep_levels_elem; [done|].
    rewrite Forall_forall in Hk. eapply crosses_mono; [done| |exact Hnc]. apply Hk.
    apply list_elem_of_fmap. by exists (q, es0).
  - apply pair_eq in Hm as [[<- <-]%pair_eq <-]. cbn in *. lia.
  - destruct (match_levels algo _ m) as [[m1 tr1] a1] eqn:Hrec. apply pair_eq in Hm as [[<- <-]%pair_eq <-].
    rewrite Hfs. cbn [sweep_levels]. rewrite fill_all_swept.
    eapply (IH _ _ _ _ Hrec); try done. cbn in *. lia.
Qed.

(** ** Price priority *)

Lemma match_levels_keys algo m : ∀ a m' tr a',
  match_levels algo a m = (m', tr, a') → m'.*1 `sublist_of` m.*1 ∧
    ∀ p es', (p, es') ∈ m' → es' ≠ [] → ∃ es, (p, es) ∈ m ∧ es ≠ [].
Proof.
  induction m as [|[p es] m IH]; intros a m' tr a'; cbn [match_levels].
  { intros [= <- <- <-]. split; [done|]. by intros p es' ?%not_elem_of_nil. }
  destruct es as [|e es].
  { intros (IH1 & IH2)%IH. split; [by apply sublist_cons|].
    intros q es' Hin Hne. destruct (IH2 _ _ Hin Hne) as (es & ? & ?). exists es. split; [by right|done]. }
  assert (((p, e :: es) :: m).*1 `sublist_of` ((p, e :: es) :: m).*1 ∧
    ∀ q es', (q, es') ∈ (p, e :: es) :: m → es' ≠ [] →
      ∃ es0, (q, es0) ∈ (p, e :: es) :: m ∧ es0 ≠ []) as Hself by (split; [done|eauto]).
  destruct (_ =? 0); [by intros [= <- <- <-]|]. destruct (negb _); [by intros [= <- <- <-]|].
  set (fs := alloc_of _ _ _). destruct (_ >? 0).
  - destruct (match_levels algo _ m) as [[m1 tr1] a1] eqn:Hrec. intros [= <- <- <-].
    destruct (IH _ _ _ _ Hrec) as [IH1 IH2]. split; [by apply sublist_skip|].
    intros q es' [[= -> ->]|Hin]%elem_of_cons Hne; [exists (e :: es); split; [left|done]|].
    destruct (IH2 _ _ Hin Hne) as (es0 & ? & ?). exists es0. split; [by right|done].
  - intros [= <- <- <-]. split; [done|].
    intros q es' [[= -> ->]|Hin]%elem_of_cons Hne; [exists (e :: es); split; [left|done]|].
    exists es'. split; [by right|done].
Qed.

(** The trades of a walk over a sorted side: none worse than a later one, each
    with an order resting within the limit, and no price better than a traded one
    is left. *)
Lemma match_levels_priority algo opp m : ∀ a m' tr a',
  match_levels algo a m = (m', tr, a') → smap_sorted (cmp opp) m → opp = negb (is_buy (o_side a)) →
  Forall (λ x, queue_ok x.2) m → 0 ≤ o_leaves a →
  ∃ ts, tr = ETrade <$> ts ∧ StronglySorted (λ t u, ¬ better a (t_price u) (t_price t)) ts ∧
    Forall (λ t, trade_in a m t ∧ none_better a (t_price t) (sweep_levels m')) ts.
Proof.
  induction m as [|[p es] m IH]; intros a m' tr a' Hm Hs Hsd Hok Ha.
  { apply pair_eq in Hm as [[<- <-]%pair_eq <-]. exists []. split; [done|]. split; constructor. }
  apply Forall_cons in Hok as [Hq Hok]. cbn in Hq. apply smap_sorted_cons in Hs as [Hs Hk].
  destruct es as [|e es].
  { destruct (IH a m' tr a' Hm Hs Hsd Hok Ha) as (ts & -> & Hts & Hall). exists ts. do 2 (split; [done|]).
    eapply Forall_impl; [exact Hall|]. intros t [Ht Hn]. split; [|done]. eapply trade_in_more; [|exact Ht]. set_solver. }
  destruct (match_levels_cons algo a p e es m Hq Ha) as
    [[Heq _]|(Hpos & Hc & [Hsh _] & Hlen & Hcase)];
    [rewrite Heq in Hm; apply pair_eq in Hm as [[<- <-]%pair_eq <-]; exists []; split; [done|split; constructor]|].
  set (fs := alloc_of algo (o_leaves a) (leaves_of (e :: es))) in *.
  destruct (fill_trades_with a p (e :: es) fs (shares_nonneg _ _ Hsh)) as (ts & Hts & Hall).
  assert (Forall (λ t, t_price t = p) ts) as Hp by (eapply Forall_impl; [exact Hall|]; by intros t [? _]).
  assert (Forall (trade_in a ((p, e :: es) :: m)) ts) as Hin.
  { eapply Forall_impl; [exact Hall|]. intros t Ht. pose proof Ht as [Hpt _]. unfold trade_in. rewrite Hpt. split; [by apply crosses_within|].
    exists (e :: es). split; [left|done]. }
  destruct Hcase as [[H0 Heq]|(H1 & Hfs & Heq)]; rewrite Heq in Hm.
  - apply pair_eq in Hm as [[<- <-]%pair_eq <-]. exists ts. split; [done|]. split; [by apply (same_price_sorted a p)|].
    rewrite Forall_forall in Hp, Hin |- *. intros t Ht. split; [by apply Hin|]. rewrite (Hp t Ht).
    intros q es' (es0 & [[= -> ->]|Hq0]%elem_of_cons & _)%sweep_levels_elem; [apply better_irrefl|].
    by eapply (worse_behind a opp p m m).
  - destruct (match_levels algo _ m) as [[m1 tr1] a1] eqn:Hrec. apply pair_eq in Hm as [[<- <-]%pair_eq <-].
    destruct (IH _ _ _ _ Hrec Hs Hsd Hok) as (ts1 & -> & Hts1 & Hall1); [cbn in *; lia|].
    destruct (match_levels_keys _ _ _ _ _ _ Hrec) as [Hsub _]. apply sublist_subseteq in Hsub.
    exists (ts ++ ts1). split; [by rewrite Hts, fmap_app|]. rewrite Hfs. cbn [sweep_levels]. rewrite fill_all_swept.
    rewrite Forall_forall in Hp, Hin, Hall1. split.
    + apply sorted_app; [by apply (same_price_sorted a p), Forall_forall|done|]. intros t u Ht Hu. rewrite (Hp t Ht).
      destruct (Hall1 u Hu) as [(_ & es' & Hu' & _) _]. by eapply (worse_behind a opp p m m).
    + apply Forall_app. split; apply Forall_forall; intros t Ht.
      * split; [by apply Hin|]. rewrite (Hp t Ht). eapply (worse_behind a opp p m); [done|done|]. etrans; [apply sweep_levels_keys|done].
      * destruct (Hall1 t Ht) as [Ht1 Hn]. split; [|done]. eapply trade_in_more; [|exact Ht1]. set_solver.
Qed.
