(* ===== verification/Engine.v ===== *)
(** * The matching engine over a sequence of operations

    The book and the matcher together, driven by the two operations the server
    performs on them: submitting a freshly allocated order and cancelling by
    key. The invariant of the engine and the theorems about whole runs. *)

From S2P Require Import Prelude Types PriceLevel SortedMap OrderBook BookRep BookProps ProRata Matcher FillProps MatchSpec MatchProps SubmitProps TradeProps.

(** ** Operations *)

Inductive Op :=
| OpSubmit (o : Order)
| OpCancel (s : SessionId) (c : ClOrdID).

(** The engine and the next address of the allocator. *)
Record Engine := mkEngine { e_m : MState; e_next : loc }.
Definition init_engine : Engine := mkEngine init_state 1.

Definition exec (algo : MatchAlgo) (op : Op) (e : Engine) : res Engine :=
  let s := e_m e in
  match op with
  | OpSubmit o =>
      let! s := submit algo (e_next e) (mkM (m_book s) (<[e_next e := o]> (m_heap s)) (m_out s)) in
      Ok (mkEngine s (Pos.succ (e_next e)))
  | OpCancel sid c =>
      let! '(_, b, h) := cancel sid c (m_book s) (m_heap s) in
      Ok (mkEngine (mkM b h (m_out s)) (e_next e))
  end.

Fixpoint exec_all (algo : MatchAlgo) (ops : list Op) (e : Engine) : res Engine :=
  match ops with
  | [] => Ok e
  | op :: ops => let! e := exec algo op e in exec_all algo ops e
  end.

(** Operations of the book and the matcher, with the algorithm set in between. *)
Inductive Call := CallOp (op : Op) | CallSetAlgo (a : MatchAlgo).
Definition call (c : Call) (st : Matcher * Engine) : res (Matcher * Engine) :=
  match c with
  | CallOp op => let! e := exec (algo st.1) op st.2 in Ok (st.1, e)
  | CallSetAlgo a => Ok (set_algo a st.1, st.2)
  end.
Fixpoint call_all (cs : list Call) (st : Matcher * Engine) : res (Matcher * Engine) :=
  match cs with
  | [] => Ok st
  | c :: cs => let! st := call c st in call_all cs st
  end.
Definition ops_of (cs : list Call) : list Op := omap (λ c, match c with CallOp op => Some op | _ => None end) cs.

(** The abstract book after an operation. *)
Definition a_cancel (sid : SessionId) (c : ClOrdID) (ab : ABook) : ABook :=
  match list_find (λ e : entry, order_key e.2 = (sid, c)) (entries ab) with
  | Some (_, (l, a)) => a_remove l a ab
  | None => ab
  end.
Definition a_exec (algo : MatchAlgo) (op : Op) (next : loc) (ab : ABook) : ABook * EventList :=
  match op with
  | OpSubmit o => a_submit algo next o ab
  | OpCancel sid c => (a_cancel sid c ab, [])
  end.

(** ** The invariant *)

Definition total (ab : ABook) : Z := sumz (leaves_of (entries ab)).

(** Best bid below best ask. *)
Definition uncrossed (ab : ABook) : Prop :=
  ∀ p es q es', (p, es) ∈ ab_bids ab → (q, es') ∈ ab_asks ab → es ≠ [] → es' ≠ [] → p < q.

Definition all_positive (ab : ABook) : Prop := ∀ l a, (l, a) ∈ entries ab → 0 < o_leaves a.

Record engine_inv (e : Engine) (ab : ABook) : Prop := {
  ei_rep : book_rep (m_book (e_m e)) (m_heap (e_m e)) ab;
  ei_owns : owns (m_heap (e_m e)) ab;
  ei_next : ∀ l, l ∈ dom (m_heap (e_m e)) → (l < e_next e)%positive;
  ei_pos : all_positive ab;
  ei_uncrossed : uncrossed ab
}.

(** ** Totals *)

Lemma leaves_of_perm es es' : es ≡ₚ es' → sumz (leaves_of es) = sumz (leaves_of es').
Proof. by intros ->. Qed.

Lemma total_sides opp ab :
  total ab = side_total (a_levels opp ab) + side_total (a_levels (negb opp) ab).
Proof.
  unfold total, side_total. rewrite <- sumz_app, <- leaves_of_app.
  apply leaves_of_perm. symmetry. apply entries_side.
Qed.

Lemma total_zb opp ab m :
  total (zb opp ab m) = side_total m + side_total (a_levels (negb opp) ab).
Proof. rewrite (total_sides opp). unfold zb. by autorewrite with obfix. Qed.

Lemma queue_total_le ab buy p es :
  all_positive ab → (p, es) ∈ a_levels buy ab → sumz (leaves_of es) ≤ total ab.
Proof.
  intros Hpos Hin. unfold total.
  assert (∃ others, entries ab ≡ₚ es ++ others) as (others & Hp).
  { apply list_elem_of_split in Hin as (m1 & m2 & Hm).
    exists (side_entries m1 ++ side_entries m2 ++ side_entries (a_levels (negb buy) ab)).
    rewrite <- (entries_side buy), Hm. unfold side_entries at 1. rewrite fmap_app, join_app. csimpl.
    fold (side_entries m1). fold (side_entries m2). rewrite <- !app_assoc.
    apply Permutation_app_swap_app. }
  rewrite (leaves_of_perm _ _ Hp), leaves_of_app, sumz_app.
  assert (0 ≤ sumz (leaves_of others)); [|lia]. apply sumz_nonneg. apply Forall_forall.
  intros q ([l a] & -> & Ha)%list_elem_of_fmap. cbn. apply Z.lt_le_incl, (Hpos l a). rewrite Hp. set_solver.
Qed.

Lemma resting_ok_total ab : all_positive ab → total ab < two63 → resting_ok ab.
Proof.
  intros Hpos Ht buy p es Hin. split; [|pose proof (queue_total_le _ _ _ _ Hpos Hin); lia].
  apply Forall_forall. intros q ([l a] & -> & Ha)%list_elem_of_fmap. apply (Hpos l a).
  apply entries_elem. eauto.
Qed.

(** ** Submitting keeps the invariant *)

Lemma total_rest b h ab l o : book_rep b h ab → total (a_rest l o ab) = total ab + o_leaves o.
Proof.
  intros Hb. unfold total. rewrite (leaves_of_perm _ _ (entries_rest _ _ _ l o Hb)).
  rewrite leaves_of_cons, sumz_cons. cbn. lia.
Qed.

Lemma all_positive_swept ab opp m :
  placed (zb opp ab (sweep_levels m)) → all_positive ab →
  all_positive (zb opp ab (sweep_levels m)).
Proof.
  intros Hpl Hpos l a Hin. pose proof Hin as [Hs|Hs]%zb_elem.
  - apply entries_elem in Hin as (buy & p & es & Hin & Ha).
    destruct (Hpl _ _ _ _ _ Hin Ha) as (_ & _ & Hu). unfold in_u64 in Hu.
    apply side_entries_elem in Hs as (q & es' & (es0 & _ & -> & _)%sweep_levels_elem & Ha').
    apply list_elem_of_filter in Ha' as [Hne _]. cbn in Hne. lia.
  - apply (Hpos l a). rewrite <- (zb_self opp ab). apply zb_elem. by right.
Qed.

Lemma match_side_uncrossed algo o ab ab1 tr o' :
  match_side algo o ab = (ab1, tr, o') → uncrossed ab → uncrossed ab1.
Proof.
  unfold match_side. destruct (match_levels algo o _) as [[m' tr'] o''] eqn:Hm. intros [= <- <- <-] Hu.
  assert (∀ p es, (p, es) ∈ sweep_levels m' → es ≠ [] →
    ∃ es0, (p, es0) ∈ a_levels (negb (is_buy (o_side o))) ab ∧ es0 ≠ []) as Hback.
  { intros p es (es1 & Hin & -> & Hne)%sweep_levels_elem _.
    apply match_levels_keys in Hm as [_ Hm]. eapply Hm; [done|]. by intros ->. }
  intros p es q es' Hp Hq Hne Hne'. destruct (is_buy (o_side o)); cbn in *.
  - destruct (Hback _ _ Hq Hne') as (es0 & ? & ?). by eapply Hu.
  - destruct (Hback _ _ Hp Hne) as (es0 & ? & ?). by eapply Hu.
Qed.

Lemma match_side_total algo o ab ab1 tr o' :
  match_side algo o ab = (ab1, tr, o') → resting_ok ab → 0 ≤ o_leaves o →
  total ab1 = total ab - traded tr ∧ traded tr = o_leaves o - o_leaves o' ∧
  o' = set_leaves (o_leaves o') o ∧ 0 ≤ o_leaves o' ≤ o_leaves o.
Proof.
  unfold match_side. destruct (match_levels algo o _) as [[m' tr'] o''] eqn:Hm. intros [= <- <- <-] Hok Ho.
  set (opp := negb (is_buy (o_side o))) in *.
  destruct (match_levels_conserve _ _ _ _ _ _ Hm (resting_ok_side _ _ Hok) Ho) as [H1 H2].
  destruct (match_levels_aggr _ _ _ _ _ _ Hm (resting_ok_side _ _ Hok) Ho) as [H3 H4].
  split_and!; [|done..|lia|lia]. fold (zb opp ab (sweep_levels m')).
  rewrite total_zb, sweep_total, (total_sides opp ab). lia.
Qed.

(** What remains of the aggressor faces no crossing price. *)
Lemma match_side_remainder algo o ab ab1 tr o' buy p es :
  match_side algo o ab = (ab1, tr, o') → resting_ok ab → 0 ≤ o_leaves o →
  (∀ side, smap_sorted (cmp side) (a_levels side ab)) →
  0 < o_leaves o' → buy = negb (is_buy (o_side o)) → (p, es) ∈ a_levels buy ab1 →
  crosses (o_side o) (o_price o) p = false.
Proof.
  unfold match_side. destruct (match_levels algo o _) as [[m' tr'] o''] eqn:Hm.
  intros [= <- <- <-] Hok Ho Hs Hpos -> Hin. autorewrite with obfix in Hin.
  eapply match_levels_uncrossed in Hm; [|apply Hs|by rewrite negb_involutive|
    by apply resting_ok_side|done|done].
  rewrite Forall_forall in Hm. exact (Hm _ Hin).
Qed.

Lemma uncrossed_rest l o ab :
  (∀ side, smap_sorted (cmp side) (a_levels side ab)) → uncrossed ab →
  (∀ p es, (p, es) ∈ a_levels (negb (is_buy (o_side o))) ab →
    crosses (o_side o) (o_price o) p = false) →
  uncrossed (a_rest l o ab).
Proof.
  intros Hs Hu Hc p es q es' Hp Hq Hne Hne'. unfold a_rest in *. unfold crosses in Hc.
  set (buy := is_buy (o_side o)) in *.
  change (ab_bids ?x) with (a_levels true x) in Hp. change (ab_asks ?x) with (a_levels false x) in Hq.
  apply a_update_levels_elem in Hp as [(Hb&->&_)|Hp]; [|..|apply Hs];
    apply a_update_levels_elem in Hq as [(Hb'&->&_)|Hq]; try apply Hs.
  - congruence.
  - rewrite <- Hb in Hc. specialize (Hc _ _ Hq). cbn in Hc. apply Z.leb_gt in Hc. lia.
  - rewrite <- Hb' in Hc. specialize (Hc _ _ Hp). cbn in Hc. rewrite Z.geb_leb in Hc. apply Z.leb_gt in Hc. lia.
  - by eapply Hu.
Qed.

Lemma running_alloc e ab o :
  engine_inv e ab →
  running (mkM (m_book (e_m e)) (<[e_next e := o]> (m_heap (e_m e))) (m_out (e_m e))) ab (e_next e) o.
Proof.
  intros [Hb Ho Hn _ _]. assert (e_next e ∉ dom (m_heap (e_m e))) as Hfr.
  { intros Hin%Hn. lia. }
  assert (e_next e ∉ (entries ab).*1) as Hfr' by (by rewrite <- (Ho (e_next e))).
  split_and!; cbn; [|apply lookup_insert_eq|done|].
  - destruct Hb as [Hsd ? ? ? ?]. split; [|done..]. intros buy. eapply side_rep_frame; [|apply Hsd].
    intros l Hl. apply lookup_insert_ne. intros <-. apply Hfr'.
    rewrite <- (entries_side buy), fmap_app. set_solver.
  - intros l. rewrite dom_insert_L, elem_of_union, elem_of_singleton, (Ho l). done.
Qed.

(** Every entry after a submission is the new order or an old one. *)
Lemma match_side_elem algo o ab ab1 tr o' l a :
  match_side algo o ab = (ab1, tr, o') → (l, a) ∈ entries ab1 →
  ∃ a0 q, (l, a0) ∈ entries ab ∧ a = set_leaves q a0.
Proof.
  unfold match_side. destruct (match_levels algo o _) as [[m' tr'] o''] eqn:Hm. intros [= <- <- <-].
  set (opp := negb (is_buy (o_side o))) in *. fold (zb opp ab (sweep_levels m')).
  intros [Hin|Hin]%zb_elem.
  - apply sweep_entries_elem in Hin. eapply match_levels_elem in Hin as (a0 & q & ? & ->); [|done].
    exists a0, q. split; [|done]. rewrite <- (zb_self opp ab). apply zb_elem. by left.
  - exists a, (o_leaves a). split; [|by rewrite set_leaves_id].
    rewrite <- (zb_self opp ab). apply zb_elem. by right.
Qed.

Definition keys_within (ks : list IndexKey) (ab : ABook) : Prop :=
  ∀ l a, (l, a) ∈ entries ab → order_key a ∈ ks.

Lemma total_nonneg ab : all_positive ab → 0 ≤ total ab.
Proof.
  intros Hpos. apply sumz_nonneg, Forall_forall. intros q ([l a] & -> & Ha)%list_elem_of_fmap.
  apply Z.lt_le_incl, (Hpos l a Ha).
Qed.

Lemma match_side_positive algo o ab ab1 tr o' :
  match_side algo o ab = (ab1, tr, o') → placed ab1 → all_positive ab → all_positive ab1.
Proof.
  unfold match_side. destruct (match_levels algo o _) as [[m' tr'] o'']. intros [= <- <- <-] Hpl Hpos.
  by apply all_positive_swept.
Qed.

(** Keys and addresses of a book made of the new order and what matching left. *)
Lemma match_side_from algo o ab ab1 tr o' ks next :
  match_side algo o ab = (ab1, tr, o') → keys_within ks ab → (∀ l, l ∈ (entries ab).*1 → (l < next)%positive) →
  ∀ ab', (∀ l a, (l, a) ∈ entries ab' → (l = next ∧ order_key a = order_key o) ∨ (l, a) ∈ entries ab1) →
    keys_within (order_key o :: ks) ab' ∧ ∀ l, l ∈ (entries ab').*1 → (l < Pos.succ next)%positive.
Proof.
  intros Hm Hks Hlt ab' Hin. split.
  - intros l a [[_ ->]|H1]%Hin; [left|]. right.
    destruct (match_side_elem _ _ _ _ _ _ _ _ Hm H1) as (a0 & q & Ha0 & ->). exact (Hks _ _ Ha0).
  - intros l ([l0 a] & -> & [[-> _]|H1]%Hin)%list_elem_of_fmap; cbn; [lia|].
    destruct (match_side_elem _ _ _ _ _ _ _ _ Hm H1) as (a0 & q & Ha0 & ->).
    assert (l0 < next)%positive; [|lia]. apply Hlt. apply list_elem_of_fmap. by exists (l0, a0).
Qed.

Lemma engine_submit algo e ab o ks :
  engine_inv e ab → keys_within ks ab → order_key o ∉ ks →
  0 ≤ o_leaves o → total ab + o_leaves o < two63 →
  ∃ e', exec algo (OpSubmit o) e = Ok e' ∧
    let '(ab', evs) := a_submit algo (e_next e) o ab in
    engine_inv e' ab' ∧ m_out (e_m e') = m_out (e_m e) ++ evs ∧
    total ab' ≤ total ab + o_leaves o ∧ keys_within (order_key o :: ks) ab'.
Proof.
  intros Hinv Hks Hk Ho Ht. pose proof (running_alloc _ _ o Hinv) as Hr.
  destruct Hinv as [Hb Hown Hn Hpos Hunc].
  pose proof (total_nonneg ab Hpos) as Hnn.
  assert (resting_ok ab) as Hok by (apply resting_ok_total; [done|lia]).
  assert (fresh_key o ab) as Hf by (intros l a Hin Heq; apply Hk; rewrite <- Heq; by eapply Hks).
  destruct (submit_eval algo _ ab (e_next e) o Hr Hok) as (s' & He & Hres); [unfold in_u64; lia|done|].
  unfold exec. rewrite He. cbn [rbind]. eexists. split; [done|].
  unfold a_submit in *. destruct (match_side algo o ab) as [[ab1 tr] o'] eqn:Hm.
  destruct Hres as (Hb' & Hown' & Hout & s2 & Hr2). cbn in Hr2.
  destruct (match_side_total _ _ _ _ _ _ Hm Hok Ho) as (Htot & Htr & Heq & Hle).
  pose proof (match_side_uncrossed _ _ _ _ _ _ Hm Hunc) as Hunc1.
  pose proof Hr2 as (Hb1 & _ & Hfr1 & _).
  pose proof (match_side_positive _ _ _ _ _ _ Hm (br_placed _ _ _ Hb1) Hpos) as Hpos1.
  assert (∀ l, l ∈ (entries ab).*1 → (l < e_next e)%positive) as Hlt by (intros l Hl; by apply Hn, Hown).
  pose proof (match_side_from _ _ _ _ _ _ _ _ Hm Hks Hlt) as Hfrom.
  destruct (Z.gtb_spec (o_leaves o') 0) as [Hgt|Hngt].
  - destruct (Hfrom (a_rest (e_next e) o' ab1)) as [Hkeys Hlocs].
    { intros l a. rewrite (entries_rest _ _ _ _ _ Hb1). intros [[= -> ->]|?]%elem_of_cons; [left|by right].
      by rewrite Heq. }
    split_and!; [split; cbn| | |done].
    + done.
    + done.
    + intros l Hl%Hown'. by apply Hlocs.
    + intros l a. rewrite (entries_rest _ _ _ _ _ Hb1).
      intros [[= -> ->]|Hin]%elem_of_cons; [cbn; lia|by eapply Hpos1].
    + apply uncrossed_rest; [apply (br_sorted _ _ _ Hb1)|done|].
      rewrite Heq. cbn. intros p es Hin. eapply match_side_remainder; try done; apply (br_sorted _ _ _ Hb).
    + done.
    + rewrite (total_rest _ _ _ _ _ Hb1). lia.
  - destruct (Hfrom ab1) as [Hkeys Hlocs]; [by right|].
    split_and!; [split; cbn| | |done]; try done; [|lia]. intros l Hl%Hown'. by apply Hlocs.
Qed.

(** ** Cancelling keeps the invariant *)

Lemma a_remove_elem b h ab l a :
  book_rep b h ab → (l, a) ∈ entries ab →
  ∀ x, x ∈ entries (a_remove l a ab) → x ∈ entries ab.
Proof. intros Hb Hin x Hx. rewrite (entries_remove _ _ _ _ _ Hb Hin). by right. Qed.

Lemma uncrossed_remove b h ab l a :
  book_rep b h ab → uncrossed ab → uncrossed (a_remove l a ab).
Proof.
  intros Hb Hu p es q es' Hp Hq Hne Hne'. unfold a_remove in *.
  assert (∀ buy r es, (r, es) ∈ a_levels buy (a_update (is_buy (o_side a)) (o_price a)
    (without l (a_queue (is_buy (o_side a)) (o_price a) ab)) ab) → es ≠ [] →
    ∃ es0, (r, es0) ∈ a_levels buy ab ∧ es0 ≠ []) as Hback.
  { intros buy r es0 Hin Hn. apply a_update_levels_elem in Hin as [(->&->&->)|Hin];
      [|by eauto|apply (br_sorted _ _ _ Hb)].
    unfold a_queue in Hn. destruct (smap_find (o_price a) _) as [es1|] eqn:Hf; [|done].
    exists es1. split; [by apply smap_find_elem|]. by intros ->. }
  destruct (Hback true _ _ Hp Hne) as (es0 & ? & ?), (Hback false _ _ Hq Hne') as (es1 & ? & ?).
  by eapply Hu.
Qed.

Lemma engine_cancel algo e ab sid c ks :
  engine_inv e ab → keys_within ks ab →
  ∃ e', exec algo (OpCancel sid c) e = Ok e' ∧ engine_inv e' (a_cancel sid c ab) ∧
    m_out (e_m e') = m_out (e_m e) ∧ total (a_cancel sid c ab) ≤ total ab ∧
    keys_within ks (a_cancel sid c ab).
Proof.
  intros Hinv Hks. pose proof Hinv as [Hb Hown Hn Hpos Hunc]. unfold a_cancel, exec.
  destruct (list_find _ (entries ab)) as [[i [l a]]|] eqn:Hfind.
  - apply list_find_Some in Hfind as (Hi & Hkey & _). apply list_elem_of_lookup_2 in Hi. cbn in Hkey.
    destruct (cancel_rep _ _ _ _ _ _ _ Hb Hi Hkey) as (b' & h' & He & Hb' & Hd).
    pose proof (entries_remove _ _ _ _ _ Hb Hi) as Hp.
    rewrite He. cbn [rbind]. eexists. split; [done|]. split_and!; [split; cbn|done| |].
    + done.
    + intros l'. rewrite Hd, elem_of_difference, not_elem_of_singleton, (Hown l'), Hp. csimpl.
      rewrite elem_of_cons. pose proof (br_nodup _ _ _ Hb) as Hnd. rewrite Hp in Hnd. csimpl in Hnd.
      apply NoDup_cons in Hnd as [Hl _]. split; [naive_solver|]. intros Hin. split; [by right|]. by intros ->.
    + intros l'. rewrite Hd, elem_of_difference. intros [? _]. by apply Hn.
    + intros l' a' Hin. apply (Hpos l' a'). by eapply a_remove_elem.
    + by eapply uncrossed_remove.
    + unfold total. rewrite (leaves_of_perm _ _ Hp), leaves_of_cons, sumz_cons. cbn.
      pose proof (Hpos _ _ Hi). lia.
    + intros l' a' Hin. apply (Hks l' a'). by eapply a_remove_elem.
  - apply list_find_None in Hfind. rewrite Forall_forall in Hfind.
    rewrite (cancel_unknown _ _ _ _ _ Hb); [|intros l a Hin; exact (Hfind _ Hin)].
    cbn [rbind]. eexists. split; [done|]. split_and!; [|done|lia|done]. by destruct e as [[] ?].
Qed.

(** ** Runs *)

Fixpoint a_exec_all (algo : MatchAlgo) (ops : list Op) (next : loc) (ab : ABook) :
    ABook * EventList :=
  match ops with
  | [] => (ab, [])
  | op :: ops =>
      let '(ab1, evs) := a_exec algo op next ab in
      let next := match op with OpSubmit _ => Pos.succ next | OpCancel _ _ => next end in
      let '(ab2, evs') := a_exec_all algo ops next ab1 in
      (ab2, evs ++ evs')
  end.

Definition submitted (ops : list Op) : list Order :=
  omap (λ op, match op with OpSubmit o => Some o | _ => None end) ops.
Definition submitted_qty (ops : list Op) : Z := sumz (o_leaves <$> submitted ops).

(** A feed the engine is safe on: keys are not reused, and what is ever
    submitted adds up to less than 2^63. *)
Definition feed_ok (ks : list IndexKey) (ops : list Op) : Prop :=
  NoDup (ks ++ (order_key <$> submitted ops)) ∧
  Forall (λ o, 0 ≤ o_leaves o) (submitted ops).

#[global] Instance feed_ok_dec ks ops : Decision (feed_ok ks ops).
Proof. unfold feed_ok. apply _. Defined.

Lemma exec_next algo op e e' :
  exec algo op e = Ok e' →
  e_next e' = match op with OpSubmit _ => Pos.succ (e_next e) | OpCancel _ _ => e_next e end.
Proof. destruct op; cbn; intros He; res_inv; [done|]. by destruct x as [[] ?]; res_inv. Qed.

(** The abstract engine on calls. *)
Fixpoint a_call_all (al : MatchAlgo) (cs : list Call) (next : loc) (ab : ABook) : ABook * EventList :=
  match cs with
  | [] => (ab, [])
  | CallSetAlgo a :: cs => a_call_all a cs next ab
  | CallOp op :: cs =>
      let '(ab1, evs) := a_exec al op next ab in
      let next := match op with OpSubmit _ => Pos.succ next | OpCancel _ _ => next end in
      let '(ab2, evs') := a_call_all al cs next ab1 in
      (ab2, evs ++ evs')
  end.

(** One operation: what it leaves for the operations [rest] behind it. *)
Lemma engine_step al op rest e ab ks :
  engine_inv e ab → keys_within ks ab → feed_ok ks (op :: rest) → total ab + submitted_qty (op :: rest) < two63 →
  ∃ e' ks', exec al op e = Ok e' ∧ let '(ab', evs) := a_exec al op (e_next e) ab in
    engine_inv e' ab' ∧ m_out (e_m e') = m_out (e_m e) ++ evs ∧ keys_within ks' ab' ∧ feed_ok ks' rest ∧
    total ab' + submitted_qty rest ≤ total ab + submitted_qty (op :: rest).
Proof.
  intros Hinv Hks [Hnd Hnn] Ht. destruct op as [o|sid c].
  - cbn in Hnd, Hnn. apply Forall_cons in Hnn as [Ho Hnn].
    change (submitted_qty (OpSubmit o :: rest)) with (o_leaves o + submitted_qty rest) in *.
    assert (0 ≤ submitted_qty rest) by (apply sumz_nonneg, Forall_fmap; exact Hnn).
    assert (order_key o ∉ ks) as Hk.
    { apply NoDup_app in Hnd as (_ & Hdj & _). intros Hin. apply (Hdj _ Hin). left. }
    destruct (engine_submit al e ab o ks Hinv Hks Hk Ho) as (e1 & He & Hres); [lia|].
    exists e1, (order_key o :: ks). split; [done|]. cbn [a_exec]. destruct (a_submit al (e_next e) o ab) as [ab1 evs].
    destruct Hres as (Hinv1 & Hout1 & Ht1 & Hks1). split_and!; [done..| |lia].
    split; [|done]. cbn. by rewrite Permutation_middle.
  - destruct (engine_cancel al e ab sid c ks Hinv Hks) as (e1 & He & Hinv1 & Hout1 & Ht1 & Hks1).
    exists e1, ks. split; [done|]. cbn [a_exec]. rewrite app_nil_r.
    change (submitted_qty (OpCancel sid c :: rest)) with (submitted_qty rest) in *. split_and!; [done..|lia].
Qed.

Lemma calls_run cs : ∀ m e ab ks,
  engine_inv e ab → keys_within ks ab → feed_ok ks (ops_of cs) → total ab + submitted_qty (ops_of cs) < two63 →
  ∃ m' e', call_all cs (m, e) = Ok (m', e') ∧
    let '(ab', evs) := a_call_all (algo m) cs (e_next e) ab in
    engine_inv e' ab' ∧ m_out (e_m e') = m_out (e_m e) ++ evs ∧
    total ab' ≤ total ab + submitted_qty (ops_of cs).
Proof.
  induction cs as [|[op|a] cs IH]; intros m e ab ks Hinv Hks Hf Ht.
  { exists m, e. cbn. rewrite app_nil_r. split_and!; [done..|]. unfold submitted_qty. cbn. lia. }
  - cbn [call_all a_call_all call fst snd]. change (ops_of (CallOp op :: cs)) with (op :: ops_of cs) in *.
    destruct (engine_step (algo m) op (ops_of cs) e ab ks Hinv Hks Hf Ht) as (e1 & ks1 & He & Hres).
    rewrite He. cbn [rbind]. rewrite <- (exec_next _ _ _ _ He).
    destruct (a_exec (algo m) op (e_next e) ab) as [ab1 evs]. destruct Hres as (Hinv1 & Hout1 & Hks1 & Hf1 & Ht1).
    destruct (IH m e1 ab1 ks1 Hinv1 Hks1 Hf1) as (m2 & e2 & He2 & Hres2); [lia|].
    exists m2, e2. split; [done|]. destruct (a_call_all (algo m) cs (e_next e1) ab1) as [ab2 evs2].
    destruct Hres2 as (? & Hout2 & ?). rewrite Hout2, Hout1, <- app_assoc. split_and!; [done..|lia].
  - by apply (IH (set_algo a m) e ab ks).
Qed.

(** Runs under one algorithm are runs without [set_algo]. *)
Lemma exec_all_calls m ops : ∀ e,
  call_all (CallOp <$> ops) (m, e) = let! e := exec_all (algo m) ops e in Ok (m, e).
Proof.
  induction ops as [|op ops IH]; intros e; [done|]. csimpl. cbn [call_all call exec_all fst snd].
  destruct (exec (algo m) op e); [apply IH|done..].
Qed.
Lemma a_exec_all_calls al ops : ∀ next ab, a_call_all al (CallOp <$> ops) next ab = a_exec_all al ops next ab.
Proof.
  induction ops as [|op ops IH]; intros next ab; [done|]. csimpl. cbn [a_exec_all a_call_all].
  destruct (a_exec al op next ab) as [ab1 evs]. by rewrite IH.
Qed.
Lemma ops_of_calls ops : ops_of (CallOp <$> ops) = ops.
Proof. induction ops as [|op ops IH]; [done|]. csimpl. unfold ops_of in *. cbn. by rewrite IH. Qed.

Lemma engine_run al ops : ∀ e ab ks,
  engine_inv e ab → keys_within ks ab → feed_ok ks ops → total ab + submitted_qty ops < two63 →
  ∃ e', exec_all al ops e = Ok e' ∧
    let '(ab', evs) := a_exec_all al ops (e_next e) ab in
    engine_inv e' ab' ∧ m_out (e_m e') = m_out (e_m e) ++ evs ∧
    total ab' ≤ total ab + submitted_qty ops.
Proof.
  intros e ab ks Hinv Hks Hf Ht.
  destruct (calls_run (CallOp <$> ops) (mkMatcher al) e ab ks) as (m' & e' & He & Hres); rewrite ?ops_of_calls in *; [done..|].
  rewrite exec_all_calls in He. rewrite a_exec_all_calls in Hres. cbn [algo algo_] in *.
  destruct (exec_all al ops e) as [e1| | |]; try done. injection He as _ ->. by exists e'.
Qed.

Lemma init_inv : engine_inv init_engine a_empty.
Proof.
  split.
  - split; [intros []; constructor|intros []; constructor|constructor|by intros [] ? ? ? ? ?%not_elem_of_nil|].
    intros k l. cbn. rewrite lookup_empty. split; [done|]. by intros (a & ?%not_elem_of_nil & _).
  - intros l. cbn. rewrite dom_empty_L. set_solver.
  - intros l. cbn. rewrite dom_empty_L. set_solver.
  - by intros ? ? ?%not_elem_of_nil.
  - by intros ? ? ? ? ?%not_elem_of_nil.
Qed.
