(* ===== verification/CoreTheorems.v ===== *)
(** * Theorems about the book and the matcher

    The properties of price levels, the order book and the matching engine,
    each with a witness on a concrete book. *)

From S2P Require Import Prelude Types PriceLevel SortedMap OrderBook BookRep BookProps ProRata Matcher FillProps MatchSpec MatchProps SubmitProps TradeProps Engine.

(** ** A concrete book *)

(** Three sells at 100 and one at 101. *)
Definition ex_ops : list Op :=
  [OpSubmit (new_order 1 (B "A") Sell 100 100); OpSubmit (new_order 2 (B "B") Sell 100 200);
   OpSubmit (new_order 3 (B "C") Sell 100 300); OpSubmit (new_order 4 (B "D") Sell 101 50)].
Definition ex_engine : Engine :=
  match exec_all ProRata ex_ops init_engine with Ok e => e | _ => init_engine end.
Definition ex_book : ABook := (a_exec_all ProRata ex_ops 1 a_empty).1.

Lemma ex_inv : engine_inv ex_engine ex_book.
Proof.
  destruct (engine_run ProRata ex_ops init_engine a_empty [] init_inv) as (e & He & Hres);
    [by intros ? ? ?%not_elem_of_nil|decided|reflexivity|].
  unfold ex_engine, ex_book. rewrite He. change (e_next init_engine) with 1%positive in Hres.
  destruct (a_exec_all ProRata ex_ops 1 a_empty). apply Hres.
Qed.

Lemma ex_resting_ok : resting_ok ex_book.
Proof. apply resting_ok_total; [apply (ei_pos _ _ ex_inv)|reflexivity]. Qed.

(** A buyer of 500 at 100, allocated next to the book. *)
Definition ex_buyer : Order := new_order 5 (B "E") Buy 100 500.
Definition ex_state : MState :=
  mkM (m_book (e_m ex_engine)) (<[5%positive := ex_buyer]> (m_heap (e_m ex_engine)))
    (m_out (e_m ex_engine)).

Lemma ex_running : running ex_state ex_book 5 ex_buyer.
Proof. apply (running_alloc ex_engine ex_book ex_buyer ex_inv). Qed.

Lemma ex_fresh : fresh_key ex_buyer ex_book.
Proof.
  intros l e Hin. assert (Forall (λ x, order_key x.2 ≠ order_key ex_buyer) (entries ex_book)) as Hf by decided.
  rewrite Forall_forall in Hf. exact (Hf _ Hin).
Qed.

(** ** Price levels *)

(** A level with one order, and a second order to link. *)
Definition ex_heap : heap :=
  {[1%positive := new_order 1 (B "A") Buy 7 10; 2%positive := new_order 2 (B "B") Buy 7 20]}.
Definition ex_level : PriceLevel := mkLevel (Some 1%positive) (Some 1%positive) 1 10.

Lemma ex_level_rep : level_rep ex_heap ex_level [(1%positive, new_order 1 (B "A") Buy 7 10)].
Proof. split; [|reflexivity]. split; [by split|]. split_and!; [apply NoDup_singleton|done..]. Qed.

(** Two orders at one price, and an aggressor outside the level. *)
Definition ex_a1 : Order := new_order 1 (B "A") Sell 7 10.
Definition ex_a2 : Order := new_order 2 (B "B") Sell 7 20.
Definition ex_queue : list entry := [(1%positive, ex_a1); (2%positive, ex_a2)].
Definition ex_heap2 : heap :=
  {[1%positive := set_next (Some 2%positive) ex_a1; 2%positive := set_prev (Some 1%positive) ex_a2;
    3%positive := new_order 3 (B "C") Buy 7 50]}.
Definition ex_level2 : PriceLevel := mkLevel (Some 1%positive) (Some 2%positive) 2 30.

Lemma ex_level2_rep : level_rep ex_heap2 ex_level2 ex_queue.
Proof. split; [|reflexivity]. split; [by repeat split|]. split_and!; [decided|done..]. Qed.

(** [PriceLevel::push_back] appends. On a well-linked level it runs
    without touching an invalid pointer, the order becomes the youngest of the
    queue, the count and the cached total follow, and no object outside the
    level changes. *)
Theorem push_back_appends h lv es o ord :
  level_rep h lv es → h !! o = Some ord → o ∉ es.*1 →
  ∃ lv' h', push_back o lv h = Ok (lv', h') ∧
    level_rep h' lv' (es ++ [(o, strip ord)]) ∧ tail_ lv' = Some o ∧
    same_outside (o :: es.*1) h h'.
Proof.
  intros Hl Ho Hin. destruct (push_back_rep _ _ _ _ _ Hl Ho Hin) as (lv' & h' & He & Hl' & Hs).
  exists lv', h'. split; [done|]. split; [done|]. split; [|done].
  destruct Hl' as [(_ & _ & _ & -> & _) _]. by rewrite final_snoc.
Qed.

Lemma push_back_appends_witness :
  ∃ lv' h', push_back 2 ex_level ex_heap = Ok (lv', h') ∧
    level_rep h' lv' ([(1%positive, new_order 1 (B "A") Buy 7 10)] ++
      [(2%positive, strip (new_order 2 (B "B") Buy 7 20))]) ∧ tail_ lv' = Some 2%positive ∧
    same_outside [2%positive; 1%positive] ex_heap h'.
Proof.
  apply (push_back_appends ex_heap ex_level [(1%positive, new_order 1 (B "A") Buy 7 10)] 2
    (new_order 2 (B "B") Buy 7 20)); [exact ex_level_rep|reflexivity|decided].
Defined.

(** [PriceLevel::unlink] removes exactly the given order from any place
    of the queue, keeps the order of the others, resets the order's links, and
    dereferences only live pointers. *)
Theorem unlink_removes h lv es1 o a es2 :
  level_rep h lv (es1 ++ (o, a) :: es2) →
  ∃ lv' h', unlink o lv h = Ok (lv', h') ∧ level_rep h' lv' (es1 ++ es2) ∧
    h' !! o = Some (strip a) ∧ same_outside (es1 ++ (o, a) :: es2).*1 h h'.
Proof. apply unlink_rep. Qed.

Lemma unlink_removes_witness :
  ∃ lv' h', unlink 1 ex_level ex_heap = Ok (lv', h') ∧ level_rep h' lv' [] ∧
    h' !! 1%positive = Some (new_order 1 (B "A") Buy 7 10) ∧ same_outside [1%positive] ex_heap h'.
Proof. apply (unlink_removes ex_heap ex_level [] 1 (new_order 1 (B "A") Buy 7 10) []), ex_level_rep. Defined.

(** ** The order book *)

(** C27: [OrderBook::rest] with an unused key appends the order to the queue
    at its price and side, records it in the index, and keeps the whole book
    well-formed. *)
Theorem rest_refines b h ab raw o :
  book_rep b h ab → h !! raw = Some o → raw ∉ (entries ab).*1 → in_u64 (o_leaves o) →
  fresh_key o ab →
  ∃ b' h', rest raw b h = Ok (b', h') ∧ book_rep b' h' (a_rest raw o ab) ∧
    find (o_session o) (o_clord o) b' = Some raw ∧ same_outside (raw :: (entries ab).*1) h h'.
Proof.
  intros Hb Ho Hn Hu Hf.
  destruct (rest_rep _ _ _ _ _ Hb Ho Hn Hu (index_fresh _ _ _ _ Hb Hf)) as (b' & h' & He & Hb' & Hs).
  exists b', h'. split; [done|]. split; [done|]. split; [|done].
  apply (br_index _ _ _ Hb'). exists (strip o). split; [|done].
  rewrite (entries_rest _ _ _ _ _ Hb). left.
Qed.

Lemma rest_refines_witness :
  ∃ b' h', rest 5 (m_book ex_state) (m_heap ex_state) = Ok (b', h') ∧
    book_rep b' h' (a_rest 5 ex_buyer ex_book) ∧ find 0 (B "E") b' = Some 5%positive ∧
    same_outside (5%positive :: (entries ex_book).*1) (m_heap ex_state) h'.
Proof.
  destruct ex_running as (Hb & Ha & Hn & _).
  apply (rest_refines (m_book ex_state) (m_heap ex_state) ex_book 5 ex_buyer Hb Ha Hn);
    [decided|exact ex_fresh].
Defined.

(** C28: [OrderBook::cancel] of a resting order succeeds, removes exactly that
    order from its queue and from the index, frees it, and nothing else. *)
Theorem cancel_removes b h ab s c l a :
  book_rep b h ab → (l, a) ∈ entries ab → order_key a = (s, c) →
  ∃ b' h', cancel s c b h = Ok (mkCancelResult true [], b', h') ∧
    book_rep b' h' (a_remove l a ab) ∧ entries ab ≡ₚ (l, a) :: entries (a_remove l a ab) ∧
    find s c b' = None ∧ dom h' = dom h ∖ {[l]}.
Proof.
  intros Hb Hin Hk. destruct (cancel_rep _ _ _ _ _ _ _ Hb Hin Hk) as (b' & h' & He & Hb' & Hd).
  pose proof (entries_remove _ _ _ _ _ Hb Hin) as Hp.
  exists b', h'. split_and!; [done|done|done| |done]. unfold find.
  destruct (index_ b' !! (s, c)) as [l'|] eqn:Hi; [|done].
  apply (br_index _ _ _ Hb') in Hi as (a' & Hin' & Hk').
  assert (index_ b !! order_key a = Some l) as H1 by (apply (br_index _ _ _ Hb); eauto).
  assert (index_ b !! order_key a = Some l') as H2.
  { apply (br_index _ _ _ Hb). exists a'. split; [|congruence]. rewrite Hp. by right. }
  rewrite H1 in H2. injection H2 as <-. pose proof (br_nodup _ _ _ Hb) as Hnd. rewrite Hp in Hnd.
  apply NoDup_cons in Hnd as [Hl _]. destruct Hl. apply list_elem_of_fmap. by exists (l, a').
Qed.

Lemma cancel_removes_witness :
  ∃ b' h', cancel 0 (B "B") (m_book (e_m ex_engine)) (m_heap (e_m ex_engine)) =
      Ok (mkCancelResult true [], b', h') ∧ find 0 (B "B") b' = None.
Proof.
  destruct (cancel_removes (m_book (e_m ex_engine)) (m_heap (e_m ex_engine)) ex_book 0 (B "B") 2
    (new_order 2 (B "B") Sell 100 200) (ei_rep _ _ ex_inv)) as (b' & h' & He & _ & _ & Hf & _);
    [decided|reflexivity|]. exists b', h'. split; [exact He|exact Hf].
Defined.

(** [OrderBook::cancel] of a key that is not resting reports
    "unknown order" and changes neither the book nor the store. *)
Theorem cancel_unknown_rejected b h ab s c :
  book_rep b h ab → (∀ l a, (l, a) ∈ entries ab → order_key a ≠ (s, c)) →
  cancel s c b h = Ok (mkCancelResult false (B "unknown order"), b, h).
Proof. apply cancel_unknown. Qed.

Lemma cancel_unknown_rejected_witness :
  cancel 7 (B "B") (m_book (e_m ex_engine)) (m_heap (e_m ex_engine)) =
    Ok (mkCancelResult false (B "unknown order"), m_book (e_m ex_engine), m_heap (e_m ex_engine)).
Proof.
  apply (cancel_unknown_rejected _ _ ex_book 7 (B "B") (ei_rep _ _ ex_inv)).
  intros l a Hin. assert (Forall (λ x, order_key x.2 ≠ (7, B "B")) (entries ex_book)) as Hf by decided.
  rewrite Forall_forall in Hf. exact (Hf _ Hin).
Defined.

(** Prices with a resting order on a side. *)
Definition quoted (buy : bool) (ab : ABook) (p : Price) : Prop :=
  ∃ es, (p, es) ∈ a_levels buy ab ∧ es ≠ [].

Lemma best_price_rep h m am buy :
  side_rep h m am → smap_sorted (cmp buy) am →
  match best_price m with
  | Some p => (∃ es, (p, es) ∈ am ∧ es ≠ []) ∧
      ∀ q es, (q, es) ∈ am → es ≠ [] → q = p ∨ cmp buy p q = true
  | None => ∀ q es, (q, es) ∈ am → es = []
  end.
Proof.
  induction 1 as [|[k lv] [k' es] m am [Hk Hl] Hr IH]; [by intros _ ? ? ?%not_elem_of_nil|].
  cbn in Hk, Hl. subst k'. intros [Hs Hlt]%smap_sorted_cons. cbn [best_price].
  rewrite (level_empty_spec _ _ _ Hl). destruct (bool_decide_reflect (es = [])) as [->|Hne].
  - specialize (IH Hs). destruct (best_price m) as [p|].
    + destruct IH as [(es0 & ? & ?) IH]. split; [exists es0; split; [by right|done]|].
      intros q es1 [[= -> ->]|Hin]%elem_of_cons; [done|]. by apply IH.
    + intros q es1 [[= -> ->]|Hin]%elem_of_cons; [done|]. by eapply IH.
  - split; [exists es; split; [left|done]|].
    intros q es1 [[= -> ->]|Hin]%elem_of_cons _; [by left|right].
    rewrite Forall_forall in Hlt. apply Hlt. apply list_elem_of_fmap. by exists (q, es1).
Qed.

(** C29: [best_bid] is the highest price with a resting buy order and
    [best_ask] the lowest with a resting sell order; they are empty exactly
    when the side holds no order, also when cancelled levels are still in the
    maps. *)
Theorem best_prices_correct b h ab :
  book_rep b h ab →
  (∀ p, best_bid b = Some p → quoted true ab p ∧ ∀ q, quoted true ab q → q ≤ p) ∧
  (∀ p, best_ask b = Some p → quoted false ab p ∧ ∀ q, quoted false ab q → p ≤ q) ∧
  (best_bid b = None ↔ ∀ q, ¬ quoted true ab q) ∧
  (best_ask b = None ↔ ∀ q, ¬ quoted false ab q).
Proof.
  intros Hb. unfold best_bid, best_ask, quoted.
  pose proof (best_price_rep _ _ _ true (br_side _ _ _ Hb true) (br_sorted _ _ _ Hb true)) as Hbid.
  pose proof (best_price_rep _ _ _ false (br_side _ _ _ Hb false) (br_sorted _ _ _ Hb false)) as Hask.
  cbn [levels cmp a_levels] in *. split_and!.
  - intros p Hp. rewrite Hp in Hbid. destruct Hbid as [? Hbest]. split; [done|].
    intros q (es & Hin & Hne). destruct (Hbest _ _ Hin Hne) as [->|Hlt]; [lia|].
    rewrite Z.gtb_ltb, Z.ltb_lt in Hlt. lia.
  - intros p Hp. rewrite Hp in Hask. destruct Hask as [? Hbest]. split; [done|].
    intros q (es & Hin & Hne). destruct (Hbest _ _ Hin Hne) as [->|Hlt]; [lia|].
    rewrite Z.ltb_lt in Hlt. lia.
  - destruct (best_price (bids_ b)); naive_solver.
  - destruct (best_price (asks_ b)); naive_solver.
Qed.

Lemma best_prices_correct_witness :
  best_ask (m_book (e_m ex_engine)) = Some 100 ∧ quoted false ex_book 100 ∧
  (best_bid (m_book (e_m ex_engine)) = None ↔ ∀ q, ¬ quoted true ex_book q).
Proof.
  destruct (best_prices_correct _ _ ex_book (ei_rep _ _ ex_inv)) as (_ & Hask & Hbid & _).
  split_and!; [reflexivity|apply (Hask 100); reflexivity|exact Hbid].
Defined.

(** [OrderBook::rest] with a key already in the index leaves a dangling
    pointer. The order is linked into its level first; [emplace] then refuses
    it and the order is freed, so the level's tail points to a freed object. *)
Theorem rest_duplicate_dangles b h ab raw o owner :
  book_rep b h ab → h !! raw = Some o → raw ∉ (entries ab).*1 →
  find (o_session o) (o_clord o) b = Some owner →
  ∃ b' h' lv, rest raw b h = Ok (b', h') ∧
    smap_find (o_price o) (levels (is_buy (o_side o)) b') = Some lv ∧
    tail_ lv = Some raw ∧ h' !! raw = None.
Proof.
  intros Hb Ho Hn Hdup.
  destruct (rest_push _ _ _ _ _ Hb Ho Hn) as (lv & h' & q & m & He & Hl & Hq & Hs).
  unfold rest. rewrite (deref_Some _ _ _ Ho). cbn [rbind]. rewrite He. cbn [rbind].
  rewrite (deref_Some _ _ _ Hq). cbn [rbind]. rewrite index_set_levels.
  change (order_key (link q m (strip o))) with (o_session o, o_clord o).
  unfold find in Hdup. rewrite Hdup. do 3 eexists. split_and!; [done| | |apply lookup_delete_eq].
  - rewrite levels_set. apply smap_find_set.
  - destruct Hl as [(_ & _ & _ & -> & _) _]. by rewrite final_snoc.
Qed.

(** A second order with the [ClOrdID] of a resting one. *)
Definition ex_dup : Order := new_order 5 (B "A") Sell 100 10.

Lemma rest_duplicate_dangles_witness :
  ∃ b' h' lv, rest 5 (m_book (e_m ex_engine)) (<[5%positive := ex_dup]> (m_heap (e_m ex_engine))) =
      Ok (b', h') ∧ smap_find 100 (asks_ b') = Some lv ∧ tail_ lv = Some 5%positive ∧
    h' !! 5%positive = None.
Proof.
  destruct (running_alloc ex_engine ex_book ex_dup ex_inv) as (Hb & Ha & Hn & _).
  apply (rest_duplicate_dangles _ _ ex_book 5 ex_dup 1 Hb Ha Hn). reflexivity.
Defined.

(** Reusing the [ClOrdID] of a resting order leads the engine into
    undefined behaviour: sell 100 twice under one [ClOrdID], then buy 500. *)
Theorem duplicate_clordid_undefined algo :
  exec_all algo
    [OpSubmit (new_order 1 (B "A") Sell 100 100); OpSubmit (new_order 2 (B "A") Sell 100 100);
     OpSubmit (new_order 3 (B "Z") Buy 100 500)] init_engine = Undef.
Proof. destruct algo; vm_compute; reflexivity. Qed.

(** ** The matching engine *)

(** C2: refinement. From a well-formed book, [Matcher::submit] of an order
    with an unused key terminates without undefined behaviour, appends the
    acknowledgement and the abstract trades to the events, and leaves a
    well-formed book representing the abstract result; the only objects left
    in the store are the resting orders (nothing leaks, nothing dangles). *)
Theorem submit_refines algo s ab raw o :
  running s ab raw o → resting_ok ab → in_u64 (o_leaves o) → fresh_key o ab →
  ∃ s', submit algo raw s = Ok s' ∧
    book_rep (m_book s') (m_heap s') (a_submit algo raw o ab).1 ∧
    owns (m_heap s') (a_submit algo raw o ab).1 ∧
    m_out s' = m_out s ++ (a_submit algo raw o ab).2.
Proof.
  intros Hr Hok Hu Hf. destruct (submit_eval algo s ab raw o Hr Hok Hu Hf) as (s' & He & Hres).
  exists s'. split; [done|]. destruct (a_submit algo raw o ab). naive_solver.
Qed.

Lemma submit_refines_witness :
  ∃ s', submit ProRata 5 ex_state = Ok s' ∧
    book_rep (m_book s') (m_heap s') (a_submit ProRata 5 ex_buyer ex_book).1 ∧
    owns (m_heap s') (a_submit ProRata 5 ex_buyer ex_book).1 ∧
    m_out s' = m_out ex_state ++ (a_submit ProRata 5 ex_buyer ex_book).2.
Proof.
  apply (submit_refines ProRata ex_state ex_book 5 ex_buyer);
    [exact ex_running|exact ex_resting_ok|decided|exact ex_fresh].
Defined.

(** C6: conservation. What [submit] trades is what the aggressor loses and
    what the opposite side loses: the quantities on the book afterwards are
    those before, plus the order's remainder if it rests, minus the traded
    quantity; and the acknowledgement precedes every trade. *)
Theorem submit_conserves algo s ab raw o :
  running s ab raw o → resting_ok ab → in_u64 (o_leaves o) → fresh_key o ab →
  ∃ s' ab' trades, submit algo raw s = Ok s' ∧ book_rep (m_book s') (m_heap s') ab' ∧
    m_out s' = m_out s ++ EAck (mkAck (o_id o) (o_clord o)) :: trades ∧
    0 ≤ traded trades ≤ o_leaves o ∧
    total ab' = total ab - traded trades + (o_leaves o - traded trades).
Proof.
  intros Hr Hok Hu Hf. destruct (submit_eval algo s ab raw o Hr Hok Hu Hf) as (s' & He & Hres).
  exists s'. unfold a_submit in Hres. destruct (match_side algo o ab) as [[ab1 tr] o'] eqn:Hm.
  destruct Hres as (Hb & _ & Hout & s2 & (Hb1 & _)). unfold in_u64 in Hu. cbn in Hb1.
  destruct (match_side_total _ _ _ _ _ _ Hm Hok) as (Ht & Htr & _ & Hle); [lia|].
  eexists _, tr. split_and!; [done|exact Hb|done|lia|lia|].
  destruct (Z.gtb_spec (o_leaves o') 0); [rewrite (total_rest _ _ _ _ _ Hb1)|]; lia.
Qed.

Lemma submit_conserves_witness :
  ∃ s' ab' trades, submit ProRata 5 ex_state = Ok s' ∧ book_rep (m_book s') (m_heap s') ab' ∧
    m_out s' = m_out ex_state ++ EAck (mkAck 5 (B "E")) :: trades ∧
    0 ≤ traded trades ≤ 500 ∧ total ab' = total ex_book - traded trades + (500 - traded trades).
Proof.
  apply (submit_conserves ProRata ex_state ex_book 5 ex_buyer);
    [exact ex_running|exact ex_resting_ok|decided|exact ex_fresh].
Defined.

Lemma rest_other_side l o ab : a_levels (negb (is_buy (o_side o))) (a_rest l o ab) = a_levels (negb (is_buy (o_side o))) ab.
Proof. unfold a_rest, a_update. by destruct (is_buy (o_side o)). Qed.

(** C7: price priority and limits, in prices: a buyer prefers low prices and
    trades at most at its limit, a seller the other way round. The trades of a
    submission never get better from one to a later one; each is with an order
    that rested at its price, within the limit, for a positive quantity; when a
    trade happened at some price, nothing is left at a better one; and unless
    the order is filled completely, nothing is left within its limit at all. *)
Theorem submit_price_priority algo s ab raw o :
  running s ab raw o → resting_ok ab → in_u64 (o_leaves o) → fresh_key o ab →
  let opp := negb (is_buy (o_side o)) in
  ∃ s' ab' trades, submit algo raw s = Ok s' ∧ book_rep (m_book s') (m_heap s') ab' ∧
    m_out s' = m_out s ++ EAck (mkAck (o_id o) (o_clord o)) :: (ETrade <$> trades) ∧
    StronglySorted (λ t u, ¬ better o (t_price u) (t_price t)) trades ∧
    Forall (λ t, within_limit o (t_price t) ∧
      (∃ es, (t_price t, es) ∈ a_levels opp ab ∧ trade_with o (t_price t) es t) ∧
      (∀ p es, (p, es) ∈ a_levels opp ab' → ¬ better o p (t_price t))) trades ∧
    (sumz (t_qty <$> trades) < o_leaves o → ∀ p es, (p, es) ∈ a_levels opp ab' → ¬ within_limit o p).
Proof.
  intros Hr Hok Hu Hf opp. destruct (submit_eval algo s ab raw o Hr Hok Hu Hf) as (s' & He & Hres).
  unfold a_submit in Hres. destruct (match_side algo o ab) as [[ab1 tr] o'] eqn:Hm. destruct Hres as (Hb & _ & Hout & _).
  unfold in_u64 in Hu. pose proof Hr as (Hb0 & _).
  destruct (match_side_total _ _ _ _ _ _ Hm Hok) as (_ & Htr & Ho' & Hle); [lia|].
  set (ab' := if o_leaves o' >? 0 then a_rest raw o' ab1 else ab1) in *.
  assert (a_levels opp ab' = a_levels opp ab1) as Hopp.
  { unfold ab', opp. destruct (_ >? 0); [|done]. replace (is_buy (o_side o)) with (is_buy (o_side o')) by by rewrite Ho'. apply rest_other_side. }
  pose proof (λ p es, match_side_remainder algo o ab ab1 tr o' opp p es Hm Hok (proj1 Hu) (br_sorted _ _ _ Hb0)) as Hrem.
  unfold match_side in Hm. fold opp in Hm. destruct (match_levels algo o (a_levels opp ab)) as [[m' tr'] o''] eqn:Hml.
  injection Hm as <- <- <-.
  destruct (match_levels_priority algo opp _ _ _ _ _ Hml) as (ts & -> & Hsort & Hall);
    [apply (br_sorted _ _ _ Hb0 opp)|done|by apply resting_ok_side|lia|].
  exists s', ab', ts. do 4 (split; [done|]). rewrite Hopp. split.
  - eapply Forall_impl; [exact Hall|]. intros t [[Hw Hin] Hn]. split; [done|]. split; [done|]. intros p es Hp. apply (Hn p es).
    by autorewrite with obfix in Hp.
  - rewrite <- traded_trades, Htr. intros Hlt p es Hp Hw. apply crosses_within in Hw.
    rewrite (Hrem p es) in Hw; [done|lia|done|done].
Qed.

Lemma submit_price_priority_witness :
  ∃ s' ab' trades, submit ProRata 5 ex_state = Ok s' ∧ book_rep (m_book s') (m_heap s') ab' ∧
    m_out s' = m_out ex_state ++ EAck (mkAck 5 (B "E")) :: (ETrade <$> trades) ∧
    StronglySorted (λ t u, ¬ better ex_buyer (t_price u) (t_price t)) trades ∧
    Forall (λ t, within_limit ex_buyer (t_price t) ∧
      (∃ es, (t_price t, es) ∈ a_levels false ex_book ∧ trade_with ex_buyer (t_price t) es t) ∧
      (∀ p es, (p, es) ∈ a_levels false ab' → ¬ better ex_buyer p (t_price t))) trades ∧
    (sumz (t_qty <$> trades) < 500 → ∀ p es, (p, es) ∈ a_levels false ab' → ¬ within_limit ex_buyer p).
Proof.
  apply (submit_price_priority ProRata ex_state ex_book 5 ex_buyer);
    [exact ex_running|exact ex_resting_ok|decided|exact ex_fresh].
Defined.

(** C13: a level is shared out as the algorithm says. Filling one level gives
    each resting order the share [alloc_of] computes, emits a trade per
    non-zero share oldest first, and keeps the level's links and cached total
    exact. *)
Theorem fill_level_allocates algo h lv es aggr ao px available out :
  level_rep h lv es → level_bounded es → aggr ∉ es.*1 → h !! aggr = Some ao →
  0 < available < two64 →
  let fs := alloc_of algo available (leaves_of es) in
  ∃ lv' h', fill_level algo lv aggr px available h out =
      Ok (sumz fs, lv', h', out ++ fill_trades ao px es fs) ∧
    level_rep h' lv' (fill_entries es fs) ∧ total_qty_ lv' = sumz (leaves_of es) - sumz fs.
Proof.
  intros Hl Hbd Hag Ha Hav fs.
  destruct (fill_level_spec algo h lv es aggr ao px available out Hl Hbd Hag Ha Hav)
    as (lv' & h' & He & Hl' & _ & _). fold fs in He, Hl'.
  exists lv', h'. split; [done|]. split; [done|]. destruct Hl' as [_ ->]. destruct Hbd as [Hf Hm].
  destruct (alloc_of_admissible algo available (leaves_of es)) as [Hsh _]; [lia|done|lia|].
  pose proof (shares_sum _ _ Hsh). fold fs in Hsh, H.
  rewrite fill_entries_total; [apply u64_small; unfold in_u64; lia|].
  apply Forall2_length in Hsh. by rewrite leaves_of_length in Hsh.
Qed.

Lemma fill_level_allocates_witness :
  ∃ lv' h', fill_level Fifo ex_level 2 7 4 ex_heap [] =
      Ok (4, lv', h', [mk_trade (new_order 2 (B "B") Buy 7 20) (new_order 1 (B "A") Buy 7 10) 7 4]) ∧
    level_rep h' lv' [(1%positive, set_leaves 6 (new_order 1 (B "A") Buy 7 10))] ∧
    total_qty_ lv' = 6.
Proof.
  apply (fill_level_allocates Fifo ex_heap ex_level [(1%positive, new_order 1 (B "A") Buy 7 10)] 2
    (new_order 2 (B "B") Buy 7 20) 7 4 []); [exact ex_level_rep|split; decided|decided|reflexivity|lia].
Defined.

(** Pro-rata and FIFO agree on a level the aggressor can take whole: both
    fill every resting order, emit the same trades in the same order and leave
    every order of the level with nothing. *)
Theorem algos_agree_on_full_level h lv es aggr ao px available out :
  level_rep h lv es → level_bounded es → aggr ∉ es.*1 → h !! aggr = Some ao →
  0 < available < two64 → sumz (leaves_of es) ≤ available →
  ∃ filled out' lv1 h1 lv2 h2 es',
    fill_level_prorata lv aggr px available h out = Ok (filled, lv1, h1, out') ∧
    fill_level_fifo lv aggr px available h out = Ok (filled, lv2, h2, out') ∧
    level_rep h1 lv1 es' ∧ level_rep h2 lv2 es' ∧
    filled = sumz (leaves_of es) ∧ es'.*1 = es.*1 ∧ Forall (λ e, o_leaves e.2 = 0) es'.
Proof.
  intros Hl Hbd Hag Ha Hav Hle. pose proof Hbd as [Hf Hm].
  destruct (fill_level_spec ProRata h lv es aggr ao px available out Hl Hbd Hag Ha Hav)
    as (lv1 & h1 & He1 & Hl1 & _). 
  destruct (fill_level_spec Fifo h lv es aggr ao px available out Hl Hbd Hag Ha Hav)
    as (lv2 & h2 & He2 & Hl2 & _).
  rewrite alloc_of_full in He1, Hl1, He2, Hl2 by (done || lia).
  do 7 eexists. split; [exact He1|]. split; [exact He2|]. split; [exact Hl1|]. split; [exact Hl2|].
  split_and!; [done|apply fill_entries_locs; by rewrite leaves_of_length|apply fill_entries_full].
Qed.

Lemma algos_agree_on_full_level_witness :
  ∃ filled out' lv1 h1 lv2 h2 es',
    fill_level_prorata ex_level2 3 7 50 ex_heap2 [] = Ok (filled, lv1, h1, out') ∧
    fill_level_fifo ex_level2 3 7 50 ex_heap2 [] = Ok (filled, lv2, h2, out') ∧
    level_rep h1 lv1 es' ∧ level_rep h2 lv2 es' ∧
    filled = 30 ∧ es'.*1 = [1; 2]%positive ∧ Forall (λ e, o_leaves e.2 = 0) es'.
Proof.
  apply (algos_agree_on_full_level ex_heap2 ex_level2 ex_queue 3 (new_order 3 (B "C") Buy 7 50) 7 50 []);
    [exact ex_level2_rep|split; decided|decided|reflexivity|lia|cbn; lia].
Defined.

(** C26: time priority. After [fill_level_fifo], an order of the level has lost
    something only if every older order is left with nothing. *)
Theorem fifo_time_priority h lv es aggr ao px available out :
  level_rep h lv es → level_bounded es → aggr ∉ es.*1 → h !! aggr = Some ao →
  0 < available < two64 →
  ∃ filled lv' h' out' es',
    fill_level_fifo lv aggr px available h out = Ok (filled, lv', h', out') ∧
    level_rep h' lv' es' ∧ es'.*1 = es.*1 ∧
    ∀ i j ei' ej ej', (i < j)%nat → es' !! i = Some ei' → es !! j = Some ej → es' !! j = Some ej' →
      o_leaves ej'.2 < o_leaves ej.2 → o_leaves ei'.2 = 0.
Proof.
  intros Hl Hbd Hag Ha Hav. pose proof Hbd as [Hf Hm].
  destruct (fill_level_spec Fifo h lv es aggr ao px available out Hl Hbd Hag Ha Hav)
    as (lv' & h' & He & Hl' & _). cbn [alloc_of] in He, Hl'.
  do 5 eexists. split; [exact He|]. split; [exact Hl'|]. split.
  { apply fill_entries_locs. by rewrite fifo_alloc_length, leaves_of_length. }
  intros i j ei' ej ej' Hij Hi Hj Hj' Hlt.
  apply fill_entries_lookup in Hi as (ei & fi & Hei & Hfi & ->).
  apply fill_entries_lookup in Hj' as (ej0 & fj & Hej & Hfj & ->). simplify_eq. cbn in *.
  rewrite (fifo_alloc_priority available (leaves_of es) i j (o_leaves ei.2) (o_leaves ej.2) fi fj);
    [lia|lia|done|done|by rewrite leaves_of_lookup, Hei|by rewrite leaves_of_lookup, Hj|done|done|lia].
Qed.

Lemma fifo_time_priority_witness :
  ∃ filled lv' h' out' es',
    fill_level_fifo ex_level2 3 7 12 ex_heap2 [] = Ok (filled, lv', h', out') ∧
    level_rep h' lv' es' ∧ es'.*1 = [1; 2]%positive ∧
    ∀ i j ei' ej ej', (i < j)%nat → es' !! i = Some ei' → ex_queue !! j = Some ej →
      es' !! j = Some ej' → o_leaves ej'.2 < o_leaves ej.2 → o_leaves ei'.2 = 0.
Proof.
  apply (fifo_time_priority ex_heap2 ex_level2 ex_queue 3 (new_order 3 (B "C") Buy 7 50) 7 12 []);
    [exact ex_level2_rep|split; decided|decided|reflexivity|lia].
Defined.

(** C1: safety of whole runs. On every sequence of submissions, cancellations
    and changes of the algorithm whose keys are not reused and whose quantities
    add up below 2^63, from the empty book: every operation returns, no
    undefined behaviour occurs, the events are those of the abstract engine, the
    book stays well-formed and uncrossed, every resting order has something
    left, and the store holds exactly the resting orders. *)
Theorem engine_safe m cs :
  feed_ok [] (ops_of cs) → submitted_qty (ops_of cs) < two63 →
  ∃ m' e, call_all cs (m, init_engine) = Ok (m', e) ∧
    engine_inv e (a_call_all (algo m) cs 1 a_empty).1 ∧
    m_out (e_m e) = (a_call_all (algo m) cs 1 a_empty).2 ∧
    total (a_call_all (algo m) cs 1 a_empty).1 ≤ submitted_qty (ops_of cs).
Proof.
  intros Hfeed Hq. destruct (calls_run cs m init_engine a_empty [] init_inv) as (m' & e & He & Hres);
    [by intros ? ? ?%not_elem_of_nil|done|done|].
  exists m', e. split; [done|]. change (e_next init_engine) with 1%positive in Hres.
  destruct (a_call_all (algo m) cs 1 a_empty). naive_solver.
Qed.

Definition ex_calls : list Call :=
  (CallOp <$> ex_ops) ++ [CallSetAlgo Fifo; CallOp (OpCancel 0 (B "B")); CallOp (OpSubmit ex_buyer)].
Lemma engine_safe_witness :
  ∃ m' e, call_all ex_calls (mkMatcher ProRata, init_engine) = Ok (m', e) ∧
    engine_inv e (a_call_all (algo (mkMatcher ProRata)) ex_calls 1 a_empty).1 ∧
    m_out (e_m e) = (a_call_all (algo (mkMatcher ProRata)) ex_calls 1 a_empty).2 ∧
    total (a_call_all (algo (mkMatcher ProRata)) ex_calls 1 a_empty).1 ≤ submitted_qty (ops_of ex_calls).
Proof. apply (engine_safe (mkMatcher ProRata) ex_calls); [decided|reflexivity]. Defined.
