(* ===== verification/Text.v ===== *)
(** * Text and numbers

    The character-level functions the FIX code uses: decimal conversion
    ([std::to_string], [std::stoull], [std::stoll], [std::stoi], [snprintf]
    with [%03u]), [parse_uint] of [src/fix/parser.cpp], and the string
    operations [find], [substr] and indexing on byte positions. *)

From S2P Require Import Prelude Types.

Lemma mjoin_cons {A} (x : list A) l : mjoin (x :: l) = x ++ mjoin l.
Proof. done. Qed.

(** A sum that is not below its first term has not wrapped. *)
Lemma u64_no_wrap x l : 0 ≤ x < two64 → 0 ≤ l < two64 → x ≤ u64 (x + l) → u64 (x + l) = x + l.
Proof.
  intros Hx Hl Hle. destruct (Z.lt_ge_cases (x + l) two64); [by apply u64_small; unfold in_u64; lia|exfalso].
  unfold u64 in Hle. rewrite <- (Z.mod_add (x + l) (-1)), Z.mod_small in Hle; lia.
Qed.

(** ** Characters *)

Definition code (c : ascii) : Z := Z.of_N (N_of_ascii c).
Definition char_of (z : Z) : ascii := ascii_of_N (Z.to_N z).

Definition is_digit (c : ascii) : bool := (48 <=? code c) && (code c <=? 57).
Definition digit (d : Z) : ascii := char_of (48 + d).
Definition digit_val (c : ascii) : Z := code c - 48.

(** [isspace] in the C locale. *)
Definition is_space (c : ascii) : bool :=
  (code c =? 32) || ((9 <=? code c) && (code c <=? 13)).

Lemma code_range c : 0 ≤ code c < 256.
Proof. unfold code. pose proof (N_ascii_bounded c). lia. Qed.
Lemma char_of_code c : char_of (code c) = c.
Proof. unfold char_of, code. rewrite N2Z.id. apply ascii_N_embedding. Qed.
Lemma code_char_of z : 0 ≤ z < 256 → code (char_of z) = z.
Proof. intros. unfold char_of, code. rewrite N_ascii_embedding; lia. Qed.
Lemma code_inj c c' : code c = code c' → c = c'.
Proof. intros H. by rewrite <- (char_of_code c), H, char_of_code. Qed.

Lemma is_digit_spec c : is_digit c = true ↔ 48 ≤ code c ≤ 57.
Proof. unfold is_digit. rewrite andb_true_iff, !Z.leb_le. done. Qed.
Lemma is_digit_digit d : 0 ≤ d < 10 → is_digit (digit d) = true.
Proof. intros. rewrite is_digit_spec. unfold digit. rewrite code_char_of; lia. Qed.
Lemma digit_val_digit d : 0 ≤ d < 10 → digit_val (digit d) = d.
Proof. intros. unfold digit_val, digit. rewrite code_char_of; lia. Qed.
Lemma digit_digit_val c : is_digit c = true → digit (digit_val c) = c.
Proof.
  intros _. unfold digit, digit_val. replace (48 + (code c - 48)) with (code c) by lia.
  apply char_of_code.
Qed.
Lemma digit_val_range c : is_digit c = true → 0 ≤ digit_val c < 10.
Proof. rewrite is_digit_spec. unfold digit_val. lia. Qed.

(** ** Printing *)

(** The decimal digits of [0 ≤ n < 10^fuel], most significant first. *)
Fixpoint dec (fuel : nat) (n : Z) : bytes :=
  match fuel with
  | O => []
  | S fuel => if n <? 10 then [digit n] else dec fuel (n / 10) ++ [digit (n mod 10)]
  end.

(** [std::to_string] on any 64-bit integer type: at most twenty digits. *)
Definition to_string (z : Z) : bytes :=
  if z <? 0 then "-"%char :: dec 20 (- z) else dec 20 z.

(** [snprintf] of [%03u] for values below 1000. *)
Definition pad3 (v : Z) : bytes := [digit (v / 100); digit (v / 10 mod 10); digit (v mod 10)].

(** ** Reading *)

(** The loop of [parse_uint]: it wraps modulo 2^64 and refuses a non-digit. *)
Fixpoint parse_digits (s : bytes) (v : Z) : option Z :=
  match s with
  | [] => Some v
  | c :: s => if is_digit c then parse_digits s (u64 (v * 10 + digit_val c)) else None
  end.
Definition parse_uint (s : bytes) : option Z :=
  match s with [] => None | _ => parse_digits s 0 end.

(** [strtoull] and friends: white space, an optional sign, then the longest
    run of digits; what follows is ignored. *)
Fixpoint skip_space (s : bytes) : bytes :=
  match s with
  | c :: s' => if is_space c then skip_space s' else s
  | [] => []
  end.
Definition sign_of (s : bytes) : bool * bytes :=
  match s with
  | c :: s' => if Ascii.eqb c "-" then (true, s') else if Ascii.eqb c "+" then (false, s') else (false, s)
  | [] => (false, [])
  end.
Fixpoint digit_run (s : bytes) : bytes :=
  match s with
  | c :: s' => if is_digit c then c :: digit_run s' else []
  | [] => []
  end.
Definition dec_value (s : bytes) : Z := foldl (λ v c, v * 10 + digit_val c) 0 s.

(** Sign and magnitude of a leading integer, or the failed conversion. *)
Definition scan_int (s : bytes) : res (bool * Z) :=
  let '(neg, s) := sign_of (skip_space s) in
  match digit_run s with
  | [] => Throw invalid_argument
  | ds => Ok (neg, dec_value ds)
  end.

(** A magnitude past the type's range is [out_of_range]; [strtoull] negates a
    number with a minus sign modulo 2^64. *)
Definition stoull (s : bytes) : res Z :=
  let! '(neg, v) := scan_int s in
  if v <? two64 then Ok (if neg then u64 (- v) else v) else Throw out_of_range.
Definition signed_scan (lo hi : Z) (s : bytes) : res Z :=
  let! '(neg, v) := scan_int s in
  let z := if neg then - v else v in
  if (lo <=? z) && (z <=? hi) then Ok z else Throw out_of_range.
Definition stoll (s : bytes) : res Z := signed_scan (- two63) (two63 - 1) s.
Definition stoi (s : bytes) : res Z := signed_scan (- two31) (two31 - 1) s.

(** ** Positions in a string *)

(** Indexing: reading outside the view is undefined behaviour. *)
Definition at_ (s : bytes) (i : Z) : res ascii :=
  if (0 <=? i) && (i <? zlen s) then
    match s !! Z.to_nat i with Some c => Ok c | None => Undef end
  else Undef.

(** [s.substr(pos, n)]. *)
Definition substr (s : bytes) (pos n : Z) : res bytes :=
  if pos <=? zlen s then Ok (take (Z.to_nat n) (drop (Z.to_nat pos) s)) else Throw out_of_range.

(** [s.find(c, pos)]; [None] is [npos]. *)
Fixpoint index_of (c : ascii) (s : bytes) : option Z :=
  match s with
  | [] => None
  | c' :: s => if Ascii.eqb c' c then Some 0 else (λ i, i + 1) <$> index_of c s
  end.
Definition find_char (s : bytes) (c : ascii) (pos : Z) : option Z :=
  (λ i, pos + i) <$> index_of c (drop (Z.to_nat pos) s).

(** ** Decimal round trips *)

Definition digits_only (s : bytes) : Prop := Forall (λ c, is_digit c = true) s.
#[global] Instance digits_only_dec s : Decision (digits_only s).
Proof. unfold digits_only. apply _. Defined.

Definition acc_value (v : Z) (s : bytes) : Z := foldl (λ v c, v * 10 + digit_val c) v s.

Lemma acc_value_app v s s' : acc_value v (s ++ s') = acc_value (acc_value v s) s'.
Proof. apply foldl_app. Qed.
Lemma acc_value_nonneg s v : digits_only s → 0 ≤ v → 0 ≤ acc_value v s.
Proof.
  intros Hs. revert v. induction Hs as [|c s Hc Hs IH]; intros v Hv; [done|]. cbn. apply IH.
  apply digit_val_range in Hc. lia.
Qed.
Lemma acc_value_bound s v : digits_only s → 0 ≤ v → v ≤ acc_value v s.
Proof.
  intros Hs. revert v. induction Hs as [|c s Hc Hs IH]; intros v Hv; [done|]. cbn.
  apply digit_val_range in Hc. etrans; [|apply IH]; lia.
Qed.

Lemma dec_spec fuel n :
  (0 < fuel)%nat → 0 ≤ n < 10 ^ Z.of_nat fuel →
  digits_only (dec fuel n) ∧ dec fuel n ≠ [] ∧ acc_value 0 (dec fuel n) = n.
Proof.
  revert n. induction fuel as [|fuel IH]; intros n Hf Hn; [lia|]. cbn [dec].
  destruct (Z.ltb_spec n 10).
  - split_and!; [|done|cbn; rewrite digit_val_digit; lia].
    apply Forall_singleton, is_digit_digit. lia.
  - rewrite Nat2Z.inj_succ, Z.pow_succ_r in Hn by lia.
    destruct fuel as [|fuel]; [cbn in Hn; lia|].
    destruct (IH (n / 10)) as (H1 & H2 & H3); [lia|split; [apply Z.div_pos; lia|apply Z.div_lt_upper_bound; lia]|].
    pose proof (Z.mod_pos_bound n 10). split_and!.
    + apply Forall_app. split; [done|]. apply Forall_singleton, is_digit_digit. lia.
    + by destruct (dec (S fuel) (n / 10)).
    + rewrite acc_value_app, H3. cbn. rewrite digit_val_digit by lia. pose proof (Z.div_mod n 10). lia.
Qed.

Lemma dec_digits fuel n c : 0 ≤ n → c ∈ dec fuel n → is_digit c = true.
Proof.
  revert n. induction fuel as [|fuel IH]; intros n Hn; cbn [dec]; [by intros ?%not_elem_of_nil|].
  pose proof (Z.mod_pos_bound n 10). destruct (Z.ltb_spec n 10).
  - rewrite list_elem_of_singleton. intros ->. apply is_digit_digit. lia.
  - rewrite elem_of_app. intros [Hin|Hin]; [|apply list_elem_of_singleton in Hin as ->; apply is_digit_digit; lia].
    apply (IH (n / 10)); [apply Z.div_pos; lia|done].
Qed.

Lemma to_string_nonneg n : 0 ≤ n → to_string n = dec 20 n.
Proof. unfold to_string. intros. destruct (Z.ltb_spec n 0); [lia|done]. Qed.

Lemma to_string_spec n :
  in_u64 n →
  digits_only (to_string n) ∧ to_string n ≠ [] ∧ acc_value 0 (to_string n) = n.
Proof. unfold in_u64. intros. rewrite to_string_nonneg by lia. apply dec_spec; lia. Qed.

Lemma parse_digits_spec s v :
  digits_only s → in_u64 v → parse_digits s v = Some (u64 (acc_value v s)).
Proof.
  intros Hs. revert v. induction Hs as [|c s Hc Hs IH]; intros v Hv; cbn.
  - by rewrite u64_small.
  - rewrite Hc, IH by apply u64_range. f_equal. clear. revert v.
    induction s as [|c' s IH] using rev_ind; intros v; cbn.
    + unfold u64. by rewrite Z.mod_mod by lia.
    + rewrite !acc_value_app. cbn. unfold u64 in *.
      rewrite <- Z.add_mod_idemp_l, <- Z.mul_mod_idemp_l, IH by lia.
      by rewrite Z.mul_mod_idemp_l, Z.add_mod_idemp_l by lia.
Qed.

Lemma parse_uint_digits s : digits_only s → s ≠ [] → parse_uint s = Some (u64 (acc_value 0 s)).
Proof. intros Hs Hne. unfold parse_uint. destruct s; [done|]. by apply parse_digits_spec. Qed.

Lemma parse_uint_to_string n : in_u64 n → parse_uint (to_string n) = Some n.
Proof.
  intros Hn. destruct (to_string_spec n Hn) as (H1 & H2 & H3).
  by rewrite parse_uint_digits, H3, u64_small.
Qed.

Lemma parse_digits_only s v w : parse_digits s v = Some w → digits_only s.
Proof.
  revert v. induction s as [|c s IH]; intros v; cbn; [by constructor|].
  destruct (is_digit c) eqn:Hc; [|done]. intros H%IH. by constructor.
Qed.
Lemma parse_uint_only s w : parse_uint s = Some w → digits_only s ∧ s ≠ [] ∧ in_u64 w.
Proof.
  intros H. assert (digits_only s) as Hd.
  { unfold parse_uint in H. destruct s; [done|]. by eapply parse_digits_only. }
  assert (s ≠ []) by (intros ->; done). rewrite parse_uint_digits in H by done. simplify_eq.
  split_and!; [done|done|apply u64_range].
Qed.

Lemma digit_not_space c : is_digit c = true → is_space c = false.
Proof.
  rewrite is_digit_spec. intros. unfold is_space.
  destruct (Z.eqb_spec (code c) 32), (Z.leb_spec 9 (code c)), (Z.leb_spec (code c) 13); cbn; done || lia.
Qed.
Lemma digit_not_char c d : is_digit c = true → is_digit d = false → Ascii.eqb c d = false.
Proof. intros Hc Hd. apply Ascii.eqb_neq. intros ->. congruence. Qed.

Lemma digit_run_id s : digits_only s → digit_run s = s.
Proof. induction 1 as [|c s Hc Hs IH]; [done|]. cbn. by rewrite Hc, IH. Qed.

Lemma scan_int_digits s : digits_only s → s ≠ [] → scan_int s = Ok (false, acc_value 0 s).
Proof.
  intros Hs Hne. destruct s as [|c s]; [done|]. pose proof (Forall_inv Hs) as Hc. cbn in Hc.
  unfold scan_int, skip_space, sign_of. rewrite digit_not_space by done.
  rewrite !(digit_not_char c) by done. by rewrite (digit_run_id (c :: s)).
Qed.

Lemma stoull_to_string n : in_u64 n → stoull (to_string n) = Ok n.
Proof.
  intros Hn. destruct (to_string_spec n Hn) as (H1 & H2 & H3). unfold stoull.
  rewrite scan_int_digits, H3 by done. cbn. unfold in_u64 in Hn. destruct (Z.ltb_spec n two64); [done|lia].
Qed.

Lemma signed_scan_to_string lo hi n : in_u64 n → lo ≤ n ≤ hi → signed_scan lo hi (to_string n) = Ok n.
Proof.
  intros Hn Hr. destruct (to_string_spec n Hn) as (H1 & H2 & H3).
  unfold signed_scan. rewrite scan_int_digits, H3 by done. cbn [rbind].
  destruct (Z.leb_spec lo n); [|lia]. destruct (Z.leb_spec n hi); [done|lia].
Qed.

Lemma to_string_inj a b : in_u64 a → in_u64 b → to_string a = to_string b → a = b.
Proof. intros Ha Hb He. apply stoull_to_string in Ha, Hb. congruence. Qed.

Lemma digit_run_only s : digits_only (digit_run s).
Proof. induction s as [|c s IH]; cbn; [by constructor|]. destruct (is_digit c) eqn:Hc; by constructor. Qed.

Lemma stoull_range s n : stoull s = Ok n → in_u64 n.
Proof.
  unfold stoull, scan_int. destruct (sign_of (skip_space s)) as [neg s'].
  pose proof (digit_run_only s') as Hd. destruct (digit_run s') as [|c ds]; [done|]. cbn [rbind].
  pose proof (acc_value_nonneg (c :: ds) 0 Hd) as Hv. change (acc_value 0 (c :: ds)) with (dec_value (c :: ds)) in Hv.
  destruct (Z.ltb_spec (dec_value (c :: ds)) two64); [|done]. intros [= <-].
  destruct neg; [apply u64_range|unfold in_u64; lia].
Qed.

(** ** The three-digit checksum field *)

Lemma pad3_digits v : 0 ≤ v < 1000 → digits_only (pad3 v).
Proof.
  intros. assert (0 ≤ v / 100 < 10) by (split; [apply Z.div_pos|apply Z.div_lt_upper_bound]; lia).
  pose proof (Z.mod_pos_bound (v / 10) 10). pose proof (Z.mod_pos_bound v 10).
  unfold pad3. repeat apply Forall_cons_2; try apply is_digit_digit; try lia. constructor.
Qed.

Lemma pad3_value v : 0 ≤ v < 1000 → acc_value 0 (pad3 v) = v.
Proof.
  intros. assert (0 ≤ v / 100 < 10) by (split; [apply Z.div_pos|apply Z.div_lt_upper_bound]; lia).
  pose proof (Z.mod_pos_bound (v / 10) 10). pose proof (Z.mod_pos_bound v 10).
  unfold pad3. cbn. rewrite !digit_val_digit by lia.
  assert (v / 100 = v / 10 / 10) as -> by (by rewrite Z.div_div by lia).
  pose proof (Z.div_mod (v / 10) 10). pose proof (Z.div_mod v 10). lia.
Qed.

Lemma parse_uint_pad3 v : 0 ≤ v < 1000 → parse_uint (pad3 v) = Some v.
Proof.
  intros Hv. rewrite parse_uint_digits, pad3_value; [|done|by apply pad3_digits|done].
  rewrite u64_small; [done|]. unfold in_u64. lia.
Qed.

(** Three digits are the padded form of their value. *)
Lemma pad3_parse s v : length s = 3%nat → parse_uint s = Some v → s = pad3 v.
Proof.
  intros Hlen Hp. destruct (parse_uint_only _ _ Hp) as (Hd & Hne & _).
  rewrite parse_uint_digits in Hp by done. injection Hp as <-.
  destruct s as [|a [|b [|c [|]]]]; try done. clear Hlen Hne.
  apply Forall_cons in Hd as [Ha Hd]. apply Forall_cons in Hd as [Hb Hd]. apply Forall_cons in Hd as [Hc _].
  pose proof (digit_val_range _ Ha). pose proof (digit_val_range _ Hb). pose proof (digit_val_range _ Hc).
  cbn [acc_value foldl]. rewrite u64_small by (unfold in_u64; lia). unfold pad3.
  set (x := digit_val a) in *. set (y := digit_val b) in *. set (z := digit_val c) in *.
  assert ((((0 * 10 + x) * 10 + y) * 10 + z) / 10 = x * 10 + y) as H10.
  { symmetry. apply (Z.div_unique _ 10 _ z); lia. }
  assert ((((0 * 10 + x) * 10 + y) * 10 + z) / 100 = x) as H100.
  { symmetry. apply (Z.div_unique _ 100 _ (y * 10 + z)); lia. }
  assert ((((0 * 10 + x) * 10 + y) * 10 + z) mod 10 = z) as Hm.
  { symmetry. apply (Z.mod_unique _ 10 (x * 10 + y)); lia. }
  assert ((x * 10 + y) mod 10 = y) as Hm'.
  { symmetry. apply (Z.mod_unique _ 10 x); lia. }
  rewrite H10, H100, Hm, Hm'. unfold x, y, z. by rewrite !digit_digit_val.
Qed.

Lemma parse_uint_3 s v : length s = 3%nat → parse_uint s = Some v → 0 ≤ v < 1000.
Proof.
  intros Hlen Hv. destruct (parse_uint_only _ _ Hv) as (Hd & Hne & _).
  rewrite parse_uint_digits in Hv by done. injection Hv as <-.
  destruct s as [|x [|y [|z []]]]; try done.
  apply Forall_cons in Hd as [Hx Hd]. apply Forall_cons in Hd as [Hy Hd]. apply Forall_cons in Hd as [Hz _].
  apply digit_val_range in Hx, Hy, Hz. cbn [acc_value foldl]. rewrite u64_small; unfold in_u64; lia.
Qed.

(** ** Positions as lengths of prefixes *)

Lemma drop_zlen (a b : bytes) : drop (Z.to_nat (zlen a)) (a ++ b) = b.
Proof. unfold zlen. rewrite Nat2Z.id. apply drop_app_length. Qed.

Lemma at_Ok s i c : at_ s i = Ok c ↔ 0 ≤ i ∧ s !! Z.to_nat i = Some c.
Proof.
  unfold at_. destruct (Z.leb_spec 0 i), (Z.ltb_spec i (zlen s)); cbn.
  - destruct (s !! Z.to_nat i); naive_solver.
  - split; [done|]. intros [_ Hi%lookup_lt_Some]. unfold zlen in *. lia.
  - split; [done|lia].
  - split; [done|lia].
Qed.

Lemma at_middle (a : bytes) c b : at_ (a ++ c :: b) (zlen a) = Ok c.
Proof.
  apply at_Ok. split; [apply zlen_nonneg|]. unfold zlen. by rewrite Nat2Z.id, list_lookup_middle.
Qed.

Lemma at_middle_eq (s a : bytes) c b i : s = a ++ c :: b → i = zlen a → at_ s i = Ok c.
Proof. intros -> ->. apply at_middle. Qed.

Lemma substr_middle (a b d : bytes) : substr (a ++ b ++ d) (zlen a) (zlen b) = Ok b.
Proof.
  unfold substr. destruct (Z.leb_spec (zlen a) (zlen (a ++ b ++ d))) as [_|H].
  - rewrite drop_zlen. unfold zlen. by rewrite Nat2Z.id, take_app_length.
  - autorewrite with obfix in H. pose proof (zlen_nonneg b). pose proof (zlen_nonneg d). lia.
Qed.

Lemma substr_0 s n : substr s 0 n = Ok (take (Z.to_nat n) s).
Proof. unfold substr. destruct (Z.leb_spec 0 (zlen s)); [done|]. pose proof (zlen_nonneg s). lia. Qed.

Lemma index_of_middle c (b d : bytes) : c ∉ b → index_of c (b ++ c :: d) = Some (zlen b).
Proof.
  induction b as [|c' b IH]; intros Hc; cbn [app index_of]; [by rewrite Ascii.eqb_refl|].
  apply not_elem_of_cons in Hc as [Hne Hc]. destruct (Ascii.eqb_spec c' c); [done|].
  rewrite IH by done. cbn. by rewrite zlen_cons.
Qed.

Lemma find_middle c (a b d : bytes) :
  c ∉ b → find_char (a ++ b ++ c :: d) c (zlen a) = Some (zlen a + zlen b).
Proof. intros. unfold find_char. rewrite drop_zlen, index_of_middle by done. done. Qed.

Lemma index_of_Some c s i :
  index_of c s = Some i → ∃ b d, s = b ++ c :: d ∧ i = zlen b ∧ c ∉ b.
Proof.
  revert i. induction s as [|c' s IH]; intros i; cbn; [done|].
  destruct (Ascii.eqb_spec c' c) as [->|Hne].
  - intros [= <-]. exists [], s. split_and!; [done..|]. apply not_elem_of_nil.
  - destruct (index_of c s) as [j|]; cbn; [|done]. intros [= <-].
    destruct (IH j eq_refl) as (b & d & -> & -> & Hb). exists (c' :: b), d.
    split_and!; [done|by rewrite zlen_cons|]. apply not_elem_of_cons. done.
Qed.
Lemma index_of_None c s : index_of c s = None → c ∉ s.
Proof.
  induction s as [|c' s IH]; cbn; [intros _; apply not_elem_of_nil|].
  destruct (Ascii.eqb_spec c' c) as [->|Hne]; [done|].
  destruct (index_of c s); cbn; [done|]. intros _. apply not_elem_of_cons. auto.
Qed.

Lemma split_at (s : bytes) pos :
  0 ≤ pos ≤ zlen s → s = take (Z.to_nat pos) s ++ drop (Z.to_nat pos) s ∧ zlen (take (Z.to_nat pos) s) = pos.
Proof. intros. split; [by rewrite take_drop|]. unfold zlen in *. rewrite length_take. lia. Qed.

Lemma find_Some s c pos i :
  0 ≤ pos ≤ zlen s → find_char s c pos = Some i →
  ∃ a b d, s = a ++ b ++ c :: d ∧ zlen a = pos ∧ i = pos + zlen b ∧ c ∉ b.
Proof.
  intros Hpos. unfold find_char. destruct (index_of c _) as [j|] eqn:Hi; cbn; [|done]. intros [= <-].
  apply index_of_Some in Hi as (b & d & Hd & -> & Hb). destruct (split_at s pos Hpos) as [Hs Hl].
  rewrite Hd in Hs. eauto 10.
Qed.

Lemma find_bound s c pos i : 0 ≤ pos → find_char s c pos = Some i → pos ≤ i < zlen s.
Proof.
  intros Hpos. unfold find_char. destruct (index_of c _) as [j|] eqn:Hi; cbn; [|done]. intros [= <-].
  apply index_of_Some in Hi as (b & d & Hd & -> & Hb). apply (f_equal length) in Hd.
  rewrite length_drop, length_app in Hd. cbn in Hd. unfold zlen. lia.
Qed.

(** ** More bytes behind the ones examined *)

Lemma at_more s t i c : at_ s i = Ok c → at_ (s ++ t) i = Ok c.
Proof. rewrite !at_Ok. intros [? Hi]. split; [done|]. by apply lookup_app_l_Some. Qed.
Lemma substr_more s t pos n :
  0 ≤ pos → 0 ≤ n → pos + n ≤ zlen s → substr (s ++ t) pos n = substr s pos n.
Proof.
  intros Hp Hn Hl. unfold substr. autorewrite with obfix. pose proof (zlen_nonneg t).
  destruct (Z.leb_spec pos (zlen s + zlen t)), (Z.leb_spec pos (zlen s)); try lia.
  unfold zlen in *. rewrite drop_app_le, take_app_le; [done|rewrite length_drop|]; lia.
Qed.
Lemma find_more s t c pos i : find_char s c pos = Some i → find_char (s ++ t) c pos = Some i.
Proof.
  unfold find_char. destruct (index_of c (drop _ s)) as [j|] eqn:Hi; cbn; [|done]. intros [= <-].
  apply index_of_Some in Hi as (b & d & Hd & -> & Hb).
  assert (drop (Z.to_nat pos) (s ++ t) = b ++ c :: (d ++ t)) as ->.
  { rewrite drop_app_le, Hd, <- app_assoc; [done|]. apply (f_equal length) in Hd.
    rewrite length_drop, length_app in Hd. cbn in Hd. lia. }
  by rewrite index_of_middle.
Qed.
Lemma find_none_more s t c pos i :
  0 ≤ pos ≤ zlen s → find_char s c pos = None → find_char (s ++ t) c pos = Some i → zlen s ≤ i.
Proof.
  intros Hpos Hn Hi. destruct (find_Some (s ++ t) c pos i) as (a & b & d & Hs & Ha & -> & _);
    [autorewrite with obfix; pose proof (zlen_nonneg t); lia|done|].
  destruct (Z.le_gt_cases (zlen s) (pos + zlen b)) as [|Hlt]; [done|exfalso].
  unfold find_char in Hn. destruct (index_of c _) eqn:Hx in Hn; [done|].
  apply index_of_None in Hx. apply Hx. apply list_elem_of_lookup. exists (length b).
  rewrite lookup_drop, <- (lookup_app_l s t), Hs by (unfold zlen in *; lia).
  rewrite lookup_app_r by (unfold zlen in *; lia). rewrite lookup_app_r by (unfold zlen in *; lia).
  by replace (Z.to_nat pos + length b - length a - length b)%nat with 0%nat by (unfold zlen in *; lia).
Qed.

Lemma at_bound s i c : at_ s i = Ok c → 0 ≤ i < zlen s.
Proof. rewrite at_Ok. intros [? Hi%lookup_lt_Some]. unfold zlen. lia. Qed.
Lemma at_in s i : 0 ≤ i < zlen s → ∃ c, at_ s i = Ok c.
Proof.
  intros. destruct (lookup_lt_is_Some_2 s (Z.to_nat i)) as [c Hc]; [unfold zlen in *; lia|].
  exists c. apply at_Ok. split; [lia|done].
Qed.
Lemma at_out s i : zlen s ≤ i → at_ s i = Undef.
Proof. intros. unfold at_. destruct (Z.ltb_spec i (zlen s)); [lia|]. by rewrite andb_false_r. Qed.
Lemma substr_in s pos n :
  0 ≤ pos → 0 ≤ n → pos + n ≤ zlen s → ∃ b, substr s pos n = Ok b ∧ zlen b = n.
Proof.
  intros Hp Hn Hl. unfold substr. destruct (Z.leb_spec pos (zlen s)); [|lia]. eexists. split; [done|].
  unfold zlen in *. rewrite length_take, length_drop. lia.
Qed.
