(* ===== verification/Messages.v ===== *)
(** * FIX messages

    The tag numbers, message types and the parsed message of
    [src/fix/messages.h]. A message is a finite map from tags to values. *)

From S2P Require Import Prelude Types Text.

(** ** Tag numbers ([namespace tag]) *)

Definition tag_BeginString : Z := 8.
Definition tag_BodyLength : Z := 9.
Definition tag_MsgType : Z := 35.
Definition tag_SenderCompID : Z := 49.
Definition tag_TargetCompID : Z := 56.
Definition tag_MsgSeqNum : Z := 34.
Definition tag_SendingTime : Z := 52.
Definition tag_CheckSum : Z := 10.
Definition tag_HeartBtInt : Z := 108.
Definition tag_TestReqID : Z := 112.
Definition tag_RefSeqNum : Z := 45.
Definition tag_Text : Z := 58.
Definition tag_BeginSeqNo : Z := 7.
Definition tag_EndSeqNo : Z := 16.
Definition tag_PossDupFlag : Z := 43.
Definition tag_OrigSendingTime : Z := 122.
Definition tag_NewSeqNo : Z := 36.
Definition tag_GapFillFlag : Z := 123.
Definition tag_ClOrdID : Z := 11.
Definition tag_OrigClOrdID : Z := 41.
Definition tag_Symbol : Z := 55.
Definition tag_Side : Z := 54.
Definition tag_OrdType : Z := 40.
Definition tag_OrderQty : Z := 38.
Definition tag_Price : Z := 44.
Definition tag_TransactTime : Z := 60.
Definition tag_OrderID : Z := 37.
Definition tag_ExecID : Z := 17.
Definition tag_ExecType : Z := 150.
Definition tag_OrdStatus : Z := 39.
Definition tag_LeavesQty : Z := 151.
Definition tag_CumQty : Z := 14.
Definition tag_AvgPx : Z := 6.
Definition tag_LastPx : Z := 31.
Definition tag_LastQty : Z := 32.

(** ** Message types ([namespace msgtype]) *)

Definition mt_Heartbeat : bytes := B "0".
Definition mt_TestRequest : bytes := B "1".
Definition mt_ResendRequest : bytes := B "2".
Definition mt_Reject : bytes := B "3".
Definition mt_SequenceReset : bytes := B "4".
Definition mt_Logout : bytes := B "5".
Definition mt_ExecutionReport : bytes := B "8".
Definition mt_Logon : bytes := B "A".
Definition mt_NewOrderSingle : bytes := B "D".
Definition mt_OrderCancelRequest : bytes := B "F".
Definition mt_OrderCancelReplace : bytes := B "G".

(** ** Messages *)

Record Message := mkMessage { fields : gmap Z bytes }.

Definition get (t : Z) (m : Message) : option bytes := fields m !! t.
Definition msg_type (m : Message) : bytes := default [] (fields m !! tag_MsgType).

(** [Message::seq]: zero without a MsgSeqNum, an exception when it is not a
    number. *)
Definition seq (m : Message) : res SeqNum :=
  match fields m !! tag_MsgSeqNum with
  | None => Ok 0
  | Some v => stoull v
  end.

#[global] Instance Message_eq_dec : EqDecision Message.
Proof. solve_decision. Defined.
