(* ===== verification/Serializer.v ===== *)
(** * The FIX serializer

    Models [checksum] and [format_checksum] of [src/fix/parser.cpp] and
    [Serializer::build] of [src/fix/serializer.cpp]. *)

From S2P Require Import Prelude Types Text Messages.

Definition kSohWire : ascii := char_of 1.
Definition kSohText : ascii := "|"%char.

(** The sum is an [unsigned]: it wraps modulo 2^32 before the mask. *)
Definition checksum (s : bytes) : Z :=
  Z.land (foldl (λ a c, (a + code c) mod two32) 0 s) 255.
Definition format_checksum (v : Z) : bytes := pad3 (Z.land v 255).

(** One "tag=value" field with its separator. *)
Definition field (soh : ascii) (f : Z * bytes) : bytes :=
  to_string f.1 ++ "="%char :: f.2 ++ [soh].
Definition body_bytes (soh : ascii) (body : list (Z * bytes)) : bytes := mjoin (field soh <$> body).

Definition kBegin : bytes := B "8=FIX.4.4".
Definition header (soh : ascii) (body_size : Z) : bytes :=
  kBegin ++ [soh] ++ B "9=" ++ to_string body_size ++ [soh].
Definition trailer (soh : ascii) (cs : Z) : bytes := B "10=" ++ format_checksum cs ++ [soh].

Definition build (soh : ascii) (body : list (Z * bytes)) : bytes :=
  let b := body_bytes soh body in
  let out := header soh (zlen b) ++ b in
  out ++ trailer soh (checksum out).
