(* ===== verification/Parser.v ===== *)
(** * The FIX parser

    Models [Parser::parse_one] of [src/fix/parser.cpp]: framing by BodyLength,
    the checksum, and the loop that splits fields. Positions are [std::size_t]
    and wrap modulo 2^64; reading outside the buffer is undefined behaviour.
    [parse_header] is the part up to BodyLength, [parse_fields] the loop. *)

From S2P Require Import Prelude Types Text Messages Serializer.

Inductive ParseError :=
| None_ | Incomplete | BadHeader | BadBodyLength | BadCheckSum | MalformedField | DuplicateField.

Record ParseResult := mkParseResult { err : ParseError; consumed : Z; msg : Message }.

#[global] Instance ParseError_eq_dec : EqDecision ParseError.
Proof. solve_decision. Defined.
#[global] Instance ParseResult_eq_dec : EqDecision ParseResult.
Proof. solve_decision. Defined.

Definition empty_message : Message := mkMessage ∅.
Definition parse_fail (e : ParseError) : ParseResult := mkParseResult e 0 empty_message.

(** The header: where the body starts and how long it claims to be. *)
Definition parse_header (soh : ascii) (buf : bytes) : res (ParseError + Z * Z) :=
  if zlen buf <? 20 then Ok (inl Incomplete)
  else
    let! begin := substr buf 0 (zlen kBegin) in
    if negb (bool_decide (begin = kBegin)) then Ok (inl BadHeader)
    else
      let pos := zlen kBegin in
      if pos >=? zlen buf then Ok (inl BadHeader)
      else
        let! c := at_ buf pos in
        if negb (Ascii.eqb c soh) then Ok (inl BadHeader)
        else
          let pos := pos + 1 in
          if pos + 2 >=? zlen buf then Ok (inl BadHeader)
          else
            let! c := at_ buf pos in
            if negb (Ascii.eqb c "9") then Ok (inl BadHeader)
            else
              let! c := at_ buf (pos + 1) in
              if negb (Ascii.eqb c "=") then Ok (inl BadHeader)
              else
                let pos := pos + 2 in
                match find_char buf soh pos with
                | None => Ok (inl Incomplete)
                | Some body_len_end =>
                    let! digits := substr buf pos (body_len_end - pos) in
                    match parse_uint digits with
                    | None => Ok (inl BadBodyLength)
                    | Some body_len => Ok (inr (body_len_end + 1, body_len))
                    end
                end.

(** The field loop from offset [i]. Fields already inserted stay in the
    message when the loop fails, as in the source. *)
Fixpoint parse_fields (fuel : nat) (soh : ascii) (buf : bytes) (body_end i : Z) (m : gmap Z bytes) :
    res (ParseError * gmap Z bytes) :=
  if negb (i <? body_end) then Ok (None_, m)
  else
    match fuel with
    | O => Hang
    | S fuel =>
        match find_char buf "=" i with
        | None => Ok (MalformedField, m)
        | Some eq =>
            if eq >=? body_end then Ok (MalformedField, m)
            else
              let! tag := substr buf i (eq - i) in
              match parse_uint tag with
              | None => Ok (MalformedField, m)
              | Some tag =>
                  let val_start := eq + 1 in
                  match find_char buf soh val_start with
                  | None => Ok (MalformedField, m)
                  | Some soh_at =>
                      if soh_at >? body_end then Ok (MalformedField, m)
                      else
                        let t := i32 tag in
                        let! val := substr buf val_start (soh_at - val_start) in
                        match m !! t with
                        | Some _ => Ok (DuplicateField, m)
                        | None =>
                            parse_fields fuel soh buf body_end (soh_at + 1) (<[t := val]> m)
                        end
                  end
              end
        end
    end.

(** [emplace]: an existing entry is kept. *)
Definition emplace (t : Z) (v : bytes) (m : gmap Z bytes) : gmap Z bytes :=
  match m !! t with Some _ => m | None => <[t := v]> m end.

(** The checksum field at [body_end]: [None] when it is malformed. *)
Definition parse_trailer (soh : ascii) (buf : bytes) (body_end : Z) : res (option Z) :=
  let! c := at_ buf body_end in
  if negb (Ascii.eqb c "1") then Ok None
  else
    let! c := at_ buf (u64 (body_end + 1)) in
    if negb (Ascii.eqb c "0") then Ok None
    else
      let! c := at_ buf (u64 (body_end + 2)) in
      if negb (Ascii.eqb c "=") then Ok None
      else
        let! cs := substr buf (u64 (body_end + 3)) 3 in
        match parse_uint cs with
        | None => Ok None
        | Some cs =>
            let! c := at_ buf (u64 (body_end + 6)) in
            if negb (Ascii.eqb c soh) then Ok None else Ok (Some (cs mod two32))
        end.

Definition parse_one (soh : ascii) (buf : bytes) : res ParseResult :=
  let! hd := parse_header soh buf in
  match hd with
  | inl e => Ok (parse_fail e)
  | inr (body_start, body_len) =>
      if u64 (u64 (body_start + body_len) + 7) >? zlen buf then Ok (parse_fail Incomplete)
      else
        let body_end := u64 (body_start + body_len) in
        let! cs := parse_trailer soh buf body_end in
        match cs with
        | None => Ok (parse_fail BadCheckSum)
        | Some want =>
            let! covered := substr buf 0 body_end in
            if negb (want =? checksum covered) then Ok (parse_fail BadCheckSum)
            else
              let total := u64 (body_end + 7) in
              let! '(e, m) := parse_fields (length buf) soh buf body_end 0 ∅ in
              match e with
              | None_ =>
                  Ok (mkParseResult None_ total
                        (mkMessage (emplace tag_CheckSum (format_checksum want) m)))
              | _ => Ok (mkParseResult e 0 (mkMessage m))
              end
        end
  end.
