(* ===== verification/ParserProps.v ===== *)
(** * Framing and field lemmas of the parser

    The parser on buffers written as concatenations: the header, the fields
    and the trailer are recognised piece by piece, each lemma keeping the rest
    of the buffer arbitrary. The converse lemmas read the pieces back from a
    successful parse. *)

From S2P Require Import Prelude Types Text Messages Serializer Parser.

(** What the codec needs of the separator: it is no digit and does not occur
    in "8=FIX.4.4". Both separators of the source qualify. *)
Class Separator (soh : ascii) : Prop := {
  sep_digit : is_digit soh = false;
  sep_begin : soh ∉ kBegin
}.
#[export] Instance wire_separator : Separator kSohWire.
Proof. split; [done|decided]. Qed.
#[export] Instance text_separator : Separator kSohText.
Proof. split; [done|decided]. Qed.

Lemma digits_sep (s : bytes) c : digits_only s → is_digit c = false → c ∉ s.
Proof.
  intros Hs Hc Hin. unfold digits_only in Hs. rewrite Forall_forall in Hs.
  specialize (Hs c Hin). congruence.
Qed.

(** ** The header *)

(** A header with the length written as [d]. *)
Definition frame (soh : ascii) (d : bytes) : bytes := kBegin ++ [soh] ++ B "9=" ++ d ++ [soh].

Lemma frame_len soh d : zlen (frame soh d) = 13 + zlen d.
Proof. unfold frame, zlen. rewrite !length_app. cbn [length kBegin B String.list_ascii_of_string]. lia. Qed.

Lemma header_frame soh n : header soh n = frame soh (to_string n).
Proof. done. Qed.

Lemma frame_rest soh d rest :
  frame soh d ++ rest = kBegin ++ soh :: "9"%char :: "="%char :: d ++ soh :: rest.
Proof. unfold frame. rewrite <- !app_assoc. done. Qed.

Section framing.
Context (soh : ascii) `{!Separator soh}.

Lemma parse_header_frame d rest :
  digits_only d → d ≠ [] → 20 ≤ zlen (frame soh d ++ rest) →
  parse_header soh (frame soh d ++ rest) = Ok (inr (zlen (frame soh d), u64 (acc_value 0 d))).
Proof.
  intros Hd Hne Hlen. unfold parse_header. change (zlen kBegin) with 9.
  destruct (Z.ltb_spec (zlen (frame soh d ++ rest)) 20); [lia|].
  destruct (Z.geb_spec 9 (zlen (frame soh d ++ rest))); [lia|].
  destruct (Z.geb_spec (9 + 1 + 2) (zlen (frame soh d ++ rest))); [lia|].
  rewrite frame_rest. change (substr (kBegin ++ ?x) 0 9) with (substr ([] ++ kBegin ++ x) (zlen (@nil ascii)) (zlen kBegin)).
  rewrite substr_middle. cbn [rbind]. rewrite bool_decide_true by done. cbn [negb].
  rewrite (at_middle_eq _ kBegin soh _ 9 eq_refl eq_refl). cbn [rbind]. rewrite Ascii.eqb_refl. cbn [negb].
  rewrite (at_middle_eq _ (kBegin ++ [soh]) "9" ("="%char :: d ++ soh :: rest)) by done. cbn [rbind].
  rewrite (at_middle_eq _ (kBegin ++ [soh] ++ ["9"%char]) "=" (d ++ soh :: rest)) by done. cbn [rbind negb Ascii.eqb].
  assert (kBegin ++ soh :: "9"%char :: "="%char :: d ++ soh :: rest =
    (kBegin ++ [soh] ++ B "9=") ++ d ++ soh :: rest) as -> by done.
  change (9 + 1 + 2) with (zlen (kBegin ++ [soh] ++ B "9=")).
  rewrite find_middle by (apply digits_sep; [done|apply sep_digit]).
  rewrite Z.add_simpl_l, substr_middle. cbn [rbind]. rewrite parse_uint_digits by done.
  rewrite frame_len. change (zlen (kBegin ++ [soh] ++ B "9=")) with 12. do 3 f_equal. lia.
Qed.

(** The bytes a successful header was read from. *)
Lemma parse_header_inv buf pos len :
  parse_header soh buf = Ok (inr (pos, len)) →
  ∃ d rest, buf = frame soh d ++ rest ∧ digits_only d ∧ d ≠ [] ∧ len = u64 (acc_value 0 d) ∧
    pos = zlen (frame soh d) ∧ 20 ≤ zlen buf.
Proof.
  unfold parse_header. destruct (Z.ltb_spec (zlen buf) 20) as [|H20]; [done|].
  change (zlen kBegin) with 9. rewrite substr_0. cbn [rbind].
  destruct (bool_decide_reflect (take (Z.to_nat 9) buf = kBegin)) as [Hb|]; [|done].
  destruct (9 >=? zlen buf); [done|].
  pose proof (take_drop 9 buf) as Hbuf.
  change (Z.to_nat 9) with 9%nat in Hb. rewrite Hb in Hbuf. cbn [negb].
  destruct (drop 9 buf) as [|c0 [|c1 [|c2 r]]]; [subst buf; unfold zlen in H20; cbn in H20; lia..|]. subst buf.
  rewrite (at_middle_eq _ kBegin c0 _ 9 eq_refl eq_refl). cbn [rbind].
  destruct (Ascii.eqb_spec c0 soh) as [->|]; [|done]. cbn [negb].
  destruct (_ >=? _); [done|].
  rewrite (at_middle_eq _ (kBegin ++ [soh]) c1 (c2 :: r)) by done. cbn [rbind].
  destruct (Ascii.eqb_spec c1 "9") as [->|]; [|done]. cbn [negb].
  rewrite (at_middle_eq _ (kBegin ++ [soh] ++ ["9"%char]) c2 r) by done. cbn [rbind].
  destruct (Ascii.eqb_spec c2 "=") as [->|]; [|done]. cbn [negb].
  assert (kBegin ++ soh :: "9"%char :: "="%char :: r = (kBegin ++ [soh] ++ B "9=") ++ r) as -> by done.
  unfold find_char. change (9 + 1 + 2) with (zlen (kBegin ++ [soh] ++ B "9=")). rewrite drop_zlen.
  destruct (index_of soh r) as [j|] eqn:Hj; [|done]. cbn [fmap option_fmap option_map].
  apply index_of_Some in Hj as (d & rest & -> & -> & Hd). rewrite Z.add_simpl_l.
  rewrite substr_middle. cbn [rbind]. destruct (parse_uint d) as [v|] eqn:Hv; [|done]. intros [= <- <-].
  destruct (parse_uint_only _ _ Hv) as (Hdd & Hne & _). rewrite parse_uint_digits in Hv by done.
  exists d, rest. split_and!; [by rewrite frame_rest|done|done|congruence| |done].
  rewrite frame_len. unfold zlen. cbn [length]. lia.
Qed.

(** ** The trailer *)

Lemma parse_trailer_ok (a rest : bytes) ds v :
  length ds = 3%nat → parse_uint ds = Some v → zlen (a ++ B "10=" ++ ds ++ soh :: rest) < two64 →
  parse_trailer soh (a ++ B "10=" ++ ds ++ soh :: rest) (zlen a) = Ok (Some (v mod two32)).
Proof.
  intros Hl Hp Hlen. assert (zlen a + 7 < two64) as Ha.
  { revert Hlen. unfold zlen. rewrite !length_app. cbn [length B String.list_ascii_of_string]. lia. }
  pose proof (zlen_nonneg a). unfold parse_trailer.
  assert (∀ k, 0 ≤ k ≤ 6 → u64 (zlen a + k) = zlen a + k) as Hu.
  { intros. apply u64_small. unfold in_u64. lia. }
  rewrite !Hu by lia. change (B "10=") with ["1"%char; "0"%char; "="%char].
  cbn [app]. rewrite at_middle. cbn [rbind Ascii.eqb negb].
  rewrite (at_middle_eq _ (a ++ ["1"%char]) "0" ("="%char :: ds ++ soh :: rest));
    [|by rewrite <- app_assoc|by autorewrite with obfix]. cbn [rbind].
  rewrite (at_middle_eq _ (a ++ ["1"%char; "0"%char]) "=" (ds ++ soh :: rest));
    [|by rewrite <- app_assoc|autorewrite with obfix; lia]. cbn [rbind].
  assert (a ++ "1"%char :: "0"%char :: "="%char :: ds ++ soh :: rest =
    (a ++ ["1"%char; "0"%char; "="%char]) ++ ds ++ soh :: rest) as -> by (by rewrite <- app_assoc).
  replace (zlen a + 3) with (zlen (a ++ ["1"%char; "0"%char; "="%char])) by (autorewrite with obfix; lia).
  assert (zlen ds = 3) as Hd by (unfold zlen; lia).
  rewrite <- Hd at 1. rewrite substr_middle. cbn [rbind negb Ascii.eqb]. rewrite Hp.
  rewrite (at_middle_eq _ ((a ++ ["1"%char; "0"%char; "="%char]) ++ ds) soh rest);
    [|by rewrite <- !app_assoc|autorewrite with obfix; lia]. cbn [rbind].
  by rewrite Ascii.eqb_refl.
Qed.

Lemma parse_trailer_inv buf e v :
  0 ≤ e → e + 7 ≤ zlen buf → zlen buf < two64 → parse_trailer soh buf e = Ok (Some v) →
  ∃ a ds rest, buf = a ++ B "10=" ++ ds ++ soh :: rest ∧ zlen a = e ∧
    length ds = 3%nat ∧ parse_uint ds = Some v ∧ v < 1000.
Proof.
  intros H0 H7 H64 Ht. destruct (split_at buf e) as [Hb Ha]; [lia|].
  set (a := take (Z.to_nat e) buf) in *. clearbody a. set (b := drop (Z.to_nat e) buf) in *. clearbody b.
  subst buf e. rewrite zlen_app in *. unfold parse_trailer in Ht.
  assert (∀ k, 0 ≤ k ≤ 6 → u64 (zlen a + k) = zlen a + k) as Hu.
  { intros. apply u64_small. unfold in_u64. lia. }
  rewrite !Hu in Ht by lia. clear Hu.
  destruct b as [|c0 [|c1 [|c2 b]]]; [unfold zlen in H7; cbn in H7; lia..|].
  rewrite at_middle in Ht. cbn [rbind] in Ht. destruct (Ascii.eqb_spec c0 "1") as [->|]; [|done]. cbn [negb] in Ht.
  rewrite (at_middle_eq _ (a ++ ["1"%char]) c1 (c2 :: b)) in Ht;
    [|by rewrite <- app_assoc|by autorewrite with obfix]. cbn [rbind] in Ht.
  destruct (Ascii.eqb_spec c1 "0") as [->|]; [|done]. cbn [negb] in Ht.
  rewrite (at_middle_eq _ (a ++ ["1"%char; "0"%char]) c2 b) in Ht;
    [|by rewrite <- app_assoc|autorewrite with obfix; lia]. cbn [rbind] in Ht.
  destruct (Ascii.eqb_spec c2 "=") as [->|]; [|done]. cbn [negb] in Ht.
  rewrite !zlen_cons in H7.
  destruct b as [|x [|y [|z [|w rest]]]]; [unfold zlen in H7; cbn in H7; lia..|].
  exists a, [x; y; z], rest.
  assert (a ++ "1"%char :: "0"%char :: "="%char :: x :: y :: z :: w :: rest =
    (a ++ B "10=") ++ [x; y; z] ++ w :: rest) as Heq by (by rewrite <- app_assoc).
  rewrite Heq in Ht. replace (zlen a + 3) with (zlen (a ++ B "10=")) in Ht by (by rewrite zlen_app).
  change 3 with (zlen [x; y; z]) in Ht. rewrite substr_middle in Ht. cbn [rbind] in Ht.
  destruct (parse_uint [x; y; z]) as [cs|] eqn:Hcs; [|done].
  rewrite (at_middle_eq _ ((a ++ B "10=") ++ [x; y; z]) w rest) in Ht;
    [|by rewrite <- !app_assoc|rewrite !zlen_app; change (zlen (B "10=")) with 3; change (zlen [x; y; z]) with 3; lia].
  cbn [rbind] in Ht. destruct (Ascii.eqb_spec w soh) as [->|]; [|done]. injection Ht as Hv.
  pose proof (parse_uint_3 [x; y; z] cs eq_refl Hcs).
  rewrite Z.mod_small in Hv by lia. subst v.
  split_and!; [by rewrite Heq, <- app_assoc|done..|lia].
Qed.

(** ** The field loop *)

(** A field as it stands on the wire: the text of the tag and the value. *)
Definition raw_field (f : bytes * bytes) : bytes := f.1 ++ "="%char :: f.2 ++ [soh].
Definition raw_ok (f : bytes * bytes) : Prop := digits_only f.1 ∧ f.1 ≠ [] ∧ soh ∉ f.2.
Definition raw_entry (f : bytes * bytes) : Z * bytes := (i32 (u64 (acc_value 0 f.1)), f.2).

(** One turn of the loop on a well-formed field. *)
Lemma parse_fields_step fuel (a : bytes) f (s : bytes) body_end m :
  raw_ok f → zlen a + zlen (raw_field f) ≤ body_end →
  parse_fields (S fuel) soh (a ++ raw_field f ++ s) body_end (zlen a) m =
    let '(t, v) := raw_entry f in
    match m !! t with
    | Some _ => Ok (DuplicateField, m)
    | None => parse_fields fuel soh (a ++ raw_field f ++ s) body_end (zlen (a ++ raw_field f)) (<[t := v]> m)
    end.
Proof.
  destruct f as [t v]. intros (Ht & Hne & Hv) Hlen. cbn in Ht, Hne, Hv.
  unfold raw_field in *. cbn [fst snd raw_entry] in *. rewrite !zlen_app, zlen_cons, zlen_app in Hlen.
  change (zlen [soh]) with 1 in Hlen. pose proof (zlen_nonneg t). pose proof (zlen_nonneg v).
  cbn [parse_fields]. destruct (Z.ltb_spec (zlen a) body_end); [|lia]. cbn [negb].
  assert (a ++ (t ++ "="%char :: v ++ [soh]) ++ s = a ++ t ++ "="%char :: (v ++ [soh]) ++ s) as Heq
    by app_normal.
  rewrite Heq. rewrite find_middle by (by apply digits_sep).
  destruct (Z.geb_spec (zlen a + zlen t) body_end); [lia|].
  rewrite Z.add_simpl_l, substr_middle. cbn [rbind]. rewrite parse_uint_digits by done.
  assert (a ++ t ++ "="%char :: (v ++ [soh]) ++ s = (a ++ t ++ ["="%char]) ++ v ++ soh :: s) as Heq2
    by app_normal.
  rewrite Heq2. replace (zlen a + zlen t + 1) with (zlen (a ++ t ++ ["="%char]))
    by (rewrite !zlen_app; change (zlen ["="%char]) with 1; lia).
  rewrite find_middle by done.
  assert (zlen (a ++ t ++ ["="%char]) + zlen v + 1 = zlen (a ++ t ++ "="%char :: v ++ [soh])) as Hpos.
  { autorewrite with obfix. lia. }
  destruct (Z.gtb_spec (zlen (a ++ t ++ ["="%char]) + zlen v) body_end) as [Hgt|].
  { rewrite !zlen_app in Hgt. change (zlen ["="%char]) with 1 in Hgt. lia. }
  rewrite Z.add_simpl_l, substr_middle. cbn [rbind]. by rewrite Hpos.
Qed.

Lemma parse_fields_run fs : ∀ fuel (a s : bytes) m,
  Forall raw_ok fs → NoDup (raw_entry <$> fs).*1 → (∀ t, t ∈ (raw_entry <$> fs).*1 → m !! t = None) →
  (length fs ≤ fuel)%nat →
  parse_fields fuel soh (a ++ mjoin (raw_field <$> fs) ++ s) (zlen (a ++ mjoin (raw_field <$> fs))) (zlen a) m =
    Ok (None_, list_to_map (raw_entry <$> fs) ∪ m).
Proof.
  induction fs as [|f fs IH]; intros fuel a s m Hok Hnd Hm Hf.
  { cbn. rewrite app_nil_r. assert (∀ fl, parse_fields fl soh (a ++ s) (zlen a) (zlen a) m = Ok (None_, m)) as ->.
    { intros []; cbn [parse_fields]; by rewrite Z.ltb_irrefl. }
    by rewrite (left_id_L ∅ (∪)). }
  apply Forall_cons in Hok as [Hf1 Hok]. destruct fuel as [|fuel]; [cbn in Hf; lia|].
  rewrite !fmap_cons, mjoin_cons in *.
  apply NoDup_cons in Hnd as [Hn Hnd]. rewrite <- app_assoc.
  rewrite parse_fields_step; [|done|rewrite !zlen_app; pose proof (zlen_nonneg (mjoin (raw_field <$> fs))); lia].
  destruct (raw_entry f) as [t v] eqn:Ht. cbn [fst] in *. rewrite (Hm t) by left.
  rewrite (app_assoc a), (app_assoc a (raw_field f)).
  rewrite (IH fuel (a ++ raw_field f) s (<[t := v]> m) Hok Hnd); [|..].
  - cbn [list_to_map foldr uncurry]. f_equal. f_equal.
    rewrite <- insert_union_l. rewrite insert_union_r; [done|].
    by apply not_elem_of_list_to_map_1.
  - intros t' Ht'. rewrite lookup_insert_ne; [apply Hm; by right|]. intros ->. done.
  - cbn in Hf. lia.
Qed.

Corollary parse_fields_all fs fuel (s : bytes) :
  Forall raw_ok fs → NoDup (raw_entry <$> fs).*1 → (length fs ≤ fuel)%nat →
  parse_fields fuel soh (mjoin (raw_field <$> fs) ++ s) (zlen (mjoin (raw_field <$> fs))) 0 ∅ =
    Ok (None_, list_to_map (raw_entry <$> fs)).
Proof.
  intros Hok Hnd Hf. pose proof (parse_fields_run fs fuel [] s ∅ Hok Hnd (λ _ _, lookup_empty _) Hf) as H.
  cbn [app] in H. by rewrite (right_id_L ∅ (∪)) in H.
Qed.

(** A turn that does not fail has read a well-formed field with a new tag. *)
Lemma parse_fields_turn fuel (a s : bytes) body_end m m' :
  zlen a < body_end → parse_fields (S fuel) soh (a ++ s) body_end (zlen a) m = Ok (None_, m') →
  ∃ f rest, s = raw_field f ++ rest ∧ raw_ok f ∧ zlen (a ++ raw_field f) ≤ body_end + 1 ∧
    m !! (raw_entry f).1 = None ∧
    parse_fields fuel soh (a ++ s) body_end (zlen (a ++ raw_field f))
      (<[(raw_entry f).1 := (raw_entry f).2]> m) = Ok (None_, m').
Proof.
  intros Hlt. cbn [parse_fields]. destruct (Z.ltb_spec (zlen a) body_end); [cbn [negb]|lia].
  unfold find_char. rewrite drop_zlen.
  destruct (index_of "=" s) as [j|] eqn:Hj; [|done]. cbn [fmap option_fmap option_map].
  apply index_of_Some in Hj as (t & r & -> & -> & Ht).
  destruct (Z.geb_spec (zlen a + zlen t) body_end) as [|Hte]; [done|].
  rewrite Z.add_simpl_l, substr_middle. cbn [rbind].
  destruct (parse_uint t) as [tv|] eqn:Htv; [|done].
  destruct (parse_uint_only _ _ Htv) as (Hd & Hne & _). rewrite parse_uint_digits in Htv by done.
  assert (a ++ t ++ "="%char :: r = (a ++ t ++ ["="%char]) ++ r) as Heq by app_normal.
  assert (zlen a + zlen t + 1 = zlen (a ++ t ++ ["="%char])) as Hvs by (autorewrite with obfix; lia).
  rewrite Heq, Hvs, drop_zlen.
  destruct (index_of soh r) as [j|] eqn:Hj; [|done]. cbn [fmap option_fmap option_map].
  apply index_of_Some in Hj as (v & rest & -> & -> & Hv).
  destruct (Z.gtb_spec (zlen (a ++ t ++ ["="%char]) + zlen v) body_end) as [|Hve]; [done|].
  rewrite Z.add_simpl_l, substr_middle. cbn [rbind].
  destruct (m !! i32 tv) eqn:Hm; [done|]. intros Hrec. exists (t, v), rest. unfold raw_entry. cbn [fst snd].
  injection Htv as ->. assert (zlen (a ++ raw_field (t, v)) = zlen (a ++ t ++ ["="%char]) + zlen v + 1) as ->.
  { unfold raw_field. cbn [fst snd]. autorewrite with obfix. lia. }
  split_and!; [unfold raw_field; app_normal|done..|lia|done|done].
Qed.

(** The fields a successful loop has read. The byte at [body_end] is not a
    separator, so the last field ends exactly there. *)
Lemma parse_fields_inv fuel : ∀ (a s : bytes) body_end m m' c,
  c ≠ soh → at_ (a ++ s) body_end = Ok c → zlen a ≤ body_end →
  parse_fields fuel soh (a ++ s) body_end (zlen a) m = Ok (None_, m') →
  ∃ fs s', s = mjoin (raw_field <$> fs) ++ s' ∧ zlen a + zlen (mjoin (raw_field <$> fs)) = body_end ∧
    Forall raw_ok fs ∧ NoDup (raw_entry <$> fs).*1 ∧
    (∀ t, t ∈ (raw_entry <$> fs).*1 → m !! t = None) ∧ m' = list_to_map (raw_entry <$> fs) ∪ m.
Proof.
  induction fuel as [|fuel IH]; intros a s body_end m m' c Hc Hat Hle Hp;
    (destruct (Z.eq_dec (zlen a) body_end) as [<-|Hne];
      [cbn [parse_fields] in Hp; rewrite Z.ltb_irrefl in Hp; injection Hp as <-;
       exists [], s; split_and!; [done|by apply Z.add_0_r|apply Forall_nil_2|apply NoDup_nil_2| |];
       [by intros t ?%not_elem_of_nil|cbn; by rewrite (left_id_L ∅ (∪))]|]).
  { cbn [parse_fields] in Hp. destruct (Z.ltb_spec (zlen a) body_end); [done|lia]. }
  apply parse_fields_turn in Hp as (f & rest & -> & Hf & Hend & Hnew & Hp); [|lia].
  assert (zlen (a ++ raw_field f) ≠ body_end + 1) as Hnb.
  { intros He. unfold raw_field in He, Hat. rewrite (at_middle_eq _ (a ++ f.1 ++ "="%char :: f.2) soh rest) in Hat;
      [congruence|app_normal|autorewrite with obfix in *; lia]. }
  rewrite (app_assoc a) in Hp, Hat.
  destruct (IH (a ++ raw_field f) rest body_end _ _ c Hc Hat ltac:(lia) Hp)
    as (fs & s' & -> & Hend' & Hok & Hnd & Hnone & ->).
  exists (f :: fs), s'. rewrite !fmap_cons, mjoin_cons. destruct (raw_entry f) as [t v] eqn:Ht. cbn [fst snd] in *.
  assert (t ∉ (raw_entry <$> fs).*1) as Hni.
  { intros Hin%Hnone. by rewrite lookup_insert_eq in Hin. }
  split_and!; [app_normal|rewrite !zlen_app in *; lia|by constructor|by constructor| |].
  - intros t' [->|Hin]%elem_of_cons; [done|]. specialize (Hnone _ Hin).
    rewrite lookup_insert_ne in Hnone; [done|]. by intros <-.
  - cbn [list_to_map foldr uncurry]. rewrite <- insert_union_l, insert_union_r; [done|].
    by apply not_elem_of_list_to_map_1.
Qed.

(** The loop ends: every turn consumes at least one byte of the body. *)
Lemma parse_fields_total fuel : ∀ buf body_end i m,
  0 ≤ i → body_end < zlen buf → body_end - i ≤ Z.of_nat fuel →
  ∃ r, parse_fields fuel soh buf body_end i m = Ok r.
Proof.
  induction fuel as [|fuel IH]; intros buf body_end i m Hi Hb Hf; cbn [parse_fields];
    destruct (Z.ltb_spec i body_end) as [Hlt|Hge]; cbn [negb]; eauto; [lia|].
  destruct (find_char buf "=" i) as [eq|] eqn:He; [|eauto]. apply find_bound in He; [|lia].
  destruct (Z.geb_spec eq body_end); [eauto|].
  destruct (substr_in buf i (eq - i)) as (t & -> & _); [lia..|]. cbn [rbind].
  destruct (parse_uint t) as [tv|]; [|eauto].
  destruct (find_char buf soh (eq + 1)) as [sa|] eqn:Hs; [|eauto]. apply find_bound in Hs; [|lia].
  destruct (Z.gtb_spec sa body_end); [eauto|].
  destruct (substr_in buf (eq + 1) (sa - (eq + 1))) as (v & -> & _); [lia..|]. cbn [rbind].
  destruct (m !! i32 tv); [eauto|]. apply IH; lia.
Qed.

(** Bytes behind the body do not change the loop's result. *)
Lemma parse_fields_more fuel : ∀ fuel' buf more body_end i m r,
  0 ≤ i ≤ zlen buf → body_end < zlen buf → (fuel ≤ fuel')%nat →
  parse_fields fuel soh buf body_end i m = Ok r →
  parse_fields fuel' soh (buf ++ more) body_end i m = Ok r.
Proof.
  induction fuel as [|fuel IH]; intros fuel' buf more body_end i m r Hi Hb Hf;
    [destruct fuel'|destruct fuel' as [|fuel']; [lia|]]; cbn [parse_fields];
    destruct (Z.ltb_spec i body_end) as [Hlt|Hge]; cbn [negb]; try done.
  destruct (find_char buf "=" i) as [eq|] eqn:He.
  - rewrite (find_more _ _ _ _ _ He). apply find_bound in He; [|lia].
    destruct (Z.geb_spec eq body_end); [done|]. rewrite substr_more by lia.
    destruct (substr_in buf i (eq - i)) as (t & -> & _); [lia..|]. cbn [rbind].
    destruct (parse_uint t) as [tv|]; [|done].
    destruct (find_char buf soh (eq + 1)) as [sa|] eqn:Hs.
    + rewrite (find_more _ _ _ _ _ Hs). apply find_bound in Hs; [|lia].
      destruct (Z.gtb_spec sa body_end); [done|]. rewrite substr_more by lia.
      destruct (substr_in buf (eq + 1) (sa - (eq + 1))) as (v & -> & _); [lia..|]. cbn [rbind].
      destruct (m !! i32 tv); [done|]. apply IH; lia.
    + destruct (find_char (buf ++ more) soh (eq + 1)) as [sa|] eqn:Hs'; [|done].
      apply find_none_more in Hs'; [|lia|done]. destruct (Z.gtb_spec sa body_end); [done|lia].
  - destruct (find_char (buf ++ more) "=" i) as [eq|] eqn:He'; [|done].
    apply find_none_more in He'; [|lia|done]. destruct (Z.geb_spec eq body_end); [done|lia].
Qed.

End framing.
