(* ===== verification/CodecProps.v ===== *)
(** * The codec: checksum, serialized messages and whole-message parsing

    Lemmas on [checksum] and [build], and [parse_one] on a framed buffer:
    what it computes once the header, the body and the trailer are known. *)

From S2P Require Import Prelude Types Text Messages Serializer Parser ParserProps.

(** ** Checksum *)

Lemma checksum_fold s a :
  0 ≤ a → foldl (λ a c, (a + code c) mod two32) a s mod 256 = (a + sumz (code <$> s)) mod 256.
Proof.
  revert a. induction s as [|c s IH]; intros a Ha; cbn [foldl]; [cbn; by rewrite Z.add_0_r|].
  rewrite IH by (apply Z.mod_pos_bound; lia). rewrite fmap_cons, sumz_cons.
  rewrite <- Z.add_mod_idemp_l, <- (Znumtheory.Zmod_div_mod 256 two32) by (lia || by exists 16777216).
  by rewrite Z.add_mod_idemp_l, Z.add_assoc by lia.
Qed.

Lemma land_255 z : Z.land z 255 = z mod 256.
Proof. apply (Z.land_ones z 8). lia. Qed.

Lemma checksum_sum s : checksum s = sumz (code <$> s) mod 256.
Proof. unfold checksum. rewrite land_255. by apply (checksum_fold s 0). Qed.
Lemma checksum_range s : 0 ≤ checksum s < 256.
Proof. rewrite checksum_sum. apply Z.mod_pos_bound. lia. Qed.

(** The checksum tells apart strings that differ in one byte. *)
Lemma checksum_one_byte a c c' b :
  checksum (a ++ c :: b) = checksum (a ++ c' :: b) → c = c'.
Proof.
  rewrite !checksum_sum, !fmap_app, !fmap_cons, !sumz_app, !sumz_cons. intros H.
  apply code_inj. pose proof (code_range c). pose proof (code_range c').
  set (x := sumz (code <$> a)) in *. set (y := sumz (code <$> b)) in *.
  assert ((code c - code c') mod 256 = 0) as Hd.
  { replace (code c - code c') with ((x + (code c + y)) - (x + (code c' + y))) by lia.
    rewrite Zminus_mod, H, Z.sub_diag. done. }
  apply Z.mod_divide in Hd as [k Hk]; [|lia]. assert (k = 0); lia.
Qed.

Lemma format_checksum_small v : 0 ≤ v < 256 → format_checksum v = pad3 v.
Proof. intros. unfold format_checksum. by rewrite land_255, Z.mod_small. Qed.

(** ** Whole messages *)

Section codec.
Context (soh : ascii) `{!Separator soh}.

(** A framed buffer: length text [d], body, checksum text [ds] and what
    follows the message. *)
Definition framed (d body ds rest : bytes) : bytes :=
  (frame soh d ++ body) ++ B "10=" ++ ds ++ soh :: rest.

Definition frame_ok (d body ds : bytes) : Prop :=
  digits_only d ∧ d ≠ [] ∧ u64 (acc_value 0 d) = zlen body ∧ length ds = 3%nat.

Lemma framed_more d body ds rest more : framed d body ds rest ++ more = framed d body ds (rest ++ more).
Proof. unfold framed. app_normal. Qed.

Lemma framed_len d body ds rest :
  length ds = 3%nat → zlen (framed d body ds rest) = zlen (frame soh d ++ body) + 7 + zlen rest.
Proof. intros. unfold framed, zlen. rewrite !length_app. cbn [length B String.list_ascii_of_string]. lia. Qed.

Lemma parse_header_framed d body ds rest :
  frame_ok d body ds →
  parse_header soh (framed d body ds rest) = Ok (inr (zlen (frame soh d), zlen body)).
Proof.
  intros (Hd & Hne & Hn & Hds).
  assert (20 ≤ zlen (framed d body ds rest)) as H20.
  { rewrite framed_len, zlen_app, frame_len by done. destruct d; [done|].
    rewrite zlen_cons. pose proof (zlen_nonneg d). pose proof (zlen_nonneg body). pose proof (zlen_nonneg rest). lia. }
  unfold framed in *. rewrite <- app_assoc in *. rewrite parse_header_frame by done. by rewrite Hn.
Qed.

(** After the frame: the checksum decides, then the fields. *)
Lemma parse_one_framed d body ds rest v :
  frame_ok d body ds → parse_uint ds = Some v → zlen (framed d body ds rest) < two64 →
  parse_one soh (framed d body ds rest) =
    if negb (v =? checksum (frame soh d ++ body)) then Ok (parse_fail BadCheckSum)
    else
      let! '(e, m) := parse_fields (length (framed d body ds rest)) soh (framed d body ds rest)
                        (zlen (frame soh d ++ body)) 0 ∅ in
      match e with
      | None_ => Ok (mkParseResult None_ (zlen (frame soh d ++ body) + 7)
                       (mkMessage (emplace tag_CheckSum (format_checksum v) m)))
      | _ => Ok (mkParseResult e 0 (mkMessage m))
      end.
Proof.
  intros Hfr Hv H64. pose proof Hfr as (Hd & Hne & Hn & Hds). unfold parse_one.
  rewrite parse_header_framed by done. cbn [rbind].
  pose proof (framed_len d body ds rest Hds) as Hlen. rewrite zlen_app in Hlen.
  pose proof (zlen_nonneg (frame soh d)). pose proof (zlen_nonneg body). pose proof (zlen_nonneg rest).
  rewrite (u64_small (zlen (frame soh d) + zlen body)) by (unfold in_u64; lia).
  rewrite (u64_small (_ + 7)) by (unfold in_u64; lia).
  destruct (Z.gtb_spec (zlen (frame soh d) + zlen body + 7) (zlen (framed d body ds rest))); [lia|].
  rewrite <- zlen_app. unfold framed at 1. rewrite (parse_trailer_ok soh _ _ ds v) by done. cbn [rbind].
  unfold framed at 1. rewrite substr_0. cbn [rbind]. unfold zlen at 1. rewrite Nat2Z.id, take_app_length.
  pose proof (parse_uint_3 _ _ Hds Hv).
  rewrite (Z.mod_small v) by lia. done.
Qed.

(** ** Serialized messages *)

Definition body_ok (body : list (Z * bytes)) : Prop :=
  Forall (λ f, 0 ≤ f.1 < two31 ∧ soh ∉ f.2) body ∧ NoDup body.*1 ∧
  Forall (λ t, t ∉ body.*1) [tag_BeginString; tag_BodyLength; tag_CheckSum].
#[global] Instance body_ok_dec body : Decision (body_ok body).
Proof. unfold body_ok. apply _. Defined.

(** The fields of the message [build] writes, in wire order. *)
Definition wire_header (body : list (Z * bytes)) : list (Z * bytes) :=
  [(tag_BeginString, B "FIX.4.4"); (tag_BodyLength, to_string (zlen (body_bytes soh body)))].
Definition signed (body : list (Z * bytes)) : bytes :=
  header soh (zlen (body_bytes soh body)) ++ body_bytes soh body.
Definition wire_fields (body : list (Z * bytes)) : list (Z * bytes) :=
  wire_header body ++ body ++ [(tag_CheckSum, format_checksum (checksum (signed body)))].

(** The field list as raw wire fields. *)
Definition raw (f : Z * bytes) : bytes * bytes := (to_string f.1, f.2).

Lemma raw_entry_raw f : 0 ≤ f.1 < two31 → raw_entry (raw f) = f.
Proof.
  intros Hf. unfold raw_entry, raw. cbn [fst snd].
  destruct (to_string_spec f.1) as (_ & _ & ->); [unfold in_u64; lia|].
  rewrite u64_small, i32_small by (unfold in_u64; lia). by destruct f.
Qed.
Lemma raw_ok_raw f : 0 ≤ f.1 < two31 → soh ∉ f.2 → raw_ok soh (raw f).
Proof. intros Hf Hs. destruct (to_string_spec f.1) as (? & ? & _); [unfold in_u64; lia|]. done. Qed.

Lemma raw_entries fs : Forall (λ f : Z * bytes, 0 ≤ f.1 < two31) fs → raw_entry <$> (raw <$> fs) = fs.
Proof. induction 1; [done|]. rewrite !fmap_cons, raw_entry_raw by done. by f_equal. Qed.

Lemma signed_raw body :
  signed body = mjoin (raw_field soh <$> (raw <$> (wire_header body ++ body))).
Proof.
  unfold wire_header. cbn [app]. rewrite !fmap_cons, !mjoin_cons.
  assert (body_bytes soh body = mjoin (raw_field soh <$> (raw <$> body))) as <-.
  { unfold body_bytes. by rewrite <- list_fmap_compose. }
  unfold signed, header, raw_field, raw. cbn [fst snd].
  change (to_string tag_BeginString) with (B "8"). change (to_string tag_BodyLength) with (B "9").
  set (b := body_bytes soh body). cbn [B String.list_ascii_of_string kBegin]. app_normal.
Qed.

Lemma build_framed body rest :
  build soh body ++ rest =
    framed (to_string (zlen (body_bytes soh body))) (body_bytes soh body)
      (format_checksum (checksum (signed body))) rest.
Proof. unfold build, framed, trailer, signed. rewrite header_frame. app_normal. Qed.

Lemma to_string_no_soh n : in_u64 n → soh ∉ to_string n.
Proof. intros Hn. apply digits_sep; [|apply sep_digit]. by apply to_string_spec. Qed.

Lemma wire_header_range body : Forall (λ f, 0 ≤ f.1 < two31) (wire_header body).
Proof.
  unfold wire_header, tag_BeginString, tag_BodyLength.
  repeat (apply Forall_cons; split; [cbn; lia|]). by apply Forall_nil.
Qed.

Lemma wire_header_no_soh body :
  in_u64 (zlen (body_bytes soh body)) → Forall (λ f, soh ∉ f.2) (wire_header body).
Proof.
  intros Hn. apply Forall_cons. split; [|apply Forall_singleton; by apply to_string_no_soh].
  cbn. intros Hin. apply sep_begin. change kBegin with (B "8=" ++ B "FIX.4.4"). apply elem_of_app. by right.
Qed.

Lemma checksum_not_header body : tag_CheckSum ∉ (wire_header body).*1.
Proof. cbn. rewrite !not_elem_of_cons. split_and!; [done..|apply not_elem_of_nil]. Qed.

Lemma body_range body : body_ok body → Forall (λ f, 0 ≤ f.1 < two31) (wire_header body ++ body).
Proof.
  intros (Hok & _). apply Forall_app. split; [apply wire_header_range|].
  eapply Forall_impl; [exact Hok|]. cbn. tauto.
Qed.

Lemma body_raw_ok body :
  body_ok body → in_u64 (zlen (body_bytes soh body)) →
  Forall (raw_ok soh) (raw <$> (wire_header body ++ body)).
Proof.
  intros Hok Hn. apply Forall_fmap. pose proof (body_range _ Hok) as Hr. destruct Hok as (Hok & _).
  assert (Forall (λ f, soh ∉ f.2) (wire_header body ++ body)) as Hs.
  { apply Forall_app. split; [by apply wire_header_no_soh|]. eapply Forall_impl; [exact Hok|]. cbn. tauto. }
  rewrite Forall_forall in *. intros f Hf. apply raw_ok_raw; auto.
Qed.

Lemma body_tags body : body_ok body → NoDup (wire_header body ++ body).*1.
Proof.
  intros (_ & Hnd & Hres). cbn. apply Forall_cons in Hres as [H8 Hres]. apply Forall_cons in Hres as [H9 _].
  constructor; [|by constructor]. intros [?|?]%elem_of_cons; done.
Qed.

Lemma raw_fields_length (fs : list (bytes * bytes)) :
  (length fs ≤ length (mjoin (raw_field soh <$> fs)))%nat.
Proof.
  induction fs as [|f fs IH]; [done|]. rewrite fmap_cons, mjoin_cons, length_app.
  unfold raw_field at 1. rewrite length_app. cbn. lia.
Qed.

Lemma list_to_map_snoc_emplace (l : list (Z * bytes)) t v :
  t ∉ l.*1 → emplace t v (list_to_map l) = list_to_map (l ++ [(t, v)]).
Proof.
  intros Ht. unfold emplace. rewrite not_elem_of_list_to_map_1 by done.
  by rewrite list_to_map_snoc.
Qed.

Lemma build_parses body rest :
  body_ok body → zlen (build soh body ++ rest) < two64 →
  parse_one soh (build soh body ++ rest) =
    Ok (mkParseResult None_ (zlen (build soh body)) (mkMessage (list_to_map (wire_fields body)))).
Proof.
  intros Hok H64. set (n := zlen (body_bytes soh body)).
  assert (zlen (build soh body) = zlen (signed body) + 7) as Hlen.
  { rewrite <- (app_nil_r (build soh body)), build_framed, framed_len by done.
    rewrite <- header_frame. fold (signed body). rewrite zlen_nil. lia. }
  assert (in_u64 n) as Hn.
  { unfold in_u64, n. rewrite zlen_app, Hlen in H64. unfold signed in H64. rewrite zlen_app in H64.
    pose proof (zlen_nonneg (header soh n)). pose proof (zlen_nonneg rest).
    pose proof (zlen_nonneg (body_bytes soh body)). fold n in H64. lia. }
  pose proof (checksum_range (signed body)) as Hcs. destruct (to_string_spec n Hn) as (Hd & Hne & Hval).
  rewrite Hlen. unfold wire_fields. rewrite build_framed, format_checksum_small in H64 |- * by done.
  rewrite (parse_one_framed (to_string n) _ _ rest (checksum (signed body)));
    [|split_and!; [done|done|by rewrite Hval, u64_small|done]|apply parse_uint_pad3; lia|done].
  unfold framed. rewrite <- header_frame. change (header soh n ++ body_bytes soh body) with (signed body).
  rewrite Z.eqb_refl. cbn [negb].
  set (fs := raw <$> (wire_header body ++ body)).
  assert (raw_entry <$> fs = wire_header body ++ body) as Hfs by (apply raw_entries, body_range, Hok).
  rewrite (signed_raw body). fold fs.
  rewrite parse_fields_all; cbn [rbind].
  - rewrite Hfs, format_checksum_small by apply checksum_range.
    rewrite list_to_map_snoc_emplace; [by rewrite <- app_assoc|].
    destruct Hok as (_ & _ & Hres). rewrite fmap_app. apply Forall_cons in Hres as [_ Hres].
    apply Forall_cons in Hres as [_ Hres]. apply Forall_cons in Hres as [H10 _].
    intros [Hin|Hin]%elem_of_app; [|done]. by apply checksum_not_header in Hin.
  - by apply body_raw_ok.
  - rewrite Hfs. by apply body_tags.
  - rewrite length_app. pose proof (raw_fields_length fs). lia.
Qed.

End codec.
