(* ===== verification/CodecTheorems.v ===== *)
(** * Theorems about the codec

    Round trip, soundness of accepted messages, insensitivity to bytes that
    follow a message, detection of corruption, totality, and the inputs on
    which the length arithmetic goes wrong. *)

From S2P Require Import Prelude Types Text Messages Serializer Parser ParserProps CodecProps.

(** ** Bytes behind a message *)

Lemma parse_header_more soh buf more r :
  parse_header soh buf = Ok r → r ≠ inl Incomplete → parse_header soh (buf ++ more) = Ok r.
Proof.
  unfold parse_header. change (zlen kBegin) with 9.
  assert (zlen buf ≤ zlen (buf ++ more)) as Hle by (rewrite zlen_app; pose proof (zlen_nonneg more); lia).
  destruct (Z.ltb_spec (zlen buf) 20) as [|H20]; [congruence|].
  destruct (Z.ltb_spec (zlen (buf ++ more)) 20); [lia|]. rewrite substr_more by lia.
  destruct (substr_in buf 0 9) as (b & -> & _); [lia..|]. cbn [rbind].
  destruct (negb _); [done|].
  destruct (Z.geb_spec 9 (zlen buf)), (Z.geb_spec 9 (zlen (buf ++ more))); try lia.
  destruct (at_in buf 9) as (c & Hc); [lia|]. rewrite Hc, (at_more _ more _ _ Hc). cbn [rbind].
  destruct (negb _); [done|].
  destruct (Z.geb_spec (9 + 1 + 2) (zlen buf)), (Z.geb_spec (9 + 1 + 2) (zlen (buf ++ more))); try lia.
  destruct (at_in buf (9 + 1)) as (c1 & Hc1); [lia|]. rewrite Hc1, (at_more _ more _ _ Hc1). cbn [rbind].
  destruct (negb _); [done|].
  destruct (at_in buf (9 + 1 + 1)) as (c2 & Hc2); [lia|]. rewrite Hc2, (at_more _ more _ _ Hc2). cbn [rbind].
  destruct (negb _); [done|].
  destruct (find_char buf soh (9 + 1 + 2)) as [j|] eqn:Hj; [|congruence].
  rewrite (find_more _ _ _ _ _ Hj). apply find_bound in Hj; [|lia]. by rewrite substr_more by lia.
Qed.

Lemma parse_trailer_more soh buf more e r :
  0 ≤ e < two64 → u64 (e + 7) ≤ zlen buf → zlen buf < two64 - 7 →
  parse_trailer soh buf e = Ok r → e + 7 ≤ zlen buf ∧ parse_trailer soh (buf ++ more) e = Ok r.
Proof.
  unfold parse_trailer. intros He Hu H64 Hp.
  destruct (at_ buf e) as [c| | |] eqn:Hc; try done. pose proof (at_bound _ _ _ Hc).
  assert (∀ k, 0 ≤ k ≤ 7 → u64 (e + k) = e + k) as Hk by (intros; apply u64_small; unfold in_u64; lia).
  rewrite (Hk 7) in Hu by lia. rewrite (Hk 1), (Hk 2), (Hk 3), (Hk 6) in Hp |- * by lia. split; [lia|].
  rewrite (at_more _ more _ _ Hc). cbn [rbind] in *. destruct (negb _); [done|].
  destruct (at_in buf (e + 1)) as (c1 & Hc1); [lia|]. rewrite Hc1 in Hp. rewrite (at_more _ more _ _ Hc1).
  cbn [rbind] in *. destruct (negb _); [done|].
  destruct (at_in buf (e + 2)) as (c2 & Hc2); [lia|]. rewrite Hc2 in Hp. rewrite (at_more _ more _ _ Hc2).
  cbn [rbind] in *. destruct (negb _); [done|]. rewrite substr_more by lia.
  destruct (substr_in buf (e + 3) 3) as (b & Hb & _); [lia..|]. rewrite Hb in *. cbn [rbind] in *.
  destruct (parse_uint b); [|done].
  destruct (at_in buf (e + 6)) as (c3 & Hc3); [lia|]. rewrite Hc3 in Hp. by rewrite (at_more _ more _ _ Hc3).
Qed.

Lemma parse_one_more soh buf more r :
  zlen (buf ++ more) < two64 - 7 → parse_one soh buf = Ok r → err r ≠ Incomplete →
  parse_one soh (buf ++ more) = Ok r.
Proof.
  intros H64 Hp Hr. rewrite zlen_app in H64. pose proof (zlen_nonneg more). pose proof (zlen_nonneg buf).
  unfold parse_one in *. destruct (parse_header soh buf) as [hd| | |] eqn:Hh; try done. cbn [rbind] in Hp.
  assert (hd ≠ inl Incomplete) as Hhd by (intros ->; injection Hp as <-; done).
  rewrite (parse_header_more _ _ more _ Hh Hhd). cbn [rbind]. destruct hd as [e|[pos len]]; [done|].
  rewrite u64_add_l in *. pose proof (u64_range (pos + len)) as Hu. unfold in_u64 in Hu.
  set (be := u64 (pos + len)) in *.
  assert (u64 (pos + len + 7) = u64 (be + 7)) as Heq by (unfold be; by rewrite u64_add_l).
  rewrite Heq in *. rewrite zlen_app.
  destruct (Z.gtb_spec (u64 (be + 7)) (zlen buf)); [injection Hp as <-; done|].
  destruct (Z.gtb_spec (u64 (be + 7)) (zlen buf + zlen more)); [lia|].
  destruct (parse_trailer soh buf be) as [cs| | |] eqn:Ht; try done. cbn [rbind] in Hp.
  destruct (parse_trailer_more soh buf more be cs) as [Hbe ->]; [lia..|done|]. cbn [rbind].
  destruct cs as [want|]; [|done]. rewrite substr_more by lia.
  destruct (substr buf 0 be) as [cov| | |]; try done. cbn [rbind] in *. destruct (negb _); [done|].
  destruct (parse_fields (length buf) soh buf be 0 ∅) as [[e m]| | |] eqn:Hf; try done. cbn [rbind] in Hp.
  rewrite (parse_fields_more soh (length buf) (length (buf ++ more)) buf more _ _ _ (e, m)); [done|lia..|rewrite length_app; lia|done].
Qed.

(** ** What is accepted *)

Lemma parse_header_err soh buf e : parse_header soh buf = Ok (inl e) → e ≠ None_.
Proof.
  unfold parse_header. cbv zeta. intros H.
  repeat match type of H with
  | (if ?b then _ else _) = _ => destruct b
  | rbind _ _ = Ok _ => apply rbind_Ok in H as (? & _ & H)
  | match ?x with _ => _ end = _ => destruct x
  end; by simplify_eq.
Qed.

(** No checksum field can start inside the header. *)
Lemma digits_no_trailer soh `{!Separator soh} d (a b r : bytes) :
  digits_only d → d ++ soh :: r = a ++ "1"%char :: "0"%char :: "="%char :: b → zlen d + 1 ≤ zlen a.
Proof.
  intros Hd. pose proof sep_digit as Hs. revert a. induction Hd as [|c d Hc Hd IH]; intros a Heq.
  - destruct a as [|x a]; [by injection Heq as -> _|]. rewrite zlen_cons, zlen_nil. pose proof (zlen_nonneg a). lia.
  - destruct a as [|x a].
    + injection Heq as -> Heq. destruct d as [|c1 d]; [by injection Heq as -> _|]. injection Heq as -> Heq.
      destruct d as [|c2 d]; [|injection Heq as -> _; inversion Hd as [|? ? _ Hd']; by inversion Hd'].
      injection Heq as -> _. destruct (sep_begin (soh := "=")). decided.
    + injection Heq as -> Heq. apply IH in Heq. rewrite !zlen_cons. lia.
Qed.

Lemma frame_no_trailer soh `{!Separator soh} d (a b r : bytes) :
  digits_only d → frame soh d ++ r = a ++ B "10=" ++ b → zlen (frame soh d) ≤ zlen a.
Proof.
  intros Hd Heq. rewrite frame_len, frame_rest in *. cbn [kBegin B String.list_ascii_of_string app] in Heq.
  pose proof sep_digit as Hs.
  do 12 (destruct a as [|? a]; [injection Heq as ? Heq; by subst|injection Heq as <- Heq]).
  apply digits_no_trailer in Heq; [|done..]. rewrite !zlen_cons. lia.
Qed.

(** The pieces of an accepted message. *)
Lemma parse_one_inv soh `{!Separator soh} buf r :
  zlen buf < two64 - 7 → parse_one soh buf = Ok r → err r = None_ →
  ∃ d body rest m, let ds := format_checksum (checksum (frame soh d ++ body)) in
    frame_ok d body ds ∧ buf = framed soh d body ds rest ∧
    consumed r = zlen (frame soh d ++ body) + 7 ∧
    parse_fields (length buf) soh buf (zlen (frame soh d ++ body)) 0 ∅ = Ok (None_, m) ∧
    msg r = mkMessage (emplace tag_CheckSum ds m).
Proof.
  intros H64 Hp Hr. unfold parse_one in Hp.
  destruct (parse_header soh buf) as [[e|[pos len]]| | |] eqn:Hh; try done; cbn [rbind] in Hp.
  { apply parse_header_err in Hh. injection Hp as <-. done. }
  apply parse_header_inv in Hh as (d & r0 & Hbuf & Hd & Hne & Hlen & -> & H20).
  pose proof (u64_range (acc_value 0 d)) as Hu. rewrite <- Hlen in Hu. unfold in_u64 in Hu.
  pose proof (u64_range (zlen (frame soh d) + len)) as Hbe. set (be := u64 (_ + len)) in *. unfold in_u64 in Hbe.
  destruct (Z.gtb_spec (u64 (be + 7)) (zlen buf)) as [|Hfit]; [injection Hp as <-; done|].
  destruct (parse_trailer soh buf be) as [cs| | |] eqn:Ht; try done. cbn [rbind] in Hp.
  destruct (parse_trailer_more soh buf [] be cs) as [Hbe7 _]; [lia..|done|].
  destruct cs as [want|]; [|injection Hp as <-; done].
  apply parse_trailer_inv in Ht as (a & ds & rest & Heq & Ha & Hl & Hds & Hw); [|lia..].
  assert (zlen (frame soh d) ≤ zlen a) as Hfa by (apply (frame_no_trailer soh d a (ds ++ soh :: rest) r0); congruence).
  assert (be = zlen (frame soh d) + len) as Hnowrap.
  { apply u64_no_wrap; [pose proof (zlen_nonneg (frame soh d)); lia|lia|]. fold be. lia. }
  assert (∃ body, a = frame soh d ++ body ∧ zlen body = len) as (body & -> & Hbl).
  { rewrite Hbuf in Heq. apply app_eq_app in Heq as (k & [[Hk _]|[Hk _]]).
    - rewrite Hk, zlen_app in Hfa. destruct k; [|rewrite zlen_cons in Hfa; pose proof (zlen_nonneg k); lia].
      rewrite app_nil_r in Hk. exists []. rewrite app_nil_r. rewrite zlen_nil, Hk in *. split; [done|lia].
    - exists k. rewrite Hk, zlen_app in Ha. split; [done|lia]. }
  rewrite Heq in Hp at 1. rewrite substr_0 in Hp. cbn [rbind] in Hp. rewrite <- Ha in Hp at 1.
  unfold zlen at 1 in Hp. rewrite Nat2Z.id, take_app_length in Hp.
  destruct (Z.eqb_spec want (checksum (frame soh d ++ body))) as [->|]; [|injection Hp as <-; done].
  cbn [negb] in Hp. destruct (parse_fields _ _ _ _ _ _) as [[e m]| | |] eqn:Hf in Hp; try done. cbn [rbind] in Hp.
  assert (e = None_) as -> by (destruct e; injection Hp as <-; done). injection Hp as <-.
  exists d, body, rest, m. rewrite (pad3_parse _ _ Hl Hds) in Heq.
  cbv zeta. rewrite !(format_checksum_small (checksum (frame soh d ++ body))) by apply checksum_range.
  cbn [consumed msg]. split; [|split; [done|split; [|split; [by rewrite Ha|by do 2 f_equal; apply format_checksum_small, checksum_range]]]].
  - split_and!; [done|done|congruence|done].
  - rewrite Ha. apply u64_small. unfold in_u64. lia.
Qed.

(** ** Fields are read uniquely *)

Lemma pivot_inj {A} (x : A) (l1 l2 k1 k2 : list A) :
  x ∉ l1 → x ∉ k1 → l1 ++ x :: l2 = k1 ++ x :: k2 → l1 = k1 ∧ l2 = k2.
Proof.
  revert k1. induction l1 as [|a l1 IH]; intros [|b k1] Hl Hk; cbn; intros Heq; simplify_eq; try done.
  - destruct Hk. left.
  - destruct Hl. left.
  - apply not_elem_of_cons in Hl as [_ Hl]. apply not_elem_of_cons in Hk as [_ Hk].
    destruct (IH k1 Hl Hk) as [-> ->]; [congruence|done].
Qed.

Lemma raw_field_inj soh `{!Separator soh} f f' (r r' : bytes) :
  raw_ok soh f → raw_ok soh f' → raw_field soh f ++ r = raw_field soh f' ++ r' → f = f' ∧ r = r'.
Proof.
  destruct f as [t v], f' as [t' v']. intros (Ht & _ & Hv) (Ht' & _ & Hv'). cbn in *.
  unfold raw_field. cbn [fst snd]. rewrite <- !app_assoc. cbn [app]. intros Heq.
  apply pivot_inj in Heq as [-> Heq]; [|by apply digits_sep..].
  rewrite <- !app_assoc in Heq. cbn [app] in Heq. by apply pivot_inj in Heq as [-> ->].
Qed.

(** The two fields of the header. *)
Definition head_fields (d : bytes) : list (bytes * bytes) := [(B "8", B "FIX.4.4"); (B "9", d)].

Lemma frame_fields soh d : frame soh d = mjoin (raw_field soh <$> head_fields d).
Proof. cbn. unfold frame, raw_field. cbn. by rewrite app_nil_r. Qed.

Lemma head_fields_ok soh `{!Separator soh} d : digits_only d → Forall (raw_ok soh) (head_fields d).
Proof.
  intros Hd. repeat apply Forall_cons_2; try apply Forall_nil_2.
  - split_and!; [decided|done|]. intros Hin. apply sep_begin.
    change kBegin with (B "8=" ++ B "FIX.4.4"). apply elem_of_app. by right.
  - split_and!; [decided|done|]. apply digits_sep; [done|apply sep_digit].
Qed.

(** A concatenation of fields that starts with the header's fields. *)
Lemma fields_split soh `{!Separator soh} hs : ∀ fs (s s' : bytes),
  Forall (raw_ok soh) hs → Forall (raw_ok soh) fs →
  mjoin (raw_field soh <$> fs) ++ s = mjoin (raw_field soh <$> hs) ++ s' →
  zlen (mjoin (raw_field soh <$> hs)) ≤ zlen (mjoin (raw_field soh <$> fs)) →
  ∃ fs', fs = hs ++ fs' ∧ s' = mjoin (raw_field soh <$> fs') ++ s.
Proof.
  induction hs as [|h hs IH]; intros fs s s' Hh Hf Heq Hle; [eauto|].
  rewrite fmap_cons, mjoin_cons in *. apply Forall_cons in Hh as [Hh1 Hh].
  destruct fs as [|f fs].
  { change (zlen (mjoin (raw_field soh <$> []))) with 0 in Hle. rewrite zlen_app in Hle.
    unfold raw_field at 1 in Hle. autorewrite with obfix in Hle.
    pose proof (zlen_nonneg h.1). pose proof (zlen_nonneg h.2). pose proof (zlen_nonneg (mjoin (raw_field soh <$> hs))).
    lia. }
  apply Forall_cons in Hf as [Hf1 Hf]. rewrite fmap_cons, mjoin_cons, <- !app_assoc in *.
  apply raw_field_inj in Heq as [<- Heq]; [|done..]. rewrite !zlen_app in Hle.
  destruct (IH fs s s' Hh Hf Heq) as (fs' & -> & ->); [lia|]. by exists fs'.
Qed.

(** ** Totality *)

Lemma parse_header_total soh buf : ∃ r, parse_header soh buf = Ok r.
Proof.
  unfold parse_header. change (zlen kBegin) with 9.
  destruct (Z.ltb_spec (zlen buf) 20) as [|H20]; [eauto|].
  destruct (substr_in buf 0 9) as (b & -> & _); [lia..|]. cbn [rbind]. destruct (negb _); [eauto|].
  destruct (_ >=? _); [eauto|]. destruct (at_in buf 9) as (c & ->); [lia|]. cbn [rbind].
  destruct (negb _); [eauto|]. destruct (_ >=? _); [eauto|].
  destruct (at_in buf (9 + 1)) as (c1 & ->); [lia|]. cbn [rbind]. destruct (negb _); [eauto|].
  destruct (at_in buf (9 + 1 + 1)) as (c2 & ->); [lia|]. cbn [rbind]. destruct (negb _); [eauto|].
  destruct (find_char buf soh (9 + 1 + 2)) as [j|] eqn:Hj; [|eauto]. apply find_bound in Hj; [|lia].
  destruct (substr_in buf (9 + 1 + 2) (j - (9 + 1 + 2))) as (d & -> & _); [lia..|]. cbn [rbind].
  destruct (parse_uint d); eauto.
Qed.

Lemma parse_trailer_total soh buf e :
  0 ≤ e → e + 7 ≤ zlen buf → zlen buf < two64 → ∃ r, parse_trailer soh buf e = Ok r.
Proof.
  intros He Hl H64. unfold parse_trailer.
  assert (∀ k, 0 ≤ k ≤ 7 → u64 (e + k) = e + k) as Hk by (intros; apply u64_small; unfold in_u64; lia).
  rewrite (Hk 1), (Hk 2), (Hk 3), (Hk 6) by lia.
  destruct (at_in buf e) as (c & ->); [lia|]. cbn [rbind]. destruct (negb _); [eauto|].
  destruct (at_in buf (e + 1)) as (c1 & ->); [lia|]. cbn [rbind]. destruct (negb _); [eauto|].
  destruct (at_in buf (e + 2)) as (c2 & ->); [lia|]. cbn [rbind]. destruct (negb _); [eauto|].
  destruct (substr_in buf (e + 3) 3) as (b & -> & _); [lia..|]. cbn [rbind]. destruct (parse_uint b); [|eauto].
  destruct (at_in buf (e + 6)) as (c3 & ->); [lia|]. cbn [rbind]. destruct (negb _); eauto.
Qed.

(** The declared lengths whose frame end wraps into the top of the address
    range. *)
Definition overflowing (soh : ascii) (buf : bytes) : Prop :=
  ∃ d rest, buf = frame soh d ++ rest ∧ 20 ≤ zlen buf ∧ digits_only d ∧ d ≠ [] ∧
    two64 - 7 ≤ zlen (frame soh d) + u64 (acc_value 0 d) < two64.

Lemma parse_one_defined soh `{!Separator soh} buf :
  zlen buf < two64 - 7 → (∃ r, parse_one soh buf = Ok r) ∨ overflowing soh buf.
Proof.
  intros H64. unfold parse_one. destruct (parse_header_total soh buf) as ([e|[pos len]] & Hh);
    rewrite Hh; cbn [rbind]; [eauto|].
  apply parse_header_inv in Hh as (d & rest & Hbuf & Hd & Hne & -> & -> & H20).
  set (len := u64 (acc_value 0 d)). set (be := u64 (zlen (frame soh d) + len)).
  destruct (Z.gtb_spec (u64 (be + 7)) (zlen buf)) as [|Hfit]; [eauto|].
  pose proof (u64_range (zlen (frame soh d) + len)) as Hbe. fold be in Hbe. unfold in_u64 in Hbe.
  pose proof (zlen_nonneg (frame soh d)). pose proof (zlen_nonneg rest).
  destruct (Z.lt_ge_cases (be + 7) two64) as [Hbe7|Hge].
  - left. rewrite (u64_small (be + 7)) in Hfit by (unfold in_u64; lia).
    destruct (parse_trailer_total soh buf be) as ([want|] & ->); [lia..| |]; cbn [rbind]; [|eauto].
    destruct (substr_in buf 0 be) as (cov & -> & _); [lia..|]. cbn [rbind]. destruct (negb _); [eauto|].
    destruct (parse_fields_total soh (length buf) buf be 0 ∅) as ([e m] & ->); [lia..|unfold zlen in *; lia|].
    cbn [rbind]. destruct e; eauto.
  - right. pose proof (u64_range (acc_value 0 d)) as Hl. fold len in Hl. unfold in_u64 in Hl.
    assert (zlen (frame soh d) ≤ zlen buf) by (rewrite Hbuf, zlen_app; lia).
    assert (be = zlen (frame soh d) + len) as Hnw by (apply u64_no_wrap; fold be; lia).
    exists d, rest. split_and!; [done..| |]; fold len; lia.
Qed.

Lemma parse_one_overflow soh `{!Separator soh} buf :
  zlen buf < two64 - 7 → overflowing soh buf → parse_one soh buf = Undef.
Proof.
  intros H64 (d & rest & -> & H20 & Hd & Hne & Hov). unfold parse_one.
  rewrite parse_header_frame by done. cbn [rbind]. rewrite (u64_small (_ + u64 _)) by (unfold in_u64; lia).
  set (be := zlen (frame soh d) + _) in *.
  destruct (Z.gtb_spec (u64 (be + 7)) (zlen (frame soh d ++ rest))) as [Hgt|_].
  { unfold u64 in Hgt. rewrite <- (Z.mod_add _ (-1)), Z.mod_small in Hgt; lia. }
  unfold parse_trailer. assert (at_ (frame soh d ++ rest) be = Undef) as ->; [|done].
  apply at_out. lia.
Qed.

(** ** Soundness *)

Lemma parse_one_sound soh `{!Separator soh} buf r :
  zlen buf < two64 - 7 → parse_one soh buf = Ok r → err r = None_ →
  ∃ d fs rest,
    let all := (B "8", B "FIX.4.4") :: (B "9", d) :: fs in
    let signed := mjoin (raw_field soh <$> all) in
    buf = signed ++ trailer soh (checksum signed) ++ rest ∧
    consumed r = zlen signed + 7 ∧
    parse_uint d = Some (zlen (mjoin (raw_field soh <$> fs))) ∧
    Forall (raw_ok soh) all ∧ NoDup (raw_entry <$> all).*1 ∧
    fields (msg r) = emplace tag_CheckSum (format_checksum (checksum signed))
                       (list_to_map (raw_entry <$> all)).
Proof.
  intros H64 Hp Hr. destruct (parse_one_inv soh buf r H64 Hp Hr) as (d & body & rest & m & Hok & Hbuf & Hc & Hf & Hm).
  destruct Hok as (Hd & Hne & Hlen & Hl3). set (ds := format_checksum _) in *.
  destruct (parse_fields_inv soh (length buf) [] buf (zlen (frame soh d ++ body)) ∅ m "1")
    as (all & s' & Heq & Hend & Hok & Hnd & _ & ->); [| | |done|].
  { intros <-. by pose proof sep_digit. }
  { cbn [app]. eapply at_middle_eq; [|done]. by rewrite Hbuf. }
  { apply zlen_nonneg. }
  rewrite zlen_nil, Z.add_0_l in Hend. rewrite Hbuf in Heq. unfold framed in Heq.
  apply app_inj_1 in Heq as [Hfb Hs']; [|unfold zlen in Hend; lia].
  rewrite frame_fields in Hfb.
  destruct (fields_split soh (head_fields d) all [] body) as (fs & -> & Hbody);
    [by apply head_fields_ok|done|by rewrite app_nil_r|rewrite <- Hfb, zlen_app; pose proof (zlen_nonneg body); lia|].
  rewrite app_nil_r in Hbody. subst body.
  assert (frame soh d ++ mjoin (raw_field soh <$> fs) = mjoin (raw_field soh <$> (head_fields d ++ fs))) as Hsg
    by (by rewrite frame_fields).
  exists d, fs, rest. cbv zeta. change ((B "8", B "FIX.4.4") :: (B "9", d) :: fs) with (head_fields d ++ fs).
  rewrite <- Hsg. split_and!; [|done| |done|done|].
  - rewrite Hbuf. unfold framed, trailer, ds. app_normal.
  - rewrite parse_uint_digits by done. by rewrite Hlen.
  - rewrite Hm. cbn [fields]. by rewrite (right_id_L ∅ (∪)).
Qed.

(** ** The theorems *)

(** C8: round trip. Serializing a list of fields with distinct tags (none of
    them 8, 9 or 10) and separator-free values, and parsing the result with any
    bytes behind it, consumes exactly the message and yields exactly its fields
    together with BeginString, BodyLength and CheckSum. *)
Theorem parse_build_roundtrip soh `{!Separator soh} body rest :
  body_ok soh body → zlen (build soh body ++ rest) < two64 →
  parse_one soh (build soh body ++ rest) =
    Ok (mkParseResult None_ (zlen (build soh body)) (mkMessage (list_to_map (wire_fields soh body)))).
Proof. apply build_parses. apply _. Qed.

Definition ex_body : list (Z * bytes) :=
  [(tag_MsgType, B "D"); (tag_ClOrdID, B "A=1"); (tag_Side, B "1"); (tag_Price, B "100")].

Lemma parse_build_roundtrip_witness :
  parse_one kSohWire (build kSohWire ex_body ++ B "8=FIX") =
    Ok (mkParseResult None_ 46
          (mkMessage (list_to_map (wire_fields kSohWire ex_body)))).
Proof. apply (parse_build_roundtrip kSohWire ex_body (B "8=FIX")); [decided|reflexivity]. Defined.

(** C9: soundness. Whatever is accepted is a well-formed message: the consumed
    bytes are the fields 8=FIX.4.4 and 9=d, further fields with numeric tags
    and separator-free values, and the three-digit checksum of all of that;
    d is the length of the further fields; no tag occurs twice; and the
    message holds exactly these fields. *)
Theorem parse_sound soh `{!Separator soh} buf r :
  zlen buf < two64 - 7 → parse_one soh buf = Ok r → err r = None_ →
  ∃ d fs rest,
    let all := (B "8", B "FIX.4.4") :: (B "9", d) :: fs in
    let signed := mjoin (raw_field soh <$> all) in
    buf = signed ++ trailer soh (checksum signed) ++ rest ∧
    consumed r = zlen signed + 7 ∧
    parse_uint d = Some (zlen (mjoin (raw_field soh <$> fs))) ∧
    Forall (raw_ok soh) all ∧ NoDup (raw_entry <$> all).*1 ∧
    fields (msg r) = emplace tag_CheckSum (format_checksum (checksum signed))
                       (list_to_map (raw_entry <$> all)).
Proof. apply parse_one_sound. apply _. Qed.

Definition ex_wire : bytes := B "8=FIX.4.4|9=5|35=0|10=020|8=".
Definition ex_parsed : ParseResult :=
  mkParseResult None_ 26
    (mkMessage (list_to_map [(8, B "FIX.4.4"); (9, B "5"); (35, B "0"); (10, B "020")])).

Lemma parse_sound_witness :
  ∃ d fs rest,
    let all := (B "8", B "FIX.4.4") :: (B "9", d) :: fs in
    let signed := mjoin (raw_field kSohText <$> all) in
    ex_wire = signed ++ trailer kSohText (checksum signed) ++ rest ∧
    consumed ex_parsed = zlen signed + 7 ∧
    parse_uint d = Some (zlen (mjoin (raw_field kSohText <$> fs))) ∧
    Forall (raw_ok kSohText) all ∧ NoDup (raw_entry <$> all).*1 ∧
    fields (msg ex_parsed) =
      emplace tag_CheckSum (format_checksum (checksum signed)) (list_to_map (raw_entry <$> all)).
Proof.
  apply (parse_sound kSohText ex_wire ex_parsed); [reflexivity|vm_compute; reflexivity|reflexivity].
Defined.

(** A verdict is final. Once [parse_one] returns anything but Incomplete,
    bytes that arrive later do not change the result, so the parser can be run
    on a growing buffer. *)
Theorem parse_stable soh buf more r :
  zlen (buf ++ more) < two64 - 7 → parse_one soh buf = Ok r → err r ≠ Incomplete →
  parse_one soh (buf ++ more) = Ok r.
Proof. apply parse_one_more. Qed.

Lemma parse_stable_witness :
  parse_one kSohText (B "8=FIX.4.4|9=5|35=0|10=000|" ++ B "8=FIX.4.4|") = Ok (parse_fail BadCheckSum).
Proof. apply parse_stable; [reflexivity|vm_compute; reflexivity|done]. Defined.

(** C16: corruption of the body is always detected. Replacing any single byte of
    the body of a serialized message by another one makes the parser report
    BadCheckSum. *)
Theorem corruption_detected soh `{!Separator soh} body a c c' b rest :
  body_bytes soh body = a ++ c :: b → c ≠ c' →
  zlen (build soh body ++ rest) < two64 →
  parse_one soh (header soh (zlen (body_bytes soh body)) ++ (a ++ c' :: b) ++
      trailer soh (checksum (signed soh body)) ++ rest) = Ok (parse_fail BadCheckSum).
Proof.
  intros Hb Hc H64. set (n := zlen (body_bytes soh body)).
  pose proof (checksum_range (signed soh body)) as Hcs.
  assert (zlen (a ++ c' :: b) = n) as Hn by (unfold n; rewrite Hb; by autorewrite with obfix).
  assert (zlen (build soh body ++ rest) = zlen (header soh n) + n + 7 + zlen rest) as Hlen.
  { rewrite build_framed, framed_len, <- header_frame, zlen_app by done. by fold n. }
  pose proof (zlen_nonneg (header soh n)). pose proof (zlen_nonneg rest).
  assert (in_u64 n) as Hu by (unfold in_u64; unfold n at 1; pose proof (zlen_nonneg (body_bytes soh body)); lia).
  destruct (to_string_spec n Hu) as (Hd & Hne & Hval).
  assert (header soh n ++ (a ++ c' :: b) ++ trailer soh (checksum (signed soh body)) ++ rest =
    framed soh (to_string n) (a ++ c' :: b) (pad3 (checksum (signed soh body))) rest) as Heq.
  { unfold framed, trailer. rewrite header_frame, format_checksum_small by done. app_normal. }
  rewrite Heq, (parse_one_framed soh _ _ _ _ (checksum (signed soh body))).
  - destruct (Z.eqb_spec (checksum (signed soh body)) (checksum (frame soh (to_string n) ++ a ++ c' :: b)))
      as [Hbad|]; [exfalso|done].
    unfold signed in Hbad. rewrite Hb, header_frame, !(app_assoc (frame _ _)) in Hbad.
    fold n in Hbad. rewrite <- Hb in Hbad at 1. fold n in Hbad. by apply checksum_one_byte in Hbad.
  - split_and!; [done|done|by rewrite Hval, u64_small|done].
  - apply parse_uint_pad3. lia.
  - rewrite framed_len, zlen_app, <- header_frame, Hn by done. lia.
Qed.

Lemma corruption_detected_witness :
  parse_one kSohText (B "8=FIX.4.4|9=5|35=1|10=020|") = Ok (parse_fail BadCheckSum).
Proof.
  apply (corruption_detected kSohText [(35, B "0")] (B "35=") "0" "1" (B "|") []); [reflexivity|done|reflexivity].
Defined.

(** C17: the parser is total up to one overflow. On any buffer it returns a
    result (it neither loops nor throws) unless the declared BodyLength makes
    the end of the frame fall into the last seven values of [std::size_t];
    on those lengths, and only on those, it reads outside the buffer. *)
Theorem parse_defined_iff soh `{!Separator soh} buf :
  zlen buf < two64 - 7 →
  (parse_one soh buf = Undef ↔ overflowing soh buf) ∧
  (¬ overflowing soh buf → ∃ r, parse_one soh buf = Ok r).
Proof.
  intros H64. pose proof (parse_one_defined soh buf H64) as Hd.
  pose proof (parse_one_overflow soh buf H64). split; [|tauto]. split; [|tauto].
  intros Hu. destruct Hd as [[r Hr]|]; [congruence|done].
Qed.

(** A BodyLength of 2^64 - 40: header, then anything. *)
Definition ex_overflow : bytes := B "8=FIX.4.4|9=18446744073709551576|35=0|10=000|".

Lemma parse_defined_iff_witness :
  (parse_one kSohText ex_overflow = Undef ↔ overflowing kSohText ex_overflow) ∧
  parse_one kSohText ex_overflow = Undef.
Proof.
  destruct (parse_defined_iff kSohText ex_overflow) as [Hiff _]; [reflexivity|].
  split; [exact Hiff|vm_compute; reflexivity].
Defined.

(** Tags are truncated to [int]: the tag 4294967331 is read as 35, so a
    message without a MsgType is taken for a NewOrderSingle. *)
Theorem tag_truncation_aliases :
  ∃ r, parse_one kSohWire (build kSohWire [(4294967331, B "D")]) = Ok r ∧ err r = None_ ∧
    msg_type (msg r) = mt_NewOrderSingle.
Proof. eexists. split; [vm_compute; reflexivity|]. split; reflexivity. Qed.
