(* ===== verification/Session.v ===== *)
(** * The FIX session

    Models [src/fix/session.h] and [src/fix/session.cpp]: the state machine
    behind one connection. It is pure in the source too: operations return the
    bytes to write and the application messages to dispatch.

    What the source reads from its environment is a parameter, [Env]: the wall
    clock ([now_], numbered by call), the steady clock ([clock_], in
    nanoseconds, numbered by call) and the iteration order of
    [std::unordered_map], which depends on how the map was filled (here: on the
    parsed bytes). The session counts its calls to the two clocks; in a server
    every session has an [Env] of its own, so that two sessions read different
    times. *)

From S2P Require Import Prelude Types Text Messages Serializer Parser.

Class Env := mkEnv {
  env_now : nat → bytes;
  env_clock : nat → Z;
  env_iter : bytes → gmap Z bytes → list (Z * bytes)
}.

(** ** State *)

Inductive SessionState := Disconnected | LogonSent | LoggedIn | LogoutSent.
#[global] Instance SessionState_eq_dec : EqDecision SessionState.
Proof. solve_decision. Defined.

Record SessionConfig := mkConfig {
  sender_comp_id : bytes;
  target_comp_id : bytes;
  heartbeat_secs : Z;
  reset_on_logon : bool;
  outbound_history_size : Z
}.
Definition set_target (t : bytes) (c : SessionConfig) : SessionConfig :=
  mkConfig (sender_comp_id c) t (heartbeat_secs c) (reset_on_logon c) (outbound_history_size c).

Record OutboundRecord := mkOutbound { rec_seq : SeqNum; rec_sending_time : bytes; rec_bytes : bytes }.

Record Session := mkSession {
  cfg_ : SessionConfig;
  soh_ : ascii;
  state_ : SessionState;
  in_seq_ : SeqNum;
  out_seq_ : SeqNum;
  in_buf_ : bytes;
  history_ : list OutboundRecord;
  last_inbound_ : Z;
  last_outbound_ : Z;
  test_request_at_ : Z;
  timers_armed_ : bool;
  test_request_outstanding_ : bool;
  now_calls : nat;
  clock_calls : nat
}.

(** Assignments to the members. *)
Definition set_cfg (v : SessionConfig) (s : Session) : Session :=
  mkSession v (soh_ s) (state_ s) (in_seq_ s) (out_seq_ s) (in_buf_ s) (history_ s)
    (last_inbound_ s) (last_outbound_ s) (test_request_at_ s) (timers_armed_ s)
    (test_request_outstanding_ s) (now_calls s) (clock_calls s).
Definition set_state (v : SessionState) (s : Session) : Session :=
  mkSession (cfg_ s) (soh_ s) v (in_seq_ s) (out_seq_ s) (in_buf_ s) (history_ s) (last_inbound_
    s) (last_outbound_ s) (test_request_at_ s) (timers_armed_ s) (test_request_outstanding_ s)
    (now_calls s) (clock_calls s).
Definition set_in_seq (v : SeqNum) (s : Session) : Session :=
  mkSession (cfg_ s) (soh_ s) (state_ s) v (out_seq_ s) (in_buf_ s) (history_ s) (last_inbound_
    s) (last_outbound_ s) (test_request_at_ s) (timers_armed_ s) (test_request_outstanding_ s)
    (now_calls s) (clock_calls s).
Definition set_out_seq (v : SeqNum) (s : Session) : Session :=
  mkSession (cfg_ s) (soh_ s) (state_ s) (in_seq_ s) v (in_buf_ s) (history_ s) (last_inbound_
    s) (last_outbound_ s) (test_request_at_ s) (timers_armed_ s) (test_request_outstanding_ s)
    (now_calls s) (clock_calls s).
Definition set_in_buf (v : bytes) (s : Session) : Session :=
  mkSession (cfg_ s) (soh_ s) (state_ s) (in_seq_ s) (out_seq_ s) v (history_ s) (last_inbound_
    s) (last_outbound_ s) (test_request_at_ s) (timers_armed_ s) (test_request_outstanding_ s)
    (now_calls s) (clock_calls s).
Definition set_history (v : list OutboundRecord) (s : Session) : Session :=
  mkSession (cfg_ s) (soh_ s) (state_ s) (in_seq_ s) (out_seq_ s) (in_buf_ s) v (last_inbound_
    s) (last_outbound_ s) (test_request_at_ s) (timers_armed_ s) (test_request_outstanding_ s)
    (now_calls s) (clock_calls s).
Definition set_last_inbound (v : Z) (s : Session) : Session :=
  mkSession (cfg_ s) (soh_ s) (state_ s) (in_seq_ s) (out_seq_ s) (in_buf_ s) (history_ s) v
    (last_outbound_ s) (test_request_at_ s) (timers_armed_ s) (test_request_outstanding_ s)
    (now_calls s) (clock_calls s).
Definition set_last_outbound (v : Z) (s : Session) : Session :=
  mkSession (cfg_ s) (soh_ s) (state_ s) (in_seq_ s) (out_seq_ s) (in_buf_ s) (history_ s)
    (last_inbound_ s) v (test_request_at_ s) (timers_armed_ s) (test_request_outstanding_ s)
    (now_calls s) (clock_calls s).
Definition set_test_request_at (v : Z) (s : Session) : Session :=
  mkSession (cfg_ s) (soh_ s) (state_ s) (in_seq_ s) (out_seq_ s) (in_buf_ s) (history_ s)
    (last_inbound_ s) (last_outbound_ s) v (timers_armed_ s) (test_request_outstanding_ s)
    (now_calls s) (clock_calls s).
Definition set_timers_armed (v : bool) (s : Session) : Session :=
  mkSession (cfg_ s) (soh_ s) (state_ s) (in_seq_ s) (out_seq_ s) (in_buf_ s) (history_ s)
    (last_inbound_ s) (last_outbound_ s) (test_request_at_ s) v (test_request_outstanding_ s)
    (now_calls s) (clock_calls s).
Definition set_test_request_outstanding (v : bool) (s : Session) : Session :=
  mkSession (cfg_ s) (soh_ s) (state_ s) (in_seq_ s) (out_seq_ s) (in_buf_ s) (history_ s)
    (last_inbound_ s) (last_outbound_ s) (test_request_at_ s) (timers_armed_ s) v (now_calls s)
    (clock_calls s).
Definition set_now_calls (v : nat) (s : Session) : Session :=
  mkSession (cfg_ s) (soh_ s) (state_ s) (in_seq_ s) (out_seq_ s) (in_buf_ s) (history_ s)
    (last_inbound_ s) (last_outbound_ s) (test_request_at_ s) (timers_armed_ s)
    (test_request_outstanding_ s) v (clock_calls s).
Definition set_clock_calls (v : nat) (s : Session) : Session :=
  mkSession (cfg_ s) (soh_ s) (state_ s) (in_seq_ s) (out_seq_ s) (in_buf_ s) (history_ s)
    (last_inbound_ s) (last_outbound_ s) (test_request_at_ s) (timers_armed_ s)
    (test_request_outstanding_ s) (now_calls s) v.

Definition new_session (cfg : SessionConfig) (soh : ascii) : Session :=
  mkSession cfg soh Disconnected 0 0 [] [] 0 0 0 false false 0 0.

(** [SessionStep]: bytes to write, messages to dispatch, close afterwards. *)
Record SessionStep := mkStep { out : list bytes; app : list Message; disconnect : bool }.
Definition no_step : SessionStep := mkStep [] [] false.
Definition push_out (b : bytes) (st : SessionStep) : SessionStep :=
  mkStep (out st ++ [b]) (app st) (disconnect st).

Section session.
Context `{Env}.

Definition default_now (s : Session) : bytes * Session :=
  (env_now (now_calls s), set_now_calls (S (now_calls s)) s).
Definition steady_now (s : Session) : Z * Session :=
  (env_clock (clock_calls s), set_clock_calls (S (clock_calls s)) s).

(** ** Sending *)

(** The last position of a MsgType field. *)
Fixpoint msg_type_pos (i : nat) (body : list (Z * bytes)) (pos : option nat) : option nat :=
  match body with
  | [] => pos
  | kv :: body => msg_type_pos (S i) body (if kv.1 =? tag_MsgType then Some i else pos)
  end.
Definition seen (t : Z) (body : list (Z * bytes)) : bool := existsb (λ kv, kv.1 =? t) body.

(** The [while] loop of [retain_outbound]. *)
Fixpoint trim (cap : Z) (l : list OutboundRecord) : list OutboundRecord :=
  match l with
  | [] => []
  | _ :: l' => if zlen l >? cap then trim cap l' else l
  end.
Definition retain_outbound (sq : SeqNum) (sending_time b : bytes) (s : Session) : Session :=
  set_history (trim (outbound_history_size (cfg_ s)) (history_ s ++ [mkOutbound sq sending_time b])) s.

Definition first_value (t : Z) (b : list (Z * bytes)) : bytes :=
  default [] (snd <$> (snd <$> list_find (λ kv : Z * bytes, kv.1 = t) b)).

Definition build_message (body : list (Z * bytes)) (s : Session) : bytes * Session :=
  let pos := msg_type_pos 0 body None in
  let mt := match pos with Some i => match body !! i with Some kv => [kv] | None => [] end | None => [] end in
  let sender := if seen tag_SenderCompID body then [] else [(tag_SenderCompID, sender_comp_id (cfg_ s))] in
  let target := if seen tag_TargetCompID body then [] else [(tag_TargetCompID, target_comp_id (cfg_ s))] in
  let '(assigned_seq, sq, s) :=
    if seen tag_MsgSeqNum body then (0, [], s)
    else
      let s := set_out_seq (u64 (out_seq_ s + 1)) s in
      (out_seq_ s, [(tag_MsgSeqNum, to_string (out_seq_ s))], s) in
  let '(sending_time, tm, s) :=
    if seen tag_SendingTime body then ([], [], s)
    else
      let '(now, s) := default_now s in
      (now, [(tag_SendingTime, now)], s) in
  let others := match pos with Some i => delete i body | None => body end in
  let b := mt ++ sender ++ target ++ sq ++ tm ++ others in
  let wire := build (soh_ s) b in
  let '(t, s) := steady_now s in
  let s := set_last_outbound t s in
  let s :=
    if negb (assigned_seq =? 0) && (outbound_history_size (cfg_ s) >? 0) then
      let st := match sending_time with [] => first_value tag_SendingTime b | _ => sending_time end in
      retain_outbound assigned_seq st wire s
    else s in
  (wire, s).

Definition initiate_logon (s : Session) : bytes * Session :=
  let s := set_state LogonSent s in
  build_message [(tag_MsgType, mt_Logon); (108, to_string (heartbeat_secs (cfg_ s)))] s.
Definition build_resend_request (from : SeqNum) (s : Session) : bytes * Session :=
  build_message [(tag_MsgType, mt_ResendRequest); (tag_BeginSeqNo, to_string from); (tag_EndSeqNo, B "0")] s.
Definition build_reject (ref : SeqNum) (reason : bytes) (s : Session) : bytes * Session :=
  build_message [(tag_MsgType, mt_Reject); (tag_RefSeqNum, to_string ref); (tag_Text, reason)] s.
Definition send_heartbeat (s : Session) : bytes * Session :=
  build_message [(tag_MsgType, mt_Heartbeat)] s.
Definition send_logout (text : bytes) (s : Session) : bytes * Session :=
  build_message [(tag_MsgType, mt_Logout); (tag_Text, text)] (set_state LogoutSent s).
Definition send_execution_report (body : list (Z * bytes)) (s : Session) : bytes * Session :=
  build_message ((tag_MsgType, mt_ExecutionReport) :: body) s.

(** ** Replaying *)

(** Fields a replay does not copy: the framing and the ones it overrides. *)
Definition not_copied : list Z :=
  [tag_BeginString; tag_BodyLength; tag_CheckSum; tag_MsgType; tag_PossDupFlag; tag_OrigSendingTime;
   tag_SendingTime].

Definition replay_body (r : OutboundRecord) (m : Message) (now : bytes) : list (Z * bytes) :=
  match fields m !! tag_MsgType with Some mt => [(tag_MsgType, mt)] | None => [] end ++
  filter (λ kv, kv.1 ∉ not_copied) (env_iter (rec_bytes r) (fields m)) ++
  [(tag_SendingTime, now); (tag_OrigSendingTime, rec_sending_time r); (tag_PossDupFlag, B "Y")].

(** The loop over the retained ring. *)
Fixpoint replay (cursor last : SeqNum) (recs : list OutboundRecord) (acc : list bytes) (s : Session) :
    res (list bytes * Session) :=
  match recs with
  | [] => Ok (acc, s)
  | r :: recs =>
      if rec_seq r <? cursor then replay cursor last recs acc s
      else if rec_seq r >? last then Ok (acc, s)
      else
        let! pr := parse_one (soh_ s) (rec_bytes r) in
        if negb (bool_decide (err pr = None_)) then replay cursor last recs acc s
        else
          let '(now, s) := default_now s in
          replay cursor last recs (acc ++ [build (soh_ s) (replay_body r (msg pr) now)]) s
  end.

Definition gap_fill (cursor new_seq_no : SeqNum) (now : bytes) (s : Session) : list (Z * bytes) :=
  [(tag_MsgType, mt_SequenceReset); (tag_SenderCompID, sender_comp_id (cfg_ s));
   (tag_TargetCompID, target_comp_id (cfg_ s)); (tag_MsgSeqNum, to_string cursor);
   (tag_SendingTime, now); (tag_GapFillFlag, B "Y"); (tag_PossDupFlag, B "Y");
   (tag_NewSeqNo, to_string new_seq_no)].

Definition handle_resend_request (begin last : SeqNum) (s : Session) : res (list bytes * Session) :=
  let last := if last =? 0 then out_seq_ s else last in
  if (begin =? 0) || (begin >? last) || (begin >? out_seq_ s) then Ok ([], s)
  else
    let oldest_retained :=
      match history_ s with [] => u64 (out_seq_ s + 1) | r :: _ => rec_seq r end in
    let '(cursor, acc, s) :=
      if begin <? oldest_retained then
        let new_seq_no := Z.min oldest_retained (u64 (last + 1)) in
        let '(now, s) := default_now s in
        (new_seq_no, [build (soh_ s) (gap_fill begin new_seq_no now s)], s)
      else (begin, [], s) in
    if cursor >? last then Ok (acc, s) else replay cursor last (history_ s) acc s.

(** ** Receiving *)

(** The Logon admission of [handle_message], in the state Disconnected. *)
Definition handle_logon (m : Message) (sq : SeqNum) (s : Session) : SessionStep * Session :=
  let s :=
    if reset_on_logon (cfg_ s) then set_history [] (set_out_seq 0 (set_in_seq 0 s)) else s in
  let '(t, s) := steady_now s in
  let s := set_last_inbound t s in
  let '(t, s) := steady_now s in
  let s := set_last_outbound t s in
  let s := set_timers_armed true (set_test_request_outstanding false s) in
  let mismatch :=
    match get tag_TargetCompID m with
    | Some target => negb (bool_decide (target = sender_comp_id (cfg_ s)))
    | None => false
    end in
  if mismatch then (mkStep [] [] true, s)
  else
    let s :=
      match get tag_SenderCompID m with
      | Some sender => set_cfg (set_target sender (cfg_ s)) s
      | None => s
      end in
    let s := set_state LoggedIn (set_in_seq sq s) in
    let '(w, s) :=
      build_message [(tag_MsgType, mt_Logon); (108, to_string (heartbeat_secs (cfg_ s)))] s in
    (mkStep [w] [] false, s).

(** The optional number of a ResendRequest field. *)
Definition seq_field (t : Z) (m : Message) : res SeqNum :=
  match get t m with Some v => stoull v | None => Ok 0 end.

(** The dispatch of an in-sequence message. *)
Definition dispatch (m : Message) (mt : bytes) (sq : SeqNum) (s : Session) :
    res (SessionStep * Session) :=
  let reply w := mkStep [w] [] false in
  if bool_decide (mt = mt_Heartbeat) then Ok (no_step, s)
  else if bool_decide (mt = mt_TestRequest) then
    let trid := default [] (get tag_TestReqID m) in
    let '(w, s) := build_message [(tag_MsgType, mt_Heartbeat); (tag_TestReqID, trid)] s in
    Ok (reply w, s)
  else if bool_decide (mt = mt_ResendRequest) then
    let! begin := seq_field tag_BeginSeqNo m in
    let! last := seq_field tag_EndSeqNo m in
    let! '(ws, s) := handle_resend_request begin last s in
    Ok (mkStep ws [] false, s)
  else if bool_decide (mt = mt_Logout) then
    let '(ws, s) :=
      if bool_decide (state_ s = LogoutSent) then ([], s)
      else let '(w, s) := send_logout (B "acknowledged") s in ([w], s) in
    Ok (mkStep ws [] true, set_state Disconnected s)
  else if bool_decide (mt = mt_Reject) || bool_decide (mt = mt_SequenceReset) then Ok (no_step, s)
  else if bool_decide (mt = mt_NewOrderSingle) || bool_decide (mt = mt_OrderCancelRequest)
       || bool_decide (mt = mt_OrderCancelReplace) then Ok (mkStep [] [m] false, s)
  else
    let '(w, s) := build_reject sq (B "unsupported MsgType=" ++ mt) s in
    Ok (reply w, s).

Definition handle_message (m : Message) (s : Session) : res (SessionStep * Session) :=
  let mt := msg_type m in
  let! sq := seq m in
  if bool_decide (state_ s = Disconnected) then
    if negb (bool_decide (mt = mt_Logon)) then Ok (mkStep [] [] true, s)
    else Ok (handle_logon m sq s)
  else
    let expected := u64 (in_seq_ s + 1) in
    if sq >? expected then
      let '(w, s) := build_resend_request expected s in
      Ok (mkStep [w] [] false, s)
    else if (sq <? expected) && negb (sq =? 0) then
      let '(w, s) := send_logout (B "MsgSeqNum too low") s in
      Ok (mkStep [w] [] true, s)
    else dispatch m mt sq (set_in_seq sq s).

(** The receive loop of [on_bytes]; [total] is the step being accumulated. *)
Fixpoint receive (fuel : nat) (total : SessionStep) (s : Session) : res (SessionStep * Session) :=
  match in_buf_ s with
  | [] => Ok (total, s)
  | _ =>
      match fuel with
      | O => Hang
      | S fuel =>
          let! pr := parse_one (soh_ s) (in_buf_ s) in
          match err pr with
          | Incomplete => Ok (total, s)
          | None_ =>
              let s := set_in_buf (drop (Z.to_nat (consumed pr)) (in_buf_ s)) s in
              let '(t, s) := steady_now s in
              let s := set_test_request_outstanding false (set_last_inbound t s) in
              let! '(st, s) := handle_message (msg pr) s in
              let total := mkStep (out total ++ out st) (app total ++ app st) (disconnect total) in
              if disconnect st then Ok (mkStep (out total) (app total) true, s)
              else receive fuel total s
          | _ =>
              let '(w, s) := send_logout (B "malformed message") s in
              Ok (mkStep (out total ++ [w]) (app total) true, set_in_buf [] s)
          end
      end
  end.

Definition on_bytes (data : bytes) (s : Session) : res (SessionStep * Session) :=
  let s := set_in_buf (in_buf_ s ++ data) s in
  receive (length (in_buf_ s)) no_step s.

(** ** Timers *)

Definition secs (n : Z) : Z := n * 1000000000.

(** [hb + hb / 2] in whole seconds. *)
Definition test_window (hb : Z) : Z := secs (hb + hb / 2).

Definition tick (now : Z) (s : Session) : SessionStep * Session :=
  let hb := heartbeat_secs (cfg_ s) in
  if negb (bool_decide (state_ s = LoggedIn)) then (no_step, s)
  else if hb <=? 0 then (no_step, s)
  else if negb (timers_armed_ s) then (no_step, s)
  else if negb (test_request_outstanding_ s) && (now - last_inbound_ s >=? test_window hb) then
    let trid := B "tr-" ++ to_string (u64 (out_seq_ s + 1)) in
    let '(w, s) := build_message [(tag_MsgType, mt_TestRequest); (tag_TestReqID, trid)] s in
    (mkStep [w] [] false, set_test_request_outstanding true (set_test_request_at now s))
  else if test_request_outstanding_ s && (now - test_request_at_ s >=? test_window hb) then
    let '(w, s) := send_logout (B "heartbeat timeout") s in
    (mkStep [w] [] true, set_test_request_outstanding false s)
  else if now - last_outbound_ s >=? secs hb then
    let '(w, s) := send_heartbeat s in
    (mkStep [w] [] false, s)
  else (no_step, s).

Definition reset_seq (s : Session) : Session := set_out_seq 0 (set_in_seq 0 s).

End session.
