(* ===== verification/SessionProps.v ===== *)
(** * Lemmas about the session

    What each operation leaves alone, the receive loop on a growing buffer,
    and termination of the loop. *)

From S2P Require Import Prelude Types Text Messages Serializer Parser ParserProps CodecProps CodecTheorems Session.

Section props.
Context `{Env}.

(** ** The receive buffer is not touched by handlers *)

(** Running with a different buffer gives the same result, with that buffer. *)
Definition with_buf {A} (b : bytes) (r : A * Session) : A * Session := (r.1, set_in_buf b r.2).
Definition res_map {A B} (f : A → B) (r : res A) : res B := rbind r (λ a, Ok (f a)).

Lemma build_message_buf b body s :
  build_message body (set_in_buf b s) = with_buf b (build_message body s).
Proof.
  unfold build_message. destruct (seen tag_MsgSeqNum body), (seen tag_SendingTime body); cbn;
    by try destruct (_ && _).
Qed.

Lemma set_in_buf_id s : set_in_buf (in_buf_ s) s = s.
Proof. by destruct s. Qed.

Lemma replay_buf b cursor last recs : ∀ acc s,
  replay cursor last recs acc (set_in_buf b s) = res_map (with_buf b) (replay cursor last recs acc s).
Proof.
  induction recs as [|r recs IH]; intros acc s; cbn [replay]; [done|].
  destruct (_ <? _); [apply IH|]. destruct (_ >? _); [done|].
  change (soh_ (set_in_buf b s)) with (soh_ s).
  destruct (parse_one _ _) as [pr| | |]; try done. cbn [rbind]. destruct (negb _); [apply IH|].
  apply (IH _ (set_now_calls (S (now_calls s)) s)).
Qed.

Lemma handle_resend_request_buf b begin last s :
  handle_resend_request begin last (set_in_buf b s) =
    res_map (with_buf b) (handle_resend_request begin last s).
Proof.
  unfold handle_resend_request. cbn [out_seq_ history_ set_in_buf].
  destruct (_ || _); [done|]. unfold default_now.
  destruct (begin <? _); (destruct (_ >? _); [done|]).
  - apply (replay_buf b _ _ _ _ (set_now_calls (S (now_calls s)) s)).
  - apply replay_buf.
Qed.

Lemma dispatch_buf b m mt sq s :
  dispatch m mt sq (set_in_buf b s) = res_map (with_buf b) (dispatch m mt sq s).
Proof.
  unfold dispatch, build_reject, send_logout.
  change (set_state LogoutSent (set_in_buf b s)) with (set_in_buf b (set_state LogoutSent s)).
  rewrite !build_message_buf.
  repeat (destruct (bool_decide _); [cbn [orb]; try by repeat (destruct (build_message _ _))|cbn [orb]]);
    try by destruct (build_message _ _).
  destruct (seq_field tag_BeginSeqNo m); cbn [rbind res_map]; try done.
  destruct (seq_field tag_EndSeqNo m); cbn [rbind res_map]; try done.
  rewrite handle_resend_request_buf. by destruct (handle_resend_request _ _ _) as [[? ?]| | |].
Qed.

(** Rewrites the second run of [build_message] into the first one's. *)
Ltac same_build b :=
  match goal with
  | |- (let '(_, _) := build_message ?bd ?s1 in _) = with_buf b (let '(_, _) := build_message ?bd2 ?s2 in _) =>
      change (build_message bd s1) with (build_message bd2 (set_in_buf b s2));
      rewrite build_message_buf; by destruct (build_message bd2 s2)
  end.

Lemma handle_logon_buf b m sq s :
  handle_logon m sq (set_in_buf b s) = with_buf b (handle_logon m sq s).
Proof.
  unfold handle_logon. cbn [steady_now]. change (cfg_ (set_in_buf b s)) with (cfg_ s).
  destruct (reset_on_logon (cfg_ s)); cbn [cfg_ set_timers_armed set_test_request_outstanding
    set_last_outbound set_clock_calls set_last_inbound set_history set_out_seq set_in_seq set_in_buf];
    (destruct (get tag_TargetCompID m); [destruct (negb _); [done|]|]);
    destruct (get tag_SenderCompID m); same_build b.
Qed.

Lemma handle_message_buf b m s :
  handle_message m (set_in_buf b s) = res_map (with_buf b) (handle_message m s).
Proof.
  unfold handle_message. destruct (seq m) as [sq| | |]; try done. cbn [rbind].
  change (state_ (set_in_buf b s)) with (state_ s). change (in_seq_ (set_in_buf b s)) with (in_seq_ s).
  destruct (bool_decide _).
  { destruct (negb _); [done|]. by rewrite handle_logon_buf. }
  destruct (_ >? _).
  { unfold build_resend_request. rewrite build_message_buf. by destruct (build_message _ _). }
  destruct (_ && _); [|apply (dispatch_buf b m _ sq (set_in_seq sq s))]. unfold send_logout.
  change (set_state LogoutSent (set_in_buf b s)) with (set_in_buf b (set_state LogoutSent s)).
  rewrite build_message_buf. by destruct (build_message _ _).
Qed.

Lemma handle_message_keeps_buf m s st s' :
  handle_message m s = Ok (st, s') → in_buf_ s' = in_buf_ s.
Proof.
  intros He. pose proof (handle_message_buf (in_buf_ s) m s) as Hb.
  rewrite set_in_buf_id, He in Hb. injection Hb as Hs. by rewrite Hs.
Qed.

(** ** What building a message leaves alone *)

Lemma build_message_frame body s :
  let s' := (build_message body s).2 in
  cfg_ s' = cfg_ s ∧ soh_ s' = soh_ s ∧ state_ s' = state_ s ∧ in_seq_ s' = in_seq_ s ∧
  last_inbound_ s' = last_inbound_ s ∧ test_request_at_ s' = test_request_at_ s ∧
  timers_armed_ s' = timers_armed_ s ∧ test_request_outstanding_ s' = test_request_outstanding_ s.
Proof.
  unfold build_message, steady_now, default_now, retain_outbound.
  destruct (seen tag_MsgSeqNum body), (seen tag_SendingTime body); cbn [snd];
    by destruct (_ && _).
Qed.

(** Replaying only reads the wall clock. *)
Lemma replay_frame cursor last recs : ∀ acc s ws s',
  replay cursor last recs acc s = Ok (ws, s') → ∃ n, s' = set_now_calls n s.
Proof.
  assert (∀ s, s = set_now_calls (now_calls s) s) as Hid by (by intros []).
  induction recs as [|r recs IH]; intros acc s ws s'; cbn [replay].
  { intros [= _ <-]. eauto. }
  destruct (_ <? _); [apply IH|]. destruct (_ >? _); [intros [= _ <-]; eauto|].
  destruct (parse_one _ _) as [pr| | |]; try done. cbn [rbind]. destruct (negb _); [apply IH|].
  intros (n & ->)%IH. by exists n.
Qed.

Lemma handle_resend_request_frame begin last s ws s' :
  handle_resend_request begin last s = Ok (ws, s') → ∃ n, s' = set_now_calls n s.
Proof.
  assert (s = set_now_calls (now_calls s) s) as Hid by (by destruct s).
  unfold handle_resend_request, default_now. destruct (_ || _); [intros [= _ <-]; eauto|].
  destruct (begin <? _); (destruct (_ >? _); [intros [= _ <-]; eauto|]).
  - intros (n & ->)%replay_frame. by exists n.
  - apply replay_frame.
Qed.

(** What no operation changes: the separator and the configuration up to the
    peer's identity. *)
Definition same_setup (s s' : Session) : Prop :=
  soh_ s' = soh_ s ∧ sender_comp_id (cfg_ s') = sender_comp_id (cfg_ s) ∧
  heartbeat_secs (cfg_ s') = heartbeat_secs (cfg_ s) ∧ reset_on_logon (cfg_ s') = reset_on_logon (cfg_ s) ∧
  outbound_history_size (cfg_ s') = outbound_history_size (cfg_ s).
#[global] Instance same_setup_preorder : PreOrder same_setup.
Proof. split; [by intros s|]. intros s1 s2 s3 (?&?&?&?&?) (?&?&?&?&?). split_and!; congruence. Qed.

Lemma build_message_setup body s : same_setup s (build_message body s).2.
Proof. destruct (build_message_frame body s) as (Hc & Hs & _). unfold same_setup. by rewrite Hc, Hs. Qed.

Lemma handle_logon_setup m sq s : same_setup s (handle_logon m sq s).2.
Proof.
  unfold handle_logon, steady_now.
  set (s0 := if reset_on_logon (cfg_ s) then _ else _).
  assert (same_setup s s0) as H0 by (unfold s0; by destruct (reset_on_logon (cfg_ s))).
  match goal with |- context [set_timers_armed true ?x] => set (s1 := set_timers_armed true x) end.
  assert (same_setup s s1) as H1 by (etrans; [exact H0|done]).
  clearbody s1. clear s0 H0. destruct (match get tag_TargetCompID m with Some _ => _ | None => _ end); [done|].
  set (s2 := match get tag_SenderCompID m with Some _ => _ | None => _ end).
  assert (same_setup s s2) as H2 by (etrans; [exact H1|]; unfold s2; by destruct (get tag_SenderCompID m)).
  clearbody s2. pose proof (build_message_setup [(tag_MsgType, mt_Logon);
    (108, to_string (heartbeat_secs (cfg_ (set_state LoggedIn (set_in_seq sq s2)))))]
    (set_state LoggedIn (set_in_seq sq s2))) as Hb.
  destruct (build_message _ _) as [w s3]. cbn [snd] in *. etrans; [exact H2|exact Hb].
Qed.

Lemma dispatch_setup m mt sq s st s' : dispatch m mt sq s = Ok (st, s') → same_setup s s'.
Proof.
  unfold dispatch, build_reject, send_logout.
  destruct (bool_decide _); [by intros [= _ <-]|].
  destruct (bool_decide _).
  { pose proof (build_message_setup [(tag_MsgType, mt_Heartbeat); (tag_TestReqID, default [] (get tag_TestReqID m))] s).
    destruct (build_message _ _). by intros [= _ <-]. }
  destruct (bool_decide _).
  { destruct (seq_field tag_BeginSeqNo m); try done. destruct (seq_field tag_EndSeqNo m); try done. cbn [rbind].
    destruct (handle_resend_request _ _ s) as [[ws s1]| | |] eqn:Hr; try done. intros [= _ <-].
    by apply handle_resend_request_frame in Hr as (n & ->). }
  destruct (bool_decide _).
  { destruct (bool_decide _); [by intros [= _ <-]|].
    pose proof (build_message_setup [(tag_MsgType, mt_Logout); (tag_Text, B "acknowledged")] (set_state LogoutSent s)).
    destruct (build_message _ _) as [w s1]. by intros [= _ <-]. }
  destruct (_ || _); [by intros [= _ <-]|]. destruct (_ || _); [by intros [= _ <-]|].
  match goal with |- context [build_message ?b s] => pose proof (build_message_setup b s) end.
  destruct (build_message _ _). by intros [= _ <-].
Qed.

Lemma handle_message_setup m s st s' : handle_message m s = Ok (st, s') → same_setup s s'.
Proof.
  unfold handle_message. destruct (seq m) as [sq| | |]; try done. cbn [rbind].
  destruct (bool_decide _).
  { destruct (negb _); [by intros [= _ <-]|]. intros [= He]. pose proof (handle_logon_setup m sq s) as Hl.
    by rewrite He in Hl. }
  destruct (_ >? _).
  { unfold build_resend_request. match goal with |- context [build_message ?b s] => pose proof (build_message_setup b s) end.
    destruct (build_message _ _). by intros [= _ <-]. }
  destruct (_ && _); [|by intros ?%dispatch_setup]. unfold send_logout.
  match goal with |- context [build_message ?b ?s1] => pose proof (build_message_setup b s1) end.
  destruct (build_message _ _). by intros [= _ <-].
Qed.

(** ** What reaches the application *)

Definition order_types : list bytes := [mt_NewOrderSingle; mt_OrderCancelRequest; mt_OrderCancelReplace].

Lemma dispatch_apps m sq s st s' :
  dispatch m (msg_type m) sq (set_in_seq sq s) = Ok (st, s') →
  in_seq_ s' = sq ∧
  (app st = [m] ∧ msg_type m ∈ order_types ∨ app st = [] ∧ msg_type m ∉ order_types).
Proof.
  unfold dispatch, build_reject, send_logout. set (mt := msg_type m). clearbody mt.
  set (s0 := set_in_seq sq s). assert (in_seq_ s0 = sq) as H0 by done. clearbody s0.
  destruct (bool_decide_reflect (mt = mt_Heartbeat)) as [->|].
  { intros [= <- <-]. split; [done|]. right. split; [done|decided]. }
  destruct (bool_decide_reflect (mt = mt_TestRequest)) as [->|].
  { match goal with |- context [build_message ?b s0] => pose proof (build_message_frame b s0) as (_ & _ & _ & Hi & _) end.
    destruct (build_message _ _). intros [= <- <-]. split; [cbn in Hi; congruence|]. right. split; [done|decided]. }
  destruct (bool_decide_reflect (mt = mt_ResendRequest)) as [->|].
  { destruct (seq_field tag_BeginSeqNo m); try done. destruct (seq_field tag_EndSeqNo m); try done. cbn [rbind].
    destruct (handle_resend_request _ _ s0) as [[ws s1]| | |] eqn:Hr; try done. intros [= <- <-].
    apply handle_resend_request_frame in Hr as (k & ->). split; [done|]. right. split; [done|decided]. }
  destruct (bool_decide_reflect (mt = mt_Logout)) as [->|].
  { destruct (bool_decide _).
    - intros [= <- <-]. split; [done|]. right. split; [done|decided].
    - match goal with |- context [build_message ?b ?x] => pose proof (build_message_frame b x) as (_ & _ & _ & Hi & _) end.
      destruct (build_message _ _) as [w s1]. intros [= <- <-]. split; [cbn in *; congruence|]. right. split; [done|decided]. }
  destruct (bool_decide_reflect (mt = mt_Reject)) as [->|]; cbn [orb].
  { intros [= <- <-]. split; [done|]. right. split; [done|decided]. }
  destruct (bool_decide_reflect (mt = mt_SequenceReset)) as [->|].
  { intros [= <- <-]. split; [done|]. right. split; [done|decided]. }
  unfold order_types. rewrite !elem_of_cons.
  destruct (bool_decide_reflect (mt = mt_NewOrderSingle)); [cbn [orb]; intros [= <- <-]; naive_solver|].
  destruct (bool_decide_reflect (mt = mt_OrderCancelRequest)); [cbn [orb]; intros [= <- <-]; naive_solver|].
  destruct (bool_decide_reflect (mt = mt_OrderCancelReplace)); [cbn [orb]; intros [= <- <-]; naive_solver|]. cbn [orb].
  match goal with |- context [build_message ?b ?x] => pose proof (build_message_frame b x) as (_ & _ & _ & Hi & _) end.
  destruct (build_message _ _) as [w s1]. intros [= <- <-]. split; [cbn in Hi; congruence|]. right.
  split; [done|]. rewrite elem_of_nil. tauto.
Qed.

(** ** Termination *)

Lemma parse_one_no_hang soh buf : parse_one soh buf ≠ Hang.
Proof.
  unfold parse_one. destruct (parse_header_total soh buf) as ([e|[pos len]] & ->); cbn [rbind]; [done|].
  destruct (_ >? _); [done|]. set (be := u64 (pos + len)).
  assert (0 ≤ be) by apply u64_range.
  destruct (at_ buf be) as [c| | |] eqn:Hc.
  - apply at_bound in Hc. destruct (parse_trailer soh buf be) as [[want|]| | |] eqn:Ht; try done; cbn [rbind].
    + destruct (substr buf 0 be) as [cov| | |] eqn:Hs; try done; cbn [rbind]; [|by rewrite substr_0 in Hs].
      destruct (negb _); [done|].
      destruct (parse_fields_total soh (length buf) buf be 0 ∅) as ([e m] & ->); [lia..|unfold zlen in *; lia|].
      by destruct e.
    + exfalso. revert Ht. unfold parse_trailer, at_, substr. clear.
      repeat (case_match; cbn [rbind]; try done).
  - unfold at_ in Hc. by repeat case_match.
  - unfold parse_trailer. by rewrite Hc.
  - unfold at_ in Hc. by repeat case_match.
Qed.

Lemma scan_no_hang s : scan_int s ≠ Hang.
Proof. unfold scan_int. by repeat case_match. Qed.
Lemma stoull_no_hang s : stoull s ≠ Hang.
Proof.
  unfold stoull. pose proof (scan_no_hang s). destruct (scan_int s) as [[neg v]| | |]; try done. cbn [rbind].
  by destruct (_ <? _).
Qed.
Lemma seq_no_hang m : seq m ≠ Hang.
Proof. unfold seq. destruct (_ !! _); [apply stoull_no_hang|done]. Qed.
Lemma seq_field_no_hang t m : seq_field t m ≠ Hang.
Proof. unfold seq_field. destruct (get t m); [apply stoull_no_hang|done]. Qed.

Lemma replay_no_hang cursor last recs : ∀ acc s, replay cursor last recs acc s ≠ Hang.
Proof.
  induction recs as [|r recs IH]; intros acc s; cbn [replay]; [done|].
  destruct (_ <? _); [apply IH|]. destruct (_ >? _); [done|].
  pose proof (parse_one_no_hang (soh_ s) (rec_bytes r)).
  destruct (parse_one _ _) as [pr| | |]; try done. cbn [rbind]. destruct (negb _); apply IH.
Qed.

Lemma handle_resend_request_no_hang begin last s : handle_resend_request begin last s ≠ Hang.
Proof.
  unfold handle_resend_request, default_now. destruct (_ || _); [done|].
  destruct (begin <? _); (destruct (_ >? _); [done|apply replay_no_hang]).
Qed.

Lemma handle_message_no_hang m s : handle_message m s ≠ Hang.
Proof.
  unfold handle_message. pose proof (seq_no_hang m). destruct (seq m) as [sq| | |]; try done. cbn [rbind].
  destruct (bool_decide _); [by destruct (negb _)|].
  destruct (_ >? _); [by destruct (build_resend_request _ _)|].
  destruct (_ && _); [by destruct (send_logout _ _)|].
  unfold dispatch. destruct (bool_decide _); [done|].
  destruct (bool_decide _); [by destruct (build_message _ _)|].
  destruct (bool_decide _).
  { pose proof (seq_field_no_hang tag_BeginSeqNo m). pose proof (seq_field_no_hang tag_EndSeqNo m).
    destruct (seq_field tag_BeginSeqNo m) as [x| | |]; try done.
    destruct (seq_field tag_EndSeqNo m) as [y| | |]; try done. cbn [rbind].
    pose proof (handle_resend_request_no_hang x y (set_in_seq sq s)).
    by destruct (handle_resend_request x y (set_in_seq sq s)) as [[? ?]| | |]. }
  destruct (bool_decide _); [destruct (bool_decide _); by try destruct (send_logout _ _)|].
  destruct (_ || _); [done|]. destruct (_ || _); [done|]. by destruct (build_reject _ _ _).
Qed.

Lemma parse_consumed soh `{!Separator soh} buf pr :
  zlen buf < two64 - 7 → parse_one soh buf = Ok pr → err pr = None_ → 0 < consumed pr ≤ zlen buf.
Proof.
  intros Hl Hp He. destruct (parse_one_inv soh buf pr Hl Hp He) as (d & body & rest & m & Hok & -> & -> & _).
  destruct Hok as (_ & _ & _ & H3). rewrite framed_len by done.
  pose proof (zlen_nonneg (frame soh d ++ body)). pose proof (zlen_nonneg rest). lia.
Qed.

(** The step a parsed message takes: the buffer shrinks, the timers are
    stamped, and the message is handled. *)
Definition accept (pr : ParseResult) (s : Session) : Session :=
  let s := set_in_buf (drop (Z.to_nat (consumed pr)) (in_buf_ s)) s in
  let '(t, s) := steady_now s in
  set_test_request_outstanding false (set_last_inbound t s).

Definition add_step (total st : SessionStep) : SessionStep :=
  mkStep (out total ++ out st) (app total ++ app st) (disconnect total).

Lemma receive_nil fuel total s : in_buf_ s = [] → receive fuel total s = Ok (total, s).
Proof. intros Hb. destruct fuel; cbn [receive]; by rewrite Hb. Qed.

Lemma receive_S fuel total s :
  in_buf_ s ≠ [] →
  receive (S fuel) total s =
    let! pr := parse_one (soh_ s) (in_buf_ s) in
    match err pr with
    | Incomplete => Ok (total, s)
    | None_ =>
        let! '(st, s') := handle_message (msg pr) (accept pr s) in
        let total := add_step total st in
        if disconnect st then Ok (mkStep (out total) (app total) true, s') else receive fuel total s'
    | _ =>
        let '(w, s) := send_logout (B "malformed message") s in
        Ok (mkStep (out total ++ [w]) (app total) true, set_in_buf [] s)
    end.
Proof. intros Hb. cbn [receive]. destruct (in_buf_ s) as [|c l] eqn:E; [done|]. by rewrite <- E. Qed.

(** What a handled message does to the loop's variables. *)
Lemma accept_handled pr s st s' :
  Separator (soh_ s) → zlen (in_buf_ s) < two64 - 7 →
  parse_one (soh_ s) (in_buf_ s) = Ok pr → err pr = None_ →
  handle_message (msg pr) (accept pr s) = Ok (st, s') →
  in_buf_ s' = drop (Z.to_nat (consumed pr)) (in_buf_ s) ∧ (length (in_buf_ s') < length (in_buf_ s))%nat ∧
  same_setup s s'.
Proof.
  intros Hsep Hl Hp He Hm. destruct (parse_consumed _ _ _ Hl Hp He).
  pose proof (handle_message_keeps_buf _ _ _ _ Hm) as Hb. cbn in Hb. rewrite Hb.
  apply handle_message_setup in Hm. rewrite length_drop. unfold zlen in *.
  split; [done|]. split; [lia|]. exact Hm.
Qed.

Lemma receive_no_hang fuel : ∀ total s,
  Separator (soh_ s) → zlen (in_buf_ s) < two64 - 7 → (length (in_buf_ s) ≤ fuel)%nat →
  receive fuel total s ≠ Hang.
Proof.
  induction fuel as [|fuel IH]; intros total s Hsep Hl Hf.
  { rewrite receive_nil; [done|]. destruct (in_buf_ s); [done|cbn in Hf; lia]. }
  destruct (decide (in_buf_ s = [])) as [Hn|Hn]; [by rewrite receive_nil|]. rewrite receive_S by done.
  pose proof (parse_one_no_hang (soh_ s) (in_buf_ s)).
  destruct (parse_one (soh_ s) (in_buf_ s)) as [pr| | |] eqn:Hp; try done. cbn [rbind].
  destruct (err pr) eqn:He; try done; try by destruct (send_logout _ _).
  pose proof (handle_message_no_hang (msg pr) (accept pr s)).
  destruct (handle_message (msg pr) (accept pr s)) as [[st s']| | |] eqn:Hm; try done. cbn [rbind].
  destruct (disconnect st); [done|].
  destruct (accept_handled _ _ _ _ Hsep Hl Hp He Hm) as (_ & Hlt & (Hs & _)).
  apply IH; [by rewrite Hs|unfold zlen in *; lia|lia].
Qed.

(** More fuel than bytes changes nothing. *)
Lemma receive_fuel fuel : ∀ fuel' total s,
  Separator (soh_ s) → zlen (in_buf_ s) < two64 - 7 → (length (in_buf_ s) ≤ fuel)%nat →
  (length (in_buf_ s) ≤ fuel')%nat → receive fuel total s = receive fuel' total s.
Proof.
  induction fuel as [|fuel IH]; intros fuel' total s Hsep Hl Hf Hf';
    (destruct (decide (in_buf_ s = [])) as [Hn|Hn]; [by rewrite !receive_nil|]).
  { destruct (in_buf_ s); [done|cbn in Hf; lia]. }
  destruct fuel' as [|fuel']; [destruct (in_buf_ s); [done|cbn in Hf'; lia]|]. rewrite !receive_S by done.
  destruct (parse_one (soh_ s) (in_buf_ s)) as [pr| | |] eqn:Hp; try done. cbn [rbind].
  destruct (err pr) eqn:He; try done.
  destruct (handle_message (msg pr) (accept pr s)) as [[st s']| | |] eqn:Hm; try done. cbn [rbind].
  destruct (disconnect st); [done|].
  destruct (accept_handled _ _ _ _ Hsep Hl Hp He Hm) as (_ & Hlt & (Hs & _)).
  apply IH; [by rewrite Hs|unfold zlen in *; lia|lia|lia].
Qed.

(** ** More bytes in the buffer *)

Definition feed (more : bytes) (s : Session) : Session := set_in_buf (in_buf_ s ++ more) s.

Lemma receive_more fuel : ∀ fuel' total s more st s1,
  Separator (soh_ s) → zlen (in_buf_ s ++ more) < two64 - 7 →
  (length (in_buf_ s) ≤ fuel)%nat → (length (in_buf_ s ++ more) ≤ fuel')%nat →
  receive fuel total s = Ok (st, s1) → disconnect st = false →
  receive fuel' total (feed more s) = receive fuel' st (feed more s1) ∧ same_setup s s1 ∧
  (length (in_buf_ s1) ≤ length (in_buf_ s))%nat.
Proof.
  induction fuel as [|fuel IH]; intros fuel' total s more st s1 Hsep Hl Hf Hf' He Hdis.
  { assert (in_buf_ s = []) as Hn by (destruct (in_buf_ s); [done|cbn in Hf; lia]).
    rewrite receive_nil in He by done. by injection He as <- <-. }
  destruct (decide (in_buf_ s = [])) as [Hn|Hn].
  { rewrite receive_nil in He by done. by injection He as <- <-. }
  assert (zlen (in_buf_ s) < two64 - 7) as Hl0 by (rewrite zlen_app in Hl; pose proof (zlen_nonneg more); lia).
  rewrite receive_S in He by done.
  destruct (parse_one (soh_ s) (in_buf_ s)) as [pr| | |] eqn:Hp; try done. cbn [rbind] in He.
  destruct (err pr) eqn:Herr;
    try (destruct (send_logout _ _) as [w s2]; injection He as <- <-; done);
    [|by injection He as <- <-].
  destruct (handle_message (msg pr) (accept pr s)) as [[st1 s2]| | |] eqn:Hm; try done. cbn [rbind] in He.
  destruct (disconnect st1) eqn:Hd1; [by injection He as <- <-|].
  destruct (accept_handled _ _ _ _ Hsep Hl0 Hp Herr Hm) as (Hb2 & Hlt & Hset). pose proof Hset as (Hs2 & _).
  destruct (parse_consumed _ _ _ Hl0 Hp Herr) as [Hc0 Hc].
  assert (length (in_buf_ s2 ++ more) < length (in_buf_ s ++ more))%nat as Hlt' by (rewrite !length_app; lia).
  destruct fuel' as [|fuel']; [rewrite length_app in Hf'; destruct (in_buf_ s); [done|cbn in Hf'; lia]|].
  rewrite (receive_S fuel' total (feed more s)) by (cbn; by destruct (in_buf_ s)).
  change (soh_ (feed more s)) with (soh_ s). change (in_buf_ (feed more s)) with (in_buf_ s ++ more).
  rewrite (parse_one_more _ _ more pr) by (done || by rewrite Herr). cbn [rbind]. rewrite Herr.
  assert (accept pr (feed more s) = set_in_buf (in_buf_ s2 ++ more) (accept pr s)) as ->.
  { unfold accept, feed, steady_now. cbn [in_buf_ set_in_buf]. rewrite drop_app_le, Hb2; [done|unfold zlen in *; lia]. }
  rewrite handle_message_buf, Hm. cbn [rbind res_map with_buf fst snd]. rewrite Hd1.
  destruct (IH fuel' (add_step total st1) s2 more st s1) as (Heq & Hset' & Hle);
    [by rewrite Hs2|unfold zlen in *; lia|lia|lia|done|done|].
  split; [|split; [by etrans|lia]]. fold (feed more s2). rewrite Heq.
  assert (length (in_buf_ s1 ++ more) ≤ fuel')%nat by (rewrite length_app in *; lia).
  apply receive_fuel; [|change (zlen (in_buf_ s1 ++ more) < two64 - 7)|done|cbn; lia].
  - change (Separator (soh_ s1)). destruct Hset' as (-> & _). by rewrite Hs2.
  - unfold zlen in *. rewrite !length_app in *. lia.
Qed.

End props.
