(* ===== verification/Resend.v ===== *)
(** * The outbound history and what it replays

    The ring of retained messages holds exactly the last messages sent, with
    consecutive sequence numbers ending at [out_seq_], and every entry is a
    serialized message carrying its own sequence number and sending time.
    Replaying a range re-emits each retained message once and covers the rest
    by one gap fill. *)

From S2P Require Import Prelude Types Text Messages Serializer Parser ParserProps CodecProps CodecTheorems Session SessionProps.

(** What the session relies on in its environment: the clock text has no
    separator and iterating a map visits each entry once. *)
Class EnvLaws `{Env} (soh : ascii) : Prop := {
  env_now_clean n : soh ∉ env_now n;
  env_iter_perm b m : env_iter b m ≡ₚ map_to_list m
}.

Definition plain_separator (soh : ascii) : Prop := soh = kSohWire ∨ soh = kSohText.
Lemma plain_separator_ok soh : plain_separator soh → Separator soh.
Proof. intros [->| ->]; apply _. Qed.

(** Turns the tag names of the header into numbers. *)
Ltac unfold_tags :=
  cbn [fst]; unfold tag_MsgType, tag_SenderCompID, tag_TargetCompID, tag_MsgSeqNum, tag_SendingTime,
    tag_BeginString, tag_BodyLength, tag_CheckSum, tag_PossDupFlag, tag_OrigSendingTime, tag_GapFillFlag,
    tag_NewSeqNo in *.

(** ** Bodies the session sends *)

(** Tags [build_message] and the serializer supply themselves. *)
Definition supplied : list Z :=
  [tag_BeginString; tag_BodyLength; tag_CheckSum; tag_MsgType; tag_SenderCompID; tag_TargetCompID;
   tag_MsgSeqNum; tag_SendingTime].

Definition app_body (soh : ascii) (mt : bytes) (rest : list (Z * bytes)) : Prop :=
  soh ∉ mt ∧ Forall (λ f, 0 ≤ f.1 < two31 ∧ soh ∉ f.2) rest ∧ NoDup rest.*1 ∧
  Forall (λ t, t ∉ rest.*1) supplied.
#[global] Instance app_body_dec soh mt rest : Decision (app_body soh mt rest).
Proof. unfold app_body. apply _. Defined.

(** The complete field list of a message sent with sequence number [sq]. *)
Definition full_body (s : Session) (sq : SeqNum) (now mt : bytes) (rest : list (Z * bytes)) :
    list (Z * bytes) :=
  (tag_MsgType, mt) :: (tag_SenderCompID, sender_comp_id (cfg_ s)) ::
  (tag_TargetCompID, target_comp_id (cfg_ s)) :: (tag_MsgSeqNum, to_string sq) ::
  (tag_SendingTime, now) :: rest.

Lemma seen_false t rest : t ∉ rest.*1 → seen t rest = false.
Proof.
  intros Ht. unfold seen. destruct (existsb _ rest) eqn:He; [|done].
  apply existsb_exists in He as (kv & Hin & Heq). apply Z.eqb_eq in Heq. destruct Ht.
  apply list_elem_of_fmap. exists kv. split; [done|]. by apply list_elem_of_In.
Qed.

Lemma msg_type_pos_none rest : tag_MsgType ∉ rest.*1 → ∀ i pos, msg_type_pos i rest pos = pos.
Proof.
  induction rest as [|kv rest IH]; intros Ht i pos; cbn [msg_type_pos]; [done|].
  apply not_elem_of_cons in Ht as [Hne Ht]. destruct (Z.eqb_spec kv.1 tag_MsgType); [congruence|]. by apply IH.
Qed.

(** Literals of the source contain neither separator. *)
Lemma plain_literal soh (l : bytes) : plain_separator soh → kSohWire ∉ l → kSohText ∉ l → soh ∉ l.
Proof. by intros [->| ->]. Qed.

Ltac literal := match goal with
  | Hp : plain_separator ?soh |- ?soh ∉ _ => apply (plain_literal _ _ Hp); decided
  end.

Section resend.
Context `{Env}.

(** The session after sending: the counter, the clocks and the history. *)
Definition sent (sq : SeqNum) (now wire : bytes) (s : Session) : Session :=
  let s := set_now_calls (S (now_calls s)) (set_out_seq sq s) in
  let s := set_last_outbound (env_clock (clock_calls s)) (set_clock_calls (S (clock_calls s)) s) in
  if negb (sq =? 0) && (outbound_history_size (cfg_ s) >? 0) then retain_outbound sq now wire s else s.

Lemma build_message_std mt rest s :
  Forall (λ t, t ∉ rest.*1) supplied →
  let sq := u64 (out_seq_ s + 1) in
  let now := env_now (now_calls s) in
  let wire := build (soh_ s) (full_body s sq now mt rest) in
  build_message ((tag_MsgType, mt) :: rest) s = (wire, sent sq now wire s).
Proof.
  intros Hres. unfold supplied in Hres. rewrite !Forall_cons in Hres.
  destruct Hres as (_ & _ & _ & Hmt & Hsender & Htarget & Hseq & Htime & _).
  assert (∀ t, t ≠ tag_MsgType → t ∉ rest.*1 → seen t ((tag_MsgType, mt) :: rest) = false) as Hseen.
  { intros t Hne Ht. apply seen_false. by apply not_elem_of_cons. }
  unfold build_message. cbn [msg_type_pos fst]. rewrite Z.eqb_refl, msg_type_pos_none by done.
  rewrite !Hseen by done. cbn [lookup list_lookup delete list_delete]. unfold default_now, steady_now.
  cbn zeta. unfold sent, full_body. cbn [out_seq_ set_out_seq now_calls app].
  destruct (_ && _); [|done].
  by destruct (env_now (now_calls s)).
Qed.

Lemma build_message_seq mt rest s :
  Forall (λ t, t ∉ rest.*1) supplied →
  out_seq_ (build_message ((tag_MsgType, mt) :: rest) s).2 = u64 (out_seq_ s + 1).
Proof. intros Hsup. rewrite build_message_std by done. cbn [snd]. unfold sent. by destruct (_ && _). Qed.

(** ** The ring *)

Lemma trim_drop cap l : 0 ≤ cap → trim cap l = drop (length l - Z.to_nat cap) l.
Proof.
  intros Hc. induction l as [|x l IH]; [done|]. cbn [trim].
  destruct (Z.gtb_spec (zlen (x :: l)) cap) as [Hgt|Hle]; unfold zlen in *; cbn [length] in *.
  - rewrite IH. by replace (S (length l) - Z.to_nat cap)%nat with (S (length l - Z.to_nat cap)) by lia.
  - by replace (S (length l) - Z.to_nat cap)%nat with 0%nat by lia.
Qed.

(** A retained message: a serialized body that carries the recorded sequence
    number and sending time. *)
Definition rec_ok (soh : ascii) (r : OutboundRecord) : Prop :=
  ∃ b, rec_bytes r = build soh b ∧ body_ok soh b ∧ (tag_MsgSeqNum, to_string (rec_seq r)) ∈ b ∧
    (tag_SendingTime, rec_sending_time r) ∈ b ∧ ∃ mt, (tag_MsgType, mt) ∈ b.

(** The ring holds the last [min(capacity, out_seq_)] messages in order. *)
Record ring_ok (s : Session) : Prop := {
  ring_len : zlen (history_ s) = Z.min (outbound_history_size (cfg_ s)) (out_seq_ s);
  ring_seqs : rec_seq <$> history_ s = seqZ (out_seq_ s - zlen (history_ s) + 1) (zlen (history_ s));
  ring_recs : Forall (rec_ok (soh_ s)) (history_ s)
}.

Lemma ring_push cap out (h : list OutboundRecord) r :
  0 < cap → 0 ≤ out → zlen h = Z.min cap out → rec_seq <$> h = seqZ (out - zlen h + 1) (zlen h) →
  rec_seq r = out + 1 →
  let h' := trim cap (h ++ [r]) in
  zlen h' = Z.min cap (out + 1) ∧ rec_seq <$> h' = seqZ (out + 1 - zlen h' + 1) (zlen h').
Proof.
  intros Hc Ho Hl Hs Hr h'.
  assert (rec_seq <$> (h ++ [r]) = seqZ (out - zlen h + 1) (zlen h + 1)) as Hs'.
  { rewrite fmap_app, Hs. cbn. rewrite Hr, seqZ_app by (pose proof (zlen_nonneg h); lia). f_equal.
    rewrite seqZ_cons by lia. f_equal. lia. }
  unfold h'. rewrite trim_drop by lia. rewrite length_app. cbn [length].
  destruct (Z.le_gt_cases cap out) as [Hfull|Hroom].
  - replace (length h + 1 - Z.to_nat cap)%nat with 1%nat by (unfold zlen in Hl; lia).
    assert (zlen (drop 1 (h ++ [r])) = cap) as ->.
    { unfold zlen in *. rewrite length_drop, length_app. cbn. lia. }
    split; [lia|]. rewrite fmap_drop, Hs', seqZ_cons by lia. rewrite skipn_cons, drop_0. f_equal; lia.
  - replace (length h + 1 - Z.to_nat cap)%nat with 0%nat by (unfold zlen in Hl; lia). rewrite drop_0.
    rewrite zlen_app. change (zlen [r]) with 1. split; [lia|]. rewrite Hs'. f_equal; lia.
Qed.

(** The session's strings are free of the separator and the ring is in order. *)
Record sess_ok (s : Session) : Prop := {
  so_sep : plain_separator (soh_ s);
  so_sender : soh_ s ∉ sender_comp_id (cfg_ s);
  so_target : soh_ s ∉ target_comp_id (cfg_ s);
  so_hb : in_u64 (heartbeat_secs (cfg_ s));
  so_cap : 0 ≤ outbound_history_size (cfg_ s);
  so_seq : 0 ≤ out_seq_ s;
  so_ring : ring_ok s
}.

Lemma full_body_ok s sq mt rest n :
  EnvLaws (soh_ s) → sess_ok s → in_u64 sq → app_body (soh_ s) mt rest →
  body_ok (soh_ s) (full_body s sq (env_now n) mt rest).
Proof.
  intros Henv Hs Hsq (Hmt & Hrest & Hnd & Hsup). unfold body_ok.
  pose proof (plain_separator_ok _ (so_sep _ Hs)). unfold supplied in Hsup. rewrite !Forall_cons in Hsup.
  destruct Hsup as (H8 & H9 & H10 & H35 & H49 & H56 & H34 & H52 & _). split; [|split].
  - unfold full_body. repeat apply Forall_cons_2; [..|done]; (split; [unfold_tags; lia|]); cbn [snd].
    + done.
    + apply Hs.
    + apply Hs.
    + by apply to_string_no_soh.
    + apply env_now_clean.
  - unfold full_body. rewrite !fmap_cons. cbn [fst].
    repeat apply NoDup_cons_2; try done; rewrite !not_elem_of_cons; split_and!; done.
  - unfold full_body. rewrite !fmap_cons. cbn [fst].
    repeat apply Forall_cons_2; try apply Forall_nil_2; rewrite !not_elem_of_cons; split_and!; done.
Qed.

(** Sending keeps the invariant. *)
Lemma sent_ok mt rest s :
  EnvLaws (soh_ s) → sess_ok s → app_body (soh_ s) mt rest → out_seq_ s + 1 < two64 →
  sess_ok (build_message ((tag_MsgType, mt) :: rest) s).2 ∧
  out_seq_ (build_message ((tag_MsgType, mt) :: rest) s).2 = out_seq_ s + 1.
Proof.
  intros Henv Hs Hb Hlt. pose proof Hb as (_ & _ & _ & Hsup). pose proof (so_seq _ Hs).
  rewrite build_message_std by done. cbn zeta. cbn [snd].
  rewrite (u64_small (out_seq_ s + 1)) by (unfold in_u64; lia).
  set (now := env_now (now_calls s)). set (b := full_body s (out_seq_ s + 1) now mt rest).
  assert (rec_ok (soh_ s) (mkOutbound (out_seq_ s + 1) now (build (soh_ s) b))) as Hrec.
  { exists b. split; [done|]. split; [by apply full_body_ok; [..|unfold in_u64; lia|]|].
    unfold b, full_body. split; [|split; [|exists mt]]; rewrite !elem_of_cons; tauto. }
  destruct (so_ring _ Hs) as [Hlen Hseq Hrecs]. pose proof (so_cap _ Hs).
  unfold sent. cbn zeta. cbn [cfg_ set_last_outbound set_clock_calls set_now_calls set_out_seq].
  destruct (Z.eqb_spec (out_seq_ s + 1) 0); [lia|]. cbn [negb andb].
  destruct (Z.gtb_spec (outbound_history_size (cfg_ s)) 0).
  - destruct (ring_push (outbound_history_size (cfg_ s)) (out_seq_ s) (history_ s)
      (mkOutbound (out_seq_ s + 1) now (build (soh_ s) b))) as [Hl' Hs']; [lia..|done|done|done|].
    split; [|done]. destruct Hs. split; try done; [change (0 ≤ out_seq_ s + 1); lia|]. split; [done|done|].
    change (Forall (rec_ok (soh_ s)) (trim (outbound_history_size (cfg_ s))
      (history_ s ++ [mkOutbound (out_seq_ s + 1) now (build (soh_ s) b)]))).
    rewrite trim_drop by lia. apply Forall_drop, Forall_app. split; [done|by apply Forall_singleton].
  - split; [|done]. assert (zlen (history_ s) = 0) as Hz by lia.
    assert (history_ s = []) as Hnil by (destruct (history_ s); [done|rewrite zlen_cons in Hz; pose proof (zlen_nonneg l); lia]).
    destruct Hs. split; try done; [change (0 ≤ out_seq_ s + 1); lia|]. split.
    + change (zlen (history_ s) = Z.min (outbound_history_size (cfg_ s)) (out_seq_ s + 1)). lia.
    + change (rec_seq <$> history_ s = seqZ (out_seq_ s + 1 - zlen (history_ s) + 1) (zlen (history_ s))).
      by rewrite Hnil.
    + done.
Qed.

(** ** Handlers keep the invariant *)

Definition clean (soh : ascii) (m : Message) : Prop := map_Forall (λ _ v, soh ∉ v) (fields m).

Lemma clean_get soh m t v : clean soh m → get t m = Some v → soh ∉ v.
Proof. intros Hm Hg. exact (Hm t v Hg). Qed.

Lemma parsed_clean soh `{!Separator soh} buf pr :
  zlen buf < two64 - 7 → parse_one soh buf = Ok pr → err pr = None_ → clean soh (msg pr).
Proof.
  intros Hl Hp He. destruct (parse_one_sound soh buf pr Hl Hp He) as (d & fs & rest & _ & _ & _ & Hok & _ & Hf).
  unfold clean. rewrite Hf. unfold emplace.
  set (all := (B "8", B "FIX.4.4") :: (B "9", d) :: fs) in *.
  assert (map_Forall (λ _ v, soh ∉ v) (list_to_map (M := gmap Z bytes) (raw_entry <$> all))) as Hall.
  { intros t v Hin. apply elem_of_list_to_map_2, list_elem_of_fmap in Hin as (f & Heq & Hin).
    rewrite Forall_forall in Hok. destruct (Hok f Hin) as (_ & _ & Hv). unfold raw_entry in Heq. by simplify_eq. }
  destruct (_ !! _); [done|]. apply map_Forall_insert_2; [|done].
  apply digits_sep; [|apply sep_digit]. rewrite format_checksum_small by apply checksum_range.
  pose proof (checksum_range (mjoin (raw_field soh <$> all))). apply pad3_digits. lia.
Qed.

(** The invariant reads only these members. *)
Lemma sess_ok_same s s' :
  sess_ok s → soh_ s' = soh_ s → cfg_ s' = cfg_ s → out_seq_ s' = out_seq_ s → history_ s' = history_ s →
  sess_ok s'.
Proof. intros [? ? ? ? ? ? []] Hs Hc Ho Hh. split; rewrite ?Hs, ?Hc, ?Ho; try done. split; by rewrite ?Hs, ?Hc, ?Ho, ?Hh. Qed.

Lemma app_body_one soh mt t v :
  soh ∉ mt → 0 ≤ t < two31 → t ∉ supplied → soh ∉ v → app_body soh mt [(t, v)].
Proof.
  intros Hmt Ht Hs Hv. split; [done|]. split; [by apply Forall_singleton|]. split; [apply NoDup_singleton|].
  apply Forall_forall. intros t' Hin. cbn. rewrite list_elem_of_singleton. by intros ->.
Qed.
Lemma app_body_cons soh mt t v rest :
  0 ≤ t < two31 → t ∉ supplied → soh ∉ v → t ∉ rest.*1 → app_body soh mt rest → app_body soh mt ((t, v) :: rest).
Proof.
  intros Ht Hs Hv Hn (Hmt & Hf & Hnd & Hsup). split; [done|]. split; [by apply Forall_cons|].
  split; [by apply NoDup_cons|]. rewrite Forall_forall in *. intros t' Hin. cbn. apply not_elem_of_cons.
  split; [by intros ->|auto].
Qed.

(** What sending one message does to the invariant and the counter. *)
Definition sends_one (s s' : Session) : Prop :=
  EnvLaws (soh_ s) → sess_ok s → out_seq_ s + 1 < two64 → sess_ok s' ∧ out_seq_ s' = out_seq_ s + 1.

Lemma sends_one_body mt rest s :
  (sess_ok s → app_body (soh_ s) mt rest) → sends_one s (build_message ((tag_MsgType, mt) :: rest) s).2.
Proof. intros Hb Henv Hs Hlt. by apply sent_ok; [..|apply Hb|]. Qed.

Lemma set_state_ok st s : sess_ok s → sess_ok (set_state st s).
Proof. intros Hs. by apply (sess_ok_same s). Qed.

Lemma send_logout_one text s :
  (plain_separator (soh_ s) → soh_ s ∉ text) → sends_one s (send_logout text s).2.
Proof.
  intros Ht Henv Hs Hlt. apply (sends_one_body mt_Logout [(tag_Text, text)] (set_state LogoutSent s));
    [|done|by apply set_state_ok|done].
  intros Hs'. pose proof (so_sep _ Hs) as Hp. apply app_body_one; [literal|done|decided|by apply Ht].
Qed.

Lemma logon_body_ok s :
  sess_ok s → app_body (soh_ s) mt_Logon [(108, to_string (heartbeat_secs (cfg_ s)))].
Proof.
  intros Hs. pose proof (so_sep _ Hs) as Hp. pose proof (plain_separator_ok _ Hp).
  apply app_body_one; [literal|done|decided|]. apply to_string_no_soh; [done|apply (so_hb _ Hs)].
Qed.

Lemma build_resend_request_one n s : in_u64 n → sends_one s (build_resend_request n s).2.
Proof.
  intros Hn. apply sends_one_body. intros Hs. pose proof (so_sep _ Hs) as Hp. pose proof (plain_separator_ok _ Hp).
  apply app_body_cons; [done|decided|by apply to_string_no_soh|decided|].
  apply app_body_one; [literal|done|decided|literal].
Qed.

Lemma build_reject_one n text s :
  in_u64 n → (plain_separator (soh_ s) → soh_ s ∉ text) → sends_one s (build_reject n text s).2.
Proof.
  intros Hn Ht. apply sends_one_body. intros Hs. pose proof (so_sep _ Hs) as Hp. pose proof (plain_separator_ok _ Hp).
  apply app_body_cons; [done|decided|by apply to_string_no_soh|decided|].
  apply app_body_one; [literal|done|decided|by apply Ht].
Qed.

Lemma heartbeat_one s : sends_one s (send_heartbeat s).2.
Proof.
  apply sends_one_body. intros Hs. pose proof (so_sep _ Hs) as Hp. split; [literal|].
  split; [by apply Forall_nil_2|]. split; [apply NoDup_nil_2|]. apply Forall_forall. intros t _. apply not_elem_of_nil.
Qed.

Lemma test_message_one mt v s :
  (plain_separator (soh_ s) → soh_ s ∉ mt ∧ soh_ s ∉ v) →
  sends_one s (build_message [(tag_MsgType, mt); (tag_TestReqID, v)] s).2.
Proof.
  intros Hv. apply sends_one_body. intros Hs. destruct (Hv (so_sep _ Hs)).
  apply app_body_one; [done|done|decided|done].
Qed.

(** The invariant after a step that sends at most one message. *)
Definition keeps_ok (s s' : Session) : Prop :=
  EnvLaws (soh_ s) → sess_ok s → out_seq_ s + 1 < two64 → sess_ok s' ∧ out_seq_ s' ≤ out_seq_ s + 1.

Lemma sends_keeps s s' : sends_one s s' → keeps_ok s s'.
Proof. intros Ho Henv Hs Hlt. destruct (Ho Henv Hs Hlt). split; [done|lia]. Qed.
Lemma idle_keeps s s' :
  soh_ s' = soh_ s → cfg_ s' = cfg_ s → out_seq_ s' = out_seq_ s → history_ s' = history_ s → keeps_ok s s'.
Proof. intros. intros Henv Hs Hlt. split; [by apply (sess_ok_same s)|lia]. Qed.

Lemma reset_ok s : sess_ok s → sess_ok (set_history [] (set_out_seq 0 (set_in_seq 0 s))).
Proof.
  intros [? ? ? ? Hcap ? []]. split; try done. split; [|done|by apply Forall_nil_2].
  change (zlen (@nil OutboundRecord) = Z.min (outbound_history_size (cfg_ s)) 0). rewrite zlen_nil. lia.
Qed.

Lemma set_target_ok t s : soh_ s ∉ t → sess_ok s → sess_ok (set_cfg (set_target t (cfg_ s)) s).
Proof. intros Ht [? ? ? ? ? ? []]. split; try done; by split. Qed.

Lemma handle_logon_ok m sq s : clean (soh_ s) m → keeps_ok s (handle_logon m sq s).2.
Proof.
  intros Hm Henv Hs Hlt. unfold handle_logon, steady_now.
  set (s0 := if reset_on_logon (cfg_ s) then _ else _).
  assert (sess_ok s0 ∧ out_seq_ s0 ≤ out_seq_ s ∧ soh_ s0 = soh_ s) as (H0 & Ho & Hsoh).
  { unfold s0. pose proof (so_seq _ Hs). destruct (reset_on_logon (cfg_ s)); [|done].
    split; [by apply reset_ok|]. split; [cbn; lia|done]. }
  match goal with |- context [set_timers_armed true ?x] => set (s1 := set_timers_armed true x) end.
  assert (sess_ok s1) as H1 by (by apply (sess_ok_same s0)).
  change (out_seq_ s0) with (out_seq_ s1) in Ho. change (soh_ s0) with (soh_ s1) in Hsoh. clearbody s1.
  clear s0 H0. destruct (match get tag_TargetCompID m with Some _ => _ | None => _ end); [split; [done|cbn; lia]|].
  set (s2 := match get tag_SenderCompID m with Some _ => _ | None => _ end).
  assert (sess_ok s2 ∧ out_seq_ s2 = out_seq_ s1 ∧ soh_ s2 = soh_ s1) as (H2 & Ho2 & Hsoh2).
  { unfold s2. destruct (get tag_SenderCompID m) as [t|] eqn:Ht; [|done].
    split; [|done]. apply set_target_ok; [|done]. rewrite Hsoh. by eapply clean_get. }
  clearbody s2. set (s3 := set_state LoggedIn (set_in_seq sq s2)).
  assert (sess_ok s3) as H3 by (by apply (sess_ok_same s2)).
  destruct (sent_ok mt_Logon [(108, to_string (heartbeat_secs (cfg_ s3)))] s3) as [H4 H4'];
    [change (EnvLaws (soh_ s2)); by rewrite Hsoh2, Hsoh|done|by apply logon_body_ok|change (out_seq_ s2 + 1 < two64); lia|].
  destruct (build_message _ s3) as [w s4]. cbn [snd] in *. split; [done|]. change (out_seq_ s3) with (out_seq_ s2) in H4'. lia.
Qed.

Lemma dispatch_ok m mt sq s st s' :
  clean (soh_ s) m → soh_ s ∉ mt → in_u64 sq → dispatch m mt sq s = Ok (st, s') → keeps_ok s s'.
Proof.
  intros Hm Hmt Hsq. assert (keeps_ok s s) as Hidle by (by apply idle_keeps). unfold dispatch.
  destruct (bool_decide _); [by intros [= _ <-]|].
  destruct (bool_decide _).
  { pose proof (test_message_one mt_Heartbeat (default [] (get tag_TestReqID m)) s) as Ho.
    destruct (build_message _ s) as [w s1]. intros [= _ <-]. apply sends_keeps, Ho. intros Hp. split; [literal|].
    destruct (get tag_TestReqID m) eqn:Hg; [by eapply clean_get|apply not_elem_of_nil]. }
  destruct (bool_decide _).
  { destruct (seq_field tag_BeginSeqNo m); try done. destruct (seq_field tag_EndSeqNo m); try done. cbn [rbind].
    destruct (handle_resend_request _ _ s) as [[ws s1]| | |] eqn:Hr; try done. intros [= _ <-].
    apply handle_resend_request_frame in Hr as (n & ->). by apply idle_keeps. }
  destruct (bool_decide _).
  { destruct (bool_decide _); [intros [= _ <-]; by apply idle_keeps|].
    pose proof (send_logout_one (B "acknowledged") s) as Ho.
    destruct (send_logout _ s) as [w s1]. intros [= _ <-]. intros Henv Hs Hlt.
    destruct (Ho ltac:(intros Hp; literal) Henv Hs Hlt). split; [by apply set_state_ok|cbn in *; lia]. }
  destruct (_ || _); [by intros [= _ <-]|]. destruct (_ || _); [by intros [= _ <-]|].
  pose proof (build_reject_one sq (B "unsupported MsgType=" ++ mt) s Hsq) as Ho.
  destruct (build_reject _ _ s) as [w s1]. intros [= _ <-]. apply sends_keeps, Ho. intros Hp.
  rewrite elem_of_app. intros [Hin|Hin]; [|done]. revert Hin. change (soh_ s ∉ B "unsupported MsgType="). literal.
Qed.

Lemma msg_type_clean soh m : clean soh m → soh ∉ msg_type m.
Proof.
  intros Hm. unfold msg_type. destruct (fields m !! tag_MsgType) eqn:Hg; [exact (Hm _ _ Hg)|apply not_elem_of_nil].
Qed.
Lemma seq_range m n : seq m = Ok n → in_u64 n.
Proof. unfold seq. destruct (_ !! _); [apply stoull_range|by intros [= <-]]. Qed.

Lemma handle_message_ok m s st s' :
  clean (soh_ s) m → handle_message m s = Ok (st, s') → keeps_ok s s'.
Proof.
  intros Hm. unfold handle_message. destruct (seq m) as [sq| | |] eqn:Hsq; try done. cbn [rbind].
  apply seq_range in Hsq. destruct (bool_decide _).
  { destruct (negb _); [intros [= _ <-]; by apply idle_keeps|]. intros [= He].
    pose proof (handle_logon_ok m sq s Hm) as Hl. by rewrite He in Hl. }
  destruct (_ >? _).
  { pose proof (build_resend_request_one (u64 (in_seq_ s + 1)) s (u64_range _)) as Ho.
    destruct (build_resend_request _ s). intros [= _ <-]. by apply sends_keeps. }
  destruct (_ && _).
  { pose proof (send_logout_one (B "MsgSeqNum too low") s) as Ho. destruct (send_logout _ s). intros [= _ <-].
    apply sends_keeps, Ho. intros Hp. literal. }
  intros Hd. apply (dispatch_ok m _ sq (set_in_seq sq s)) in Hd; [|done|by apply msg_type_clean|done].
  intros Henv Hs Hlt. apply Hd; [done| |done]. by apply (sess_ok_same s).
Qed.

Lemma receive_ok fuel : ∀ total s st s',
  EnvLaws (soh_ s) → sess_ok s → zlen (in_buf_ s) < two64 - 7 →
  out_seq_ s + zlen (in_buf_ s) < two64 → receive fuel total s = Ok (st, s') →
  sess_ok s' ∧ out_seq_ s' + zlen (in_buf_ s') ≤ out_seq_ s + zlen (in_buf_ s).
Proof.
  induction fuel as [|fuel IH]; intros total s st s' Henv Hs Hl Hlt He;
    (destruct (decide (in_buf_ s = [])) as [Hn|Hn]; [rewrite receive_nil in He by done; by injection He as <- <-|]).
  { cbn [receive] in He. by destruct (in_buf_ s). }
  assert (0 < zlen (in_buf_ s)) as Hpos by (destruct (in_buf_ s); [done|rewrite zlen_cons; pose proof (zlen_nonneg l); lia]).
  pose proof (plain_separator_ok _ (so_sep _ Hs)) as Hsep. rewrite receive_S in He by done.
  destruct (parse_one (soh_ s) (in_buf_ s)) as [pr| | |] eqn:Hp; try done. cbn [rbind] in He.
  assert (∀ w s1, send_logout (B "malformed message") s = (w, s1) →
    sess_ok (set_in_buf [] s1) ∧ out_seq_ (set_in_buf [] s1) + zlen (in_buf_ (set_in_buf [] s1)) ≤
      out_seq_ s + zlen (in_buf_ s)) as Hbad.
  { intros w s1 Hw. pose proof (send_logout_one (B "malformed message") s) as Ho. rewrite Hw in Ho.
    destruct (Ho ltac:(intros Hpl; literal) Henv Hs) as [H1 H2]; [lia|]. cbn [snd] in *. split; [by apply (sess_ok_same s1)|].
    change (out_seq_ s1 + 0 ≤ out_seq_ s + zlen (in_buf_ s)). lia. }
  destruct (err pr) eqn:Herr;
    try (destruct (send_logout _ s) as [w s1] eqn:Hw; injection He as <- <-; exact (Hbad w s1 eq_refl));
    [|by injection He as <- <-].
  destruct (handle_message (msg pr) (accept pr s)) as [[st1 s1]| | |] eqn:Hm; try done. cbn [rbind] in He.
  destruct (accept_handled _ _ _ _ Hsep Hl Hp Herr Hm) as (Hb & Hlen & Hset). pose proof Hset as (Hsoh & _).
  pose proof (parsed_clean _ _ _ Hl Hp Herr) as Hc.
  destruct (handle_message_ok _ (accept pr s) _ _ Hc Hm) as [H1 H2]; [done|by apply (sess_ok_same s)|cbn; lia|].
  change (out_seq_ (accept pr s)) with (out_seq_ s) in H2.
  assert (out_seq_ s1 + zlen (in_buf_ s1) ≤ out_seq_ s + zlen (in_buf_ s)) by (unfold zlen in *; lia).
  destruct (disconnect st1); [by injection He as <- <-|].
  apply IH in He as [H3 H4]; [|by rewrite Hsoh|done|unfold zlen in *; lia|lia]. split; [done|lia].
Qed.

Lemma tick_ok now s : keeps_ok s (tick now s).2.
Proof.
  unfold tick. destruct (negb _); [by apply idle_keeps|]. destruct (_ <=? _); [by apply idle_keeps|].
  destruct (negb _); [by apply idle_keeps|]. destruct (_ && _).
  { pose proof (test_message_one mt_TestRequest (B "tr-" ++ to_string (u64 (out_seq_ s + 1))) s) as Ho.
    destruct (build_message _ s) as [w s1]. cbn [snd] in *. intros Henv Hs Hlt.
    destruct Ho as [H1 H2]; [|done..|].
    - intros Hp. split; [literal|]. rewrite elem_of_app. intros [Hin|Hin].
      + revert Hin. change (soh_ s ∉ B "tr-"). literal.
      + revert Hin. pose proof (plain_separator_ok _ Hp). apply to_string_no_soh; [done|apply u64_range].
    - split; [by apply (sess_ok_same s1)|cbn; lia]. }
  destruct (_ && _).
  { pose proof (send_logout_one (B "heartbeat timeout") s) as Ho. destruct (send_logout _ s) as [w s1]. cbn [snd] in *.
    intros Henv Hs Hlt. destruct Ho as [H1 H2]; [intros Hp; literal|done..|].
    split; [by apply (sess_ok_same s1)|cbn; lia]. }
  destruct (_ >=? _); [|by apply idle_keeps].
  pose proof (heartbeat_one s) as Ho. destruct (send_heartbeat s). by apply sends_keeps.
Qed.

(** ** Runs of a session *)

(** One call of the public interface, before sequence numbers wrap and with
    buffers a machine can hold. Reports and logout texts come from the
    application. *)
Inductive api_step (s : Session) : Session → Prop :=
| api_bytes data st s' :
    zlen (in_buf_ s ++ data) < two64 - 7 → out_seq_ s + zlen (in_buf_ s ++ data) < two64 →
    on_bytes data s = Ok (st, s') → api_step s s'
| api_tick now : out_seq_ s + 1 < two64 → api_step s (tick now s).2
| api_logon : out_seq_ s + 1 < two64 → api_step s (initiate_logon s).2
| api_heartbeat : out_seq_ s + 1 < two64 → api_step s (send_heartbeat s).2
| api_logout text : out_seq_ s + 1 < two64 → soh_ s ∉ text → api_step s (send_logout text s).2
| api_report body :
    out_seq_ s + 1 < two64 → app_body (soh_ s) mt_ExecutionReport body →
    api_step s (send_execution_report body s).2.

Lemma receive_setup fuel : ∀ total s st s', receive fuel total s = Ok (st, s') → same_setup s s'.
Proof.
  induction fuel as [|fuel IH]; intros total s st s' He;
    (destruct (decide (in_buf_ s = [])) as [Hn|Hn]; [rewrite receive_nil in He by done; by injection He as <- <-|]).
  { cbn [receive] in He. by destruct (in_buf_ s). }
  rewrite receive_S in He by done.
  destruct (parse_one (soh_ s) (in_buf_ s)) as [pr| | |] eqn:Hp; try done. cbn [rbind] in He.
  assert (∀ w s1, send_logout (B "malformed message") s = (w, s1) → same_setup s (set_in_buf [] s1)) as Hbad.
  { intros w s1 Hw. unfold send_logout in Hw.
    pose proof (build_message_setup [(tag_MsgType, mt_Logout); (tag_Text, B "malformed message")]
      (set_state LogoutSent s)) as Hb. by rewrite Hw in Hb. }
  destruct (err pr) eqn:Herr;
    try (destruct (send_logout _ s) as [w s1] eqn:Hw; injection He as <- <-; exact (Hbad w s1 eq_refl));
    [|by injection He as <- <-].
  destruct (handle_message (msg pr) (accept pr s)) as [[st1 s1]| | |] eqn:Hm; try done. cbn [rbind] in He.
  apply handle_message_setup in Hm. change (same_setup s s1) in Hm.
  destruct (disconnect st1); [by injection He as <- <-|]. apply IH in He. by etrans.
Qed.

Lemma api_step_ok s s' : EnvLaws (soh_ s) → sess_ok s → api_step s s' → sess_ok s' ∧ soh_ s' = soh_ s.
Proof.
  intros Henv Hs Hstep. pose proof (so_sep _ Hs) as Hp. destruct Hstep as [data st s' Hl Hlt He|now Hlt|Hlt|Hlt|text Hlt Ht|body Hlt Hb].
  - unfold on_bytes in He. pose proof (receive_setup _ _ _ _ _ He) as (Hsoh & _).
    apply receive_ok in He as [Hok _]; [done|done|by apply (sess_ok_same s)|done|done].
  - split; [by apply tick_ok|].
    pose proof (build_message_setup) as Hb. unfold tick, send_logout, send_heartbeat.
    repeat (destruct (negb _) || destruct (_ <=? _) || destruct (_ && _) || destruct (_ >=? _)); try done;
      match goal with |- context [build_message ?bd ?x] => specialize (Hb bd x); destruct (build_message bd x) end;
      by destruct Hb.
  - destruct (sends_one_body mt_Logon [(108, to_string (heartbeat_secs (cfg_ s)))] (set_state LogonSent s))
      as [Hok _]; [by intros; apply (logon_body_ok (set_state LogonSent s))|done|by apply set_state_ok|done|].
    split; [exact Hok|]. apply (build_message_setup _ (set_state LogonSent s)).
  - split; [by apply heartbeat_one|apply build_message_setup].
  - split; [by apply send_logout_one|apply (build_message_setup _ (set_state LogoutSent s))].
  - split; [by apply sends_one_body|apply build_message_setup].
Qed.

Lemma new_session_ok cfg soh :
  plain_separator soh → soh ∉ sender_comp_id cfg → soh ∉ target_comp_id cfg → in_u64 (heartbeat_secs cfg) →
  0 ≤ outbound_history_size cfg → sess_ok (new_session cfg soh).
Proof.
  intros. split; try done. split; [|done|by apply Forall_nil_2].
  change (zlen (@nil OutboundRecord) = Z.min (outbound_history_size cfg) 0). rewrite zlen_nil. lia.
Qed.

(** ** Replaying a range *)

Definition overridden : list Z := [tag_PossDupFlag; tag_OrigSendingTime; tag_SendingTime].

(** [b] replays the retained message [r]: the original fields, marked as a
    possible duplicate with the original sending time. *)
Definition is_replay (soh : ascii) (r : OutboundRecord) (b : list (Z * bytes)) : Prop :=
  (tag_PossDupFlag, B "Y") ∈ b ∧ (tag_OrigSendingTime, rec_sending_time r) ∈ b ∧
  ∃ b0, rec_bytes r = build soh b0 ∧ ∀ t v, (t, v) ∈ b0 → t ∉ overridden → (t, v) ∈ b.

(** [b] announces that nothing is sent for the numbers from [n] to [n' - 1]. *)
Definition is_gap_fill (n' : SeqNum) (b : list (Z * bytes)) : Prop :=
  (tag_MsgType, mt_SequenceReset) ∈ b ∧ (tag_GapFillFlag, B "Y") ∈ b ∧ (tag_PossDupFlag, B "Y") ∈ b ∧
  (tag_NewSeqNo, to_string n') ∈ b.

(** The reply to one retained message of the range. *)
Definition replayed (soh : ascii) (r : OutboundRecord) (b : list (Z * bytes)) : Prop :=
  body_ok soh b ∧ (tag_MsgSeqNum, to_string (rec_seq r)) ∈ b ∧ is_replay soh r b.
(** The reply for numbers that are no longer retained. *)
Definition gap_filled (soh : ascii) (n n' : SeqNum) (b : list (Z * bytes)) : Prop :=
  body_ok soh b ∧ (tag_MsgSeqNum, to_string n) ∈ b ∧ is_gap_fill n' b.

(** The retained messages with numbers from [n] to [last]. *)
Definition asked_for (n last : SeqNum) (recs : list OutboundRecord) : list OutboundRecord :=
  filter (λ r, n ≤ rec_seq r ≤ last) recs.

Lemma seqZ_nil n m : m ≤ 0 → seqZ n m = [].
Proof. intros Hm. unfold seqZ. by rewrite Z2Nat.nonpos by lia. Qed.

Lemma asked_none n last k recs :
  rec_seq <$> recs = seqZ k (zlen recs) → (∀ x, k ≤ x < k + zlen recs → ¬ n ≤ x ≤ last) → asked_for n last recs = [].
Proof.
  revert k. induction recs as [|r recs IH]; intros k; [done|]. rewrite zlen_cons. pose proof (zlen_nonneg recs).
  rewrite seqZ_cons by lia. intros [= Hk Hseq] Hno. replace (Z.pred (zlen recs + 1)) with (zlen recs) in Hseq by lia.
  unfold asked_for. rewrite filter_cons_False by (rewrite Hk; apply Hno; lia). apply (IH (Z.succ k)); [done|].
  intros x Hx. apply Hno. lia.
Qed.

(** Nothing is retained in front of the first number. *)
Lemma asked_from k n last recs :
  rec_seq <$> recs = seqZ k (zlen recs) → n ≤ k → asked_for n last recs = asked_for k last recs.
Proof.
  revert k n. induction recs as [|r recs IH]; intros k n; [done|]. rewrite zlen_cons. pose proof (zlen_nonneg recs).
  rewrite seqZ_cons by lia. intros [= Hk Hseq] Hn. replace (Z.pred (zlen recs + 1)) with (zlen recs) in Hseq by lia.
  unfold asked_for in *. rewrite !filter_cons, (IH _ n Hseq), (IH _ k Hseq) by lia.
  destruct (decide (n ≤ rec_seq r ≤ last)), (decide (k ≤ rec_seq r ≤ last)); (done || lia).
Qed.

Lemma asked_numbers n last k recs :
  rec_seq <$> recs = seqZ k (zlen recs) →
  rec_seq <$> asked_for n last recs = seqZ (Z.max n k) (Z.min last (k + zlen recs - 1) + 1 - Z.max n k).
Proof.
  revert k. induction recs as [|r recs IH]; intros k Hseq; [by rewrite seqZ_nil by (rewrite zlen_nil; lia)|].
  rewrite zlen_cons in Hseq |- *. pose proof (zlen_nonneg recs). rewrite seqZ_cons in Hseq by lia. injection Hseq as Hk Hseq.
  replace (Z.pred (zlen recs + 1)) with (zlen recs) in Hseq by lia. specialize (IH _ Hseq). unfold asked_for in *.
  rewrite filter_cons. destruct (decide (n ≤ rec_seq r ≤ last)) as [Hin|Hout].
  - rewrite fmap_cons, IH, Hk. replace (Z.max n k) with k by lia. rewrite (seqZ_cons k) by lia. f_equal.
    replace (Z.max n (Z.succ k)) with (Z.succ k) by lia. f_equal. lia.
  - rewrite IH. destruct (decide (n ≤ k)).
    + rewrite !seqZ_nil by lia. done.
    + replace (Z.max n (Z.succ k)) with (Z.max n k) by lia. f_equal. lia.
Qed.

Lemma wire_fields_NoDup soh b : body_ok soh b → NoDup (wire_fields soh b).*1.
Proof.
  intros Hb. unfold wire_fields. rewrite app_assoc, fmap_app. apply NoDup_app. split; [by apply (body_tags soh)|].
  split; [|apply NoDup_singleton]. intros t Ht ->%list_elem_of_singleton.
  destruct Hb as (_ & _ & Hres). rewrite !Forall_cons in Hres. destruct Hres as (_ & _ & H10 & _).
  rewrite fmap_app in Ht. apply elem_of_app in Ht as [Ht|Ht]; [|done].
  by apply checksum_not_header in Ht.
Qed.

Lemma NoDup_filter_keys {A B} (P : A * B → Prop) `{!∀ x, Decision (P x)} (l : list (A * B)) :
  NoDup l.*1 → NoDup (filter P l).*1.
Proof.
  induction l as [|x l IH]; [done|]. rewrite fmap_cons. intros [Hx Hl]%NoDup_cons. rewrite filter_cons.
  destruct (decide (P x)); [|by apply IH]. rewrite fmap_cons. apply NoDup_cons. split; [|by apply IH].
  intros (y & Heq & Hy)%list_elem_of_fmap. apply Hx. apply list_elem_of_filter in Hy as [_ Hy].
  apply list_elem_of_fmap. by exists y.
Qed.

(** The copied fields of a retained message are those of its body. *)
Lemma copied_fields soh b (L : EnvLaws soh) bs :
  body_ok soh b →
  filter (λ kv : Z * bytes, kv.1 ∉ not_copied) (env_iter bs (list_to_map (wire_fields soh b))) ≡ₚ
    filter (λ kv : Z * bytes, kv.1 ∉ not_copied) b.
Proof.
  intros Hb. rewrite env_iter_perm, map_to_list_to_map by (by apply wire_fields_NoDup).
  unfold wire_fields, wire_header. cbn [Datatypes.app].
  rewrite filter_cons_False by (cbn [fst]; intros Hn; apply Hn; decided).
  rewrite filter_cons_False by (cbn [fst]; intros Hn; apply Hn; decided).
  rewrite filter_app, (filter_cons_False _ (tag_CheckSum, _)) by (cbn [fst]; intros Hn; apply Hn; decided).
  by rewrite filter_nil, app_nil_r.
Qed.

Lemma body_value soh b t v :
  body_ok soh b → (t, v) ∈ b → (list_to_map (wire_fields soh b) : gmap Z bytes) !! t = Some v.
Proof.
  intros Hb Hin. apply elem_of_list_to_map; [by apply wire_fields_NoDup|]. unfold wire_fields.
  rewrite !elem_of_app. tauto.
Qed.

(** The copied fields between the message type and the overridden ones. *)
Lemma replayed_body_ok soh b0 (F : list (Z * bytes)) mt now orig :
  plain_separator soh → body_ok soh b0 → (∀ t v, (t, v) ∈ F ↔ (t, v) ∈ b0 ∧ t ∉ not_copied) → NoDup F.*1 →
  (tag_MsgType, mt) ∈ b0 → soh ∉ now → soh ∉ orig →
  body_ok soh ((tag_MsgType, mt) :: F ++
    [(tag_SendingTime, now); (tag_OrigSendingTime, orig); (tag_PossDupFlag, B "Y")]).
Proof.
  intros Hp (Hok & Hnd & Hres) HF HndF Hmt Hnow Horig. rewrite Forall_forall in Hok. rewrite Forall_forall in Hres.
  assert (∀ t, t ∈ F.*1 → t ∈ b0.*1 ∧ t ∉ not_copied) as Htags.
  { intros t ([t' v] & -> & [Hin Hn]%HF)%list_elem_of_fmap. split; [|done].
    apply list_elem_of_fmap. by exists (t', v). }
  split; [|split].
  - apply Forall_cons. split; [exact (Hok _ Hmt)|]. apply Forall_app. split.
    { apply Forall_forall. intros [t v] [Hin _]%HF. exact (Hok _ Hin). }
    repeat apply Forall_cons_2; try apply Forall_nil_2; (split; [unfold_tags; lia|]); cbn [snd]; [done|done|literal].
  - cbn [fmap list_fmap fst]. apply NoDup_cons. rewrite fmap_app. split.
    { rewrite elem_of_app. intros [[_ Hn]%Htags|Hin]; [apply Hn; decided|]. revert Hin. decided. }
    apply NoDup_app. split; [done|]. split; [|decided].
    intros t [_ Hn]%Htags Hin. apply Hn. revert t Hin Hn. clear. intros t Hin _.
    cbn in Hin. repeat (apply elem_of_cons in Hin as [->|Hin]; [decided|]). by apply not_elem_of_nil in Hin.
  - apply Forall_forall. intros t Ht. cbn [fmap list_fmap fst]. rewrite fmap_app, elem_of_cons, elem_of_app.
    intros [->|[[Hin _]%Htags|Hin]]; [|by apply (Hres t Ht)|].
    + apply (Hres _ Ht). apply list_elem_of_fmap. by exists (tag_MsgType, mt).
    + revert Ht. cbn in Hin. repeat (apply elem_of_cons in Hin as [->|Hin]; [decided|]). by apply not_elem_of_nil in Hin.
Qed.

Lemma replay_body_spec r b0 now soh :
  EnvLaws soh → plain_separator soh → rec_bytes r = build soh b0 → body_ok soh b0 → soh ∉ now →
  (tag_SendingTime, rec_sending_time r) ∈ b0 → (∃ mt, (tag_MsgType, mt) ∈ b0) →
  (tag_MsgSeqNum, to_string (rec_seq r)) ∈ b0 →
  let b := replay_body r (mkMessage (list_to_map (wire_fields soh b0))) now in
  body_ok soh b ∧ (tag_MsgSeqNum, to_string (rec_seq r)) ∈ b ∧ is_replay soh r b.
Proof.
  intros Henv Hp Hw Hb Hnow Hst [mt Hmt] Hseq b.
  pose proof (copied_fields soh b0 Henv (rec_bytes r) Hb) as HF.
  set (F := filter _ (env_iter _ _)) in HF.
  assert (b = (tag_MsgType, mt) :: F ++
    [(tag_SendingTime, now); (tag_OrigSendingTime, rec_sending_time r); (tag_PossDupFlag, B "Y")]) as Heq.
  { unfold b, replay_body. cbn [fields]. by rewrite (body_value soh b0 tag_MsgType mt Hb Hmt). }
  clearbody F b. subst b.
  assert (∀ t v, (t, v) ∈ F ↔ (t, v) ∈ b0 ∧ t ∉ not_copied) as HF'.
  { intros t v. rewrite HF, list_elem_of_filter. cbn. tauto. }
  pose proof Hb as (Hok & Hnd & Hres). rewrite Forall_forall in Hok. rewrite Forall_forall in Hres.
  split; [|split].
  - apply (replayed_body_ok soh b0); try done; [|exact (proj2 (Hok _ Hst))]. rewrite HF. by apply NoDup_filter_keys.
  - right. apply elem_of_app. left. apply HF'. split; [done|decided].
  - split; [|split].
    + right. apply elem_of_app. right. rewrite !elem_of_cons. tauto.
    + right. apply elem_of_app. right. rewrite !elem_of_cons. tauto.
    + exists b0. split; [done|]. intros t v Hin Hov. destruct (decide (t = tag_MsgType)) as [->|Hne].
      * apply (body_value soh b0) in Hin; [|done]. rewrite (body_value soh b0 _ mt Hb Hmt) in Hin.
        injection Hin as <-. left.
      * right. apply elem_of_app. left. apply HF'. split; [done|].
        assert (t ∈ b0.*1) as Ht by (apply list_elem_of_fmap; by exists (t, v)).
        unfold not_copied. unfold overridden in Hov. rewrite !not_elem_of_cons in Hov. rewrite !not_elem_of_cons.
        destruct Hov as (? & ? & ? & _). split_and!;
          first [done | apply not_elem_of_nil | intros ->; (eapply Hres; [|exact Ht]); decided].
Qed.

(** The loop over retained messages with consecutive numbers from [k] on. *)
Lemma replay_spec soh cursor last recs : ∀ k acc s,
  EnvLaws soh → plain_separator soh → soh_ s = soh →
  rec_seq <$> recs = seqZ k (zlen recs) → Forall (λ r, rec_ok soh r ∧ zlen (rec_bytes r) < two64) recs →
  ∃ bodies s', replay cursor last recs acc s = Ok (acc ++ (build soh <$> bodies), s') ∧
    Forall2 (replayed soh) (asked_for cursor last recs) bodies.
Proof.
  induction recs as [|r recs IH]; intros k acc s Henv Hp Hs Hseq Hok; cbn [replay].
  { exists [], s. split; [by rewrite app_nil_r|constructor]. }
  apply Forall_cons in Hok as [(Hr & Hl) Hok]. pose proof Hseq as Hseq0. rewrite zlen_cons in Hseq.
  pose proof (zlen_nonneg recs). rewrite seqZ_cons in Hseq by lia. injection Hseq as Hk Hseq.
  replace (Z.pred (zlen recs + 1)) with (zlen recs) in Hseq by lia.
  destruct (Z.ltb_spec (rec_seq r) cursor).
  { destruct (IH (Z.succ k) acc s Henv Hp Hs) as (bodies & s' & He & Ht); [done|done|].
    exists bodies, s'. split; [done|]. unfold asked_for. by rewrite filter_cons_False by lia. }
  destruct (Z.gtb_spec (rec_seq r) last).
  { exists [], s. split; [by rewrite app_nil_r|]. rewrite (asked_none _ _ k); [constructor|done|]. lia. }
  destruct Hr as (b0 & Hb & Hbok & Hsq & Hst & Hmt). rewrite Hs.
  pose proof (plain_separator_ok _ Hp).
  pose proof (build_parses soh b0 [] Hbok) as Hpar. rewrite app_nil_r, <- Hb in Hpar. rewrite Hpar by done.
  cbn [rbind err msg]. rewrite bool_decide_true by done. cbn [negb]. unfold default_now.
  pose proof (replay_body_spec r b0 (env_now (now_calls s)) soh Henv Hp Hb Hbok (env_now_clean _) Hst Hmt Hsq) as Hrep.
  set (b := replay_body r _ _) in *.
  destruct (IH (Z.succ k) (acc ++ [build soh b]) (set_now_calls (S (now_calls s)) s) Henv Hp Hs)
    as (bodies & s' & He & Ht); [done|done|].
  exists (b :: bodies), s'. change (soh_ (set_now_calls (S (now_calls s)) s)) with (soh_ s). rewrite Hs, He.
  split; [by rewrite fmap_cons, <- app_assoc|]. unfold asked_for. rewrite filter_cons_True by lia. by constructor.
Qed.

Lemma gap_fill_ok begin n now s :
  sess_ok s → soh_ s ∉ now → in_u64 begin → in_u64 n →
  body_ok (soh_ s) (gap_fill begin n now s) ∧ (tag_MsgSeqNum, to_string begin) ∈ gap_fill begin n now s ∧
  is_gap_fill n (gap_fill begin n now s).
Proof.
  intros Hs Hnow Hb Hn. pose proof (so_sep _ Hs) as Hp. pose proof (plain_separator_ok _ Hp).
  unfold gap_fill. split; [split; [|split]|split].
  - repeat apply Forall_cons_2; try apply Forall_nil_2; (split; [unfold_tags; lia|]); cbn [snd];
      [literal|apply Hs|apply Hs|by apply to_string_no_soh|done|literal|literal|by apply to_string_no_soh].
  - cbn [fmap list_fmap fst]. decided.
  - cbn [fmap list_fmap fst]. decided.
  - rewrite !elem_of_cons. tauto.
  - unfold is_gap_fill. rewrite !elem_of_cons. tauto.
Qed.

(** The answer to a ResendRequest: [n] is the first number that is replayed. *)
Lemma resend_answer begin last s :
  EnvLaws (soh_ s) → sess_ok s → Forall (λ r, zlen (rec_bytes r) < two64) (history_ s) →
  out_seq_ s + 1 < two64 → 0 < begin → 0 ≤ last → last + 1 < two64 →
  let last' := if last =? 0 then out_seq_ s else last in
  begin ≤ last' → begin ≤ out_seq_ s →
  ∃ n gaps bodies s', handle_resend_request begin last s = Ok (build (soh_ s) <$> gaps ++ bodies, s') ∧
    (n = begin ∧ gaps = [] ∨ begin < n ∧ ∃ g, gaps = [g] ∧ gap_filled (soh_ s) begin n g) ∧
    n ≤ Z.min last' (out_seq_ s) + 1 ∧
    rec_seq <$> asked_for begin last' (history_ s) = seqZ n (Z.min last' (out_seq_ s) + 1 - n) ∧
    Forall2 (replayed (soh_ s)) (asked_for begin last' (history_ s)) bodies.
Proof.
  intros Henv Hs Hsz Hout Hb Hl0 Hl last' Hle Hle'. pose proof (so_sep _ Hs) as Hp.
  destruct (so_ring _ Hs) as [Hlen Hseq Hrecs]. pose proof (so_cap _ Hs). pose proof (zlen_nonneg (history_ s)).
  assert (last' + 1 < two64) as Hlast by (unfold last'; destruct (_ =? _); lia).
  unfold handle_resend_request. fold last'. cbn zeta.
  destruct (Z.eqb_spec begin 0); [lia|]. destruct (Z.gtb_spec begin last'); [lia|].
  destruct (Z.gtb_spec begin (out_seq_ s)); [lia|]. cbn [orb].
  set (oldest := match history_ s with [] => _ | r :: _ => _ end).
  assert (oldest = out_seq_ s - zlen (history_ s) + 1) as Hold.
  { unfold oldest. destruct (history_ s) as [|r recs]; [rewrite zlen_nil, u64_small; [lia|unfold in_u64; lia]|].
    rewrite zlen_cons in Hseq |- *. pose proof (zlen_nonneg recs). rewrite seqZ_cons in Hseq by lia.
    by injection Hseq as ->. }
  rewrite <- Hold in Hseq. pose proof (asked_numbers begin last' _ _ Hseq) as Hnum.
  replace (oldest + zlen (history_ s) - 1) with (out_seq_ s) in Hnum by lia.
  assert (Forall (λ r, rec_ok (soh_ s) r ∧ zlen (rec_bytes r) < two64) (history_ s)) as Hall by (rewrite Forall_forall in *; auto).
  rewrite (u64_small (last' + 1)) by (unfold in_u64; lia). unfold default_now.
  destruct (Z.ltb_spec begin oldest) as [Hgap|Hno].
  - set (nn := Z.min oldest (last' + 1)). rewrite Z.max_r in Hnum by lia.
    pose proof (gap_fill_ok begin nn (env_now (now_calls s)) s Hs (env_now_clean _) ltac:(unfold in_u64; lia) ltac:(unfold in_u64; lia)) as Hg.
    set (g := gap_fill _ _ _ _) in *.
    change (gap_fill begin nn (env_now (now_calls s)) (set_now_calls (S (now_calls s)) s)) with g.
    change (soh_ (set_now_calls (S (now_calls s)) s)) with (soh_ s).
    destruct (Z.gtb_spec nn last').
    + exists nn, [g], []. eexists. split; [done|]. split; [right; split; [lia|by exists g]|]. split; [lia|].
      rewrite (asked_none begin last' oldest) by (done || lia). split; [by rewrite seqZ_nil by lia|constructor].
    + destruct (replay_spec (soh_ s) nn last' (history_ s) oldest [build (soh_ s) g] (set_now_calls (S (now_calls s)) s))
        as (bodies & s' & He & Ht); [done..|]. exists oldest, [g], bodies, s'. replace nn with oldest in * by lia.
      split; [exact He|]. split; [right; split; [done|by exists g]|]. split; [lia|]. split; [done|].
      rewrite (asked_from oldest begin last' (history_ s)) by (done || lia). exact Ht.
  - destruct (Z.gtb_spec begin last'); [lia|].
    destruct (replay_spec (soh_ s) begin last' (history_ s) oldest [] s) as (bodies & s' & He & Ht); [done..|].
    exists begin, [], bodies, s'. rewrite Z.max_l in Hnum by lia. split; [done|]. split; [by left|]. split; [lia|]. split; done.
Qed.

End resend.
