(* ===== verification/UtcClock.v ===== *)
(** * The wall clock text

    Models [utc_now] of [src/fix/session.cpp], which stamps every message when
    no clock is installed: the milliseconds and seconds of the system clock,
    [gmtime_r], and [snprintf] into a buffer of 32 bytes. A reading of the
    clock is a number of nanoseconds since 1970. The calendar of [gmtime_r] is
    written as a walk over years and months and compared with the closed
    formula POSIX gives for seconds since the epoch; the text is read back to
    the time it was made from. The session built on this clock satisfies the
    laws the session theorems assume of theirs. *)

From S2P Require Import Prelude Types Text Messages Session SessionProps Resend.

(** ** The calendar *)

Definition is_leap (y : Z) : bool := (y mod 4 =? 0) && (negb (y mod 100 =? 0) || (y mod 400 =? 0)).
Definition year_days (y : Z) : Z := if is_leap y then 366 else 365.
Definition month_days (y : Z) : list Z :=
  [31; if is_leap y then 29 else 28; 31; 30; 31; 30; 31; 31; 30; 31; 30; 31].

(** [std::tm]: years count from 1900 and months from 0. *)
Record tm := mkTm { tm_year : Z; tm_mon : Z; tm_mday : Z; tm_hour : Z; tm_min : Z; tm_sec : Z }.

(** Day [d] counted from the first of January of year [y]: its year and the
    day within it. *)
Fixpoint year_walk (fuel : nat) (y d : Z) : Z * Z :=
  match fuel with
  | O => (y, d)
  | S fuel => if d <? year_days y then (y, d) else year_walk fuel (y + 1) (d - year_days y)
  end.

(** Day [d] of the year, from 0: its month, from [m] on, and the day within. *)
Fixpoint month_walk (ls : list Z) (m d : Z) : Z * Z :=
  match ls with
  | [] => (m, d)
  | n :: ls => if d <? n then (m, d) else month_walk ls (m + 1) (d - n)
  end.

(** [gmtime_r]: the calendar repeats every 400 years, 146097 days. *)
Definition gmtime (t : Z) : tm :=
  let days := t / 86400 in
  let rest := t mod 86400 in
  let '(y, d) := year_walk 400 (1970 + 400 * (days / 146097)) (days mod 146097) in
  let '(m, d) := month_walk (month_days y) 0 d in
  mkTm (y - 1900) m (d + 1) (rest / 3600) (rest mod 3600 / 60) (rest mod 60).

(** ** The text *)

(** [%0wd]: the sign counts as a column. *)
Definition zpad (w : nat) (n : Z) : bytes := replicate (w - length (dec 20 n)) "0"%char ++ dec 20 n.
Definition fmt0 (w : nat) (z : Z) : bytes := if z <? 0 then "-"%char :: zpad (w - 1) (- z) else zpad w z.

(** [snprintf] into [n] bytes keeps [n - 1] characters. *)
Definition snprintf (n : nat) (s : bytes) : bytes := take (n - 1) s.

(** The format "%04d%02d%02d-%02d:%02d:%02d.%03lld". *)
Definition stamp (t : tm) (ms : Z) : bytes :=
  fmt0 4 (tm_year t + 1900) ++ fmt0 2 (tm_mon t + 1) ++ fmt0 2 (tm_mday t) ++ B "-" ++ fmt0 2 (tm_hour t) ++
  B ":" ++ fmt0 2 (tm_min t) ++ B ":" ++ fmt0 2 (tm_sec t) ++ B "." ++ fmt0 3 ms.

(** [utc_now] when the clock reads [now]; both conversions of durations
    truncate towards zero. *)
Definition utc_now (now : Z) : bytes :=
  snprintf 32 (stamp (gmtime (Z.quot now 1000000000)) (Z.rem (Z.quot now 1000000) 1000)).

(** The environment of a session without an injected clock: the wall clock
    reads [wall n] at its [n]-th call. *)
Definition system_env (wall clock : nat → Z) (iter : bytes → gmap Z bytes → list (Z * bytes)) : Env :=
  {| env_now n := utc_now (wall n); env_clock := clock; env_iter := iter |}.

(** ** The reference: seconds since the epoch *)

(** Days from 1970 to the first of January of [y], the terms of the POSIX
    formula. *)
Definition days_before (y : Z) : Z :=
  365 * (y - 1970) + (y - 1969) / 4 - (y - 1901) / 100 + (y - 1601) / 400.
Definition timegm (t : tm) : Z :=
  let y := tm_year t + 1900 in
  let days := days_before y + sumz (take (Z.to_nat (tm_mon t)) (month_days y)) + (tm_mday t - 1) in
  days * 86400 + tm_hour t * 3600 + tm_min t * 60 + tm_sec t.

(** A date of the calendar and a time of day. *)
Definition tm_valid (t : tm) : Prop :=
  0 ≤ tm_mon t < 12 ∧ 1 ≤ tm_mday t ≤ default 0 (month_days (tm_year t + 1900) !! Z.to_nat (tm_mon t)) ∧
  0 ≤ tm_hour t < 24 ∧ 0 ≤ tm_min t < 60 ∧ 0 ≤ tm_sec t < 60.

Ltac divmod := Z.to_euclidean_division_equations; lia.

Lemma days_before_succ y : days_before (y + 1) = days_before y + year_days y.
Proof.
  unfold days_before, year_days, is_leap.
  destruct (Z.eqb_spec (y mod 4) 0), (Z.eqb_spec (y mod 100) 0), (Z.eqb_spec (y mod 400) 0); cbn [andb orb negb];
    divmod.
Qed.
Lemma days_before_era y k : days_before (y + 400 * k) = days_before y + 146097 * k.
Proof. unfold days_before. divmod. Qed.
Lemma days_before_mono y y' : y ≤ y' → days_before y ≤ days_before y'.
Proof. unfold days_before. divmod. Qed.

Lemma year_walk_spec fuel : ∀ y d y' d',
  0 ≤ d < days_before (y + Z.of_nat fuel) - days_before y → year_walk fuel y d = (y', d') →
  days_before y' + d' = days_before y + d ∧ 0 ≤ d' < year_days y'.
Proof.
  induction fuel as [|fuel IH]; intros y d y' d' Hd; cbn [year_walk].
  - replace (y + Z.of_nat 0) with y in Hd by lia. lia.
  - destruct (Z.ltb_spec d (year_days y)); [intros [= <- <-]; lia|]. intros Hw. apply IH in Hw.
    + pose proof (days_before_succ y). lia.
    + pose proof (days_before_succ y). replace (y + 1 + Z.of_nat fuel) with (y + Z.of_nat (S fuel)) by lia. lia.
Qed.

Lemma month_walk_spec ls : ∀ m d m' d',
  0 ≤ d < sumz ls → month_walk ls m d = (m', d') →
  m ≤ m' < m + zlen ls ∧ sumz (take (Z.to_nat (m' - m)) ls) + d' = d ∧
  ∃ n, ls !! Z.to_nat (m' - m) = Some n ∧ 0 ≤ d' < n.
Proof.
  induction ls as [|n ls IH]; intros m d m' d' Hd; cbn [month_walk]; [cbn in Hd; lia|].
  rewrite sumz_cons in Hd. rewrite zlen_cons. destruct (Z.ltb_spec d n).
  - intros [= <- <-]. rewrite Z.sub_diag. pose proof (zlen_nonneg ls). split; [lia|]. split; [done|].
    exists n. split; [done|lia].
  - intros Hw. apply IH in Hw as (Hm & Hs & n' & Hn & Hd'); [|lia].
    replace (Z.to_nat (m' - m)) with (S (Z.to_nat (m' - (m + 1)))) by lia. cbn [take].
    rewrite sumz_cons. split; [lia|]. split; [lia|]. by exists n'.
Qed.

Lemma month_days_total y : sumz (month_days y) = year_days y ∧ zlen (month_days y) = 12.
Proof. unfold month_days, year_days. by destruct (is_leap y). Qed.

Lemma month_days_max y i : default 0 (month_days y !! i) ≤ 31.
Proof.
  assert (Forall (λ n, n ≤ 31) (month_days y)) as Hall.
  { unfold month_days. destruct (is_leap y); repeat constructor; lia. }
  destruct (_ !! _) as [n|] eqn:Hn; [|done]. rewrite Forall_lookup in Hall. by eapply Hall.
Qed.

Lemma gmtime_spec t : tm_valid (gmtime t) ∧ timegm (gmtime t) = t.
Proof.
  unfold gmtime. destruct (year_walk _ _ _) as [y d] eqn:Hy. destruct (month_walk _ _ _) as [m d'] eqn:Hm.
  apply year_walk_spec in Hy as [Hy Hd].
  2: { change (Z.of_nat 400) with (400 * 1). rewrite (days_before_era _ 1). pose proof (Z.mod_pos_bound (t / 86400) 146097). lia. }
  destruct (month_days_total y) as [Ht Hl]. apply month_walk_spec in Hm as (Hm & Hs & n & Hn & Hd'); [|lia].
  rewrite Z.sub_0_r in *. rewrite days_before_era in Hy. assert (days_before 1970 = 0) as H0 by done. rewrite H0 in Hy.
  unfold tm_valid, timegm. cbn [tm_year tm_mon tm_mday tm_hour tm_min tm_sec].
  replace (y - 1900 + 1900) with y by lia. rewrite Hn. cbn [from_option Datatypes.id].
  split; [|divmod]. split; [lia|]. split; [lia|]. divmod.
Qed.

(** ** Padding *)

Lemma dec_length fuel n : ∀ w, (0 < w)%nat → n < 10 ^ Z.of_nat w → (length (dec fuel n) ≤ w)%nat.
Proof.
  revert n. induction fuel as [|fuel IH]; intros n w Hw Hn; cbn [dec]; [cbn; lia|].
  destruct (Z.ltb_spec n 10); [cbn; lia|]. rewrite length_app. cbn [length].
  destruct w as [|[|w]]; [lia|cbn in Hn; lia|]. rewrite Nat2Z.inj_succ, Z.pow_succ_r in Hn by lia.
  assert (n / 10 < 10 ^ Z.of_nat (S w)) by (apply Z.div_lt_upper_bound; lia).
  specialize (IH (n / 10) (S w)). lia.
Qed.

Lemma acc_value_zeros k s : acc_value 0 (replicate k "0"%char ++ s) = acc_value 0 s.
Proof. induction k as [|k IH]; [done|]. exact IH. Qed.

(** A field of [w] columns holds the [w] digits of a number that fits. *)
Lemma fmt0_fits w n :
  (0 < w ≤ 20)%nat → 0 ≤ n < 10 ^ Z.of_nat w →
  length (fmt0 w n) = w ∧ digits_only (fmt0 w n) ∧ acc_value 0 (fmt0 w n) = n.
Proof.
  intros Hw Hn. unfold fmt0. destruct (Z.ltb_spec n 0); [lia|]. unfold zpad.
  destruct (dec_spec 20 n) as (Hd & _ & Hv); [lia|pose proof (Z.pow_le_mono_r 10 (Z.of_nat w) 20); lia|].
  pose proof (dec_length 20 n w). split; [|split].
  - rewrite length_app, length_replicate. lia.
  - apply Forall_app. split; [|done]. by apply Forall_replicate.
  - by rewrite acc_value_zeros.
Qed.

Lemma fmt0_chars w n c : c ∈ fmt0 w n → is_digit c = true ∨ c = "-"%char.
Proof.
  assert (∀ w n, 0 ≤ n → c ∈ zpad w n → is_digit c = true) as Hz.
  { intros w' n' Hn. unfold zpad. rewrite elem_of_app. intros [Hin|Hin]; [|by eapply dec_digits].
    apply elem_of_replicate in Hin as [-> _]. done. }
  unfold fmt0. destruct (Z.ltb_spec n 0); [|left; by eapply Hz; [|done]].
  rewrite elem_of_cons. intros [->|Hin]; [by right|]. left. eapply Hz; [|done]. lia.
Qed.

(** ** Reading the text back *)

(** [YYYYMMDD-HH:MM:SS.sss] as milliseconds since 1970. *)
Definition num_at (s : bytes) (i n : nat) : Z := acc_value 0 (take n (drop i s)).
Definition read_utc (s : bytes) : option Z :=
  let t := mkTm (num_at s 0 4 - 1900) (num_at s 4 2 - 1) (num_at s 6 2) (num_at s 9 2) (num_at s 12 2)
    (num_at s 15 2) in
  if bool_decide (length s = 21%nat ∧ digits_only (take 8 s ++ take 2 (drop 9 s) ++ take 2 (drop 12 s) ++
       take 2 (drop 15 s) ++ drop 18 s) ∧
       s !! 8%nat = Some "-"%char ∧ s !! 11%nat = Some ":"%char ∧ s !! 14%nat = Some ":"%char ∧
       s !! 17%nat = Some "."%char)
  then Some (timegm t * 1000 + num_at s 18 3) else None.

(** The reference reader on the fields of a text. *)
Lemma read_utc_fields y mo d h mi sec ms :
  0 ≤ y < 10000 → 0 ≤ mo < 100 → 0 ≤ d < 100 → 0 ≤ h < 100 → 0 ≤ mi < 100 → 0 ≤ sec < 100 → 0 ≤ ms < 1000 →
  let s := fmt0 4 y ++ fmt0 2 mo ++ fmt0 2 d ++ B "-" ++ fmt0 2 h ++ B ":" ++ fmt0 2 mi ++ B ":" ++ fmt0 2 sec ++
    B "." ++ fmt0 3 ms in
  length s = 21%nat ∧ read_utc s = Some (timegm (mkTm (y - 1900) (mo - 1) d h mi sec) * 1000 + ms).
Proof.
  intros Hy Hmo Hd Hh Hmi Hsec Hms s.
  destruct (fmt0_fits 4 y) as (L1 & D1 & V1); [lia|done|]. destruct (fmt0_fits 2 mo) as (L2 & D2 & V2); [lia|done|].
  destruct (fmt0_fits 2 d) as (L3 & D3 & V3); [lia|done|]. destruct (fmt0_fits 2 h) as (L4 & D4 & V4); [lia|done|].
  destruct (fmt0_fits 2 mi) as (L5 & D5 & V5); [lia|done|]. destruct (fmt0_fits 2 sec) as (L6 & D6 & V6); [lia|done|].
  destruct (fmt0_fits 3 ms) as (L7 & D7 & V7); [lia|done|]. subst s.
  destruct (fmt0 4 y) as [|? [|? [|? [|? []]]]]; try done. destruct (fmt0 2 mo) as [|? [|? []]]; try done.
  destruct (fmt0 2 d) as [|? [|? []]]; try done. destruct (fmt0 2 h) as [|? [|? []]]; try done.
  destruct (fmt0 2 mi) as [|? [|? []]]; try done. destruct (fmt0 2 sec) as [|? [|? []]]; try done.
  destruct (fmt0 3 ms) as [|? [|? [|? []]]]; try done.
  change (B "-") with ["-"%char]. change (B ":") with [":"%char]. change (B ".") with ["."%char].
  split; [done|]. unfold read_utc, num_at. cbn [Datatypes.app take drop]. rewrite V1, V2, V3, V4, V5, V6, V7.
  rewrite bool_decide_eq_true_2; [done|]. split; [done|]. split; [|done].
  unfold digits_only in *. cbn [take drop Datatypes.app]. rewrite !Forall_cons in *. naive_solver.
Qed.

(** The years of a 64-bit nanosecond clock have four digits. *)
Lemma gmtime_year t : 0 ≤ t < 253402300800 → 1970 ≤ tm_year (gmtime t) + 1900 < 10000.
Proof.
  intros Ht. destruct (gmtime_spec t) as [(Hmo & Hd & Hh & Hmi & Hs) Hg].
  generalize dependent (gmtime t). intros g Hmo Hd Hh Hmi Hs Hg. unfold timegm in Hg.
  assert (0 ≤ sumz (take (Z.to_nat (tm_mon g)) (month_days (tm_year g + 1900))) + (tm_mday g - 1)
          < year_days (tm_year g + 1900)) as Hyd.
  { revert Hmo Hd. generalize (tm_mon g) (tm_mday g) (tm_year g + 1900). intros m d y Hm.
    assert (∃ k, (k < 12)%nat ∧ m = Z.of_nat k) as (k & Hk & ->) by (exists (Z.to_nat m); lia). rewrite Nat2Z.id.
    unfold month_days, year_days. destruct (is_leap y); do 12 (destruct k as [|k]; [cbn; lia|]); lia. }
  pose proof (days_before_succ (tm_year g + 1900)) as Hsucc.
  split.
  - destruct (Z.le_gt_cases 1970 (tm_year g + 1900)); [done|].
    pose proof (days_before_mono (tm_year g + 1900 + 1) 1970). assert (days_before 1970 = 0) by done. lia.
  - destruct (Z.le_gt_cases 10000 (tm_year g + 1900)) as [Hge|]; [|done]. apply days_before_mono in Hge.
    assert (days_before 10000 = 2932897) by done. lia.
Qed.

Lemma snprintf_fits n s : (length s < n)%nat → snprintf n s = s.
Proof. intros. apply take_ge. lia. Qed.

(** A session's separator does not occur in the text, whatever the clock reads. *)
Lemma stamp_clean soh t ms : plain_separator soh → soh ∉ stamp t ms.
Proof.
  intros Hp. assert (∀ w n, soh ∉ fmt0 w n) as Hf.
  { intros w n Hc%fmt0_chars. by destruct Hp as [->| ->], Hc. }
  unfold stamp. rewrite !not_elem_of_app.
  split_and!; lazymatch goal with |- _ ∉ fmt0 _ _ => apply Hf | |- _ => literal end.
Qed.
Lemma snprintf_elem n s c : c ∈ snprintf n s → c ∈ s.
Proof. intros (i & Hi & _)%elem_of_take. by eapply list_elem_of_lookup_2. Qed.
Lemma utc_now_clean soh now : plain_separator soh → soh ∉ utc_now now.
Proof. intros Hp. unfold utc_now. intros Hin%snprintf_elem. by apply (stamp_clean _ _ _ Hp) in Hin. Qed.

(** A stamp of a valid date within four-digit years. *)
Lemma stamp_reads t ms :
  tm_valid t → 0 ≤ tm_year t + 1900 < 10000 → 0 ≤ ms < 1000 →
  length (stamp t ms) = 21%nat ∧ read_utc (stamp t ms) = Some (timegm t * 1000 + ms).
Proof.
  intros (Hmo & Hd & Hh & Hmi & Hs) Hy Hms. pose proof (month_days_max (tm_year t + 1900) (Z.to_nat (tm_mon t))).
  destruct (read_utc_fields (tm_year t + 1900) (tm_mon t + 1) (tm_mday t) (tm_hour t) (tm_min t) (tm_sec t) ms)
    as [Hl Hr]; [lia..|].
  split; [done|]. unfold stamp. rewrite Hr. do 2 f_equal. f_equal. f_equal. destruct t; cbn. f_equal; lia.
Qed.

(** ** Theorems *)

(** C35: the timestamp of a message is the time. At every non-negative reading
    of the 64-bit nanosecond clock, [utc_now] returns 21 characters, so
    [snprintf] truncates nothing, in the form YYYYMMDD-HH:MM:SS.sss, and reading
    them by the POSIX formula for seconds since the epoch gives the clock's
    milliseconds back. *)
Theorem utc_now_reads_back now :
  0 ≤ now < two63 → length (utc_now now) = 21%nat ∧ read_utc (utc_now now) = Some (now / 1000000).
Proof.
  intros Hn. unfold utc_now. rewrite !Z.quot_div_nonneg by lia. rewrite Z.rem_mod_nonneg by (try apply Z.div_pos; lia).
  assert (0 ≤ now / 1000000000 < 253402300800) as Ht
    by (split; [apply Z.div_pos|apply Z.div_lt_upper_bound]; lia).
  destruct (gmtime_spec (now / 1000000000)) as [Hv Hg]. apply gmtime_year in Ht.
  destruct (stamp_reads (gmtime (now / 1000000000)) (now / 1000000 mod 1000)) as [Hl Hr];
    [done|lia|by apply Z.mod_pos_bound|].
  rewrite snprintf_fits by (rewrite Hl; lia). split; [exact Hl|]. rewrite Hr, Hg. f_equal. clear. divmod.
Qed.
Lemma utc_now_reads_back_witness :
  0 ≤ 1778630400123456789 < two63 ∧ length (utc_now 1778630400123456789) = 21%nat ∧
  read_utc (utc_now 1778630400123456789) = Some (1778630400123456789 / 1000000).
Proof. split; [done|]. apply utc_now_reads_back. done. Defined.

(** The bench's constant timestamp is what the clock would have written. *)
Example utc_now_example : utc_now 1778630400000000000 = B "20260513-00:00:00.000".
Proof. vm_compute. reflexivity. Qed.

(** The session's laws hold of its own clock: whatever it reads, the
    timestamps are free of the separator. *)
#[global] Instance system_env_laws wall clock iter soh :
  plain_separator soh → (∀ b m, iter b m ≡ₚ map_to_list m) → @EnvLaws (system_env wall clock iter) soh.
Proof. intros Hp Hi. split; [|done]. intros n. by apply utc_now_clean. Qed.
