(* ===== verification/SessionTheorems.v ===== *)
(** * Theorems about the session

    Framing independence and termination of the receive loop, sequence-number
    checks, the Logon handshake, what is sent and what is replayed, and the
    heartbeat timers. *)

From S2P Require Import Prelude Types Text Messages Serializer Parser ParserProps CodecProps CodecTheorems Session SessionProps Resend.

(** ** A concrete environment and session *)

#[global] Instance ex_env : Env :=
  mkEnv (λ n, B "20260101-00:00:0" ++ to_string (Z.of_nat n)) (λ n, secs (Z.of_nat n))
    (λ _ m, map_to_list m).

Definition ex_cfg : SessionConfig := mkConfig (B "ME") (B "YOU") 30 true 2.
Definition ex_new : Session := new_session ex_cfg kSohText.

(** A peer's message with sequence number [n]. *)
Definition ex_peer (mt : string) (n : Z) (rest : list (Z * bytes)) : bytes :=
  build kSohText ((tag_MsgType, B mt) :: (tag_SenderCompID, B "YOU") :: (tag_TargetCompID, B "ME") ::
    (tag_MsgSeqNum, to_string n) :: rest).
Definition run_bytes (data : bytes) (s : Session) : Session :=
  match on_bytes data s with Ok (_, s') => s' | _ => s end.
(** Logged in, with four messages sent; the ring keeps the last two. *)
Definition ex_logged : Session := run_bytes (ex_peer "A" 1 []) ex_new.
Definition ex_busy : Session :=
  (send_heartbeat (send_heartbeat (send_heartbeat ex_logged).2).2).2.

(** ** The receive loop *)

Section receive.
Context `{Env}.

Lemma receive_total fuel : ∀ total s,
  disconnect total = false →
  receive fuel total s =
    let! '(st, s') := receive fuel no_step s in
    Ok (mkStep (out total ++ out st) (app total ++ app st) (disconnect st), s').
Proof.
  assert (∀ total, disconnect total = false →
    total = mkStep (out total ++ out no_step) (app total ++ app no_step) (disconnect no_step)) as Hno.
  { intros [o a d]. cbn. intros ->. by rewrite !app_nil_r. }
  induction fuel as [|fuel IH]; intros total s Hd;
    (destruct (decide (in_buf_ s = [])) as [Hn|Hn]; [rewrite !receive_nil by done; cbn [rbind]; by rewrite <- Hno|]).
  { cbn [receive]. by destruct (in_buf_ s). }
  rewrite !receive_S by done. destruct (parse_one _ _) as [pr| | |]; try done. cbn [rbind].
  destruct (err pr);
    try (destruct (send_logout _ s); cbn [rbind out app no_step disconnect]; by rewrite app_nil_r); [|cbn [rbind]; by rewrite <- Hno].
  destruct (handle_message _ _) as [[st s1]| | |]; try done. cbn [rbind].
  destruct (disconnect st); [done|]. rewrite (IH (add_step total st)), (IH (add_step no_step st)) by done.
  rewrite rbind_assoc. destruct (receive fuel no_step s1) as [[st' s2]| | |]; try done. 
  cbn [rbind out app disconnect add_step no_step Datatypes.app].
  by rewrite !app_assoc.
Qed.

Lemma on_bytes_split a b s st1 s1 :
  Separator (soh_ s) → zlen (in_buf_ s ++ a ++ b) < two64 - 7 →
  on_bytes a s = Ok (st1, s1) → disconnect st1 = false →
  on_bytes (a ++ b) s =
    let! '(st2, s2) := on_bytes b s1 in
    Ok (mkStep (out st1 ++ out st2) (app st1 ++ app st2) (disconnect st2), s2).
Proof.
  intros Hsep Hl He Hd. unfold on_bytes in *. cbn [in_buf_ set_in_buf] in *.
  change (set_in_buf (in_buf_ s ++ a) s) with (feed a s) in He.
  assert (set_in_buf (in_buf_ s ++ a ++ b) s = feed b (feed a s)) as ->.
  { unfold feed. cbn [in_buf_ set_in_buf]. by rewrite app_assoc. }
  rewrite app_assoc in Hl. set (n := length (in_buf_ s ++ a ++ b)).
  assert (n = length ((in_buf_ s ++ a) ++ b)) as Hn by (unfold n; by rewrite app_assoc).
  destruct (receive_more (length (in_buf_ s ++ a)) n no_step (feed a s) b st1 s1) as (Heq & Hset & Hle);
    [done|done|done|by rewrite Hn|done|done|].
  rewrite Heq, receive_total by done. change (set_in_buf (in_buf_ s1 ++ b) s1) with (feed b s1).
  cbn [in_buf_ set_in_buf feed] in Hle.
  assert (length (in_buf_ s1 ++ b) ≤ n)%nat as Hle' by (rewrite Hn, !length_app in *; lia).
  rewrite (receive_fuel n (length (in_buf_ s1 ++ b)) no_step (feed b s1)); [done| | |done|done].
  - change (Separator (soh_ s1)). by destruct Hset as (-> & _).
  - change (zlen (in_buf_ s1 ++ b) < two64 - 7). unfold zlen in *. lia.
Qed.

End receive.

(** C10: framing independence. Feeding a byte string in two pieces gives the
    same state, the same replies and the same application messages as feeding
    it at once, wherever it is cut, unless the first piece already ends the
    connection. *)
Theorem on_bytes_chunking `{Env} a b s st1 s1 :
  Separator (soh_ s) → zlen (in_buf_ s ++ a ++ b) < two64 - 7 →
  on_bytes a s = Ok (st1, s1) → disconnect st1 = false →
  on_bytes (a ++ b) s =
    let! '(st2, s2) := on_bytes b s1 in
    Ok (mkStep (out st1 ++ out st2) (app st1 ++ app st2) (disconnect st2), s2).
Proof. apply on_bytes_split. Qed.

Definition ex_stream : bytes := ex_peer "A" 1 [] ++ ex_peer "1" 2 [(tag_TestReqID, B "ping")].
Definition ex_first : SessionStep :=
  match on_bytes (take 100 ex_stream) ex_new with Ok (st, _) => st | _ => no_step end.

Lemma on_bytes_chunking_witness :
  on_bytes (take 100 ex_stream ++ drop 100 ex_stream) ex_new =
    let! '(st2, s2) := on_bytes (drop 100 ex_stream) (run_bytes (take 100 ex_stream) ex_new) in
    Ok (mkStep (out ex_first ++ out st2) (app ex_first ++ app st2) (disconnect st2), s2).
Proof.
  apply on_bytes_chunking; [exact text_separator|vm_compute; reflexivity..].
Defined.

(** C24: the receive loop terminates: whatever the bytes and the state,
    [on_bytes] does not run forever. *)
Theorem on_bytes_terminates `{Env} data s :
  Separator (soh_ s) → zlen (in_buf_ s ++ data) < two64 - 7 → on_bytes data s ≠ Hang.
Proof. intros Hsep Hl. by apply receive_no_hang. Qed.

Lemma on_bytes_terminates_witness : on_bytes ex_stream ex_new ≠ Hang.
Proof. apply on_bytes_terminates; [exact text_separator|vm_compute; reflexivity]. Defined.

(** ** Sequence numbers *)

(** C19: sequence-number checks. Outside the Disconnected state a message with
    a number above the expected one is dropped and answered with a
    ResendRequest for the expected number; one below it, unless zero, ends the
    session with a Logout; neither moves [in_seq_] nor reaches the
    application. The expected number is recorded and the message is handled;
    it reaches the application exactly when it is an order message. *)
Theorem sequence_checks `{Env} m n s :
  state_ s ≠ Disconnected → seq m = Ok n →
  let expected := u64 (in_seq_ s + 1) in
  (expected < n →
     ∃ s', handle_message m s = Ok (mkStep [(build_resend_request expected s).1] [] false, s') ∧
       in_seq_ s' = in_seq_ s ∧ state_ s' = state_ s) ∧
  (0 < n < expected →
     ∃ s', handle_message m s = Ok (mkStep [(send_logout (B "MsgSeqNum too low") s).1] [] true, s') ∧
       in_seq_ s' = in_seq_ s ∧ state_ s' = LogoutSent) ∧
  (n = expected → ∀ st s', handle_message m s = Ok (st, s') →
     in_seq_ s' = n ∧
     (app st = [m] ∧ msg_type m ∈ order_types ∨
      app st = [] ∧ msg_type m ∉ order_types)).
Proof.
  intros Hst Hn expected. unfold handle_message. rewrite Hn. cbn [rbind].
  rewrite bool_decide_false by done. fold expected. split_and!.
  - intros Hgt. destruct (Z.gtb_spec n expected); [|lia].
    pose proof (build_message_frame [(tag_MsgType, mt_ResendRequest); (tag_BeginSeqNo, to_string expected);
      (tag_EndSeqNo, B "0")] s) as (_ & _ & Hf1 & Hf2 & _). unfold build_resend_request in *.
    destruct (build_message _ s) as [w s']. by exists s'.
  - intros Hlt. destruct (Z.gtb_spec n expected); [lia|]. destruct (Z.ltb_spec n expected); [|lia].
    destruct (Z.eqb_spec n 0); [lia|]. cbn [negb andb].
    pose proof (build_message_frame [(tag_MsgType, mt_Logout); (tag_Text, B "MsgSeqNum too low")]
      (set_state LogoutSent s)) as (_ & _ & Hf1 & Hf2 & _). unfold send_logout in *.
    destruct (build_message _ (set_state LogoutSent s)) as [w s']. by exists s'.
  - intros -> st s'. rewrite Z.gtb_ltb, Z.ltb_irrefl. cbn [andb]. apply dispatch_apps.
Qed.

(** The message of the peer that the parser hands on. *)
Definition ex_msg (mt : string) (n : Z) : Message :=
  match parse_one kSohText (ex_peer mt n []) with Ok pr => msg pr | _ => empty_message end.

Lemma sequence_checks_witness :
  ∃ s', handle_message (ex_msg "D" 5) ex_logged =
      Ok (mkStep [(build_resend_request 2 ex_logged).1] [] false, s') ∧
    in_seq_ s' = 1 ∧ state_ s' = LoggedIn.
Proof.
  apply (proj1 (sequence_checks (ex_msg "D" 5) 5 ex_logged ltac:(by vm_compute) ltac:(vm_compute; reflexivity))).
  vm_compute. reflexivity.
Defined.

(** A message without a MsgSeqNum passes the sequence check whatever is
    expected: it reaches the application and sets [in_seq_] back to zero. *)
Theorem unnumbered_accepted `{Env} m s :
  state_ s ≠ Disconnected → get tag_MsgSeqNum m = None → msg_type m ∈ order_types →
  handle_message m s = Ok (mkStep [] [m] false, set_in_seq 0 s).
Proof.
  intros Hst Hg Hmt. unfold handle_message, seq. unfold get in Hg. rewrite Hg. cbn [rbind].
  rewrite bool_decide_false by done. pose proof (u64_range (in_seq_ s + 1)) as Hu. unfold in_u64 in Hu.
  destruct (Z.gtb_spec 0 (u64 (in_seq_ s + 1))); [lia|].
  replace ((0 <? u64 (in_seq_ s + 1)) && negb (0 =? 0)) with false by (cbn; by rewrite andb_false_r).
  unfold dispatch. unfold order_types in Hmt. rewrite !elem_of_cons, elem_of_nil in Hmt.
  by destruct Hmt as [-> | [-> | [-> | []]]].
Qed.

Definition ex_unnumbered : Message := mkMessage {[tag_MsgType := mt_NewOrderSingle]}.

Lemma unnumbered_accepted_witness :
  handle_message ex_unnumbered ex_logged = Ok (mkStep [] [ex_unnumbered] false, set_in_seq 0 ex_logged).
Proof. apply unnumbered_accepted; [by vm_compute|vm_compute; reflexivity|decided]. Defined.

(** ** Logon *)

(** The session just before a Logon is judged, and after it is admitted. *)
Definition logon_mismatch (m : Message) (s : Session) : bool :=
  match get tag_TargetCompID m with
  | Some target => negb (bool_decide (target = sender_comp_id (cfg_ s)))
  | None => false
  end.
Definition admitted (m : Message) (n : SeqNum) (s : Session) : Session :=
  set_state LoggedIn (set_in_seq n
    match get tag_SenderCompID m with Some sender => set_cfg (set_target sender (cfg_ s)) s | None => s end).

Lemma handle_logon_shape `{Env} m n s :
  ∃ s1, cfg_ s1 = cfg_ s ∧ state_ s1 = state_ s ∧ timers_armed_ s1 = true ∧
    test_request_outstanding_ s1 = false ∧ out_seq_ s1 = (if reset_on_logon (cfg_ s) then 0 else out_seq_ s) ∧
    (soh_ s1 = soh_ s ∧ in_buf_ s1 = in_buf_ s ∧ (sess_ok s → sess_ok s1)) ∧
    handle_logon m n s =
      if logon_mismatch m s then (mkStep [] [] true, s1)
      else
        let r := build_message [(tag_MsgType, mt_Logon); (108, to_string (heartbeat_secs (cfg_ (admitted m n s1))))]
                   (admitted m n s1) in
        (mkStep [r.1] [] false, r.2).
Proof.
  unfold handle_logon, steady_now.
  set (s0 := if reset_on_logon (cfg_ s) then set_history _ _ else s).
  assert (cfg_ s0 = cfg_ s ∧ state_ s0 = state_ s ∧ out_seq_ s0 = (if reset_on_logon (cfg_ s) then 0 else out_seq_ s)) as (Hc & Hs & Ho)
    by (unfold s0; destruct (reset_on_logon (cfg_ s)); done).
  assert (soh_ s0 = soh_ s ∧ in_buf_ s0 = in_buf_ s ∧ (sess_ok s → sess_ok s0)) as (Hsoh & Hbuf & Hok).
  { unfold s0. destruct (reset_on_logon (cfg_ s)); [|done]. split; [done|]. split; [done|apply reset_ok]. }
  clearbody s0. match goal with |- context [set_timers_armed true ?x] => exists (set_timers_armed true x) end.
  split; [done|]. split; [done|]. do 2 (split; [done|]). split; [done|].
  split; [split; [done|]; split; [done|]; intros Hs0%Hok; by apply (sess_ok_same s0)|]. cbn zeta.
  unfold logon_mismatch, admitted. rewrite <- Hc. destruct (match get tag_TargetCompID m with Some _ => _ | None => _ end); [done|].
  by destruct (build_message _ _).
Qed.

Lemma admitted_fields m n s :
  state_ (admitted m n s) = LoggedIn ∧ in_seq_ (admitted m n s) = n ∧ out_seq_ (admitted m n s) = out_seq_ s ∧
  timers_armed_ (admitted m n s) = timers_armed_ s ∧
  test_request_outstanding_ (admitted m n s) = test_request_outstanding_ s ∧
  target_comp_id (cfg_ (admitted m n s)) = default (target_comp_id (cfg_ s)) (get tag_SenderCompID m).
Proof. unfold admitted. by destruct (get tag_SenderCompID m). Qed.

Lemma admitted_ok m n s : clean (soh_ s) m → sess_ok s → sess_ok (admitted m n s).
Proof.
  intros Hm Hs. unfold admitted. destruct (get tag_SenderCompID m) as [t|] eqn:Ht; [|by apply (sess_ok_same s)].
  eapply (sess_ok_same (set_cfg (set_target t (cfg_ s)) s)); [|done..].
  apply set_target_ok; [by eapply clean_get|done].
Qed.
Lemma admitted_setup m n s : soh_ (admitted m n s) = soh_ s ∧ sender_comp_id (cfg_ (admitted m n s)) = sender_comp_id (cfg_ s) ∧
  heartbeat_secs (cfg_ (admitted m n s)) = heartbeat_secs (cfg_ s).
Proof. unfold admitted. by destruct (get tag_SenderCompID m). Qed.

(** What the peer reads of a sent message. *)
Lemma sent_message_fields `{Env} mt rest s :
  EnvLaws (soh_ s) → sess_ok s → app_body (soh_ s) mt rest → out_seq_ s + 1 < two64 →
  zlen (build_message ((tag_MsgType, mt) :: rest) s).1 < two64 →
  ∃ w s' m, build_message ((tag_MsgType, mt) :: rest) s = (w, s') ∧
    parse_one (soh_ s) w = Ok (mkParseResult None_ (zlen w) m) ∧
    msg_type m = mt ∧ get tag_MsgSeqNum m = Some (to_string (out_seq_ s + 1)) ∧
    seq m = Ok (out_seq_ s + 1) ∧
    get tag_SenderCompID m = Some (sender_comp_id (cfg_ s)) ∧
    get tag_TargetCompID m = Some (target_comp_id (cfg_ s)) ∧
    get tag_SendingTime m = Some (env_now (now_calls s)) ∧
    (∀ t v, (t, v) ∈ rest → get t m = Some v) ∧
    out_seq_ s' = out_seq_ s + 1 ∧ sess_ok s'.
Proof.
  intros Henv Hs Hb Hlt Hz. destruct (sent_ok mt rest s Henv Hs Hb Hlt) as [Hok Hseq].
  pose proof Hb as (_ & _ & _ & Hsup). pose proof (so_seq _ Hs).
  assert (in_u64 (out_seq_ s + 1)) as Hu by (unfold in_u64; lia).
  pose proof (build_message_std mt rest s Hsup) as Hstd. cbn zeta in Hstd. rewrite (u64_small _ Hu) in Hstd.
  pose proof (full_body_ok s (out_seq_ s + 1) mt rest (now_calls s) Henv Hs Hu Hb) as Hbody.
  set (b := full_body _ _ _ _ _) in *. pose proof (plain_separator_ok _ (so_sep _ Hs)).
  rewrite Hstd in Hz, Hok, Hseq. cbn [fst snd] in *.
  assert (∀ t v, (t, v) ∈ b → (list_to_map (wire_fields (soh_ s) b) : gmap Z bytes) !! t = Some v) as Hval
    by (intros; by apply body_value).
  pose proof (build_parses (soh_ s) b [] Hbody) as Hp. rewrite app_nil_r in Hp.
  do 3 eexists. split; [exact Hstd|]. split; [by apply Hp|]. unfold msg_type, seq, get. cbn [fields].
  assert ((tag_MsgType, mt) ∈ b ∧ (tag_MsgSeqNum, to_string (out_seq_ s + 1)) ∈ b ∧
    (tag_SenderCompID, sender_comp_id (cfg_ s)) ∈ b ∧ (tag_TargetCompID, target_comp_id (cfg_ s)) ∈ b ∧
    (tag_SendingTime, env_now (now_calls s)) ∈ b) as (I1 & I2 & I3 & I4 & I5).
  { unfold b, full_body. rewrite !elem_of_cons. tauto. }
  rewrite (Hval _ _ I1), (Hval _ _ I2), (Hval _ _ I3), (Hval _ _ I4), (Hval _ _ I5).
  split_and!; try done; [by apply stoull_to_string|].
  intros t v Hin. apply Hval. unfold b, full_body. rewrite !elem_of_cons. tauto.
Qed.

(** The peer reads [w] as the Logon of session [s], just sent, with the
    session's own heartbeat interval. *)
Definition reads_logon (soh : ascii) (w : bytes) (hb : Z) (s : Session) : Prop :=
  ∃ reply, parse_one soh w = Ok (mkParseResult None_ (zlen w) reply) ∧ msg_type reply = mt_Logon ∧
    seq reply = Ok (out_seq_ s) ∧ get tag_SenderCompID reply = Some (sender_comp_id (cfg_ s)) ∧
    get tag_TargetCompID reply = Some (target_comp_id (cfg_ s)) ∧ get 108 reply = Some (to_string hb).

(** C23: Logon admission. In the Disconnected state anything but a Logon closes
    the connection without a reply; so does a Logon addressed to someone else.
    Any other Logon, also one that names no addressee, logs the session in: its
    number becomes [in_seq_], the timers are armed, the peer's identity is
    adopted, and exactly one message is sent back, which the peer reads as a
    Logon to the adopted identity, numbered next (1 when the numbers are
    reset), with the session's own heartbeat interval. *)
Theorem logon_admission `{Env} m n s :
  state_ s = Disconnected → seq m = Ok n →
  (msg_type m ≠ mt_Logon → handle_message m s = Ok (mkStep [] [] true, s)) ∧
  (msg_type m = mt_Logon → ∃ st s', handle_message m s = Ok (st, s') ∧
     (match get tag_TargetCompID m with Some t => t ≠ sender_comp_id (cfg_ s) | None => False end →
        st = mkStep [] [] true ∧ state_ s' = Disconnected) ∧
     (match get tag_TargetCompID m with Some t => t = sender_comp_id (cfg_ s) | None => True end →
        ∃ w, st = mkStep [w] [] false ∧ state_ s' = LoggedIn ∧ in_seq_ s' = n ∧
        timers_armed_ s' = true ∧ test_request_outstanding_ s' = false ∧
        target_comp_id (cfg_ s') = default (target_comp_id (cfg_ s)) (get tag_SenderCompID m) ∧
        (reset_on_logon (cfg_ s) = true → out_seq_ s' = 1) ∧
        (EnvLaws (soh_ s) → sess_ok s → clean (soh_ s) m → out_seq_ s + 1 < two64 → zlen w < two64 →
           reads_logon (soh_ s) w (heartbeat_secs (cfg_ s)) s'))).
Proof.
  intros Hst Hn. unfold handle_message. rewrite Hn. cbn [rbind]. rewrite bool_decide_true by done. split.
  { intros Hne. by rewrite bool_decide_false by done. }
  intros ->. rewrite bool_decide_true by done. cbn [negb].
  destruct (handle_logon_shape m n s) as (s1 & Hc & Hs & Ha & Ht & Ho & (Hsoh & _ & Hok1) & ->). unfold logon_mismatch.
  destruct (match get tag_TargetCompID m with Some _ => _ | None => _ end) eqn:Hmis.
  { do 2 eexists. split; [done|]. split; [by rewrite Hs|]. intros Hok. exfalso.
    destruct (get tag_TargetCompID m); [|done]. subst. by rewrite bool_decide_true in Hmis by done. }
  cbn zeta. do 2 eexists. split; [done|]. split.
  { intros Hbad. exfalso. destruct (get tag_TargetCompID m); [|done]. by rewrite bool_decide_false in Hmis by done. }
  intros _. eexists. split; [done|]. set (hb := to_string _).
  destruct (admitted_fields m n s1) as (Hf1 & Hf2 & Hf3 & Hf4 & Hf5 & Hf6). destruct (admitted_setup m n s1) as (Hg1 & Hg2 & Hg3).
  pose proof (build_message_frame [(tag_MsgType, mt_Logon); (108, hb)] (admitted m n s1))
    as (Hb1 & _ & Hb2 & Hb3 & _ & _ & Hb4 & Hb5).
  rewrite Hb1, Hb2, Hb3, Hb4, Hb5, Hf1, Hf2, Hf4, Hf5, Hf6, Hc. do 5 (split; [done|]). split.
  { intros Hres. rewrite build_message_seq by (cbn [fmap list_fmap fst]; decided). by rewrite Hf3, Ho, Hres. }
  intros Henv Hsok Hcl Hlt Hz. pose proof (so_seq _ Hsok).
  assert (sess_ok (admitted m n s1)) as Hok2 by (apply admitted_ok; [by rewrite Hsoh|by apply Hok1]).
  destruct (sent_message_fields mt_Logon [(108, hb)] (admitted m n s1)) as (w & s' & reply & He & Hp & Hmt & _ & Hsq & Hsn & Htg & _ & Hbody & Hout & _);
    [by rewrite Hg1, Hsoh|done|by apply logon_body_ok|rewrite Hf3, Ho; destruct (reset_on_logon _); lia|done|].
  unfold reads_logon. rewrite He in Hb1 |- *. cbn [fst snd] in *. rewrite Hg1, Hsoh in Hp. exists reply. do 2 (split; [done|]).
  rewrite Hb1. split; [by rewrite Hout|]. do 2 (split; [done|]). rewrite (Hbody 108 hb) by left.
  unfold hb. by rewrite Hg3, Hc.
Qed.

Lemma logon_admission_witness :
  ∃ st s', handle_message (ex_msg "A" 1) ex_new = Ok (st, s') ∧
    (match get tag_TargetCompID (ex_msg "A" 1) with Some t => t ≠ B "ME" | None => False end →
       st = mkStep [] [] true ∧ state_ s' = Disconnected) ∧
    (match get tag_TargetCompID (ex_msg "A" 1) with Some t => t = B "ME" | None => True end →
       ∃ w, st = mkStep [w] [] false ∧ state_ s' = LoggedIn ∧ in_seq_ s' = 1 ∧
       timers_armed_ s' = true ∧ test_request_outstanding_ s' = false ∧
       target_comp_id (cfg_ s') = default (B "YOU") (get tag_SenderCompID (ex_msg "A" 1)) ∧
       (true = true → out_seq_ s' = 1) ∧
       (EnvLaws (soh_ ex_new) → sess_ok ex_new → clean (soh_ ex_new) (ex_msg "A" 1) → out_seq_ ex_new + 1 < two64 → zlen w < two64 →
          reads_logon (soh_ ex_new) w (heartbeat_secs (cfg_ ex_new)) s')).
Proof.
  apply (proj2 (logon_admission (ex_msg "A" 1) 1 ex_new eq_refl ltac:(vm_compute; reflexivity))).
  vm_compute. reflexivity.
Defined.

(** The initiating side never reaches LoggedIn: in the LogonSent state the
    peer's Logon, with the expected number, is rejected as an unsupported
    message type and the state stays LogonSent. *)
Theorem initiator_rejects_logon `{Env} m s :
  state_ s = LogonSent → msg_type m = mt_Logon → seq m = Ok (u64 (in_seq_ s + 1)) →
  ∃ w s', handle_message m s = Ok (mkStep [w] [] false, s') ∧ state_ s' = LogonSent ∧
    w = (build_reject (u64 (in_seq_ s + 1)) (B "unsupported MsgType=A") (set_in_seq (u64 (in_seq_ s + 1)) s)).1.
Proof.
  intros Hst Hmt Hn. unfold handle_message. rewrite Hn, Hmt. cbn [rbind]. rewrite bool_decide_false by (by rewrite Hst).
  rewrite Z.gtb_ltb, Z.ltb_irrefl. cbn [andb]. unfold dispatch, build_reject.
  change (B "unsupported MsgType=" ++ mt_Logon) with (B "unsupported MsgType=A").
  set (n := u64 (in_seq_ s + 1)).
  pose proof (build_message_frame [(tag_MsgType, mt_Reject); (tag_RefSeqNum, to_string n);
    (tag_Text, B "unsupported MsgType=A")] (set_in_seq n s)) as (_ & _ & Hs & _).
  destruct (build_message [(tag_MsgType, mt_Reject); _; _] (set_in_seq n s)) as [w s']. exists w, s'.
  split; [reflexivity|]. split; [|done]. cbn [snd] in Hs. by rewrite Hs.
Qed.

Lemma initiator_rejects_logon_witness :
  ∃ w s', handle_message (ex_msg "A" 1) (initiate_logon ex_new).2 = Ok (mkStep [w] [] false, s') ∧
    state_ s' = LogonSent ∧
    w = (build_reject 1 (B "unsupported MsgType=A") (set_in_seq 1 (initiate_logon ex_new).2)).1.
Proof. apply (initiator_rejects_logon (ex_msg "A" 1) (initiate_logon ex_new).2); vm_compute; reflexivity. Defined.

(** ** Sending *)

(** C18: what is sent. A message with a well-formed body goes out with the next
    sequence number, the session's identities and the current time in front of
    the body; the peer's parser reads exactly these fields back; the counter
    advances by one, and the ring invariant is kept. *)
Theorem sent_message_wire `{Env} mt rest s :
  EnvLaws (soh_ s) → sess_ok s → app_body (soh_ s) mt rest → out_seq_ s + 1 < two64 →
  zlen (build_message ((tag_MsgType, mt) :: rest) s).1 < two64 →
  ∃ w s' m, build_message ((tag_MsgType, mt) :: rest) s = (w, s') ∧
    parse_one (soh_ s) w = Ok (mkParseResult None_ (zlen w) m) ∧
    msg_type m = mt ∧ get tag_MsgSeqNum m = Some (to_string (out_seq_ s + 1)) ∧
    seq m = Ok (out_seq_ s + 1) ∧
    get tag_SenderCompID m = Some (sender_comp_id (cfg_ s)) ∧
    get tag_TargetCompID m = Some (target_comp_id (cfg_ s)) ∧
    get tag_SendingTime m = Some (env_now (now_calls s)) ∧
    (∀ t v, (t, v) ∈ rest → get t m = Some v) ∧
    out_seq_ s' = out_seq_ s + 1 ∧ sess_ok s'.
Proof. apply sent_message_fields. Qed.

Lemma ex_env_plain soh : plain_separator soh → EnvLaws soh.
Proof.
  intros Hp. split; [|done]. intros n. cbn [env_now ex_env]. apply not_elem_of_app. split; [literal|].
  unfold to_string. destruct (Z.ltb_spec (Z.of_nat n) 0); [lia|].
  intros Hin%dec_digits; [|lia]. destruct Hp as [->| ->]; by vm_compute in Hin.
Qed.
Lemma ex_env_laws : EnvLaws kSohText.
Proof. apply ex_env_plain. by right. Qed.

Lemma ex_new_ok : sess_ok ex_new.
Proof. apply new_session_ok; [by right|decided|decided|decided|done]. Qed.

Lemma sent_message_wire_witness :
  ∃ w s' m, build_message [(tag_MsgType, mt_Heartbeat)] ex_new = (w, s') ∧
    parse_one kSohText w = Ok (mkParseResult None_ (zlen w) m) ∧
    msg_type m = mt_Heartbeat ∧ get tag_MsgSeqNum m = Some (to_string 1) ∧ seq m = Ok 1 ∧
    get tag_SenderCompID m = Some (B "ME") ∧ get tag_TargetCompID m = Some (B "YOU") ∧
    get tag_SendingTime m = Some (env_now 0) ∧
    (∀ t v, (t, v) ∈ @nil (Z * bytes) → get t m = Some v) ∧ out_seq_ s' = 1 ∧ sess_ok s'.
Proof.
  apply (sent_message_wire mt_Heartbeat [] ex_new);
    [exact ex_env_laws|exact ex_new_ok|decided|vm_compute; reflexivity..].
Defined.

(** ** The history *)

(** C11: the ring invariant. In every session that can be reached from a fresh
    one through its public interface (bytes received, timer ticks, messages
    sent), the history holds the last [min(capacity, out_seq_)] messages sent,
    with consecutive numbers up to [out_seq_], each one a serialized message
    that carries its recorded number and sending time. ([reset_seq], which no
    part of the program calls, is not among the steps: see
    [reset_seq_breaks_ring].) *)
Theorem history_invariant `{Env} cfg soh s :
  EnvLaws soh → plain_separator soh → soh ∉ sender_comp_id cfg → soh ∉ target_comp_id cfg →
  in_u64 (heartbeat_secs cfg) → 0 ≤ outbound_history_size cfg →
  rtc api_step (new_session cfg soh) s →
  zlen (history_ s) = Z.min (outbound_history_size (cfg_ s)) (out_seq_ s) ∧
  rec_seq <$> history_ s = seqZ (out_seq_ s - zlen (history_ s) + 1) (zlen (history_ s)) ∧
  Forall (rec_ok soh) (history_ s).
Proof.
  intros Henv Hp Hsd Htg Hhb Hcap Hrun.
  assert (sess_ok s ∧ soh_ s = soh) as [Hs Hsoh].
  { assert (∀ s1 s2, rtc api_step s1 s2 → sess_ok s1 ∧ soh_ s1 = soh → sess_ok s2 ∧ soh_ s2 = soh) as Hinv.
    { induction 1 as [|s1 s2 s3 Hstep _ IH]; [done|]. intros [Hs Hsoh]. apply IH.
      destruct (api_step_ok s1 s2) as [? ?]; [by rewrite Hsoh|done|done|]. split; [done|congruence]. }
    apply (Hinv _ _ Hrun). split; [by apply new_session_ok|done]. }
  destruct (so_ring _ Hs). rewrite <- Hsoh. done.
Qed.

Lemma history_invariant_witness :
  zlen (history_ ex_busy) = Z.min 2 (out_seq_ ex_busy) ∧
  rec_seq <$> history_ ex_busy = seqZ (out_seq_ ex_busy - zlen (history_ ex_busy) + 1) (zlen (history_ ex_busy)) ∧
  Forall (rec_ok kSohText) (history_ ex_busy).
Proof.
  apply (history_invariant ex_cfg kSohText ex_busy);
    [exact ex_env_laws|by right|decided|decided|decided|done|].
  unfold ex_busy. do 3 (eapply rtc_r; [|apply api_heartbeat; vm_compute; reflexivity]).
  eapply rtc_l; [|apply rtc_refl].
  eapply (api_bytes ex_new (ex_peer "A" 1 [])); vm_compute; reflexivity.
Defined.

(** [reset_seq] sets the counters back and keeps the history: four messages
    sent, and the ring still holds numbers 3 and 4 behind a counter of 0, so
    that the next messages are retained under numbers the ring has passed. *)
Lemma reset_seq_breaks_ring :
  out_seq_ (reset_seq ex_busy) = 0 ∧ rec_seq <$> history_ (reset_seq ex_busy) = [3; 4] ∧
  rec_seq <$> history_ (send_heartbeat (reset_seq ex_busy)).2 = [4; 1].
Proof. vm_compute. done. Qed.

(** C12: a ResendRequest is answered completely. For a range that starts inside
    what was sent, the retained messages asked for are numbered consecutively up
    to the end of the range. If the first of them is BeginSeqNo there is no gap
    fill; otherwise exactly one, numbered BeginSeqNo and announcing the first
    retained number, or, if nothing asked for is retained, the number behind
    what was asked for and sent. Then comes one reply per
    retained message asked for, in order: its original fields under its own
    number, with PossDupFlag and OrigSendingTime. Every reply is a well-formed
    body. *)
Theorem resend_covers_range `{Env} begin last s :
  EnvLaws (soh_ s) → sess_ok s → Forall (λ r, zlen (rec_bytes r) < two64) (history_ s) →
  out_seq_ s + 1 < two64 → 0 < begin → 0 ≤ last → last + 1 < two64 →
  let last' := if last =? 0 then out_seq_ s else last in
  begin ≤ last' → begin ≤ out_seq_ s →
  ∃ n gaps bodies s', handle_resend_request begin last s = Ok (build (soh_ s) <$> gaps ++ bodies, s') ∧
    (n = begin ∧ gaps = [] ∨ begin < n ∧ ∃ g, gaps = [g] ∧ gap_filled (soh_ s) begin n g) ∧
    n ≤ Z.min last' (out_seq_ s) + 1 ∧
    rec_seq <$> asked_for begin last' (history_ s) = seqZ n (Z.min last' (out_seq_ s) + 1 - n) ∧
    Forall2 (replayed (soh_ s)) (asked_for begin last' (history_ s)) bodies.
Proof. apply resend_answer. Qed.

Lemma ex_busy_ok : sess_ok ex_busy.
Proof.
  assert (sess_ok ex_logged) as Hl.
  { apply (api_step_ok ex_new ex_logged); [exact ex_env_laws|exact ex_new_ok|].
    eapply (api_bytes ex_new (ex_peer "A" 1 [])); vm_compute; reflexivity. }
  assert (∀ s, soh_ s = kSohText → sess_ok s → out_seq_ s + 1 < two64 → sess_ok (send_heartbeat s).2) as Hh.
  { intros s Hs Hok Hlt. apply heartbeat_one; [by rewrite Hs; exact ex_env_laws|done|done]. }
  unfold ex_busy. do 3 (apply Hh; [vm_compute; reflexivity| |vm_compute; reflexivity]). exact Hl.
Qed.

Lemma ex_busy_laws : EnvLaws (soh_ ex_busy).
Proof. replace (soh_ ex_busy) with kSohText by (vm_compute; reflexivity). exact ex_env_laws. Qed.

Lemma resend_covers_range_witness :
  length (asked_for 1 4 (history_ ex_busy)) = 2%nat ∧
  let last' := if 0 =? 0 then out_seq_ ex_busy else 0 in
  ∃ n gaps bodies s', handle_resend_request 1 0 ex_busy = Ok (build (soh_ ex_busy) <$> gaps ++ bodies, s') ∧
    (n = 1 ∧ gaps = [] ∨ 1 < n ∧ ∃ g, gaps = [g] ∧ gap_filled (soh_ ex_busy) 1 n g) ∧
    n ≤ Z.min last' (out_seq_ ex_busy) + 1 ∧
    rec_seq <$> asked_for 1 last' (history_ ex_busy) = seqZ n (Z.min last' (out_seq_ ex_busy) + 1 - n) ∧
    Forall2 (replayed (soh_ ex_busy)) (asked_for 1 last' (history_ ex_busy)) bodies.
Proof.
  split; [vm_compute; reflexivity|].
  apply (resend_covers_range 1 0 ex_busy); [exact ex_busy_laws|exact ex_busy_ok|decided|..]; by vm_compute.
Defined.

(** An EndSeqNo of 2^64 - 1 defeats the range arithmetic: [end + 1] wraps
    to zero, and instead of replaying two retained messages the session sends
    a gap fill whose NewSeqNo is 0, then replays them. *)
Theorem resend_end_wraps :
  ∃ pr, (λ r, (head r.1, length r.1)) <$>
      match handle_resend_request 1 18446744073709551615 ex_busy with Ok r => Some r | _ => None end =
      Some (Some (build kSohText (gap_fill 1 0 (env_now (now_calls ex_busy)) ex_busy)), 3%nat) ∧
    parse_one kSohText (build kSohText (gap_fill 1 0 (env_now (now_calls ex_busy)) ex_busy)) = Ok pr ∧
    err pr = None_ ∧ get tag_NewSeqNo (msg pr) = Some (B "0").
Proof. eexists. split_and!; vm_compute; reflexivity. Qed.

(** ** Timers *)

Fixpoint run_ticks `{Env} (ts : list Z) (s : Session) : list SessionStep * Session :=
  match ts with
  | [] => ([], s)
  | t :: ts =>
      let '(st, s) := tick t s in
      let '(sts, s) := run_ticks ts s in
      (st :: sts, s)
  end.

Lemma run_ticks_app `{Env} ts ts' s :
  run_ticks (ts ++ ts') s =
    let r := run_ticks ts s in let r' := run_ticks ts' r.2 in (r.1 ++ r'.1, r'.2).
Proof.
  revert s. induction ts as [|t ts IH]; intros s; cbn [run_ticks Datatypes.app]; cbn zeta.
  { cbn [fst snd]. by destruct (run_ticks ts' s). }
  destruct (tick t s) as [st s1]. rewrite IH. cbn zeta. by destruct (run_ticks ts s1).
Qed.

Lemma run_ticks_length `{Env} ts s : length (run_ticks ts s).1 = length ts.
Proof.
  revert s. induction ts as [|t ts IH]; intros s; cbn [run_ticks]; [done|]. destruct (tick t s) as [st s1].
  specialize (IH s1). destruct (run_ticks ts s1). cbn in *. by f_equal.
Qed.

(** The timers are running: logged in with a positive heartbeat interval. *)
Definition timed (s : Session) : Prop :=
  state_ s = LoggedIn ∧ 0 < heartbeat_secs (cfg_ s) ∧ timers_armed_ s = true.

(** What ticks do not change while the session stays up. *)
Definition same_timers (s s' : Session) : Prop :=
  timed s' ∧ cfg_ s' = cfg_ s ∧ last_inbound_ s' = last_inbound_ s ∧ test_request_at_ s' = test_request_at_ s ∧
  test_request_outstanding_ s' = test_request_outstanding_ s.

(** The window an idle session waits for: for the peer, or for the reply. *)
Definition deadline (s : Session) : Z :=
  (if test_request_outstanding_ s then test_request_at_ s else last_inbound_ s) +
  test_window (heartbeat_secs (cfg_ s)).

Section timers.
Context `{Env}.

Lemma tick_cases now s :
  timed s →
  let s' := (tick now s).2 in
  if now <? deadline s then disconnect (tick now s).1 = false ∧ same_timers s s'
  else if test_request_outstanding_ s then
    disconnect (tick now s).1 = true ∧ state_ s' = LogoutSent ∧
    out (tick now s).1 = [(send_logout (B "heartbeat timeout") s).1]
  else
    disconnect (tick now s).1 = false ∧ timed s' ∧ cfg_ s' = cfg_ s ∧
    test_request_outstanding_ s' = true ∧ test_request_at_ s' = now ∧
    out (tick now s).1 = [(build_message [(tag_MsgType, mt_TestRequest);
      (tag_TestReqID, B "tr-" ++ to_string (u64 (out_seq_ s + 1)))] s).1].
Proof.
  intros (Hst & Hhb & Harm) s'. unfold s', tick, send_heartbeat, send_logout, deadline, same_timers, timed.
  rewrite Hst, Harm, bool_decide_true by done. cbn [negb].
  destruct (Z.leb_spec (heartbeat_secs (cfg_ s)) 0); [lia|].
  destruct (test_request_outstanding_ s) eqn:Ho; cbn [negb andb].
  - destruct (Z.ltb_spec now (test_request_at_ s + test_window (heartbeat_secs (cfg_ s)))).
    + destruct (Z.geb_spec (now - test_request_at_ s) (test_window (heartbeat_secs (cfg_ s)))); [lia|].
      destruct (_ >=? _); [|done].
      pose proof (build_message_frame [(tag_MsgType, mt_Heartbeat)] s) as (F1 & F2 & F3 & F4 & F5 & F6 & F7 & F8).
      destruct (build_message _ s) as [w s1]. cbn [snd fst disconnect] in *. rewrite F1, F3, F5, F6, F7, F8. done.
    + destruct (Z.geb_spec (now - test_request_at_ s) (test_window (heartbeat_secs (cfg_ s)))); [|lia].
      match goal with |- context [build_message ?b ?x] => pose proof (build_message_frame b x) as (_ & _ & F3 & _) end.
      destruct (build_message _ _) as [w s1]. done.
  - destruct (Z.ltb_spec now (last_inbound_ s + test_window (heartbeat_secs (cfg_ s)))).
    + destruct (Z.geb_spec (now - last_inbound_ s) (test_window (heartbeat_secs (cfg_ s)))); [lia|].
      destruct (_ >=? _); [|done].
      pose proof (build_message_frame [(tag_MsgType, mt_Heartbeat)] s) as (F1 & F2 & F3 & F4 & F5 & F6 & F7 & F8).
      destruct (build_message _ s) as [w s1]. cbn [snd fst disconnect] in *. rewrite F1, F3, F5, F6, F7, F8. done.
    + destruct (Z.geb_spec (now - last_inbound_ s) (test_window (heartbeat_secs (cfg_ s)))); [|lia].
      match goal with |- context [build_message ?b s] =>
        pose proof (build_message_frame b s) as (F1 & _ & F3 & _ & _ & _ & F7 & _) end.
      destruct (build_message _ s) as [w s1]. cbn in F1, F3, F7 |- *. by rewrite F1, F3, F7.
Qed.

Lemma ticks_before ts s :
  timed s → Forall (λ t, t < deadline s) ts →
  Forall (λ st, disconnect st = false) (run_ticks ts s).1 ∧ same_timers s (run_ticks ts s).2.
Proof.
  intros Ht Hts. revert s Ht Hts. induction ts as [|t ts IH]; intros s Ht Hts; cbn [run_ticks].
  { split; [by apply Forall_nil_2|by split]. }
  apply Forall_cons in Hts as [Hlt Hts]. pose proof (tick_cases t s Ht) as Hc. cbn zeta in Hc.
  destruct (Z.ltb_spec t (deadline s)); [|lia]. destruct Hc as [Hd (Ht' & H1 & H2 & H3 & H4)].
  destruct (tick t s) as [st s1]. cbn [fst snd] in *.
  destruct (IH s1 Ht') as [IHd (IHt & I1 & I2 & I3 & I4)].
  { unfold deadline. by rewrite H1, H2, H3, H4. }
  destruct (run_ticks ts s1) as [sts s2]. cbn [fst snd] in *. split; [by apply Forall_cons|].
  split; [done|]. split_and!; congruence.
Qed.

End timers.

(** C20: a silent peer is detected. With the timers running and nothing
    received, ticks before last_inbound + W (W the test window) keep the
    session up; the first tick at or after it sends a TestRequest; ticks
    within W of that keep the session up; the first tick after that sends a
    Logout and closes the connection. *)
Theorem silent_peer_disconnected `{Env} s ts1 t1 ts2 t2 :
  timed s → test_request_outstanding_ s = false →
  let W := test_window (heartbeat_secs (cfg_ s)) in
  Forall (λ t, t < last_inbound_ s + W) ts1 → last_inbound_ s + W ≤ t1 →
  Forall (λ t, t < t1 + W) ts2 → t1 + W ≤ t2 →
  let '(sts, s') := run_ticks (ts1 ++ t1 :: ts2 ++ [t2]) s in
  ∃ sts1 st1 sts2 st2, sts = sts1 ++ st1 :: sts2 ++ [st2] ∧
    length sts1 = length ts1 ∧ length sts2 = length ts2 ∧
    Forall (λ st, disconnect st = false) (sts1 ++ st1 :: sts2) ∧
    (∃ s1, out st1 = [(build_message [(tag_MsgType, mt_TestRequest);
       (tag_TestReqID, B "tr-" ++ to_string (u64 (out_seq_ s1 + 1)))] s1).1]) ∧
    (∃ s2, out st2 = [(send_logout (B "heartbeat timeout") s2).1]) ∧
    disconnect st2 = true ∧ state_ s' = LogoutSent.
Proof.
  intros Ht Ho W H1 H2 H3 H4. rewrite run_ticks_app. cbn zeta.
  destruct (ticks_before ts1 s Ht) as [Hd1 (Ht1 & E1 & E2 & E3 & E4)]; [unfold deadline; by rewrite Ho|].
  pose proof (run_ticks_length ts1 s) as HL1. destruct (run_ticks ts1 s) as [sts1 s1]. cbn [fst snd run_ticks] in *.
  pose proof (tick_cases t1 s1 Ht1) as Hc. cbn zeta in Hc. unfold deadline in Hc. rewrite E4, Ho, E1, E2 in Hc. fold W in Hc.
  destruct (Z.ltb_spec t1 (last_inbound_ s + W)); [lia|]. destruct Hc as (Hd & Ht2 & C1 & C2 & C3 & Hout1).
  destruct (tick t1 s1) as [st1 s2]. cbn [fst snd] in *. rewrite run_ticks_app. cbn zeta.
  destruct (ticks_before ts2 s2 Ht2) as [Hd2 (Ht3 & D1 & D2 & D3 & D4)].
  { unfold deadline. rewrite C1, C2, C3. done. }
  pose proof (run_ticks_length ts2 s2) as HL2. destruct (run_ticks ts2 s2) as [sts2 s3]. cbn [fst snd run_ticks] in *.
  pose proof (tick_cases t2 s3 Ht3) as Hc. cbn zeta in Hc. unfold deadline in Hc. rewrite D4, C2, D3, C3, D1, C1 in Hc. fold W in Hc.
  destruct (Z.ltb_spec t2 (t1 + W)); [lia|]. destruct Hc as (Hdis & Hst & Hout2).
  destruct (tick t2 s3) as [st2 s4]. cbn [fst snd] in *.
  exists sts1, st1, sts2, st2. split; [done|]. split; [done|]. split; [done|].
  split; [apply Forall_app; split; [done|by apply Forall_cons]|].
  split; [by exists s1|]. split; [by exists s3|]. done.
Qed.

(** The clock the session has seen and ticks around its two deadlines. *)
Lemma silent_peer_disconnected_witness :
  let '(sts, s') := run_ticks ([secs 10] ++ secs 60 :: [secs 70] ++ [secs 110]) ex_logged in
  ∃ sts1 st1 sts2 st2, sts = sts1 ++ st1 :: sts2 ++ [st2] ∧ length sts1 = 1%nat ∧ length sts2 = 1%nat ∧
    Forall (λ st, disconnect st = false) (sts1 ++ st1 :: sts2) ∧
    (∃ s1, out st1 = [(build_message [(tag_MsgType, mt_TestRequest);
       (tag_TestReqID, B "tr-" ++ to_string (u64 (out_seq_ s1 + 1)))] s1).1]) ∧
    (∃ s2, out st2 = [(send_logout (B "heartbeat timeout") s2).1]) ∧
    disconnect st2 = true ∧ state_ s' = LogoutSent.
Proof.
  apply (silent_peer_disconnected ex_logged [secs 10] (secs 60) [secs 70] (secs 110));
    [split_and!; by vm_compute|by vm_compute|decided|by vm_compute|decided|by vm_compute].
Defined.

(** The test window is not one and a half heartbeat intervals for odd
    intervals: the half is computed in whole seconds and rounded down, so the
    window is half a second short. *)
Theorem test_window_rounds_down hb :
  0 ≤ hb → test_window hb = secs hb + secs hb / 2 - (if Z.even hb then 0 else 500000000).
Proof.
  intros Hhb. unfold test_window, secs. destruct (Z.even hb) eqn:He.
  - apply Z.even_spec in He as [k ->]. replace (2 * k / 2) with k by (apply (Z.div_unique _ 2 _ 0); lia).
    replace (2 * k * 1000000000) with (k * 1000000000 * 2) by lia. rewrite Z.div_mul by lia. lia.
  - assert (Z.odd hb = true) as Ho by (by rewrite <- Z.negb_even, He). apply Z.odd_spec in Ho as [k ->].
    assert ((2 * k + 1) / 2 = k) as -> by (symmetry; apply (Z.div_unique _ 2 _ 1); lia).
    replace ((2 * k + 1) * 1000000000) with ((k * 1000000000 + 500000000) * 2) by lia.
    rewrite Z.div_mul by lia. lia.
Qed.

Lemma test_window_rounds_down_witness : test_window 5 = 7000000000.
Proof. rewrite test_window_rounds_down; [reflexivity|lia]. Defined.
