(* ===== verification/Server.v ===== *)
(** * The server

    Models the part of [src/net/tcp_server.cpp] between the sockets and the
    library: [exec_report_for_ack], [exec_report_for_trade], and one turn of
    the loop in [TcpServer::session_loop], from what [poll] and [recv] deliver
    to what is written back. The order book is shared by all connections and
    locked for each application message, so its state is a value of its own,
    [Server], threaded through the messages of every connection.

    What the socket does is a parameter, the class [Net]: what the n-th [send]
    on a descriptor comes to when it is offered some bytes. *)

From S2P Require Import Prelude Types PriceLevel SortedMap OrderBook ProRata Matcher Text Messages Serializer Parser Session.

(** ** Execution reports *)

Definition exec_report_for_ack (a : Ack) (id : OrderId) : list (Z * bytes) :=
  [(tag_OrderID, to_string id);
   (tag_ClOrdID, a_clord a);
   (tag_ExecID, to_string id ++ B "-A");
   (tag_ExecType, B "0");
   (tag_OrdStatus, B "0");
   (tag_LeavesQty, B "0");
   (tag_CumQty, B "0");
   (tag_AvgPx, B "0")].

Definition exec_report_for_trade (t : Trade) (resting_id aggressor_id : OrderId) (for_aggressor : bool) :
    list (Z * bytes) :=
  let oid := if for_aggressor then aggressor_id else resting_id in
  let cl := if for_aggressor then t_aggressor_clord t else t_resting_clord t in
  [(tag_OrderID, to_string oid);
   (tag_ClOrdID, cl);
   (tag_ExecID, to_string oid ++ B "-T" ++ to_string (t_qty t));
   (tag_ExecType, B "F");
   (tag_OrdStatus, B "1");
   (tag_LastQty, to_string (t_qty t));
   (tag_LastPx, to_string (t_price t))].

(** The body of an event's report; [None] is the [continue]. *)
Definition report_body (ev : Event) : option (list (Z * bytes)) :=
  match ev with
  | EAck a => Some (exec_report_for_ack a (a_id a))
  | ETrade t => Some (exec_report_for_trade t (t_resting_id t) (t_aggressor_id t) true)
  | EOrdReject r =>
      Some [(tag_ClOrdID, r_clord r); (tag_ExecType, B "8"); (tag_OrdStatus, B "8"); (tag_Text, r_reason r)]
  | ECancelAck c =>
      Some [(tag_ClOrdID, c_clord c); (tag_OrigClOrdID, c_orig_clord c); (tag_ExecType, B "4");
            (tag_OrdStatus, B "4")]
  | EReplaceAck _ => None
  end.

(** ** The shared state *)

Record ServerConfig := mkServerConfig {
  sc_host : bytes;
  sc_port : Z;
  sc_sender_comp_id : bytes;
  sc_heartbeat_secs : Z;
  sc_algo : MatchAlgo
}.
Definition default_config : ServerConfig := mkServerConfig (B "127.0.0.1") 0 (B "OBFIX") 30 ProRata.

(** The members every session thread reads or changes. *)
Record Server := mkServer {
  matcher_ : MatchAlgo;
  book_ : OrderBook;
  heap_ : heap;
  fresh_ : loc;
  next_order_id_ : OrderId;
  msgs_in_ : Z;
  msgs_out_ : Z
}.

Definition new_server (algo : MatchAlgo) : Server := mkServer algo (new_book (B "SYM")) ∅ 1 1 0 0.

Definition count_in (sv : Server) : Server :=
  mkServer (matcher_ sv) (book_ sv) (heap_ sv) (fresh_ sv) (next_order_id_ sv) (u64 (msgs_in_ sv + 1)) (msgs_out_ sv).
Definition count_out (sv : Server) : Server :=
  mkServer (matcher_ sv) (book_ sv) (heap_ sv) (fresh_ sv) (next_order_id_ sv) (msgs_in_ sv) (u64 (msgs_out_ sv + 1)).

(** ** Application messages *)

Definition value_or (d : bytes) (t : Z) (m : Message) : bytes := default d (get t m).

(** The first character; an empty string has its terminator there. *)
Definition front (s : bytes) : ascii := match s with c :: _ => c | [] => char_of 0 end.

(** The order a NewOrderSingle asks for. The session member keeps its default. *)
Definition order_of (m : Message) (id : OrderId) : res Order :=
  let! price := stoll (value_or (B "0") tag_Price m) in
  let! qty := stoull (value_or (B "0") tag_OrderQty m) in
  Ok (mkOrder id 0 (value_or [] tag_ClOrdID m) (side_of_char (front (value_or (B "1") tag_Side m)))
        Limit price qty qty 0 None None).

(** The block under [book_mu_]: the events of one application message. *)
Definition handle_app (m : Message) (sv : Server) : res (EventList * Server) :=
  let mt := msg_type m in
  if bool_decide (mt = mt_NewOrderSingle) then
    let id := next_order_id_ sv in
    let! o := order_of m id in
    let! s := submit (matcher_ sv) (fresh_ sv) (mkM (book_ sv) (<[fresh_ sv := o]> (heap_ sv)) []) in
    Ok (m_out s, mkServer (matcher_ sv) (m_book s) (m_heap s) (Pos.succ (fresh_ sv)) (u64 (id + 1))
                   (msgs_in_ sv) (msgs_out_ sv))
  else if bool_decide (mt = mt_OrderCancelRequest) then
    let orig := value_or [] tag_OrigClOrdID m in
    let! '(r, b, h) := cancel 0 orig (book_ sv) (heap_ sv) in
    let clord := value_or [] tag_ClOrdID m in
    let ev := if ok r then ECancelAck (mkCancelAck 0 clord orig)
              else EOrdReject (mkOrdReject clord (B "cancel: unknown order")) in
    Ok ([ev], mkServer (matcher_ sv) b h (fresh_ sv) (next_order_id_ sv) (msgs_in_ sv) (msgs_out_ sv))
  else Ok ([], sv).

(** ** A connection *)

(** What a call of [send] on a blocking socket comes to: it returns a count (or
    -1), it waits for ever because the peer does not read, or the peer has gone
    and the process gets SIGPIPE. [net_send fd n b] is the [n]-th call on [fd],
    for the bytes [b]; POSIX: a count is at most the number of bytes offered. *)
Inductive Sent := Count (w : Z) | Blocks | Sigpipe.
Class Net := mkNet { net_send : Z → nat → bytes → Sent }.
Class NetLaws `{Net} : Prop := { net_send_le fd n b w : net_send fd n b = Count w → w ≤ zlen b }.

(** The session, the number of calls to [send] and the bytes the peer gets. *)
Record Conn := mkConn { conn_fd : Z; sess : Session; sends : nat; wire : bytes }.
Definition set_sess (s : Session) (c : Conn) : Conn := mkConn (conn_fd c) s (sends c) (wire c).
Definition transmit (b : bytes) (c : Conn) : Conn := mkConn (conn_fd c) (sess c) (S (sends c)) (wire c ++ b).

(** A connection as the loop starts it. *)
Definition new_conn (cfg : ServerConfig) (fd : Z) : Conn :=
  mkConn fd (new_session (mkConfig (sc_sender_comp_id cfg) [] (sc_heartbeat_secs cfg) true 10000) kSohWire) 0 [].

Section server.
Context `{Env} `{Net}.

(** The [while] loop of [write_all]; a count beyond the buffer would move the
    pointer out of it. *)
Fixpoint send_loop (fuel : nat) (p : bytes) (c : Conn) : res (bool * Conn) :=
  match p, fuel with
  | [], _ => Ok (true, c)
  | _, O => Hang
  | _, S fuel =>
      match net_send (conn_fd c) (sends c) p with
      | Blocks => Hang
      | Sigpipe => Throw broken_pipe
      | Count w =>
          if w <=? 0 then Ok (false, transmit [] c)
          else if w >? zlen p then Undef
          else send_loop fuel (drop (Z.to_nat w) p) (transmit (take (Z.to_nat w) p) c)
      end
  end.
Definition write_all (s : bytes) (c : Conn) : res (bool * Conn) := send_loop (length s) s c.

(** The loop that writes a step's output; true when a write failed. *)
Fixpoint write_out (ws : list bytes) (c : Conn) (sv : Server) : res (bool * Conn * Server) :=
  match ws with
  | [] => Ok (false, c, sv)
  | w :: ws =>
      let! '(written, c) := write_all w c in
      if written : bool then write_out ws c (count_out sv) else Ok (true, c, sv)
  end.

(** The report of one event; true when the write failed. *)
Definition send_report (ev : Event) (c : Conn) (sv : Server) : res (bool * Conn * Server) :=
  match report_body ev with
  | None => Ok (false, c, sv)
  | Some body =>
      let '(w, s) := send_execution_report body (sess c) in
      let! '(written, c) := write_all w (set_sess s c) in
      if written : bool then Ok (false, c, count_out sv) else Ok (true, c, sv)
  end.

(** The loop over the events of one message; a failed write ends it. *)
Fixpoint send_reports (evs : EventList) (c : Conn) (sv : Server) : res (bool * Conn * Server) :=
  match evs with
  | [] => Ok (false, c, sv)
  | ev :: evs =>
      let! '(failed, c, sv) := send_report ev c sv in
      if failed : bool then Ok (true, c, sv) else send_reports evs c sv
  end.

(** The loop over the application messages of a step. A failed write ends the
    reports of its message, not the loop. *)
Fixpoint handle_apps (ms : list Message) (dis : bool) (c : Conn) (sv : Server) :
    res (bool * Conn * Server) :=
  match ms with
  | [] => Ok (dis, c, sv)
  | m :: ms =>
      let! '(evs, sv) := handle_app m (count_in sv) in
      let! '(failed, c, sv) := send_reports evs c sv in
      handle_apps ms (dis || failed) c sv
  end.

(** What [poll] and [recv] report; [t] is the steady clock when [tick] reads it. *)
Inductive Ready :=
| Interrupted
| PollFailed
| Idle (t : Z)
| Closed
| Received (data : bytes) (t : Z).

(** The first part of a turn: what to write, the application messages to handle
    after that, and whether the loop is to end. *)
Definition session_read (r : Ready) (c : Conn) : res (list bytes * list Message * bool * Conn) :=
  match r with
  | Interrupted => Ok ([], [], false, c)
  | PollFailed => Ok ([], [], true, c)
  | Idle t =>
      let '(st, s) := tick t (sess c) in
      Ok (out st, [], disconnect st, set_sess s c)
  | Closed => Ok ([], [], true, c)
  | Received data t =>
      let! '(st, s) := on_bytes data (sess c) in
      let '(tst, s) := tick t s in
      Ok (out st ++ out tst, app st, disconnect st || disconnect tst, set_sess s c)
  end.

(** A turn up to the application messages. *)
Definition session_input (r : Ready) (c : Conn) (sv : Server) : res (bool * list Message * Conn * Server) :=
  let! '(ws, ms, dis, c) := session_read r c in
  let! '(failed, c, sv) := write_out ws c sv in
  Ok (dis || failed, ms, c, sv).

(** A whole turn; the flag says whether the loop ends. *)
Definition session_turn (r : Ready) (c : Conn) (sv : Server) : res (bool * Conn * Server) :=
  let! '(dis, ms, c, sv) := session_input r c sv in
  handle_apps ms dis c sv.

End server.
