(* ===== verification/ServerTheorems.v ===== *)
(** * Theorems about the server

    The application messages of all connections, in the order the book lock
    serialises them, drive the matching engine as one feed of operations; the
    engine's theorems then apply to the server. A turn of the connection loop
    writes the session's replies and the reports of its orders in order. *)

From S2P Require Import Prelude Types PriceLevel SortedMap OrderBook BookRep BookProps ProRata Matcher FillProps MatchSpec MatchProps SubmitProps TradeProps Engine Text Messages Serializer Parser ParserProps CodecProps CodecTheorems Session SessionProps Resend Server.

(** ** Messages as operations of the engine *)

Definition app_op (m : Message) (id : OrderId) : res (option Op) :=
  if bool_decide (msg_type m = mt_NewOrderSingle) then
    let! o := order_of m id in Ok (Some (OpSubmit o))
  else if bool_decide (msg_type m = mt_OrderCancelRequest) then
    Ok (Some (OpCancel 0 (value_or [] tag_OrigClOrdID m)))
  else Ok None.

Definition next_id (op : option Op) (id : OrderId) : OrderId :=
  match op with Some (OpSubmit _) => u64 (id + 1) | _ => id end.

(** The feed of a sequence of messages; an unreadable number is an exception. *)
Fixpoint app_ops (ms : list Message) (id : OrderId) : res (list Op) :=
  match ms with
  | [] => Ok []
  | m :: ms =>
      let! op := app_op m id in
      let! ops := app_ops ms (next_id op id) in
      Ok (match op with Some op => op :: ops | None => ops end)
  end.

(** The messages of any connections one after the other, as the lock orders
    them. *)
Fixpoint run_apps (ms : list Message) (sv : Server) : res (EventList * Server) :=
  match ms with
  | [] => Ok ([], sv)
  | m :: ms =>
      let! '(evs, sv) := handle_app m sv in
      let! '(evs', sv) := run_apps ms sv in
      Ok (evs ++ evs', sv)
  end.

(** ** The abstract server

    What the messages mean over the abstract book: a submission has the
    matcher's events, a cancel request one answer, other messages none. *)
Record AServer := mkAServer { as_book : ABook; as_next : loc; as_id : OrderId }.

Definition rests (sid : SessionId) (c : ClOrdID) (ab : ABook) : bool :=
  bool_decide (is_Some (list_find (λ e : entry, order_key e.2 = (sid, c)) (entries ab))).

Definition cancel_answer (m : Message) (found : bool) : Event :=
  let clord := value_or [] tag_ClOrdID m in
  if found then ECancelAck (mkCancelAck 0 clord (value_or [] tag_OrigClOrdID m))
  else EOrdReject (mkOrdReject clord (B "cancel: unknown order")).

Definition a_app (algo : MatchAlgo) (m : Message) (s : AServer) : res (EventList * AServer) :=
  let! op := app_op m (as_id s) in
  Ok match op with
     | Some (OpSubmit o) =>
         let '(ab, evs) := a_submit algo (as_next s) o (as_book s) in
         (evs, mkAServer ab (Pos.succ (as_next s)) (u64 (as_id s + 1)))
     | Some (OpCancel sid c) =>
         ([cancel_answer m (rests sid c (as_book s))],
          mkAServer (a_cancel sid c (as_book s)) (as_next s) (as_id s))
     | None => ([], s)
     end.

Fixpoint a_apps (algo : MatchAlgo) (ms : list Message) (s : AServer) : res (EventList * AServer) :=
  match ms with
  | [] => Ok ([], s)
  | m :: ms =>
      let! '(evs, s) := a_app algo m s in
      let! '(evs', s) := a_apps algo ms s in
      Ok (evs ++ evs', s)
  end.

Definition engine_of (sv : Server) : Engine := mkEngine (mkM (book_ sv) (heap_ sv) []) (fresh_ sv).

(** The simulation relation. *)
Definition serves (sv : Server) (s : AServer) : Prop :=
  engine_inv (engine_of sv) (as_book s) ∧ fresh_ sv = as_next s ∧ next_order_id_ sv = as_id s.

Lemma handle_submit m o sv s ks :
  serves sv s → keys_within ks (as_book s) → msg_type m = mt_NewOrderSingle →
  order_of m (as_id s) = Ok o → order_key o ∉ ks → 0 ≤ o_leaves o → total (as_book s) + o_leaves o < two63 →
  let r := a_submit (matcher_ sv) (as_next s) o (as_book s) in
  ∃ sv', handle_app m sv = Ok (r.2, sv') ∧
    serves sv' (mkAServer r.1 (Pos.succ (as_next s)) (u64 (as_id s + 1))) ∧ matcher_ sv' = matcher_ sv ∧
    keys_within (order_key o :: ks) r.1 ∧ total r.1 ≤ total (as_book s) + o_leaves o.
Proof.
  intros (Hinv & Hfr & Hid) Hks Hmt Ho Hk Hnn Ht.
  destruct (engine_submit (matcher_ sv) _ _ o ks Hinv Hks Hk Hnn Ht) as (e' & He & Hres).
  cbn [e_next engine_of] in Hres. rewrite Hfr in Hres. cbv zeta.
  destruct (a_submit (matcher_ sv) (as_next s) o (as_book s)) as [ab' evs].
  destruct Hres as (Hinv' & Hout & Ht' & Hks'). cbn in Hout.
  pose proof (exec_next _ _ _ _ He) as Hn. unfold exec in He. cbn [e_m e_next engine_of m_book m_heap m_out] in He.
  unfold handle_app. rewrite (bool_decide_eq_true_2 _ Hmt), Hid, Ho. cbn [rbind].
  destruct (submit _ _ _) as [s'| | |]; [|done..]. cbn [rbind] in *. injection He as <-. cbn in Hn, Hout.
  exists (mkServer (matcher_ sv) (m_book s') (m_heap s') (Pos.succ (fresh_ sv)) (u64 (as_id s + 1))
                   (msgs_in_ sv) (msgs_out_ sv)).
  rewrite Hout. cbn [fst snd]. split; [done|]. split; [|done]. split; [|cbn; by rewrite Hfr].
  destruct Hinv' as [? ? ? ? ?]. by split.
Qed.

Lemma handle_cancel m sv s ks :
  serves sv s → keys_within ks (as_book s) → msg_type m = mt_OrderCancelRequest →
  let c := value_or [] tag_OrigClOrdID m in
  ∃ sv', handle_app m sv = Ok ([cancel_answer m (rests 0 c (as_book s))], sv') ∧
    serves sv' (mkAServer (a_cancel 0 c (as_book s)) (as_next s) (as_id s)) ∧ matcher_ sv' = matcher_ sv ∧
    keys_within ks (a_cancel 0 c (as_book s)) ∧ total (a_cancel 0 c (as_book s)) ≤ total (as_book s).
Proof.
  intros (Hinv & Hfr & Hid) Hks Hmt c.
  destruct (engine_cancel (matcher_ sv) _ _ 0 c ks Hinv Hks) as (e' & He & Hinv' & _ & Ht & Hks').
  pose proof (exec_next _ _ _ _ He) as Hn. unfold exec in He. cbn [e_m e_next engine_of m_book m_heap m_out] in He.
  unfold handle_app. rewrite (bool_decide_eq_false_2 (msg_type m = mt_NewOrderSingle)) by (rewrite Hmt; done).
  rewrite (bool_decide_eq_true_2 _ Hmt). cbv zeta. fold c.
  assert (∃ b h, cancel 0 c (book_ sv) (heap_ sv) =
    Ok (mkCancelResult (rests 0 c (as_book s)) (if rests 0 c (as_book s) then [] else B "unknown order"), b, h))
    as (b & h & Hc).
  { pose proof (ei_rep _ _ Hinv) as Hb. unfold rests.
    destruct (list_find _ (entries (as_book s))) as [[i [l a]]|] eqn:Hf.
    - apply list_find_Some in Hf as (Hi & Hkey & _). apply list_elem_of_lookup_2 in Hi.
      destruct (cancel_rep _ _ _ _ _ _ _ Hb Hi Hkey) as (b' & h' & Hc & _). eauto.
    - apply list_find_None in Hf. rewrite Forall_forall in Hf.
      do 2 eexists. apply (cancel_unknown _ _ _ _ _ Hb). intros l a Hin. exact (Hf _ Hin). }
  rewrite Hc in He |- *. cbn [rbind ok] in *. injection He as <-.
  eexists. split; [reflexivity|]. split; [|done]. by split.
Qed.

(** One message: the events are the abstract server's and the relation holds
    again; what is left of the feed stays admissible. *)
Lemma handle_app_spec m sv s ks op ops :
  serves sv s → keys_within ks (as_book s) → app_op m (as_id s) = Ok op →
  feed_ok ks (option_list op ++ ops) → total (as_book s) + submitted_qty (option_list op ++ ops) < two63 →
  ∃ evs sv' s' ks', handle_app m sv = Ok (evs, sv') ∧ a_app (matcher_ sv) m s = Ok (evs, s') ∧
    serves sv' s' ∧ matcher_ sv' = matcher_ sv ∧ as_id s' = next_id op (as_id s) ∧
    keys_within ks' (as_book s') ∧ feed_ok ks' ops ∧
    total (as_book s') + submitted_qty ops ≤ total (as_book s) + submitted_qty (option_list op ++ ops).
Proof.
  intros Hs Hks Hop Hfeed Ht. unfold a_app. rewrite Hop. cbn [rbind]. unfold app_op in Hop.
  destruct (bool_decide_reflect (msg_type m = mt_NewOrderSingle)) as [Hmt|Hmt];
    [|destruct (bool_decide_reflect (msg_type m = mt_OrderCancelRequest)) as [Hmt'|Hmt']].
  - destruct (order_of m (as_id s)) as [o| | |] eqn:Ho; try done. injection Hop as <-. destruct Hfeed as [Hnd Hnn].
    change (option_list (Some (OpSubmit o)) ++ ops) with (OpSubmit o :: ops) in *.
    change (submitted_qty (OpSubmit o :: ops)) with (o_leaves o + submitted_qty ops) in *. cbn in Hnd, Hnn.
    apply Forall_cons in Hnn as [Hl Hnn].
    assert (0 ≤ submitted_qty ops) by (apply sumz_nonneg, Forall_fmap; exact Hnn).
    destruct (handle_submit m o sv s ks) as (sv' & He & Hs' & Hm' & Hks' & Ht'); try done; [|lia|].
    { apply NoDup_app in Hnd as (_ & Hdj & _). intros Hin. apply (Hdj _ Hin). left. }
    destruct (a_submit (matcher_ sv) (as_next s) o (as_book s)) as [ab evs]. cbn [fst snd] in *.
    exists evs, sv', (mkAServer ab (Pos.succ (as_next s)) (u64 (as_id s + 1))), (order_key o :: ks).
    split_and!; try done; [|cbn [as_book]; lia]. split; [|done]. cbn. by rewrite Permutation_middle.
  - injection Hop as <-. set (c := value_or [] tag_OrigClOrdID m) in *.
    change (option_list (Some (OpCancel 0 c)) ++ ops) with (OpCancel 0 c :: ops) in *.
    change (submitted_qty (OpCancel 0 c :: ops)) with (submitted_qty ops) in *.
    destruct (handle_cancel m sv s ks) as (sv' & He & Hs' & Hm' & Hks' & Ht'); try done. fold c in He, Hs', Hks', Ht'.
    eexists _, sv', _, ks. split; [exact He|]. split; [done|]. split; [exact Hs'|].
    split_and!; try done. cbn [as_book]. lia.
  - injection Hop as <-. exists [], sv, s, ks. unfold handle_app.
    rewrite !bool_decide_eq_false_2 by done. by split_and!.
Qed.

Lemma run_apps_spec ms rest : ∀ sv s ks ops,
  serves sv s → keys_within ks (as_book s) → app_ops ms (as_id s) = Ok ops → feed_ok ks (ops ++ rest) →
  total (as_book s) + submitted_qty (ops ++ rest) < two63 →
  ∃ evs sv' s' ks', run_apps ms sv = Ok (evs, sv') ∧ a_apps (matcher_ sv) ms s = Ok (evs, s') ∧ serves sv' s' ∧
    matcher_ sv' = matcher_ sv ∧ keys_within ks' (as_book s') ∧ feed_ok ks' rest ∧
    total (as_book s') + submitted_qty rest ≤ total (as_book s) + submitted_qty (ops ++ rest).
Proof.
  induction ms as [|m ms IH]; intros sv s ks ops Hs Hks Hops Hfeed Ht; cbn [run_apps a_apps app_ops] in *.
  { injection Hops as <-. exists [], sv, s, ks. by split_and!. }
  destruct (app_op m (as_id s)) as [op| | |] eqn:Hop; try done. cbn [rbind] in Hops.
  destruct (app_ops ms (next_id op (as_id s))) as [ops'| | |] eqn:Hops'; try done. cbn [rbind] in Hops.
  assert (ops = option_list op ++ ops') as -> by (destruct op; by injection Hops as <-). rewrite <- app_assoc in *.
  destruct (handle_app_spec m sv s ks op (ops' ++ rest))
    as (evs & sv1 & s1 & ks1 & He & Ha & Hs1 & Hm1 & Hid & Hks1 & Hf1 & Ht1); try done. rewrite He, Ha. cbn [rbind].
  destruct (IH sv1 s1 ks1 ops') as (evs' & sv2 & s2 & ks2 & He2 & Ha2 & Hs2 & Hm2 & Hks2 & Hf2 & Ht2);
    try done; [by rewrite Hid|lia|].
  rewrite He2. rewrite <- Hm1, Ha2. cbn [rbind]. eexists _, sv2, s2, ks2. split; [done|]. split; [done|].
  split_and!; try done; lia.
Qed.

Lemma app_ops_app ms ms' id :
  app_ops (ms ++ ms') id =
    let! ops := app_ops ms id in
    let! ops' := app_ops ms' (foldl (λ id op, next_id (Some op) id) id ops) in
    Ok (ops ++ ops').
Proof.
  revert id. induction ms as [|m ms IH]; intros id; cbn [app_ops Datatypes.app rbind foldl].
  { by destruct (app_ops ms' id). }
  destruct (app_op m id) as [op| | |]; try done. cbn [rbind]. rewrite IH.
  destruct (app_ops ms (next_id op id)) as [ops| | |]; try done. cbn [rbind].
  destruct op as [op|]; cbn [foldl]; by destruct (app_ops ms' _).
Qed.

Lemma a_apps_id algo ms s evs s' ops :
  a_apps algo ms s = Ok (evs, s') → app_ops ms (as_id s) = Ok ops →
  as_id s' = foldl (λ id op, next_id (Some op) id) (as_id s) ops.
Proof.
  revert s evs ops. induction ms as [|m ms IH]; intros s evs ops; cbn [a_apps app_ops].
  { by intros [= _ <-] [= <-]. }
  unfold a_app. destruct (app_op m (as_id s)) as [op| | |] eqn:Hop; try done. cbn [rbind].
  destruct (match op with Some _ => _ | None => _ end) as [evs1 s1] eqn:Hs1.
  assert (as_id s1 = next_id op (as_id s)) as Hid.
  { destruct op as [[o|sid c]|]; [destruct (a_submit _ _ _ _)|..]; by injection Hs1 as _ <-. }
  destruct (a_apps algo ms s1) as [[evs2 s2]| | |] eqn:Ha; try done. intros [= _ <-].
  rewrite <- Hid. destruct (app_ops ms (as_id s1)) as [ops'| | |] eqn:Hops; try done. intros [= <-].
  rewrite (IH _ _ _ Ha Hops), Hid. by destruct op.
Qed.

Lemma new_server_serves algo : serves (new_server algo) (mkAServer a_empty 1 1).
Proof. split; [|done]. exact init_inv. Qed.

(** ** Writing *)

Section writing.
Context `{Env} `{Net}.

(** What a write comes to: the bytes the peer has are the ones offered, or a
    prefix if the socket fails; or a call of [send] waits for ever, or gets
    SIGPIPE. *)
Definition written (p : bytes) (c : Conn) (r : res (bool * Conn)) : Prop :=
  match r with
  | Ok (ok, c') => sess c' = sess c ∧ conn_fd c' = conn_fd c ∧ (∃ k, wire c' = wire c ++ take k p) ∧ (ok = true → wire c' = wire c ++ p)
  | Hang => ∃ n b, net_send (conn_fd c) n b = Blocks
  | Throw e => e = broken_pipe ∧ ∃ n b, net_send (conn_fd c) n b = Sigpipe
  | Undef => False
  end.

Lemma send_loop_spec (L : NetLaws) fuel : ∀ p c, (length p ≤ fuel)%nat → written p c (send_loop fuel p c).
Proof.
  induction fuel as [|fuel IH]; intros [|a p] c Hf; cbn [send_loop]; try (cbn in Hf; lia).
  1,2: split; [done|]; split; [done|]; split; [exists 0%nat|]; by rewrite app_nil_r.
  set (q := a :: p) in *. destruct (net_send (conn_fd c) (sends c) q) as [w| |] eqn:Hn; [|by exists (sends c), q|split; [done|by exists (sends c), q]].
  apply net_send_le in Hn as Hw.
  destruct (Z.leb_spec w 0); [split; [done|]; split; [done|]; split; [by exists 0%nat|done]|].
  destruct (Z.gtb_spec w (zlen q)); [lia|].
  specialize (IH (drop (Z.to_nat w) q) (transmit (take (Z.to_nat w) q) c) ltac:(rewrite length_drop; lia)).
  destruct (send_loop fuel _ _) as [[ok c']|e| |]; cbn [written conn_fd sess wire transmit] in *; try done.
  destruct IH as (Hs & Hfd & (k & Hk) & Hall). split; [done|]. split; [done|]. split.
  - exists (Z.to_nat w + k)%nat. rewrite Hk, <- app_assoc. f_equal. symmetry. rewrite take_drop_commute.
    rewrite <- (take_drop (Z.to_nat w) (take (Z.to_nat w + k) q)) at 1. f_equal. rewrite take_take. f_equal. lia.
  - intros Hok. rewrite (Hall Hok), <- app_assoc, take_drop. done.
Qed.

(** A socket that never fails: its peer reads and stays. *)
Definition up (fd : Z) : Prop := ∀ n b, b ≠ [] → ∃ w, net_send fd n b = Count w ∧ 0 < w.

Lemma send_loop_up (L : NetLaws) fuel : ∀ p c,
  (length p ≤ fuel)%nat → up (conn_fd c) → ∃ c', send_loop fuel p c = Ok (true, c').
Proof.
  induction fuel as [|fuel IH]; intros [|a p] c Hf Hup; cbn [send_loop]; try (cbn in Hf; lia); [by eexists..|].
  set (q := a :: p) in *. destruct (Hup (sends c) q ltac:(done)) as (w & Hn & Hpos). rewrite Hn.
  apply net_send_le in Hn as Hw. destruct (Z.leb_spec w 0); [lia|]. destruct (Z.gtb_spec w (zlen q)); [lia|].
  apply IH; [rewrite length_drop; lia|done].
Qed.

Lemma write_all_up (L : NetLaws) b c :
  up (conn_fd c) → ∃ c', write_all b c = Ok (true, c') ∧ wire c' = wire c ++ b ∧ sess c' = sess c ∧
    conn_fd c' = conn_fd c.
Proof.
  intros Hup. destruct (send_loop_up L (length b) b c) as (c' & He); [done..|].
  pose proof (send_loop_spec L (length b) b c (le_n _)) as Hw. rewrite He in Hw. destruct Hw as (Hs & Hfd & _ & Hall).
  exists c'. unfold write_all. rewrite He. by rewrite Hall.
Qed.

End writing.

(** ** Shared keys *)

Definition limit_order (clord side px qty : string) : Message :=
  mkMessage (list_to_map [(tag_MsgType, mt_NewOrderSingle); (tag_ClOrdID, B clord); (tag_Side, B side);
    (tag_Price, B px); (tag_OrderQty, B qty)]).

(** ClOrdIDs are not kept apart per session. Every order is filed under
    session 0, so a second client that uses the ClOrdID of another client's
    resting order leads the server into undefined behaviour at the next
    crossing order. *)
Theorem shared_clordid_undefined algo :
  run_apps [limit_order "1" "2" "100" "10"; limit_order "1" "2" "100" "10"; limit_order "2" "1" "100" "50"]
    (new_server algo) = Undef.
Proof. destruct algo; vm_compute; reflexivity. Qed.
