(* ===== verification/Reports.v ===== *)
(** * Execution reports on the wire

    What a client reads after its order message: every event of the message
    becomes one ExecutionReport, in order, numbered consecutively, and the
    client's parser gets back the fields of the event. *)

From S2P Require Import Prelude Types PriceLevel SortedMap OrderBook BookRep BookProps ProRata Matcher FillProps MatchSpec MatchProps SubmitProps TradeProps Engine Text Messages Serializer Parser ParserProps CodecProps CodecTheorems Session SessionProps Resend SessionTheorems Server ServerTheorems.

(** A byte stream that the parser reads as these messages, one after another. *)
Inductive decodes (soh : ascii) : bytes → list Message → Prop :=
| decodes_nil : decodes soh [] []
| decodes_cons w rest m ms :
    parse_one soh (w ++ rest) = Ok (mkParseResult None_ (zlen w) m) → decodes soh rest ms →
    decodes soh (w ++ rest) (m :: ms).

(** A message that reports an event under sequence number [n]. *)
Definition reports (n : SeqNum) (m : Message) (ev : Event) : Prop :=
  msg_type m = mt_ExecutionReport ∧ seq m = Ok n ∧
  ∃ body, report_body ev = Some body ∧ ∀ t v, (t, v) ∈ body → get t m = Some v.

Fixpoint reports_from (n : SeqNum) (ms : list Message) (evs : EventList) : Prop :=
  match ms, evs with
  | [], [] => True
  | m :: ms, ev :: evs => reports n m ev ∧ reports_from (n + 1) ms evs
  | _, _ => False
  end.

(** ** Bodies *)

Lemma to_string_clean soh z : plain_separator soh → soh ∉ to_string z.
Proof.
  intros Hp. assert (is_digit soh = false ∧ soh ≠ "-"%char) as [Hd Hm] by (destruct Hp as [->| ->]; by vm_compute).
  unfold to_string. destruct (Z.ltb_spec z 0).
  - apply not_elem_of_cons. split; [done|]. intros Hin%dec_digits; [congruence|lia].
  - intros Hin%dec_digits; [congruence|lia].
Qed.

Definition reportable (soh : ascii) (ev : Event) : Prop :=
  ∃ body, report_body ev = Some body ∧ app_body soh mt_ExecutionReport body.

(** The body of a report from clean values. *)
Lemma app_body_of soh (body : list (Z * bytes)) :
  plain_separator soh → Forall (λ f, soh ∉ f.2) body →
  bool_decide (Forall (λ t, 0 ≤ t < two31) body.*1 ∧ NoDup body.*1 ∧ Forall (λ t, t ∉ body.*1) supplied) = true →
  app_body soh mt_ExecutionReport body.
Proof.
  intros Hp Hv (Ht & Hnd & Hs)%bool_decide_eq_true. split; [literal|]. split; [|done].
  rewrite Forall_fmap in Ht. apply Forall_forall. intros f Hin. rewrite Forall_forall in Hv, Ht. split; [by apply Ht|by apply Hv].
Qed.

#[local] Ltac clean_value :=
  lazymatch goal with
  | |- _ ∉ to_string _ => by apply to_string_clean
  | |- _ ∉ _ ++ _ => apply not_elem_of_app; split; clean_value
  | |- _ ∉ B _ => literal
  | |- _ => assumption
  end.
#[local] Ltac clean_values := repeat (apply Forall_cons_2; cbn [snd]; [clean_value|]); apply Forall_nil_2.

Lemma ack_reportable soh a : plain_separator soh → soh ∉ a_clord a → reportable soh (EAck a).
Proof.
  intros Hp Hc. eexists. split; [reflexivity|]. unfold exec_report_for_ack.
  apply app_body_of; [done|clean_values|by vm_compute].
Qed.
Lemma trade_reportable soh t : plain_separator soh → soh ∉ t_aggressor_clord t → reportable soh (ETrade t).
Proof.
  intros Hp Hc. eexists. split; [reflexivity|]. unfold exec_report_for_trade.
  apply app_body_of; [done|clean_values|by vm_compute].
Qed.
Lemma answer_reportable soh m found :
  plain_separator soh → clean soh m → reportable soh (cancel_answer m found).
Proof.
  intros Hp Hm.
  assert (∀ t, soh ∉ value_or [] t m) as Hv.
  { intros t. unfold value_or. destruct (get t m) as [v|] eqn:Hg; cbn [default]; [by eapply clean_get|apply not_elem_of_nil]. }
  destruct found; eexists; (split; [reflexivity|]); cbn [c_clord c_orig_clord r_clord r_reason];
    (apply app_body_of; [done| |by vm_compute]);
    repeat (apply Forall_cons_2; cbn [snd]; [first [apply Hv|literal]|]); apply Forall_nil_2.
Qed.

(** ** The events of a submission *)

Definition trade_of (a : Order) (ev : Event) : Prop := ∃ t, ev = ETrade t ∧ t_aggressor_clord t = o_clord a.

Lemma fill_trades_of a px es fs : Forall (trade_of a) (fill_trades a px es fs).
Proof.
  revert fs. induction es as [|e es IH]; intros [|f fs]; cbn [fill_trades]; try by apply Forall_nil_2.
  apply Forall_app. split; [|apply IH]. destruct (f =? 0); [by apply Forall_nil_2|].
  apply Forall_singleton. by eexists.
Qed.

Lemma match_levels_trades algo m : ∀ a, Forall (trade_of a) (match_levels algo a m).1.2.
Proof.
  induction m as [|[p es] m IH]; intros a; cbn [match_levels]; [by apply Forall_nil_2|].
  destruct es as [|e es]; [apply IH|].
  destruct (_ =? 0); [by apply Forall_nil_2|]. destruct (negb _); [by apply Forall_nil_2|].
  destruct (_ >? 0); [|apply fill_trades_of].
  set (a1 := set_leaves _ a). pose proof (IH a1) as Hrec.
  destruct (match_levels algo a1 m) as [[m1 tr1] a2]. cbn [fst snd] in *.
  apply Forall_app. split; [apply fill_trades_of|exact Hrec].
Qed.

Lemma a_submit_events algo l o ab :
  ∃ trades, (a_submit algo l o ab).2 = EAck (mkAck (o_id o) (o_clord o)) :: trades ∧ Forall (trade_of o) trades.
Proof.
  unfold a_submit, match_side.
  pose proof (match_levels_trades algo (a_levels (negb (is_buy (o_side o))) ab) o) as Hev.
  destruct (match_levels algo o _) as [[m tr] a']. by exists tr.
Qed.

Lemma order_of_clord m id o : order_of m id = Ok o → o_clord o = value_or [] tag_ClOrdID m.
Proof. unfold order_of. intros He. res_inv. done. Qed.

(** Every event the server produces can be reported. *)
Lemma a_app_reportable soh algo m s evs s' :
  plain_separator soh → clean soh m → a_app algo m s = Ok (evs, s') → Forall (reportable soh) evs.
Proof.
  intros Hp Hm Ha. unfold a_app in Ha. destruct (app_op m (as_id s)) as [op| | |] eqn:Hop; try done. cbn [rbind] in Ha.
  destruct op as [[o|sid c]|].
  - pose proof (a_submit_events algo (as_next s) o (as_book s)) as (trades & Heq & Htr).
    destruct (a_submit algo (as_next s) o (as_book s)) as [ab evs1]. cbn [snd] in Heq.
    injection Ha as <- _. subst evs1.
    assert (soh ∉ o_clord o) as Hc.
    { unfold app_op in Hop. destruct (bool_decide _); [|by destruct (bool_decide _)].
      destruct (order_of m (as_id s)) as [o'| | |] eqn:Ho; try done. injection Hop as ->.
      rewrite (order_of_clord _ _ _ Ho). unfold value_or.
      destruct (get tag_ClOrdID m) as [v|] eqn:Hg; cbn [default]; [by eapply clean_get|apply not_elem_of_nil]. }
    apply Forall_cons. split; [by apply ack_reportable|]. eapply Forall_impl; [exact Htr|].
    intros ev (t & -> & Ht). apply trade_reportable; [done|by rewrite Ht].
  - injection Ha as <- _. apply Forall_singleton. by apply answer_reportable.
  - injection Ha as <- _. by apply Forall_nil_2.
Qed.

(** ** Writing the reports *)

Section reports.
Context `{Env} `{Net}.

(** The bytes of the reports and the session after them. *)
Fixpoint report_wires (evs : EventList) (s : Session) : list bytes * Session :=
  match evs with
  | [] => ([], s)
  | ev :: evs =>
      match report_body ev with
      | None => report_wires evs s
      | Some body =>
          let r := send_execution_report body s in
          let r' := report_wires evs r.2 in
          (r.1 :: r'.1, r'.2)
      end
  end.

Lemma send_reports_up (L : NetLaws) evs : ∀ c sv,
  up (conn_fd c) →
  let r := report_wires evs (sess c) in
  ∃ c', send_reports evs c sv = Ok (false, c', Nat.iter (length r.1) count_out sv) ∧
    wire c' = wire c ++ mjoin r.1 ∧ sess c' = r.2 ∧ conn_fd c' = conn_fd c.
Proof.
  induction evs as [|ev evs IH]; intros c sv Hup; cbn [send_reports report_wires].
  { exists c. split; [done|]. split; [by rewrite app_nil_r|done]. }
  unfold send_report. destruct (report_body ev) as [body|]; cbn [rbind]; [|by apply IH].
  destruct (send_execution_report body (sess c)) as [w s1]. cbn [fst snd].
  destruct (write_all_up L w (set_sess s1 c) Hup) as (c1 & He & Hw & Hs & Hfd). rewrite He. cbn [rbind].
  destruct (IH c1 (count_out sv)) as (c2 & He2 & Hw2 & Hs2 & Hfd2); [by rewrite Hfd|].
  cbn [sess set_sess conn_fd wire] in *. rewrite Hs in He2, Hw2, Hs2. exists c2. rewrite He2. split.
  { cbn [length]. rewrite Nat.iter_succ_r. done. }
  split; [|by rewrite Hfd2, Hfd]. rewrite Hw2, Hw, <- app_assoc. done.
Qed.

(** One sent message, read back in front of more bytes. *)
Lemma sent_reads mt body s rest :
  EnvLaws (soh_ s) → sess_ok s → app_body (soh_ s) mt body → out_seq_ s + 1 < two64 →
  let r := build_message ((tag_MsgType, mt) :: body) s in
  zlen (r.1 ++ rest) < two64 →
  ∃ m, parse_one (soh_ s) (r.1 ++ rest) = Ok (mkParseResult None_ (zlen r.1) m) ∧
    msg_type m = mt ∧ seq m = Ok (out_seq_ s + 1) ∧ (∀ t v, (t, v) ∈ body → get t m = Some v) ∧
    sess_ok r.2 ∧ out_seq_ r.2 = out_seq_ s + 1 ∧ soh_ r.2 = soh_ s.
Proof.
  intros Henv Hs Hb Hlt r Hz. subst r.
  destruct (sent_ok mt body s Henv Hs Hb Hlt) as [Hok Hseq].
  pose proof (build_message_setup ((tag_MsgType, mt) :: body) s) as (Hsoh & _).
  pose proof Hb as (_ & _ & _ & Hsup). pose proof (so_seq _ Hs).
  assert (in_u64 (out_seq_ s + 1)) as Hu by (unfold in_u64; lia).
  pose proof (build_message_std mt body s Hsup) as Hstd. cbn zeta in Hstd.
  rewrite (u64_small _ Hu) in Hstd.
  pose proof (full_body_ok s (out_seq_ s + 1) mt body (now_calls s) Henv Hs Hu Hb) as Hbody.
  set (b := full_body _ _ _ _ _) in *. pose proof (plain_separator_ok _ (so_sep _ Hs)).
  rewrite Hstd in Hz, Hok, Hseq, Hsoh |- *. cbn [fst snd] in *.
  assert (∀ t v, (t, v) ∈ b → (list_to_map (wire_fields (soh_ s) b) : gmap Z bytes) !! t = Some v) as Hval
    by (intros; by apply body_value).
  eexists. split; [by apply (build_parses (soh_ s) b rest Hbody)|]. unfold msg_type, seq, get. cbn [fields].
  rewrite (Hval tag_MsgType mt), (Hval tag_MsgSeqNum (to_string (out_seq_ s + 1)));
    [|unfold b, full_body; rewrite !elem_of_cons; tauto..].
  split; [done|]. split; [by apply stoull_to_string|]. split; [|done].
  intros t v Hin. apply Hval. unfold b, full_body. rewrite !elem_of_cons. tauto.
Qed.

Lemma report_wires_decode evs : ∀ s,
  EnvLaws (soh_ s) → sess_ok s → Forall (reportable (soh_ s)) evs → out_seq_ s + zlen evs < two64 →
  let r := report_wires evs s in
  zlen (mjoin r.1) < two64 →
  ∃ msgs, decodes (soh_ s) (mjoin r.1) msgs ∧ reports_from (out_seq_ s + 1) msgs evs ∧
    length r.1 = length evs ∧ sess_ok r.2 ∧ out_seq_ r.2 = out_seq_ s + zlen evs.
Proof.
  induction evs as [|ev evs IH]; intros s Henv Hs Hevs Hlt; cbn [report_wires].
  { intros _. exists []. split; [constructor|]. rewrite zlen_nil, Z.add_0_r. done. }
  apply Forall_cons in Hevs as [(body & Hr & Hb) Hevs]. rewrite Hr. cbn [fst snd].
  set (r := send_execution_report body s). set (r' := report_wires evs r.2).
  rewrite zlen_cons in *. pose proof (zlen_nonneg evs).
  change (mjoin (r.1 :: r'.1)) with (r.1 ++ mjoin r'.1). intros Hz.
  destruct (sent_reads mt_ExecutionReport body s (mjoin r'.1) Henv Hs Hb) as (m & Hp & Hmt & Hsq & Hf & Hok & Hout & Hsoh); [lia|exact Hz|].
  change (build_message _ s) with r in Hp, Hok, Hout, Hsoh. pose proof (zlen_nonneg r.1). rewrite zlen_app in Hz.
  destruct (IH r.2) as (msgs & Hd & Hrep & Hlen & Hok' & Hout'); rewrite ?Hsoh, ?Hout; [done..|lia|fold r'; lia|].
  fold r' in Hd, Hlen, Hok', Hout'. rewrite Hsoh in Hd. rewrite Hout in Hrep, Hout'.
  exists (m :: msgs). split; [by apply decodes_cons|]. split; [|cbn [length]; split_and!; [by f_equal|done|lia]].
  split; [|done]. split; [done|]. split; [done|]. by exists body.
Qed.

End reports.

Lemma serves_count_out n sv s : serves sv s → serves (Nat.iter n count_out sv) s.
Proof. intros Hs. induction n as [|n IH]; cbn; [done|exact IH]. Qed.

Lemma a_apps_app algo ms ms' s :
  a_apps algo (ms ++ ms') s =
    let! '(evs, s) := a_apps algo ms s in
    let! '(evs', s) := a_apps algo ms' s in
    Ok (evs ++ evs', s).
Proof.
  revert s. induction ms as [|m ms IH]; intros s; cbn [a_apps Datatypes.app rbind].
  { by destruct (a_apps algo ms' s) as [[? ?]| | |]. }
  destruct (a_app algo m s) as [[evs1 s1]| | |]; try done. cbn [rbind]. rewrite IH.
  destruct (a_apps algo ms s1) as [[evs2 s2]| | |]; try done. cbn [rbind].
  destruct (a_apps algo ms' s2) as [[evs3 s3]| | |]; try done. cbn [rbind]. by rewrite app_assoc.
Qed.

(** C5: end to end. After any history [tr] of admissible messages, the next
    order message [m] of a connection whose socket works makes the client read
    exactly the reports of the abstract server's events: in order, numbered
    from the session's next sequence number on, each carrying the fields of its
    event; and the server goes on representing the abstract one. *)
Theorem orders_reported `{Env} `{Net} algo tr m ops evs0 evs sv sA c :
  NetLaws → EnvLaws kSohWire → app_ops (tr ++ [m]) 1 = Ok ops → feed_ok [] ops → submitted_qty ops < two63 →
  run_apps tr (new_server algo) = Ok (evs0, sv) → clean kSohWire m →
  soh_ (sess c) = kSohWire → sess_ok (sess c) → up (conn_fd c) →
  a_apps algo (tr ++ [m]) (mkAServer a_empty 1 1) = Ok (evs0 ++ evs, sA) →
  out_seq_ (sess c) + zlen evs < two64 → zlen (mjoin (report_wires evs (sess c)).1) < two64 →
  ∃ c' sv' stream msgs, handle_apps [m] false c sv = Ok (false, c', sv') ∧ serves sv' sA ∧
    wire c' = wire c ++ stream ∧ decodes kSohWire stream msgs ∧
    reports_from (out_seq_ (sess c) + 1) msgs evs ∧ sess_ok (sess c').
Proof.
  intros Hnet Henv Hops Hfeed Hq Hrun Hm Hsoh Hok Hup Habs Hlt Hz. rewrite app_ops_app in Hops.
  destruct (app_ops tr 1) as [ops0| | |] eqn:Hops0; try done. cbn [rbind app_ops] in Hops.
  destruct (app_op m _) as [op| | |] eqn:Hop; try done. cbn [rbind] in Hops.
  assert (ops = ops0 ++ option_list op ++ []) as -> by (destruct op; by injection Hops as <-).
  destruct (run_apps_spec tr (option_list op ++ []) (new_server algo) (mkAServer a_empty 1 1) [] ops0
    (new_server_serves algo)) as (evs1 & sv1 & s1 & ks & He & Ha & Hs1 & Hm1 & Hks & Hf & Ht);
    [by intros ? ? ?%not_elem_of_nil|done..|].
  rewrite Hrun in He. injection He as <- <-. change (matcher_ (new_server algo)) with algo in *.
  pose proof (a_apps_id _ _ _ _ _ _ Ha Hops0) as Hid. cbn [as_id] in Hid. rewrite <- Hid in Hop.
  destruct (handle_app_spec m (count_in sv) s1 ks op [] Hs1 Hks Hop Hf)
    as (evs' & sv2 & s2 & ks2 & He2 & Ha2 & Hs2 & _); [cbn [as_book] in Ht; change (total a_empty) with 0 in Ht; lia|].
  change (matcher_ (count_in sv)) with (matcher_ sv) in Ha2. rewrite Hm1 in Ha2.
  rewrite a_apps_app, Ha in Habs. cbn [rbind a_apps] in Habs. rewrite Ha2 in Habs. cbn [rbind] in Habs.
  rewrite app_nil_r in Habs. injection Habs as ->%app_inv_head <-.
  assert (Forall (reportable (soh_ (sess c))) evs) as Hrep.
  { eapply a_app_reportable; [by rewrite Hsoh; left|by rewrite Hsoh|exact Ha2]. }
  rewrite <- Hsoh in Henv.
  destruct (report_wires_decode evs (sess c) Henv Hok Hrep Hlt Hz) as (msgs & Hd & Hr & _ & Hok' & _).
  destruct (send_reports_up Hnet evs c sv2 Hup) as (c' & He' & Hw & Hsess & _).
  exists c'. eexists. exists (mjoin (report_wires evs (sess c)).1), msgs. cbn [handle_apps]. rewrite He2. cbn [rbind].
  rewrite He'. cbn [rbind orb]. split; [reflexivity|]. rewrite <- Hsoh. split_and!; try done.
  - by apply serves_count_out.
  - by rewrite Hsess.
Qed.

(** A socket that takes at most four bytes at a time, and a client. *)
#[global] Instance ex_net : Net := mkNet (λ _ _ b, Count (Z.min 4 (zlen b))).
#[global] Instance ex_net_laws : NetLaws.
Proof. split. intros fd n b w [= <-]. lia. Qed.
Lemma ex_net_up fd : up fd.
Proof.
  intros n b Hb. eexists. split; [done|]. destruct b as [|x b]; [done|]. rewrite zlen_cons. pose proof (zlen_nonneg b). lia.
Qed.

Definition ex_conn : Conn := new_conn default_config 5.
Lemma ex_conn_ok : sess_ok (sess ex_conn).
Proof. apply new_session_ok; [by left|decided|decided|decided|done]. Qed.

Definition ex_history : list Message := [limit_order "A" "2" "100" "30"; limit_order "B" "2" "101" "50"].
Definition ex_hit : Message := limit_order "C" "1" "101" "60".

Definition ex_after (ms : list Message) : EventList * Server :=
  match run_apps ms (new_server Fifo) with Ok r => r | _ => ([], new_server Fifo) end.
Definition ex_ops_of (ms : list Message) : list Op := match app_ops ms 1 with Ok ops => ops | _ => [] end.

Definition ex_abstract (ms : list Message) : EventList * AServer :=
  match a_apps Fifo ms (mkAServer a_empty 1 1) with Ok r => r | _ => ([], mkAServer a_empty 1 1) end.
Definition ex_events : EventList := drop 2 (ex_abstract (ex_history ++ [ex_hit])).1.

Lemma orders_reported_witness :
  length ex_events = 3%nat ∧
  ∃ c' sv' stream msgs, handle_apps [ex_hit] false ex_conn (ex_after ex_history).2 = Ok (false, c', sv') ∧
    serves sv' (ex_abstract (ex_history ++ [ex_hit])).2 ∧ wire c' = wire ex_conn ++ stream ∧
    decodes kSohWire stream msgs ∧ reports_from (out_seq_ (sess ex_conn) + 1) msgs ex_events ∧ sess_ok (sess c').
Proof.
  split; [vm_compute; reflexivity|].
  apply (orders_reported Fifo ex_history ex_hit (ex_ops_of (ex_history ++ [ex_hit])) (ex_after ex_history).1 ex_events);
    [exact ex_net_laws|apply ex_env_plain; by left|vm_compute; reflexivity|decided|vm_compute; reflexivity|
     vm_compute; reflexivity|decided|reflexivity|exact ex_conn_ok|exact (ex_net_up 5)|vm_compute; reflexivity..].
Defined.

(** ** Writing *)

(** C22: [write_all] is exact. If every call of [send] returns, so does it; what
    the peer receives is a prefix of the message, and the whole message when it
    reports success, however the socket splits it; a socket that does not fail
    makes it succeed. Otherwise it waits for ever only in a call that does, and
    ends the process only by the SIGPIPE of a call; it never reads or counts
    past the message. *)
Theorem write_all_exact `{Net} b c :
  NetLaws →
  match write_all b c with
  | Ok (ok, c') => sess c' = sess c ∧ (∃ k, wire c' = wire c ++ take k b) ∧ (ok = true → wire c' = wire c ++ b)
  | Hang => ∃ n p, net_send (conn_fd c) n p = Blocks
  | Throw e => e = broken_pipe ∧ ∃ n p, net_send (conn_fd c) n p = Sigpipe
  | Undef => False
  end ∧ (up (conn_fd c) → ∃ c', write_all b c = Ok (true, c')).
Proof.
  intros L. split; [|intros Hup; by apply (send_loop_up L)].
  pose proof (send_loop_spec L (length b) b c (le_n _)) as Hw. unfold write_all. destruct (send_loop _ _ _) as [[ok c']| | |]; try done.
  destruct Hw as (Hs & _ & Hk & Hall). done.
Qed.

Lemma write_all_exact_witness :
  match write_all (B "8=FIX.4.4|") ex_conn with
  | Ok (ok, c') => sess c' = sess ex_conn ∧ (∃ k, wire c' = wire ex_conn ++ take k (B "8=FIX.4.4|")) ∧
      (ok = true → wire c' = wire ex_conn ++ B "8=FIX.4.4|")
  | Hang => ∃ n p, net_send (conn_fd ex_conn) n p = Blocks
  | Throw e => e = broken_pipe ∧ ∃ n p, net_send (conn_fd ex_conn) n p = Sigpipe
  | Undef => False
  end ∧ (up (conn_fd ex_conn) → ∃ c', write_all (B "8=FIX.4.4|") ex_conn = Ok (true, c')).
Proof. apply (write_all_exact (B "8=FIX.4.4|") ex_conn ex_net_laws). Defined.

(** OrderCancelReplace is accepted by the session and dispatched, but the
    server neither changes the book nor reports anything: the request is lost
    without an answer. *)
Theorem replace_ignored `{Env} `{Net} m dis c sv :
  msg_type m = mt_OrderCancelReplace → handle_apps [m] dis c sv = Ok (dis, c, count_in sv).
Proof. intros Hm. unfold handle_apps, handle_app. rewrite Hm. by destruct dis. Qed.

Lemma replace_ignored_witness :
  handle_apps [mkMessage {[tag_MsgType := mt_OrderCancelReplace]}] false ex_conn (new_server Fifo) =
    Ok (false, ex_conn, count_in (new_server Fifo)).
Proof. apply replace_ignored. reflexivity. Defined.
