(* ===== verification/Conversation.v ===== *)
(** * A conversation

    The parts together, turn by turn: what a turn of [session_loop] does when
    it reads the client's Logon, a piece of its orders, or nothing. It parses
    what is there, checks the numbers, runs the timers, submits the orders to
    the shared book and writes the reports. [Pieces] puts the turns together. *)

From S2P Require Import Prelude Types PriceLevel SortedMap OrderBook BookRep BookProps ProRata Matcher FillProps MatchSpec MatchProps SubmitProps TradeProps Engine Text Messages Serializer Parser ParserProps CodecProps CodecTheorems Session SessionProps Resend UtcClock SessionTheorems Server ServerTheorems Reports.

(** ** The loop of a connection *)

(** The [while] loop of [session_loop] on what [poll] and [recv] deliver,
    while the server runs: true when the loop has ended. *)
Fixpoint session_loop `{Env} `{Net} (rs : list Ready) (c : Conn) (sv : Server) : res (bool * Conn * Server) :=
  match rs with
  | [] => Ok (false, c, sv)
  | r :: rs =>
      let! '(dis, c, sv) := session_turn r c sv in
      if dis : bool then Ok (true, c, sv) else session_loop rs c sv
  end.

(** ** What the client sends *)

(** A well-formed order message with sequence number [n]. *)
Definition client_order (n : SeqNum) (b : list (Z * bytes)) : Prop :=
  body_ok kSohWire b ∧ (tag_MsgSeqNum, to_string n) ∈ b ∧ Exists (λ mt, (tag_MsgType, mt) ∈ b) order_types.
Fixpoint client_orders (n : SeqNum) (bs : list (list (Z * bytes))) : Prop :=
  match bs with
  | [] => True
  | b :: bs => client_order n b ∧ client_orders (n + 1) bs
  end.
#[global] Instance client_orders_dec n bs : Decision (client_orders n bs).
Proof. revert n. induction bs as [|b bs IH]; intros n; cbn [client_orders]; [|unfold client_order]; apply _. Defined.

(** The bytes of some messages and what the parser makes of one of them. *)
Definition wires (bs : list (list (Z * bytes))) : bytes := mjoin (build kSohWire <$> bs).
Definition read_back (b : list (Z * bytes)) : Message := mkMessage (list_to_map (wire_fields kSohWire b)).

Lemma read_back_get b t v : body_ok kSohWire b → (t, v) ∈ b → get t (read_back b) = Some v.
Proof. intros Hb Hin. by apply body_value. Qed.
Lemma read_back_type b mt : body_ok kSohWire b → (tag_MsgType, mt) ∈ b → msg_type (read_back b) = mt.
Proof. intros Hb Hin. unfold msg_type. change (fields (read_back b) !! tag_MsgType) with (get tag_MsgType (read_back b)). by rewrite (read_back_get _ _ mt). Qed.
Lemma read_back_seq b n : in_u64 n → body_ok kSohWire b → (tag_MsgSeqNum, to_string n) ∈ b → seq (read_back b) = Ok n.
Proof.
  intros Hn Hb Hin. unfold seq. change (fields (read_back b) !! tag_MsgSeqNum) with (get tag_MsgSeqNum (read_back b)).
  rewrite (read_back_get _ _ (to_string n)) by done. by apply stoull_to_string.
Qed.
Lemma read_back_clean b : body_ok kSohWire b → zlen (build kSohWire b) < two64 - 7 → clean kSohWire (read_back b).
Proof.
  intros Hb Hz. pose proof (build_parses kSohWire b [] Hb) as Hp. rewrite app_nil_r in Hp.
  specialize (Hp ltac:(lia)). eapply (parsed_clean kSohWire) in Hp; [exact Hp|done|done].
Qed.

(** ** Pieces of messages *)

Lemma parse_prefix_defined buf more r :
  zlen (buf ++ more) < two64 - 7 → parse_one kSohWire (buf ++ more) = Ok r → ∃ r', parse_one kSohWire buf = Ok r'.
Proof.
  intros Hz Hp. pose proof Hz as Hz'. rewrite zlen_app in Hz'. pose proof (zlen_nonneg more).
  destruct (parse_one_defined kSohWire buf ltac:(lia)) as [?|(d & rest & -> & H20 & Hd & Hne & Hov)]; [done|].
  assert (overflowing kSohWire ((frame kSohWire d ++ rest) ++ more)) as Ho.
  { exists d, (rest ++ more). rewrite <- app_assoc. split; [done|]. split; [rewrite !zlen_app in *; lia|done]. }
  pose proof (parse_one_overflow _ _ Hz Ho). congruence.
Qed.

(** Before its last byte a message is incomplete. *)
Lemma partial_incomplete w b m part more :
  zlen (w ++ b) < two64 - 7 → parse_one kSohWire (w ++ b) = Ok (mkParseResult None_ (zlen w) m) →
  w ++ b = part ++ more → zlen part < zlen w → ∃ r, parse_one kSohWire part = Ok r ∧ err r = Incomplete.
Proof.
  intros Hz Hp Hs Hlt. rewrite Hs in Hz, Hp. destruct (parse_prefix_defined part more _ Hz Hp) as [r Hr]. exists r.
  split; [done|]. destruct (decide (err r = Incomplete)) as [|Hi]; [done|].
  pose proof (parse_one_more _ _ more _ Hz Hr Hi) as Hm. rewrite Hp in Hm. injection Hm as <-.
  destruct (parse_consumed kSohWire part _ ltac:(rewrite zlen_app in Hz; pose proof (zlen_nonneg more); lia) Hr eq_refl).
  cbn [consumed] in *. lia.
Qed.

(** ** What the client reads *)

Fixpoint numbered (n : SeqNum) (ms : list Message) : Prop :=
  match ms with
  | [] => True
  | m :: ms => seq m = Ok n ∧ numbered (n + 1) ms
  end.
Definition is_report (m : Message) : Prop := msg_type m = mt_ExecutionReport.
#[global] Instance is_report_dec m : Decision (is_report m).
Proof. unfold is_report. apply _. Defined.
Definition reported (m : Message) (ev : Event) : Prop := ∃ n, reports n m ev.

Lemma numbered_app n ms ms' : numbered n ms → numbered (n + zlen ms) ms' → numbered n (ms ++ ms').
Proof.
  revert n. induction ms as [|m ms IH]; intros n; cbn [numbered Datatypes.app].
  - intros _. by rewrite zlen_nil, Z.add_0_r.
  - rewrite zlen_cons. intros [Hm Hms] Hms'. split; [done|]. apply IH; [done|]. by replace (n + 1 + zlen ms) with (n + (zlen ms + 1)) by lia.
Qed.

Lemma decodes_app soh s1 ms1 s2 ms2 :
  zlen (s1 ++ s2) < two64 - 7 → decodes soh s1 ms1 → decodes soh s2 ms2 → decodes soh (s1 ++ s2) (ms1 ++ ms2).
Proof.
  intros Hz Hd1 Hd2. induction Hd1 as [|w rest m ms Hp Hd IH]; [done|].
  rewrite <- app_assoc in *. cbn [Datatypes.app]. constructor.
  - rewrite app_assoc. apply parse_one_more; [by rewrite <- app_assoc|done|done].
  - apply IH. rewrite zlen_app in Hz. pose proof (zlen_nonneg w). lia.
Qed.

Lemma reports_numbered n ms evs :
  reports_from n ms evs → numbered n ms ∧ Forall2 reported (filter is_report ms) evs ∧ zlen ms = zlen evs.
Proof.
  revert n evs. induction ms as [|m ms IH]; intros n [|ev evs]; try done; cbn [reports_from numbered].
  intros [Hr Hrs]. destruct (IH _ _ Hrs) as (H1 & H2 & H3). pose proof Hr as (Hmt & Hsq & _).
  split; [done|]. rewrite filter_cons_True by done. split; [|by rewrite !zlen_cons, H3].
  constructor; [by exists n|done].
Qed.

(** The session [s], by writing [stream], becomes [s'] and has reported the
    events [evs]: every message of the stream can be read, the numbers go on
    from the session's counter, and its reports are those of the events. *)
Definition says (s : Session) (stream : bytes) (s' : Session) (evs : EventList) : Prop :=
  zlen stream < two64 - 7 →
  ∃ ms, decodes kSohWire stream ms ∧ numbered (out_seq_ s + 1) ms ∧ out_seq_ s' = out_seq_ s + zlen ms ∧
    Forall2 reported (filter is_report ms) evs.

Lemma says_nil s s' : out_seq_ s' = out_seq_ s → says s [] s' [].
Proof.
  intros Ho _. exists []. split; [constructor|]. split; [done|]. split; [rewrite zlen_nil; lia|constructor].
Qed.

Lemma says_app s b1 s1 evs1 b2 s2 evs2 :
  says s b1 s1 evs1 → says s1 b2 s2 evs2 → says s (b1 ++ b2) s2 (evs1 ++ evs2).
Proof.
  intros H1 H2 Hz. pose proof Hz as Hz'. rewrite zlen_app in Hz'. pose proof (zlen_nonneg b1). pose proof (zlen_nonneg b2).
  destruct (H1 ltac:(lia)) as (ms1 & Hd1 & Hn1 & Ho1 & Hr1). destruct (H2 ltac:(lia)) as (ms2 & Hd2 & Hn2 & Ho2 & Hr2).
  exists (ms1 ++ ms2). split; [by apply decodes_app|]. split.
  { apply numbered_app; [done|]. rewrite Ho1 in Hn2. by replace (out_seq_ s + 1 + zlen ms1) with (out_seq_ s + zlen ms1 + 1) by lia. }
  split; [rewrite zlen_app; lia|]. rewrite filter_app. by apply Forall2_app.
Qed.

(** Logged in on the wire, [part] of a message read, and the next message is
    number [n]. *)
Record hears (n : SeqNum) (part : bytes) (s : Session) : Prop := {
  tk_soh : soh_ s = kSohWire;
  tk_ok : sess_ok s;
  tk_state : state_ s = LoggedIn;
  tk_buf : in_buf_ s = part;
  tk_seq : in_seq_ s + 1 = n
}.
Notation talks n := (hears n []).

(** The operations and events of a sequence of messages cut in two. *)
Lemma apps_split algo ms ms' s ops evs s' :
  app_ops (ms ++ ms') (as_id s) = Ok ops → a_apps algo (ms ++ ms') s = Ok (evs, s') →
  ∃ ops1 ops2 evs1 evs2 s1, ops = ops1 ++ ops2 ∧ evs = evs1 ++ evs2 ∧
    app_ops ms (as_id s) = Ok ops1 ∧ app_ops ms' (foldl (λ id op, next_id (Some op) id) (as_id s) ops1) = Ok ops2 ∧
    a_apps algo ms s = Ok (evs1, s1) ∧ a_apps algo ms' s1 = Ok (evs2, s').
Proof.
  rewrite app_ops_app, a_apps_app. intros Hops Ha.
  destruct (app_ops ms (as_id s)) as [ops1| | |]; try done. cbn [rbind] in Hops.
  destruct (app_ops ms' _) as [ops2| | |] eqn:Hops2; try done. injection Hops as <-.
  destruct (a_apps algo ms s) as [[evs1 s1]| | |]; try done. cbn [rbind] in Ha.
  destruct (a_apps algo ms' s1) as [[evs2 s2]| | |] eqn:Ha2; try done. injection Ha as <- <-.
  by exists ops1, ops2, evs1, evs2, s1.
Qed.

Section conversation.
Context `{Env} `{Net}.

(** ** Sessions in a conversation *)

(** What writing leaves alone. *)
Definition framed (s s' : Session) : Prop :=
  soh_ s' = soh_ s ∧ state_ s' = state_ s ∧ in_seq_ s' = in_seq_ s ∧ in_buf_ s' = in_buf_ s.
#[global] Instance framed_preorder : PreOrder framed.
Proof. split; [by intros s|]. intros s1 s2 s3 (?&?&?&?) (?&?&?&?). split_and!; congruence. Qed.

Lemma build_message_framed body s : framed s (build_message body s).2.
Proof.
  destruct (build_message_frame body s) as (_ & Hs & Hst & Hi & _). split_and!; try done.
  pose proof (build_message_buf (in_buf_ s) body s) as Hb. rewrite set_in_buf_id in Hb. by rewrite Hb at 1.
Qed.

Lemma talks_framed n part s s' : hears n part s → framed s s' → sess_ok s' → hears n part s'.
Proof. intros [? ? ? ? ?] (H1 & H2 & H3 & H4) Hok. split; congruence. Qed.

(** ** Reading orders *)

Lemma handle_order m n s :
  state_ s ≠ Disconnected → seq m = Ok n → u64 (in_seq_ s + 1) = n → msg_type m ∈ order_types →
  handle_message m s = Ok (mkStep [] [m] false, set_in_seq n s).
Proof.
  intros Hst Hn Hx Hmt. unfold handle_message. rewrite Hn. cbn [rbind]. rewrite bool_decide_false, Hx by done.
  rewrite Z.gtb_ltb, Z.ltb_irrefl. cbn [andb]. unfold dispatch, order_types in *.
  rewrite !elem_of_cons, elem_of_nil in Hmt. by destruct Hmt as [-> | [-> | [-> | []]]].
Qed.

(** The session when a whole message has been taken out of the buffer. *)
Definition heard (s : Session) : Session :=
  set_test_request_outstanding false (set_last_inbound (env_clock (clock_calls s))
    (set_clock_calls (S (clock_calls s)) (set_in_buf [] s))).

Lemma on_message b s st s' :
  soh_ s = kSohWire → in_buf_ s = [] → body_ok kSohWire b → zlen (build kSohWire b) < two64 - 7 →
  handle_message (read_back b) (heard s) = Ok (st, s') → disconnect st = false →
  on_bytes (build kSohWire b) s = Ok (mkStep (out st) (app st) false, s') ∧ in_buf_ s' = [].
Proof.
  intros Hsoh Hbuf Hb Hz Hm Hd.
  pose proof (build_parses kSohWire b [] Hb) as Hp. rewrite app_nil_r in Hp. specialize (Hp ltac:(lia)).
  fold (read_back b) in Hp. set (pr := mkParseResult None_ (zlen (build kSohWire b)) (read_back b)) in Hp.
  destruct (parse_consumed kSohWire _ pr Hz Hp eq_refl) as [Hpos _]. cbn [consumed pr] in Hpos.
  unfold on_bytes. rewrite Hbuf. cbn [Datatypes.app]. set (s0 := set_in_buf (build kSohWire b) s).
  change (in_buf_ s0) with (build kSohWire b). destruct (length (build kSohWire b)) as [|k] eqn:Hk;
    [unfold zlen in Hpos; rewrite Hk in Hpos; done|].
  rewrite receive_S by (intros Hnil; change (in_buf_ s0) with (build kSohWire b) in Hnil; by rewrite Hnil in Hk).
  change (soh_ s0) with (soh_ s). change (in_buf_ s0) with (build kSohWire b). rewrite Hsoh, Hp. cbn [rbind err msg pr].
  assert (accept pr s0 = heard s) as ->.
  { unfold accept. change (in_buf_ s0) with (build kSohWire b). cbn [consumed pr].
    rewrite drop_ge by (unfold zlen; lia). reflexivity. }
  rewrite Hm. cbn [rbind]. rewrite Hd. pose proof (handle_message_keeps_buf _ _ _ _ Hm) as Hb'.
  change (in_buf_ (heard s)) with (@nil ascii) in Hb'. rewrite receive_nil by done. done.
Qed.

(** A piece of a message stays in the buffer. *)
Definition incomplete (part : bytes) : Prop :=
  part = [] ∨ ∃ r, parse_one kSohWire part = Ok r ∧ err r = Incomplete.

Lemma on_part part s :
  soh_ s = kSohWire → in_buf_ s = [] → incomplete part → on_bytes part s = Ok (no_step, set_in_buf part s).
Proof.
  intros Hsoh Hb [-> |(r & Hr & Hi)]; unfold on_bytes; rewrite Hb; cbn [Datatypes.app].
  - by rewrite receive_nil.
  - set (s0 := set_in_buf part s). change (in_buf_ s0) with part. destruct part as [|c part]; [by rewrite receive_nil|].
    cbn [length]. rewrite receive_S by done. change (soh_ s0) with (soh_ s). change (in_buf_ s0) with (c :: part).
    rewrite Hsoh, Hr. cbn [rbind]. by rewrite Hi.
Qed.

(** One order message: it reaches the application, the session answers
    nothing, and no test request is outstanding afterwards. *)
Lemma on_order n b s :
  talks n s → 0 < n < two64 → client_order n b → zlen (build kSohWire b) < two64 - 7 →
  ∃ s', on_bytes (build kSohWire b) s = Ok (mkStep [] [read_back b] false, s') ∧ talks (n + 1) s' ∧
    out_seq_ s' = out_seq_ s ∧ cfg_ s' = cfg_ s ∧ test_request_outstanding_ s' = false.
Proof.
  intros [Hsoh Hok Hst Hbuf Hseq] Hn (Hb & Hsq & Hmt) Hz. apply Exists_exists in Hmt as (mt & Hin & Hmt).
  exists (set_in_seq n (heard s)). destruct (on_message b s (mkStep [] [read_back b] false) (set_in_seq n (heard s))) as [He Hb'];
    [done..| |done|].
  { apply handle_order; [change (state_ s ≠ Disconnected); by rewrite Hst|apply read_back_seq; [unfold in_u64; lia|done..]| |
      by rewrite (read_back_type _ mt)].
    change (u64 (in_seq_ s + 1) = n). rewrite Hseq. apply u64_small. unfold in_u64. lia. }
  split; [done|]. split; [|done]. split; [done|by apply (sess_ok_same s)|done|done|done].
Qed.

(** What reading the messages [bs] does to the timers' state: any message
    answers a test request. *)
Definition read_timers {A} (bs : list A) (s s' : Session) : Prop :=
  cfg_ s' = cfg_ s ∧
  match bs with
  | [] => test_request_outstanding_ s' = test_request_outstanding_ s ∧ test_request_at_ s' = test_request_at_ s
  | _ => test_request_outstanding_ s' = false
  end.

Lemma on_orders bs : ∀ n s,
  talks n s → 0 < n → n + zlen bs ≤ two64 → client_orders n bs → zlen (wires bs) < two64 - 7 →
  ∃ s', on_bytes (wires bs) s = Ok (mkStep [] (read_back <$> bs) false, s') ∧ talks (n + zlen bs) s' ∧
    out_seq_ s' = out_seq_ s ∧ read_timers bs s s'.
Proof.
  induction bs as [|b bs IH]; intros n s Ht Hn Hle Hbs Hz.
  { exists s. unfold on_bytes. change (wires []) with (@nil ascii). rewrite app_nil_r, set_in_buf_id.
    rewrite receive_nil by apply (tk_buf _ _ _ Ht). rewrite zlen_nil, Z.add_0_r. done. }
  destruct Hbs as [Hb Hbs]. rewrite zlen_cons in *. change (wires (b :: bs)) with (build kSohWire b ++ wires bs) in *.
  pose proof Hz as Hz'. rewrite zlen_app in Hz'. pose proof (zlen_nonneg (wires bs)).
  pose proof (zlen_nonneg (build kSohWire b)). pose proof (zlen_nonneg bs).
  destruct (on_order n b s Ht ltac:(lia) Hb ltac:(lia)) as (s1 & He & Ht1 & Ho1 & Hc1 & Htr).
  destruct (IH (n + 1) s1 Ht1 ltac:(lia) ltac:(lia) Hbs ltac:(lia)) as (s2 & He2 & Ht2 & Ho2 & Hc2 & Htr2).
  exists s2. rewrite (on_bytes_split _ _ s (mkStep [] [read_back b] false) s1).
  - rewrite He2. cbn [rbind out Session.app disconnect Datatypes.app]. split; [done|].
    split; [by replace (n + (zlen bs + 1)) with (n + 1 + zlen bs) by lia|]. split; [congruence|]. split; [congruence|].
    destruct bs; [|done]. destruct Htr2. congruence.
  - rewrite (tk_soh _ _ _ Ht). apply _.
  - rewrite (tk_buf _ _ _ Ht). done.
  - done.
  - done.
Qed.

(** A piece of the stream: [part] had been read of a message; with [data] the
    messages [bs] are whole and [part'] of the next one is there. *)
Lemma on_piece n part data bs part' s :
  hears n part s → 0 < n → n + zlen bs ≤ two64 → client_orders n bs →
  part ++ data = wires bs ++ part' → incomplete part' → zlen (part ++ data) < two64 - 7 →
  ∃ s', on_bytes data s = Ok (mkStep [] (read_back <$> bs) false, s') ∧ hears (n + zlen bs) part' s' ∧
    out_seq_ s' = out_seq_ s ∧ read_timers bs s s'.
Proof.
  intros [Hsoh Hok Hst Hbuf Hseq] Hn Hle Hbs Hdata Hpart Hz. set (s0 := set_in_buf [] s).
  assert (talks n s0) as Ht0 by (split; [done|by apply (sess_ok_same s)|done|done|done]).
  assert (on_bytes data s = on_bytes (part ++ data) s0) as -> by (unfold on_bytes; rewrite Hbuf; done).
  rewrite Hdata in *. pose proof Hz as Hz'. rewrite zlen_app in Hz'. pose proof (zlen_nonneg part').
  destruct (on_orders bs n s0 Ht0 Hn Hle Hbs ltac:(lia)) as (s1 & He1 & [Hsoh1 Hok1 Hst1 Hbuf1 Hseq1] & Ho1 & Htr1).
  rewrite (on_bytes_split _ _ s0 (mkStep [] (read_back <$> bs) false) s1); [|change (soh_ s0) with (soh_ s); rewrite Hsoh; apply _|done|exact He1|done].
  rewrite on_part by done. cbn [rbind out Session.app disconnect no_step Datatypes.app]. rewrite ?app_nil_r.
  exists (set_in_buf part' s1). split; [done|]. split; [split; [done|by apply (sess_ok_same s1)|done..]|].
  split; [exact Ho1|exact Htr1].
Qed.

(** ** Timers between messages *)

(** A message sent for the session itself: not a report. *)
Lemma says_one mt rest s :
  EnvLaws kSohWire → soh_ s = kSohWire → sess_ok s → out_seq_ s + 1 < two64 →
  app_body (soh_ s) mt rest → mt ≠ mt_ExecutionReport →
  let r := build_message ((tag_MsgType, mt) :: rest) s in
  sess_ok r.2 ∧ out_seq_ r.2 = out_seq_ s + 1 ∧ says s r.1 r.2 [].
Proof.
  intros Henv Hsoh Hok Hlt Hb Hmt r. rewrite <- Hsoh in Henv. destruct (sent_ok mt rest s Henv Hok Hb Hlt) as [Hok' Ho].
  fold r in Hok', Ho. split; [done|]. split; [done|]. intros Hz.
  destruct (sent_reads mt rest s [] Henv Hok Hb Hlt) as (m & Hp & Hm & Hsq & _).
  { fold r. rewrite app_nil_r. lia. }
  fold r in Hp. rewrite Hsoh in Hp. exists [m]. split.
  { rewrite <- (app_nil_r r.1). constructor; [done|constructor]. }
  split; [done|]. split; [done|]. rewrite filter_cons_False; [constructor|]. unfold is_report. by rewrite Hm.
Qed.

(** No test request has been left unanswered for a window. *)
Definition answered_by (t : Z) (s : Session) : Prop :=
  test_request_outstanding_ s = true → t - test_request_at_ s < test_window (heartbeat_secs (cfg_ s)).
(** A test request that is outstanding in [s'] was so before or went out at [t]. *)
Definition asked (t : Z) (s s' : Session) : Prop :=
  cfg_ s' = cfg_ s ∧
  (test_request_outstanding_ s' = true →
   test_request_at_ s' = t ∨ test_request_outstanding_ s = true ∧ test_request_at_ s' = test_request_at_ s).

Lemma asked_refl t s : asked t s s.
Proof. split; [done|]. auto. Qed.
Lemma asked_trans t s s1 s2 : asked t s s1 → asked t s1 s2 → asked t s s2.
Proof. intros [Hc1 H1] [Hc2 H2]. split; [congruence|]. intros [Ht|[Ho Ht]]%H2; [by left|]. rewrite Ht. auto. Qed.
Lemma asked_sent t body s : asked t s (build_message body s).2.
Proof.
  destruct (build_message_frame body s) as (Hc & _ & _ & _ & _ & Hat & _ & Hout). split; [done|]. rewrite Hout, Hat. auto.
Qed.

(** Unless a test request has gone unanswered, [tick] sends at most one message
    and does not end the session. *)
Lemma tick_talks n part t s :
  EnvLaws kSohWire → hears n part s → answered_by t s → out_seq_ s + 1 < two64 →
  ∃ ws s', tick t s = (mkStep ws [] false, s') ∧ hears n part s' ∧ says s (mjoin ws) s' [] ∧
    out_seq_ s' ≤ out_seq_ s + 1 ∧ asked t s s'.
Proof.
  intros Henv Ht Htr Hlt. pose proof Ht as [Hsoh Hok Hst Hbuf Hseq]. pose proof (so_sep _ Hok) as Hsep.
  assert (∃ ws s', (no_step, s) = (mkStep ws [] false, s') ∧ hears n part s' ∧ says s (mjoin ws) s' [] ∧
    out_seq_ s' ≤ out_seq_ s + 1 ∧ asked t s s') as Hidle.
  { exists [], s. split; [done|]. split; [done|]. split; [by apply says_nil|]. split; [lia|apply asked_refl]. }
  unfold tick. destruct (negb _); [done|]. destruct (_ <=? 0); [done|]. destruct (negb (timers_armed_ s)); [done|].
  assert (test_request_outstanding_ s && (t - test_request_at_ s >=? test_window (heartbeat_secs (cfg_ s))) = false) as ->.
  { unfold answered_by in Htr. destruct (test_request_outstanding_ s); [|done]. specialize (Htr eq_refl).
    destruct (Z.geb_spec (t - test_request_at_ s) (test_window (heartbeat_secs (cfg_ s)))); [lia|done]. }
  destruct (negb _ && _).
  - set (tr := B "tr-" ++ to_string (u64 (out_seq_ s + 1))).
    destruct (says_one mt_TestRequest [(tag_TestReqID, tr)] s) as (Hok' & Ho & Hsay); [done..| |done|].
    { apply app_body_one; [literal|done|decided|]. unfold tr. apply not_elem_of_app. split; [literal|].
      by apply to_string_clean. }
    pose proof (build_message_framed [(tag_MsgType, mt_TestRequest); (tag_TestReqID, tr)] s) as Hf.
    pose proof (asked_sent t [(tag_MsgType, mt_TestRequest); (tag_TestReqID, tr)] s) as Ha.
    destruct (build_message _ s) as [w s1]. cbn [fst snd] in *.
    exists [w], (set_test_request_outstanding true (set_test_request_at t s1)). split; [done|].
    split; [eapply talks_framed; [done|exact Hf|by apply (sess_ok_same s1)]|].
    split; [change (mjoin [w]) with (w ++ []); by rewrite app_nil_r|]. split; [cbn; lia|].
    split; [apply Ha|by left].
  - destruct (_ - last_outbound_ s >=? _); [|done]. unfold send_heartbeat.
    destruct (says_one mt_Heartbeat [] s) as (Hok' & Ho & Hsay); [done..| |done|].
    { split; [literal|]. split; [by apply Forall_nil_2|]. split; [apply NoDup_nil_2|].
      apply Forall_forall. intros x _. apply not_elem_of_nil. }
    pose proof (build_message_framed [(tag_MsgType, mt_Heartbeat)] s) as Hf.
    pose proof (asked_sent t [(tag_MsgType, mt_Heartbeat)] s) as Ha.
    destruct (build_message _ s) as [w s1]. cbn [fst snd] in *. exists [w], s1. split; [done|].
    split; [by eapply talks_framed|]. split; [|split; [lia|done]]. change (mjoin [w]) with (w ++ []). by rewrite app_nil_r.
Qed.

(** ** Writing *)

Lemma write_out_up (L : NetLaws) ws : ∀ c sv,
  up (conn_fd c) →
  ∃ c', write_out ws c sv = Ok (false, c', Nat.iter (length ws) count_out sv) ∧ wire c' = wire c ++ mjoin ws ∧
    sess c' = sess c ∧ conn_fd c' = conn_fd c.
Proof.
  induction ws as [|w ws IH]; intros c sv Hup; cbn [write_out].
  { exists c. by rewrite app_nil_r. }
  destruct (write_all_up L w c Hup) as (c1 & He & Hw & Hs & Hfd). rewrite He. cbn [rbind].
  destruct (IH c1 (count_out sv)) as (c2 & He2 & Hw2 & Hs2 & Hfd2); [by rewrite Hfd|].
  exists c2. rewrite He2. cbn [length]. rewrite Nat.iter_succ_r, Hw2, Hw, mjoin_cons, app_assoc, Hs2, Hs, Hfd2, Hfd. done.
Qed.

Lemma report_wires_app evs evs' s :
  let r := report_wires evs s in
  let r' := report_wires evs' r.2 in
  report_wires (evs ++ evs') s = (r.1 ++ r'.1, r'.2).
Proof.
  revert s. induction evs as [|ev evs IH]; intros s; cbn [report_wires Datatypes.app fst snd].
  { by destruct (report_wires evs' s). }
  destruct (report_body ev); [|apply IH]. by rewrite IH.
Qed.

(** Reporting keeps the session in the conversation. *)
Lemma report_wires_keeps t evs : ∀ s,
  EnvLaws (soh_ s) → sess_ok s → Forall (reportable (soh_ s)) evs → out_seq_ s + zlen evs < two64 →
  let s' := (report_wires evs s).2 in
  sess_ok s' ∧ out_seq_ s' = out_seq_ s + zlen evs ∧ framed s s' ∧ asked t s s'.
Proof.
  induction evs as [|ev evs IH]; intros s Henv Hs Hevs Hlt; cbn [report_wires].
  { rewrite zlen_nil, Z.add_0_r. split; [done|]. split; [done|]. split; [done|apply asked_refl]. }
  apply Forall_cons in Hevs as [(body & Hr & Hb) Hevs]. rewrite Hr. rewrite zlen_cons in *. pose proof (zlen_nonneg evs).
  unfold send_execution_report. destruct (sent_ok mt_ExecutionReport body s Henv Hs Hb) as [Hok Ho]; [lia|].
  pose proof (build_message_framed ((tag_MsgType, mt_ExecutionReport) :: body) s) as Hf. pose proof Hf as (Hsoh & _).
  pose proof (asked_sent t ((tag_MsgType, mt_ExecutionReport) :: body) s) as Ha.
  destruct (build_message _ s) as [w s1]. cbn [fst snd] in *.
  destruct (IH s1) as (Hok' & Ho' & Hf' & Ha'); rewrite ?Hsoh; [done..|lia|]. split; [done|]. split; [lia|].
  split; [by etrans|by eapply asked_trans].
Qed.

Lemma says_reports evs s :
  EnvLaws kSohWire → soh_ s = kSohWire → sess_ok s → Forall (reportable kSohWire) evs → out_seq_ s + zlen evs < two64 →
  says s (mjoin (report_wires evs s).1) (report_wires evs s).2 evs.
Proof.
  intros Henv Hsoh Hok Hevs Hlt Hz. rewrite <- Hsoh in Henv, Hevs.
  destruct (report_wires_decode evs s Henv Hok Hevs Hlt) as (ms & Hd & Hr & _ & _ & Ho); [lia|].
  rewrite Hsoh in Hd. apply reports_numbered in Hr as (H1 & H2 & H3). exists ms. by rewrite H3.
Qed.

Lemma count_out_matcher k sv : matcher_ (Nat.iter k count_out sv) = matcher_ sv.
Proof. by induction k as [|k IH]. Qed.

(** The application messages of a read: their events are the abstract
    server's, and all their reports are written. *)
Lemma handle_apps_up (L : NetLaws) ms rest : ∀ c sv s ks ops,
  up (conn_fd c) → Forall (clean kSohWire) ms → serves sv s → keys_within ks (as_book s) →
  app_ops ms (as_id s) = Ok ops → feed_ok ks (ops ++ rest) → total (as_book s) + submitted_qty (ops ++ rest) < two63 →
  ∃ evs c' sv' s' ks', handle_apps ms false c sv = Ok (false, c', sv') ∧
    a_apps (matcher_ sv) ms s = Ok (evs, s') ∧ serves sv' s' ∧ matcher_ sv' = matcher_ sv ∧
    (keys_within ks' (as_book s') ∧ feed_ok ks' rest ∧ total (as_book s') + submitted_qty rest < two63) ∧
    as_id s' = foldl (λ id op, next_id (Some op) id) (as_id s) ops ∧
    Forall (reportable kSohWire) evs ∧ conn_fd c' = conn_fd c ∧
    wire c' = wire c ++ mjoin (report_wires evs (sess c)).1 ∧ sess c' = (report_wires evs (sess c)).2.
Proof.
  induction ms as [|m ms IH]; intros c sv s ks ops Hup Hcl Hs Hks Hops Hf Ht; cbn [handle_apps a_apps app_ops] in *.
  { injection Hops as <-. exists [], c, sv, s, ks. cbn [report_wires fst snd]. rewrite app_nil_r. by split_and!. }
  apply Forall_cons in Hcl as [Hm Hcl].
  destruct (app_op m (as_id s)) as [op| | |] eqn:Hop; try done. cbn [rbind] in Hops.
  destruct (app_ops ms (next_id op (as_id s))) as [ops'| | |] eqn:Hops'; try done. cbn [rbind] in Hops.
  assert (ops = option_list op ++ ops') as -> by (destruct op; by injection Hops as <-). rewrite <- app_assoc in *.
  destruct (handle_app_spec m (count_in sv) s ks op (ops' ++ rest) Hs Hks Hop Hf Ht)
    as (evs & sv1 & s1 & ks1 & He & Ha & Hs1 & Hm1 & Hid & Hks1 & Hf1 & Ht1).
  change (matcher_ (count_in sv)) with (matcher_ sv) in *. rewrite He, Ha. cbn [rbind].
  destruct (send_reports_up L evs c sv1 Hup) as (c1 & He1 & Hw1 & Hc1 & Hfd1). rewrite He1. cbn [rbind orb].
  set (sv2 := Nat.iter _ count_out sv1).
  assert (matcher_ sv2 = matcher_ sv) as Hm2.
  { unfold sv2. by rewrite count_out_matcher. }
  destruct (IH c1 sv2 s1 ks1 ops') as (evs' & c' & sv' & s' & ks' & He' & Ha' & Hs' & Hm' & Hrest & Hid' & Hrep & Hfd' & Hw' & Hc');
    [by rewrite Hfd1|done|by apply serves_count_out|done|by rewrite Hid|done|lia|].
  rewrite Hm2 in Ha', Hm'. rewrite Ha'. cbn [rbind]. exists (evs ++ evs'), c', sv', s', ks'. split; [done|]. split; [done|].
  split; [done|]. split; [done|]. split; [done|]. split.
  { rewrite Hid', Hid. by destruct op. }
  rewrite report_wires_app. cbn [fst snd]. rewrite <- Hc1. split; [|split_and!; [congruence| |done]].
  - apply Forall_app. split; [|done]. eapply a_app_reportable; [by left|done|done].
  - rewrite Hw', Hw1, join_app. by rewrite app_assoc.
Qed.

(** ** Turns *)

(** A read: the messages in it, and the clock when [tick] runs. *)
Notation read := (list (list (Z * bytes)) * Z)%type.
Definition received (x : read) : Ready := Received (wires x.1) x.2.
Lemma orders_clean n bs : client_orders n bs → zlen (wires bs) < two64 - 7 → Forall (clean kSohWire) (read_back <$> bs).
Proof.
  revert n. induction bs as [|b bs IH]; intros n; [constructor|]. intros [(Hb & _) Hbs].
  change (wires (b :: bs)) with (build kSohWire b ++ wires bs). rewrite zlen_app.
  pose proof (zlen_nonneg (wires bs)). pose proof (zlen_nonneg (build kSohWire b)). intros Hz.
  constructor; [apply read_back_clean; [done|lia]|]. eapply IH; [done|lia].
Qed.

(** From what has been read to the end of the turn: the session [s1], which has
    answered [pre], ticks and writes, and the application messages [bs] are
    handled. *)
Lemma finish_turn (L : NetLaws) n part pre bs rest t c sv s s1 ks ops evs s' :
  EnvLaws kSohWire → up (conn_fd c) → hears n part s1 → answered_by t s1 → says (sess c) (mjoin pre) s1 [] →
  Forall (clean kSohWire) (read_back <$> bs) →
  serves sv s → keys_within ks (as_book s) → app_ops (read_back <$> bs) (as_id s) = Ok ops →
  feed_ok ks (ops ++ rest) → total (as_book s) + submitted_qty (ops ++ rest) < two63 →
  a_apps (matcher_ sv) (read_back <$> bs) s = Ok (evs, s') → out_seq_ s1 + 1 + zlen evs < two64 →
  ∃ ws s2 c1 sv1 c' sv' ks' stream, tick t s1 = (mkStep ws [] false, s2) ∧
    write_out (pre ++ ws) (set_sess s2 c) sv = Ok (false, c1, sv1) ∧
    handle_apps (read_back <$> bs) false c1 sv1 = Ok (false, c', sv') ∧
    serves sv' s' ∧ matcher_ sv' = matcher_ sv ∧
    (keys_within ks' (as_book s') ∧ feed_ok ks' rest ∧ total (as_book s') + submitted_qty rest < two63) ∧
    as_id s' = foldl (λ id op, next_id (Some op) id) (as_id s) ops ∧
    conn_fd c' = conn_fd c ∧ hears n part (sess c') ∧ wire c' = wire c ++ stream ∧
    says (sess c) stream (sess c') evs ∧ out_seq_ (sess c') ≤ out_seq_ s1 + 1 + zlen evs ∧ asked t s1 (sess c').
Proof.
  intros Henv Hup Ht1 Hby Hpre Hcl Hs Hks Hops Hf Htot Habs Hlt. pose proof (zlen_nonneg evs).
  destruct (tick_talks n part t s1 Henv Ht1 Hby ltac:(lia)) as (ws & s2 & He2 & Ht2 & Hsay2 & Ho2 & Ha2).
  destruct (write_out_up L (pre ++ ws) (set_sess s2 c) sv Hup) as (c1 & He3 & Hw3 & Hc3 & Hfd3).
  cbn [sess set_sess conn_fd wire] in *. pose proof (count_out_matcher (length (pre ++ ws)) sv) as Hm.
  destruct (handle_apps_up L (read_back <$> bs) rest c1 (Nat.iter (length (pre ++ ws)) count_out sv) s ks ops)
    as (evs1 & c2 & sv2 & s2' & ks2 & He4 & Ha4 & Hs4 & Hm4 & Hrest & Hid & Hrep & Hfd4 & Hw4 & Hc4); try done;
    [by rewrite Hfd3|by apply serves_count_out|].
  rewrite Hm in Ha4, Hm4. rewrite Ha4 in Habs. injection Habs as -> ->. rewrite Hc3 in Hw4, Hc4.
  destruct (report_wires_keeps t evs s2) as (Hok5 & Ho5 & Hf5 & Ha5); [by rewrite (tk_soh _ _ _ Ht2)|apply (tk_ok _ _ _ Ht2)|
    by rewrite (tk_soh _ _ _ Ht2)|lia|].
  exists ws, s2, c1, (Nat.iter (length (pre ++ ws)) count_out sv), c2, sv2, ks2, (mjoin pre ++ mjoin ws ++ mjoin (report_wires evs s2).1). do 7 (split; [done|]).
  split; [by rewrite Hfd4|]. split; [rewrite Hc4; by eapply talks_framed|].
  split; [rewrite Hw4, Hw3, join_app; by rewrite <- !app_assoc|]. split; [|split; [rewrite Hc4; lia|rewrite Hc4; by eapply asked_trans]].
  rewrite Hc4. apply (says_app _ _ s1 [] _ _ evs); [done|]. apply (says_app _ _ s2 [] _ _ evs); [done|].
  apply says_reports; try done; [apply (tk_soh _ _ _ Ht2)|apply (tk_ok _ _ _ Ht2)|lia].
Qed.

(** A turn that reads a piece of the stream. *)
Lemma piece_turn (L : NetLaws) n part data bs part' t rest c sv s ks ops evs s' :
  EnvLaws kSohWire → up (conn_fd c) → hears n part (sess c) → 0 < n → n + zlen bs ≤ two64 →
  client_orders n bs → part ++ data = wires bs ++ part' → incomplete part' → zlen (part ++ data) < two64 - 7 →
  (bs = [] → answered_by t (sess c)) →
  serves sv s → keys_within ks (as_book s) → app_ops (read_back <$> bs) (as_id s) = Ok ops →
  feed_ok ks (ops ++ rest) → total (as_book s) + submitted_qty (ops ++ rest) < two63 →
  a_apps (matcher_ sv) (read_back <$> bs) s = Ok (evs, s') → out_seq_ (sess c) + 1 + zlen evs < two64 →
  ∃ c' sv' ks' stream, session_turn (Received data t) c sv = Ok (false, c', sv') ∧ serves sv' s' ∧ matcher_ sv' = matcher_ sv ∧
    (keys_within ks' (as_book s') ∧ feed_ok ks' rest ∧ total (as_book s') + submitted_qty rest < two63) ∧
    as_id s' = foldl (λ id op, next_id (Some op) id) (as_id s) ops ∧
    conn_fd c' = conn_fd c ∧ hears (n + zlen bs) part' (sess c') ∧ wire c' = wire c ++ stream ∧
    says (sess c) stream (sess c') evs ∧ out_seq_ (sess c') ≤ out_seq_ (sess c) + 1 + zlen evs ∧
    ∃ s1, read_timers bs (sess c) s1 ∧ asked t s1 (sess c').
Proof.
  intros Henv Hup Ht Hn Hle Hbs Hdata Hpart Hz Hby Hs Hks Hops Hf Htot Habs Hlt.
  destruct (on_piece n part data bs part' (sess c) Ht Hn Hle Hbs Hdata Hpart Hz) as (s1 & He1 & Ht1 & Ho1 & Hrt).
  assert (answered_by t s1) as Hby1.
  { destruct Hrt as [Hc Hrt]. unfold answered_by in *. rewrite Hc. destruct bs; [|by rewrite Hrt].
    destruct Hrt as [-> ->]. by apply Hby. }
  assert (zlen (wires bs) < two64 - 7) as Hzw.
  { rewrite Hdata, zlen_app in Hz. pose proof (zlen_nonneg part'). lia. }
  destruct (finish_turn L (n + zlen bs) part' [] bs rest t c sv s s1 ks ops evs s')
    as (ws & s2 & c1 & sv1 & c' & sv' & ks' & stream & He2 & He3 & He4 & Hs' & Hm & Hrest & Hid & Hfd & Ht' & Hw & Hsay & Ho & Ha); try done;
    [by apply says_nil|by eapply orders_clean|lia|].
  rewrite Ho1 in Ho.
  exists c', sv', ks', stream. unfold session_turn, session_input. cbn [session_read]. rewrite He1. cbn [rbind]. rewrite He2.
  cbn [out Session.app disconnect Datatypes.app orb rbind] in *. rewrite He3. cbn [rbind]. do 10 (split; [done|]). by exists s1.
Qed.

(** A turn without input. *)
Lemma idle_turn (L : NetLaws) n part t c sv s :
  EnvLaws kSohWire → up (conn_fd c) → hears n part (sess c) → answered_by t (sess c) → serves sv s →
  out_seq_ (sess c) + 1 < two64 →
  ∃ c' k stream, session_turn (Idle t) c sv = Ok (false, c', Nat.iter k count_out sv) ∧
    conn_fd c' = conn_fd c ∧ hears n part (sess c') ∧ wire c' = wire c ++ stream ∧
    says (sess c) stream (sess c') [] ∧ out_seq_ (sess c') ≤ out_seq_ (sess c) + 1 ∧ asked t (sess c) (sess c').
Proof.
  intros Henv Hup Ht Hby Hs Hlt. destruct (tick_talks n part t (sess c) Henv Ht Hby Hlt) as (ws & s2 & He2 & Ht2 & Hsay2 & Ho2 & Ha2).
  destruct (write_out_up L ws (set_sess s2 c) sv Hup) as (c1 & He3 & Hw3 & Hc3 & Hfd3). cbn [sess set_sess conn_fd wire] in *.
  exists c1, (length ws), (mjoin ws). unfold session_turn, session_input. cbn [session_read]. rewrite He2.
  cbn [out Session.app disconnect orb rbind]. rewrite He3. cbn [rbind orb handle_apps]. rewrite Hc3. done.
Qed.

Lemma order_turn (L : NetLaws) n x rest c sv s ks ops evs s' :
  EnvLaws kSohWire → up (conn_fd c) → talks n (sess c) → 0 < n → n + zlen x.1 ≤ two64 →
  client_orders n x.1 → x.1 ≠ [] → zlen (wires x.1) ≤ 8192 →
  serves sv s → keys_within ks (as_book s) → app_ops (read_back <$> x.1) (as_id s) = Ok ops →
  feed_ok ks (ops ++ rest) → total (as_book s) + submitted_qty (ops ++ rest) < two63 →
  a_apps (matcher_ sv) (read_back <$> x.1) s = Ok (evs, s') → out_seq_ (sess c) + 1 + zlen evs < two64 →
  ∃ c' sv' ks' stream, session_turn (received x) c sv = Ok (false, c', sv') ∧ serves sv' s' ∧ matcher_ sv' = matcher_ sv ∧
    (keys_within ks' (as_book s') ∧ feed_ok ks' rest ∧ total (as_book s') + submitted_qty rest < two63) ∧
    as_id s' = foldl (λ id op, next_id (Some op) id) (as_id s) ops ∧
    conn_fd c' = conn_fd c ∧ talks (n + zlen x.1) (sess c') ∧ wire c' = wire c ++ stream ∧
    says (sess c) stream (sess c') evs ∧ out_seq_ (sess c') ≤ out_seq_ (sess c) + 1 + zlen evs.
Proof.
  intros Henv Hup Ht Hn Hle Hbs Hne Hz Hs Hks Hops Hf Htot Habs Hlt.
  destruct (piece_turn L n [] (wires x.1) x.1 [] x.2 rest c sv s ks ops evs s')
    as (c' & sv' & ks' & stream & H1 & H2 & H3 & H4 & H5 & H6 & H7 & H8 & H9 & H10 & _); try done;
    [by rewrite app_nil_r|by left|cbn; lia|]. exists c', sv', ks', stream. done.
Qed.

Lemma client_orders_app n bs bs' : client_orders n (bs ++ bs') ↔ client_orders n bs ∧ client_orders (n + zlen bs) bs'.
Proof.
  revert n. induction bs as [|b bs IH]; intros n; cbn [client_orders Datatypes.app].
  - rewrite zlen_nil, Z.add_0_r. tauto.
  - rewrite IH, zlen_cons. replace (n + 1 + zlen bs) with (n + (zlen bs + 1)) by lia. tauto.
Qed.

(** ** The Logon *)

(** A Logon addressed to [me] with sequence number [n]. *)
Definition client_logon (me : bytes) (n : SeqNum) (b : list (Z * bytes)) : Prop :=
  body_ok kSohWire b ∧ (tag_MsgType, mt_Logon) ∈ b ∧ (tag_MsgSeqNum, to_string n) ∈ b ∧ (tag_TargetCompID, me) ∈ b.

Lemma on_logon n b s :
  EnvLaws kSohWire → soh_ s = kSohWire → sess_ok s → state_ s = Disconnected → in_buf_ s = [] →
  out_seq_ s = 0 → reset_on_logon (cfg_ s) = true → 0 < n < two64 →
  client_logon (sender_comp_id (cfg_ s)) n b → zlen (build kSohWire b) < two64 - 7 →
  ∃ w s', on_bytes (build kSohWire b) s = Ok (mkStep [w] [] false, s') ∧ talks (n + 1) s' ∧
    says s w s' [] ∧ out_seq_ s' = 1 ∧ test_request_outstanding_ s' = false.
Proof.
  intros Henv Hsoh Hok Hst Hbuf Hout Hreset Hn (Hb & Hmt & Hsq & Htg) Hz.
  assert (seq (read_back b) = Ok n) as Hseq by (apply read_back_seq; [unfold in_u64; lia|done..]).
  destruct (handle_logon_shape (read_back b) n (heard s)) as (s1 & Hc & _ & Ha & Htr & Ho & (Hsoh1 & Hbuf1 & Hok1) & Hl).
  assert (handle_message (read_back b) (heard s) = Ok (handle_logon (read_back b) n (heard s))) as Hm.
  { unfold handle_message. rewrite Hseq. cbn [rbind]. rewrite bool_decide_true by exact Hst.
    by rewrite (read_back_type b mt_Logon), bool_decide_true by done. }
  assert (logon_mismatch (read_back b) (heard s) = false) as Hmis.
  { unfold logon_mismatch. rewrite (read_back_get b _ _ Hb Htg). change (cfg_ (heard s)) with (cfg_ s).
    by rewrite bool_decide_true by done. }
  rewrite Hmis in Hl. set (s2 := admitted (read_back b) n s1) in *. cbn zeta in Hl.
  assert (sess_ok s1) as Hok1' by (apply Hok1; by apply (sess_ok_same s)).
  assert (soh_ s2 = kSohWire) as Hsoh2 by (unfold s2, admitted; by destruct (get _ _); rewrite <- Hsoh; exact Hsoh1).
  assert (sess_ok s2) as Hok2.
  { apply admitted_ok; [|done]. rewrite Hsoh1. change (soh_ (heard s)) with (soh_ s). rewrite Hsoh. by apply read_back_clean. }
  destruct (admitted_fields (read_back b) n s1) as (Hf1 & Hf2 & Hf3 & _ & Hf5 & _). fold s2 in Hf1, Hf2, Hf3, Hf5.
  change (cfg_ (heard s)) with (cfg_ s) in Ho. rewrite Hreset in Ho. rewrite Ho in Hf3. set (hb := [(108, _)]) in Hl.
  destruct (says_one mt_Logon hb s2 Henv Hsoh2 Hok2) as (Hok3 & Ho3 & Hsay); [by rewrite Hf3|by apply logon_body_ok|done|].
  pose proof (build_message_framed ((tag_MsgType, mt_Logon) :: hb) s2) as Hfr.
  pose proof (build_message_frame ((tag_MsgType, mt_Logon) :: hb) s2) as (_ & _ & _ & _ & _ & _ & _ & Htr3).
  unfold hb in *. destruct (build_message _ s2) as [w s3]. cbn [fst snd] in *. rewrite Hl in Hm.
  destruct (on_message b s _ _ Hsoh Hbuf Hb Hz Hm eq_refl) as [He Hb3]. exists w, s3. split; [exact He|].
  destruct Hfr as (Hg1 & Hg2 & Hg3 & Hg4). split; [split; [congruence|done|congruence|done|lia]|].
  split; [|split; [lia|congruence]]. intros Hzw. destruct (Hsay Hzw) as (ms & ? & ? & ? & ?). exists ms. by rewrite Hout, <- Hf3.
Qed.

Lemma logon_turn (L : NetLaws) n t b cfg fd sv :
  EnvLaws kSohWire → up fd → kSohWire ∉ sc_sender_comp_id cfg → in_u64 (sc_heartbeat_secs cfg) → 0 < n < two64 →
  client_logon (sc_sender_comp_id cfg) n b → zlen (build kSohWire b) ≤ 8192 →
  ∃ c' k, session_turn (Received (build kSohWire b) t) (new_conn cfg fd) sv = Ok (false, c', Nat.iter k count_out sv) ∧
    talks (n + 1) (sess c') ∧ says (sess (new_conn cfg fd)) (wire c') (sess c') [] ∧ conn_fd c' = fd ∧
    out_seq_ (sess c') ≤ 2 ∧ (zlen (wire c') < two64 - 7 → ∃ m ms, decodes kSohWire (wire c') (m :: ms)).
Proof.
  intros Henv Hup Hme Hhb Hn Hlog Hz.
  assert (sess_ok (sess (new_conn cfg fd))) as Hok.
  { apply new_session_ok; [by left|done|apply not_elem_of_nil|done|done]. }
  destruct (on_logon n b (sess (new_conn cfg fd)) Henv eq_refl Hok eq_refl eq_refl eq_refl eq_refl Hn Hlog ltac:(lia))
    as (w & s1 & He1 & Ht1 & Hsay1 & Ho1 & Htr1).
  destruct (tick_talks (n + 1) [] t s1 Henv Ht1 ltac:(unfold answered_by; by rewrite Htr1) ltac:(lia))
    as (ws & s2 & He2 & Ht2 & Hsay2 & Ho2 & Ha2).
  unfold session_turn, session_input. cbn [session_read]. rewrite He1. cbn [rbind]. rewrite He2.
  cbn [out Session.app disconnect Datatypes.app orb rbind].
  destruct (write_out_up L (w :: ws) (set_sess s2 (new_conn cfg fd)) sv Hup) as (c1 & He3 & Hw3 & Hc3 & Hfd3).
  rewrite He3. cbn [rbind handle_apps]. exists c1, (length (w :: ws)). split; [done|].
  cbn [sess set_sess conn_fd wire] in *. rewrite Hc3. split; [done|].
  rewrite Hw3. cbn [wire new_conn Datatypes.app]. rewrite mjoin_cons. split; [eapply (says_app _ _ _ [] _ _ []); done|].
  split; [done|]. split; [lia|]. intros Hzw. pose proof Hzw as Hzw'. rewrite zlen_app in Hzw'.
  pose proof (zlen_nonneg w). pose proof (zlen_nonneg (mjoin ws)).
  destruct (Hsay1 ltac:(lia)) as (ms1 & Hd1 & _ & Hl1 & _). destruct (Hsay2 ltac:(lia)) as (ms2 & Hd2 & _).
  destruct ms1 as [|m ms1]; [change (out_seq_ s1 = 0 + 0) in Hl1; lia|]. exists m, (ms1 ++ ms2). by apply (decodes_app _ _ (m :: ms1)).
Qed.

End conversation.
