(* ===== verification/Pieces.v ===== *)
(** * A whole conversation

    One connection from the client's Logon to the reports of its last order.
    The client's bytes arrive in any pieces, between any polls that find
    nothing or are interrupted. The theorem says what the client reads,
    whatever the clocks show as long as the client does not stay silent for a
    test window, and however the socket splits the writes. *)

From S2P Require Import Prelude Types PriceLevel SortedMap OrderBook BookRep BookProps ProRata Matcher FillProps MatchSpec MatchProps SubmitProps TradeProps Engine Text Messages Serializer Parser ParserProps CodecProps CodecTheorems Session SessionProps Resend UtcClock SessionTheorems Server ServerTheorems Reports Conversation.

(** ** What arrives *)

Definition delivered (rs : list Ready) : bytes :=
  mjoin ((λ r, match r with Received data _ => data | _ => [] end) <$> rs).

(** How many of the messages [bs] are whole in [buf], and what is left. *)
Fixpoint cut (buf : bytes) (bs : list (list (Z * bytes))) : nat * bytes :=
  match bs with
  | [] => (0%nat, buf)
  | b :: bs =>
      let w := build kSohWire b in
      if (length w <=? length buf)%nat then let '(k, part) := cut (drop (length w) buf) bs in (S k, part)
      else (0%nat, buf)
  end.

(** The client is not silent for [W]: in any turn that completes no message,
    the clock is less than [W] past those of the turns since the last one that
    did ([quiet]). *)
Fixpoint paced (W : Z) (quiet : list Z) (part : bytes) (bs : list (list (Z * bytes))) (rs : list Ready) : Prop :=
  match rs with
  | [] => True
  | Interrupted :: rs => paced W quiet part bs rs
  | Idle t :: rs => Forall (λ t', t - t' < W) quiet ∧ paced W (t :: quiet) part bs rs
  | Received data t :: rs =>
      match cut (part ++ data) bs with
      | (O, part) => Forall (λ t', t - t' < W) quiet ∧ paced W (t :: quiet) part bs rs
      | (k, part) => paced W [t] part (drop k bs) rs
      end
  | _ => False
  end.

(** Before the Logon is whole nothing is timed. *)
Fixpoint in_pace (W : Z) (part : bytes) (logon : list (Z * bytes)) (bs : list (list (Z * bytes))) (rs : list Ready) : Prop :=
  match rs with
  | [] => True
  | Interrupted :: rs | Idle _ :: rs => in_pace W part logon bs rs
  | Received data t :: rs =>
      match cut (part ++ data) (logon :: bs) with
      | (O, part) => in_pace W part logon bs rs
      | (S k, part) => paced W [t] part (drop k bs) rs
      end
  | _ => False
  end.

#[global] Instance paced_dec W rs : ∀ quiet part bs, Decision (paced W quiet part bs rs).
Proof.
  induction rs as [|[| |t| |data t] rs IH]; intros quiet part bs; cbn [paced]; try apply _.
  destruct (cut (part ++ data) bs) as [[|k] part']; apply _.
Defined.
#[global] Instance in_pace_dec W logon bs rs : ∀ part, Decision (in_pace W part logon bs rs).
Proof.
  induction rs as [|[| |t| |data t] rs IH]; intros part; cbn [in_pace]; try apply _.
  destruct (cut (part ++ data) (logon :: bs)) as [[|k] part']; apply _.
Defined.

Lemma wires_cons b bs : wires (b :: bs) = build kSohWire b ++ wires bs.
Proof. done. Qed.
Lemma wires_app bs bs' : wires (bs ++ bs') = wires bs ++ wires bs'.
Proof. unfold wires. by rewrite fmap_app, join_app. Qed.

Lemma cut_spec bs : ∀ buf more,
  Forall (body_ok kSohWire) bs → zlen (wires bs) < two64 - 7 → buf ++ more = wires bs →
  let '(k, part) := cut buf bs in
  buf = wires (take k bs) ++ part ∧ part ++ more = wires (drop k bs) ∧ incomplete part ∧ (k ≤ length bs)%nat.
Proof.
  induction bs as [|b bs IH]; intros buf more Hok Hz Hs; cbn [cut].
  { apply app_nil in Hs as [-> ->]. split; [done|]. split; [done|]. split; [by left|done]. }
  apply Forall_cons in Hok as [Hb Hok]. rewrite wires_cons in *. set (w := build kSohWire b) in *.
  pose proof Hz as Hz'. rewrite zlen_app in Hz'. pose proof (zlen_nonneg w).
  destruct (Nat.leb_spec (length w) (length buf)) as [Hle|Hlt].
  - assert (buf = w ++ drop (length w) buf) as Hbuf.
    { rewrite <- (take_drop (length w) buf) at 1. f_equal. rewrite <- (take_app_le buf more), Hs, take_app_length by done. done. }
    specialize (IH (drop (length w) buf) more Hok ltac:(lia)). destruct (cut (drop (length w) buf) bs) as [k part].
    destruct IH as (H1 & H2 & H3 & H4).
    { rewrite Hbuf, <- app_assoc in Hs. by apply app_inv_head in Hs. }
    cbn [take drop length]. rewrite wires_cons. split; [rewrite Hbuf, H1 at 1; by rewrite app_assoc|]. split; [done|]. split; [done|lia].
  - split; [done|]. split; [done|]. split; [|cbn; lia]. right.
    destruct (partial_incomplete w (wires bs) (read_back b) buf more) as (r & Hr & Hi); [done| |done|unfold zlen; lia|by exists r].
    apply build_parses; [apply _|done|]. fold w. lia.
Qed.

Lemma incomplete_whole b bs part : body_ok kSohWire b → zlen (wires (b :: bs)) < two64 - 7 → part = wires (b :: bs) → ¬ incomplete part.
Proof.
  intros Hb Hz ->. pose proof (build_parses kSohWire b (wires bs) Hb ltac:(rewrite wires_cons in Hz; lia)) as Hp.
  rewrite wires_cons in *. intros [Hn|(r & Hr & Hi)].
  - destruct (parse_consumed kSohWire _ _ Hz Hp eq_refl) as [Hc Hl]. cbn [consumed] in *. rewrite Hn, zlen_nil in Hl. lia.
  - rewrite Hp in Hr. injection Hr as <-. done.
Qed.

Lemma client_orders_ok n bs : client_orders n bs → Forall (body_ok kSohWire) bs.
Proof. revert n. induction bs as [|b bs IH]; intros n; [constructor|]. intros [(Hb & _) Hbs]. constructor; [done|by eapply IH]. Qed.

Section pieces.
Context `{Env} `{Net}.

(** ** After the Logon *)

(** An outstanding test request went out in one of the turns [quiet]. *)
Definition pending (quiet : list Z) (s : Session) : Prop :=
  test_request_outstanding_ s = true → test_request_at_ s ∈ quiet.

Lemma pending_answered W quiet t s :
  W = test_window (heartbeat_secs (cfg_ s)) → pending quiet s → Forall (λ t', t - t' < W) quiet → answered_by t s.
Proof. intros -> Hp Hq Ho. rewrite Forall_forall in Hq. apply Hq, Hp, Ho. Qed.
Lemma pending_asked quiet t s s' : pending quiet s → asked t s s' → pending (t :: quiet) s'.
Proof. intros Hp [_ Ha] [-> |[Ho ->]]%Ha; [left|right; by apply Hp]. Qed.

(** The pace behind a turn that reads the messages [bs1] at time [t]. *)
Definition paced_on (W : Z) (quiet : list Z) (part : bytes) (bs1 bs2 : list (list (Z * bytes))) (t : Z) (rs : list Ready) : Prop :=
  bs1 = [] ∧ Forall (λ t', t - t' < W) quiet ∧ paced W (t :: quiet) part bs2 rs ∨ bs1 ≠ [] ∧ paced W [t] part bs2 rs.

Lemma pending_read W quiet part bs1 bs2 t rs s u s' :
  paced_on W quiet part bs1 bs2 t rs → pending quiet s → read_timers bs1 s u → asked t u s' →
  ∃ quiet', pending quiet' s' ∧ paced W quiet' part bs2 rs.
Proof.
  intros [(-> & _ & Hp)|[Hne Hp]] Hpend [_ Hu] Ha.
  - exists (t :: quiet). split; [|done]. apply (pending_asked quiet t u); [|done]. destruct Hu as [Hu1 Hu2].
    unfold pending. by rewrite Hu1, Hu2.
  - exists [t]. split; [|done]. apply (pending_asked [] t u); [|done]. destruct bs1; [done|]. unfold pending. by rewrite Hu.
Qed.

Lemma session_loop_cons r rs c sv c1 sv1 :
  session_turn r c sv = Ok (false, c1, sv1) → session_loop (r :: rs) c sv = session_loop rs c1 sv1.
Proof. intros He. cbn [session_loop]. by rewrite He. Qed.

(** The turns of a connection that is logged in, until all of [bs] is read. *)
Lemma pieces_loop (L : NetLaws) W rs : ∀ n part bs quiet c sv s ks ops evs s',
  EnvLaws kSohWire → up (conn_fd c) → hears n part (sess c) → incomplete part → 0 < n → n + zlen bs ≤ two64 →
  client_orders n bs → part ++ delivered rs = wires bs → zlen (wires bs) < two64 - 7 →
  W = test_window (heartbeat_secs (cfg_ (sess c))) → pending quiet (sess c) → paced W quiet part bs rs →
  serves sv s → keys_within ks (as_book s) → app_ops (read_back <$> bs) (as_id s) = Ok ops →
  feed_ok ks ops → total (as_book s) + submitted_qty ops < two63 →
  a_apps (matcher_ sv) (read_back <$> bs) s = Ok (evs, s') →
  out_seq_ (sess c) + zlen rs + zlen evs < two64 →
  ∃ c' sv' stream, session_loop rs c sv = Ok (false, c', sv') ∧ serves sv' s' ∧
    talks (n + zlen bs) (sess c') ∧ wire c' = wire c ++ stream ∧ says (sess c) stream (sess c') evs.
Proof.
  induction rs as [|r rs IH];
    intros n part bs quiet c sv s ks ops evs s' Henv Hup Ht Hpart Hn Hle Hbs Hstr Hz HW Hpend Hpace Hs Hks Hops Hf Htot Ha Hlt.
  { destruct bs as [|b bs]; rewrite app_nil_r in Hstr.
    - cbn in Ha. injection Ha as <- <-. exists c, sv, []. rewrite zlen_nil, Z.add_0_r, app_nil_r. rewrite Hstr in Ht.
      do 4 (split; [done|]). by apply says_nil.
    - apply client_orders_ok in Hbs. apply Forall_cons in Hbs as [Hb _]. by destruct (incomplete_whole b bs part). }
  rewrite zlen_cons in Hlt. pose proof (zlen_nonneg rs). pose proof (zlen_nonneg evs). pose proof (zlen_nonneg bs).
  destruct r as [| |t| |data t]; cbn [paced] in Hpace; [|done| |done|].
  - destruct (IH n part bs quiet c sv s ks ops evs s') as (c' & sv' & stream & He & Hrest); try done; [lia|].
    exists c', sv', stream. by rewrite (session_loop_cons _ _ _ _ c sv).
  - destruct Hpace as [Hq Hpace].
    destruct (idle_turn L n part t c sv s Henv Hup Ht) as (c1 & k & st1 & He1 & Hfd1 & Ht1 & Hw1 & Hsay1 & Ho1 & Ha1);
      [by eapply pending_answered|done|lia|]. pose proof Ha1 as [Hcfg _].
    destruct (IH n part bs (t :: quiet) c1 (Nat.iter k count_out sv) s ks ops evs s')
      as (c' & sv' & st2 & He & Hs' & Ht' & Hw' & Hsay'); try done;
      [by rewrite Hfd1|by rewrite Hcfg|by eapply pending_asked|by apply serves_count_out|by rewrite count_out_matcher|lia|].
    exists c', sv', (st1 ++ st2). rewrite (session_loop_cons _ _ _ _ _ _ He1). do 3 (split; [done|]).
    split; [by rewrite Hw', Hw1, app_assoc|]. by apply (says_app _ _ _ [] _ _ evs Hsay1 Hsay').
  - change (delivered (Received data t :: rs)) with (data ++ delivered rs) in Hstr. rewrite app_assoc in Hstr.
    pose proof (cut_spec bs (part ++ data) (delivered rs) (client_orders_ok _ _ Hbs) Hz Hstr) as Hcut.
    destruct (cut (part ++ data) bs) as [k part']. destruct Hcut as (Hd & Hstr' & Hpart' & Hk).
    set (bs1 := take k bs) in *. set (bs2 := drop k bs) in *. assert (bs = bs1 ++ bs2) as Hsplit by (symmetry; apply take_drop).
    assert (paced_on W quiet part' bs1 bs2 t rs) as Hpace'.
    { unfold paced_on, bs1, bs2. destruct k as [|k]; [left; by destruct Hpace|]. right.
      split; [destruct bs; [cbn in Hk; lia|done]|done]. }
    clear Hpace. clearbody bs1 bs2. subst bs. apply client_orders_app in Hbs as [Hbs1 Hbs2].
    rewrite wires_app, zlen_app in Hz. rewrite zlen_app in Hle |- *.
    pose proof (zlen_nonneg bs1). pose proof (zlen_nonneg bs2). pose proof (zlen_nonneg (wires bs1)). pose proof (zlen_nonneg (wires bs2)).
    rewrite fmap_app in Hops, Ha.
    destruct (apps_split _ _ _ _ _ _ _ Hops Ha) as (ops1 & ops2 & evs1 & evs2 & s1 & -> & -> & Hops1 & Hops2 & Ha1 & Ha2).
    rewrite zlen_app in Hlt.
    pose proof (zlen_nonneg evs1). pose proof (zlen_nonneg evs2).
    assert (zlen part' ≤ zlen (wires bs2)) as Hpl by (rewrite <- Hstr', zlen_app; pose proof (zlen_nonneg (delivered rs)); lia).
    destruct (piece_turn L n part data bs1 part' t ops2 c sv s ks ops1 evs1 s1)
      as (c1 & sv1 & ks1 & st1 & He1 & Hs1 & Hm1 & (Hks1 & Hf1 & Ht1) & Hid1 & Hfd1 & Htk1 & Hw1 & Hsay1 & Ho1 & u & Hu & Hask); try done;
      [lia|rewrite Hd, zlen_app; lia| |lia|].
    { intros ->. destruct Hpace' as [(_ & Hq & _)|[[] _]]; [|done]. by eapply pending_answered. }
    pose proof Hask as [Hcfg _]. destruct (pending_read W quiet part' bs1 bs2 t rs (sess c) u (sess c1) Hpace' Hpend Hu Hask) as (quiet' & Hpend1 & Hpace1).
    destruct (IH (n + zlen bs1) part' bs2 quiet' c1 sv1 s1 ks1 ops2 evs2 s')
      as (c' & sv' & st2 & He & Hs' & Ht' & Hw' & Hsay'); try done;
      [by rewrite Hfd1|lia|lia|lia|by rewrite Hcfg, (proj1 Hu)|by rewrite Hid1|by rewrite Hm1|lia|].
    exists c', sv', (st1 ++ st2). rewrite (session_loop_cons _ _ _ _ _ _ He1). split; [done|]. split; [done|].
    split; [by rewrite Z.add_assoc|]. split; [by rewrite Hw', Hw1, app_assoc|]. by eapply says_app.
Qed.

(** ** Until the Logon is whole *)

(** The connection when [part] of the Logon has been read. *)
Definition waiting (cfg : ServerConfig) (fd : Z) (part : bytes) : Conn :=
  set_sess (set_in_buf part (sess (new_conn cfg fd))) (new_conn cfg fd).

Lemma waiting_idle cfg fd part t sv : session_turn (Idle t) (waiting cfg fd part) sv = Ok (false, waiting cfg fd part, sv).
Proof. reflexivity. Qed.

Lemma waiting_bytes cfg fd part data :
  on_bytes data (sess (waiting cfg fd part)) = on_bytes (part ++ data) (sess (new_conn cfg fd)).
Proof. reflexivity. Qed.

Lemma waiting_part cfg fd part data t sv :
  incomplete (part ++ data) → session_turn (Received data t) (waiting cfg fd part) sv = Ok (false, waiting cfg fd (part ++ data), sv).
Proof. intros Hp. unfold session_turn, session_input. cbn [session_read]. rewrite waiting_bytes, on_part by done. reflexivity. Qed.

(** The session's step when the Logon and the orders [bs] behind it are whole. *)
Lemma on_logon_piece n logon bs part' cfg fd :
  EnvLaws kSohWire → kSohWire ∉ sc_sender_comp_id cfg → in_u64 (sc_heartbeat_secs cfg) → 0 < n → n + 1 + zlen bs ≤ two64 →
  client_logon (sc_sender_comp_id cfg) n logon → client_orders (n + 1) bs → incomplete part' →
  zlen (wires (logon :: bs) ++ part') < two64 - 7 →
  ∃ w s, on_bytes (wires (logon :: bs) ++ part') (sess (new_conn cfg fd)) = Ok (mkStep [w] (read_back <$> bs) false, s) ∧
    hears (n + 1 + zlen bs) part' s ∧ says (sess (new_conn cfg fd)) w s [] ∧ out_seq_ s = 1 ∧
    test_request_outstanding_ s = false ∧ heartbeat_secs (cfg_ s) = sc_heartbeat_secs cfg.
Proof.
  intros Henv Hme Hhb Hn Hle Hlog Hbs Hpart Hz. set (s0 := sess (new_conn cfg fd)). pose proof (zlen_nonneg bs).
  rewrite wires_cons, <- app_assoc in *. pose proof Hz as Hz'. rewrite zlen_app in Hz'.
  pose proof (zlen_nonneg (build kSohWire logon)). pose proof (zlen_nonneg (wires bs ++ part')).
  assert (sess_ok s0) as Hok by (apply new_session_ok; [by left|done|apply not_elem_of_nil|done|done]).
  destruct (on_logon n logon s0 Henv eq_refl Hok eq_refl eq_refl eq_refl eq_refl ltac:(lia) Hlog ltac:(lia))
    as (w & s1 & He1 & Ht1 & Hsay1 & Ho1 & Htr1).
  destruct (on_piece (n + 1) [] (wires bs ++ part') bs part' s1 Ht1 ltac:(lia) Hle Hbs eq_refl Hpart ltac:(cbn; lia))
    as (s2 & He2 & Ht2 & Ho2 & Hrt).
  assert (on_bytes (build kSohWire logon ++ wires bs ++ part') s0 = Ok (mkStep [w] (read_back <$> bs) false, s2)) as He.
  { rewrite (on_bytes_split _ _ s0 (mkStep [w] [] false) s1); [by rewrite He2|change (Separator kSohWire); apply _|exact Hz|done|done]. }
  exists w, s2. split; [exact He|]. split; [done|]. split; [|split; [lia|]].
  - intros Hzw. destruct (Hsay1 Hzw) as (ms & ? & ? & ? & ?). exists ms. by rewrite Ho2.
  - split; [destruct Hrt as [_ Hrt]; destruct bs; [destruct Hrt; congruence|done]|].
    apply receive_setup in He as (_ & _ & Hh & _). exact Hh.
Qed.

(** The turn in which the Logon becomes whole. *)
Lemma logon_piece_turn (L : NetLaws) n logon part data bs part' t rest cfg fd sv s ks ops evs s' :
  EnvLaws kSohWire → up fd → kSohWire ∉ sc_sender_comp_id cfg → in_u64 (sc_heartbeat_secs cfg) → 0 < n → n + 1 + zlen bs ≤ two64 →
  client_logon (sc_sender_comp_id cfg) n logon → client_orders (n + 1) bs → incomplete part' →
  part ++ data = wires (logon :: bs) ++ part' → zlen (part ++ data) < two64 - 7 →
  serves sv s → keys_within ks (as_book s) → app_ops (read_back <$> bs) (as_id s) = Ok ops →
  feed_ok ks (ops ++ rest) → total (as_book s) + submitted_qty (ops ++ rest) < two63 →
  a_apps (matcher_ sv) (read_back <$> bs) s = Ok (evs, s') → 2 + zlen evs < two64 →
  ∃ c' sv' ks', session_turn (Received data t) (waiting cfg fd part) sv = Ok (false, c', sv') ∧ serves sv' s' ∧ matcher_ sv' = matcher_ sv ∧
    (keys_within ks' (as_book s') ∧ feed_ok ks' rest ∧ total (as_book s') + submitted_qty rest < two63) ∧
    as_id s' = foldl (λ id op, next_id (Some op) id) (as_id s) ops ∧
    conn_fd c' = fd ∧ hears (n + 1 + zlen bs) part' (sess c') ∧ says (sess (new_conn cfg fd)) (wire c') (sess c') evs ∧
    out_seq_ (sess c') ≤ 2 + zlen evs ∧ heartbeat_secs (cfg_ (sess c')) = sc_heartbeat_secs cfg ∧ pending [t] (sess c').
Proof.
  intros Henv Hup Hme Hhb Hn Hle Hlog Hbs Hpart Hd Hz Hs Hks Hops Hf Htot Ha Hlt. rewrite Hd in Hz.
  destruct (on_logon_piece n logon bs part' cfg fd Henv Hme Hhb Hn Hle Hlog Hbs Hpart Hz) as (w & s1 & He1 & Ht1 & Hsay1 & Ho1 & Htr1 & Hh1).
  assert (zlen (wires bs) < two64 - 7) as Hzw.
  { rewrite wires_cons, !zlen_app in Hz. pose proof (zlen_nonneg part'). pose proof (zlen_nonneg (build kSohWire logon)). lia. }
  destruct (finish_turn L (n + 1 + zlen bs) part' [w] bs rest t (waiting cfg fd part) sv s s1 ks ops evs s')
    as (ws & s2 & c1 & sv1 & c' & sv' & ks' & stream & He2 & He3 & He4 & Hs' & Hm & Hrest & Hid & Hfd & Ht' & Hw & Hsay & Ho & Hask); try done;
    [unfold answered_by; by rewrite Htr1|rewrite mjoin_cons; change (mjoin []) with (@nil ascii); by rewrite app_nil_r|
     by eapply orders_clean|lia|].
  change (wire (waiting cfg fd part)) with (@nil ascii) in Hw. cbn [Datatypes.app] in Hw. rewrite <- Hw in Hsay.
  exists c', sv', ks'. unfold session_turn, session_input. cbn [session_read]. rewrite waiting_bytes, Hd, He1. cbn [rbind]. rewrite He2.
  cbn [out Session.app disconnect Datatypes.app orb rbind] in *. rewrite He3. cbn [rbind]. do 8 (split; [done|]).
  split; [lia|]. split; [by rewrite (proj1 Hask)|]. apply (pending_asked [] t s1); [|done]. intros Ho'. congruence.
Qed.

Lemma logon_loop (L : NetLaws) n logon bs cfg fd sv s ks ops evs s' rs : ∀ part,
  EnvLaws kSohWire → up fd → kSohWire ∉ sc_sender_comp_id cfg → in_u64 (sc_heartbeat_secs cfg) → 0 < n → n + 1 + zlen bs ≤ two64 →
  client_logon (sc_sender_comp_id cfg) n logon → client_orders (n + 1) bs → incomplete part →
  part ++ delivered rs = wires (logon :: bs) → zlen (wires (logon :: bs)) < two64 - 7 →
  in_pace (test_window (sc_heartbeat_secs cfg)) part logon bs rs →
  serves sv s → keys_within ks (as_book s) → app_ops (read_back <$> bs) (as_id s) = Ok ops →
  feed_ok ks ops → total (as_book s) + submitted_qty ops < two63 →
  a_apps (matcher_ sv) (read_back <$> bs) s = Ok (evs, s') → 2 + zlen rs + zlen evs < two64 →
  ∃ c' sv', session_loop rs (waiting cfg fd part) sv = Ok (false, c', sv') ∧ serves sv' s' ∧
    talks (n + 1 + zlen bs) (sess c') ∧ says (sess (new_conn cfg fd)) (wire c') (sess c') evs.
Proof.
  induction rs as [|r rs IH]; intros part Henv Hup Hme Hhb Hn Hle Hlog Hbs Hpart Hstr Hz Hpace Hs Hks Hops Hf Htot Ha Hlt.
  { rewrite app_nil_r in Hstr. by destruct (incomplete_whole logon bs part (proj1 Hlog) Hz Hstr). }
  rewrite zlen_cons in Hlt. pose proof (zlen_nonneg rs). pose proof (zlen_nonneg evs).
  destruct r as [| |t| |data t]; cbn [in_pace] in Hpace; [|done| |done|].
  1,2: rewrite (session_loop_cons _ _ _ _ (waiting cfg fd part) sv) by reflexivity; apply IH; try done; lia.
  change (delivered (Received data t :: rs)) with (data ++ delivered rs) in Hstr. rewrite app_assoc in Hstr.
  pose proof (cut_spec (logon :: bs) (part ++ data) (delivered rs)) as Hcut.
  destruct (cut (part ++ data) (logon :: bs)) as [[|k] part']; (destruct Hcut as (Hd & Hstr' & Hpart' & Hk);
    [constructor; [apply Hlog|by eapply client_orders_ok]|done|done|]).
  - cbn [take Datatypes.app] in Hd. change (wires []) with (@nil ascii) in Hd. cbn [Datatypes.app] in Hd. subst part'.
    rewrite (session_loop_cons _ _ _ _ (waiting cfg fd (part ++ data)) sv) by by apply waiting_part. apply IH; try done; lia.
  - cbn [take drop length] in Hd, Hstr', Hk. set (bs1 := take k bs) in *. set (bs2 := drop k bs) in *.
    assert (bs = bs1 ++ bs2) as Hsplit by (symmetry; apply take_drop). clearbody bs1 bs2. subst bs.
    apply client_orders_app in Hbs as [Hbs1 Hbs2]. rewrite zlen_app in Hle |- *.
    pose proof (zlen_nonneg bs1). pose proof (zlen_nonneg bs2). pose proof (zlen_nonneg (wires (logon :: bs1))).
    change (logon :: bs1 ++ bs2) with ((logon :: bs1) ++ bs2) in Hz. rewrite wires_app, zlen_app in Hz.
    assert (zlen part' ≤ zlen (wires bs2)) as Hpl by (rewrite <- Hstr', zlen_app; pose proof (zlen_nonneg (delivered rs)); lia).
    rewrite fmap_app in Hops, Ha.
    destruct (apps_split _ _ _ _ _ _ _ Hops Ha) as (ops1 & ops2 & evs1 & evs2 & s1 & -> & -> & Hops1 & Hops2 & Ha1 & Ha2).
    rewrite zlen_app in Hlt. pose proof (zlen_nonneg evs1). pose proof (zlen_nonneg evs2).
    destruct (logon_piece_turn L n logon part data bs1 part' t ops2 cfg fd sv s ks ops1 evs1 s1)
      as (c1 & sv1 & ks1 & He1 & Hs1 & Hm1 & (Hks1 & Hf1 & Ht1) & Hid1 & Hfd1 & Htk1 & Hsay1 & Ho1 & Hh1 & Hpend1); try done;
      [lia|rewrite Hd, zlen_app; lia|lia|].
    destruct (pieces_loop L (test_window (sc_heartbeat_secs cfg)) rs (n + 1 + zlen bs1) part' bs2 [t] c1 sv1 s1 ks1 ops2 evs2 s')
      as (c' & sv' & st2 & He & Hs' & Ht' & Hw' & Hsay'); try done;
      [by rewrite Hfd1|lia|lia|lia|by rewrite Hh1|by rewrite Hid1|by rewrite Hm1|lia|].
    exists c', sv'. rewrite (session_loop_cons _ _ _ _ _ _ He1). split; [done|]. split; [done|].
    split; [by rewrite Z.add_assoc|]. rewrite Hw'. by eapply says_app.
Qed.

End pieces.

(** ** Theorem *)

(** C4: a whole conversation. A client logs on to a running server and sends
    order messages, numbered consecutively. Its bytes arrive in any pieces: a
    read may hold several messages, or a part of one, and polls may time out or
    be interrupted in between. As long as the client is not silent for a test
    window, the connection is not closed, no order is lost or handled twice, and
    the shared book becomes the abstract server's. The client's parser reads
    everything the server wrote as messages numbered 1, 2, 3, ...; the execution
    reports among them are exactly the abstract server's events, in order,
    whatever heartbeats and test requests come in between and however the socket
    splits the writes. *)
Theorem conversation `{Env} `{Net} cfg fd logon n bs rs sv s ks ops evs s' :
  NetLaws → EnvLaws kSohWire → up fd → kSohWire ∉ sc_sender_comp_id cfg → in_u64 (sc_heartbeat_secs cfg) →
  0 < n → n + 1 + zlen bs ≤ two64 → client_logon (sc_sender_comp_id cfg) n logon → client_orders (n + 1) bs →
  delivered rs = wires (logon :: bs) → zlen (delivered rs) < two64 - 7 →
  in_pace (test_window (sc_heartbeat_secs cfg)) [] logon bs rs →
  serves sv s → keys_within ks (as_book s) → app_ops (read_back <$> bs) (as_id s) = Ok ops →
  feed_ok ks ops → total (as_book s) + submitted_qty ops < two63 →
  a_apps (matcher_ sv) (read_back <$> bs) s = Ok (evs, s') → 2 + zlen rs + zlen evs < two64 →
  ∃ c' sv', session_loop rs (new_conn cfg fd) sv = Ok (false, c', sv') ∧
    serves sv' s' ∧ talks (n + 1 + zlen bs) (sess c') ∧
    (zlen (wire c') < two64 - 7 →
       ∃ ms, decodes kSohWire (wire c') ms ∧ numbered 1 ms ∧ Forall2 reported (filter is_report ms) evs).
Proof.
  intros L Henv Hup Hme Hhb Hn Hle Hlog Hbs Hstr Hz Hpace Hs Hks Hops Hf Ht Ha Hlt. rewrite Hstr in Hz.
  destruct (logon_loop L n logon bs cfg fd sv s ks ops evs s' rs []) as (c' & sv' & He & Hs' & Htk & Hsay); try done; [by left|].
  exists c', sv'. split; [exact He|]. split; [done|]. split; [done|].
  intros Hz'. destruct (Hsay Hz') as (ms & Hd & Hnum & _ & Hr). by exists ms.
Qed.

(** ** A concrete conversation *)

(** The server's own clock, a second later at every reading. *)
#[local] Instance talk_env : Env :=
  system_env (λ k, 1778630400000000000 + secs (Z.of_nat k)) (λ k, secs (Z.of_nat k)) (λ _ m, map_to_list m).
#[local] Instance talk_env_laws : EnvLaws kSohWire.
Proof. apply system_env_laws; [by left|done]. Qed.

Definition talk_body (mt : string) (n : Z) (rest : list (Z * bytes)) : list (Z * bytes) :=
  (tag_MsgType, B mt) :: (tag_SenderCompID, B "CLI") :: (tag_TargetCompID, B "OBFIX") ::
  (tag_MsgSeqNum, to_string n) :: rest.
Definition talk_order (n : Z) (clord side px qty : string) : list (Z * bytes) :=
  talk_body "D" n [(tag_ClOrdID, B clord); (tag_Side, B side); (tag_Price, B px); (tag_OrderQty, B qty)].
Definition talk_logon : list (Z * bytes) := talk_body "A" 1 [(108, B "30")].
Definition talk_bodies : list (list (Z * bytes)) :=
  [talk_order 2 "A" "2" "100" "30"; talk_order 3 "B" "2" "101" "50"; talk_order 4 "C" "1" "101" "60";
   talk_body "F" 5 [(tag_ClOrdID, B "X"); (tag_OrigClOrdID, B "B")]].
Definition talk_orders : list Message := read_back <$> talk_bodies.

(** The stream in three reads that cut messages in two, between polls without
    input: a heartbeat and a test request go out in the quiet turns, and the last
    read answers. *)
Definition talk_piece (a b : nat) : bytes := drop a (take b (wires (talk_logon :: talk_bodies))).
Definition talk_rs : list Ready :=
  [Idle 0; Received (talk_piece 0 50) (secs 1); Interrupted; Received (talk_piece 50 200) (secs 5); Idle (secs 35);
   Idle (secs 45); Interrupted; Received (talk_piece 200 1000) (secs 70); Idle (secs 71)].

Lemma conversation_witness :
  length (ex_abstract talk_orders).1 = 6%nat ∧
  ∃ c' sv', session_loop talk_rs (new_conn default_config 5) (new_server Fifo) = Ok (false, c', sv') ∧
    serves sv' (ex_abstract talk_orders).2 ∧ talks (1 + 1 + zlen talk_bodies) (sess c') ∧
    (zlen (wire c') < two64 - 7 →
       ∃ ms, decodes kSohWire (wire c') ms ∧ numbered 1 ms ∧
         Forall2 reported (filter is_report ms) (ex_abstract talk_orders).1).
Proof.
  split; [vm_compute; reflexivity|].
  apply (conversation default_config 5 talk_logon 1 talk_bodies talk_rs (new_server Fifo) (mkAServer a_empty 1 1) []
    (ex_ops_of talk_orders) (ex_abstract talk_orders).1 (ex_abstract talk_orders).2);
    [exact ex_net_laws|exact talk_env_laws|exact (ex_net_up 5)|decided|decided|lia|done| |decided|vm_compute; reflexivity|
     vm_compute; reflexivity| |
     apply new_server_serves|by intros ? ? ?%not_elem_of_nil|vm_compute; reflexivity|decided|vm_compute; reflexivity|
     vm_compute; reflexivity|vm_compute; reflexivity].
  - split_and!; decided.
  - decided.
Defined.
