(* ===== verification/Threads.v ===== *)
(** * The threads of the server

    Models [TcpServer::start], [TcpServer::stop], [TcpServer::accept_loop] and
    the control flow of [TcpServer::session_loop] in [src/net/tcp_server.cpp]:
    one acceptor, one thread per connection, and the caller of [stop], whose
    steps interleave. A step of a session thread is what happens between two
    points where another thread can be observed: looking at [running_], the
    reading part of a turn (the thread's own session), one write, counting an application message,
    handling it under [book_mu_], or sending one report.

    What the operating system answers is an argument of the step: what
    [socket], [bind] and [listen] give, what [accept] returns, and what [poll]
    and [recv] deliver. Every connection has clocks and a socket of its own, the
    [Env] and the [Net] its thread carries: two sessions read the clocks at
    different moments. A call of [send] that never returns leaves its thread
    where it is; the one mutex that is held across a wait, [sessions_mu_] in
    [stop], makes the acceptor wait. *)

From S2P Require Import Prelude Types OrderBook Matcher Text Messages Parser Session Server.

(** ** State *)

(** Where a session thread is: at the head of its loop, inside [poll], writing
    what its session answers, between two application messages, waiting for
    [book_mu_] with one, sending reports, returned. *)
Inductive Phase :=
| Polling
| InPoll
| Writing (ws : list bytes) (ms : list Message) (dis : bool)
| Handling (ms : list Message) (dis : bool)
| Locking (m : Message) (ms : list Message) (dis : bool)
| Reporting (evs : EventList) (ms : list Message) (dis : bool)
| Finished.
Record Thread := mkThread { t_env : Env; t_net : Net; t_conn : Conn; t_phase : Phase }.
Definition go (c : Conn) (p : Phase) (t : Thread) : Thread := mkThread (t_env t) (t_net t) c p.

(** A client as [accept] delivers it: its descriptor, and the clocks and the
    socket its session will find. *)
Record Peer := mkPeer { p_env : Env; p_net : Net; p_fd : Z }.

(** The acceptor: not joinable, at its loop head, inside [accept], waiting for
    [sessions_mu_] with a client, returned. *)
Inductive Acceptor := NoThread | LoopHead | InAccept (fd : Z) | Spawning (p : Peer) | Returned.

(** Where a call of [stop] is, named after what it does next; [sessions_mu_] is
    held in [JoinSessions]. *)
Inductive Stopping := NotStopping | CloseListener | JoinAcceptor | LockSessions | JoinSessions.

Record TcpServer := mkTcp {
  tcp_cfg : ServerConfig;
  shared : Server;
  running_ : bool;
  listen_fd_ : Z;
  bound_port_ : Z;
  acceptor_ : Acceptor;
  session_threads_ : list Thread;
  stopping : Stopping
}.

Definition new_tcp (cfg : ServerConfig) : TcpServer :=
  mkTcp cfg (new_server (sc_algo cfg)) false (-1) 0 NoThread [] NotStopping.

(** The counter a test or a benchmark reads. *)
Definition messages_in (s : TcpServer) : Z := msgs_in_ (shared s).

Definition set_running (r : bool) (s : TcpServer) : TcpServer :=
  mkTcp (tcp_cfg s) (shared s) r (listen_fd_ s) (bound_port_ s) (acceptor_ s) (session_threads_ s) (stopping s).
Definition set_listen_fd (fd : Z) (s : TcpServer) : TcpServer :=
  mkTcp (tcp_cfg s) (shared s) (running_ s) fd (bound_port_ s) (acceptor_ s) (session_threads_ s) (stopping s).
Definition set_bound_port (p : Z) (s : TcpServer) : TcpServer :=
  mkTcp (tcp_cfg s) (shared s) (running_ s) (listen_fd_ s) p (acceptor_ s) (session_threads_ s) (stopping s).
Definition set_acceptor (a : Acceptor) (s : TcpServer) : TcpServer :=
  mkTcp (tcp_cfg s) (shared s) (running_ s) (listen_fd_ s) (bound_port_ s) a (session_threads_ s) (stopping s).
Definition set_threads (ts : list Thread) (s : TcpServer) : TcpServer :=
  mkTcp (tcp_cfg s) (shared s) (running_ s) (listen_fd_ s) (bound_port_ s) (acceptor_ s) ts (stopping s).
Definition set_stopping (p : Stopping) (s : TcpServer) : TcpServer :=
  mkTcp (tcp_cfg s) (shared s) (running_ s) (listen_fd_ s) (bound_port_ s) (acceptor_ s) (session_threads_ s) p.
Definition set_shared (sv : Server) (s : TcpServer) : TcpServer :=
  mkTcp (tcp_cfg s) sv (running_ s) (listen_fd_ s) (bound_port_ s) (acceptor_ s) (session_threads_ s) (stopping s).

(** ** Starting and stopping *)

Inductive Socket :=
| SocketFailed
| BindFailed
| ListenFailed (port : Z)
| Listening (fd port : Z).

(** [None]: assigning to a joinable [std::thread] ends the process. *)
Definition start (r : Socket) (s : TcpServer) : option (bool * TcpServer) :=
  match r with
  | SocketFailed | BindFailed => Some (false, s)
  | ListenFailed port => Some (false, set_bound_port port s)
  | Listening fd port =>
      let s := set_running true (set_listen_fd fd (set_bound_port port s)) in
      match acceptor_ s with
      | NoThread => Some (true, set_acceptor LoopHead s)
      | _ => None
      end
  end.

(** The call of [stop]: the exchange of [running_]. *)
Definition stop_call (s : TcpServer) : TcpServer :=
  if running_ s then set_stopping CloseListener (set_running false s) else s.

Definition finished (t : Thread) : bool := match t_phase t with Finished => true | _ => false end.

(** The next step of a call of [stop]; [None] when it waits in a join. The
    acceptor holds [sessions_mu_] only within one step of its own. *)
Definition stop_step (s : TcpServer) : option TcpServer :=
  match stopping s with
  | NotStopping => None
  | CloseListener => Some (set_stopping JoinAcceptor (set_listen_fd (-1) s))
  | JoinAcceptor =>
      match acceptor_ s with
      | Returned | NoThread => Some (set_stopping LockSessions (set_acceptor NoThread s))
      | _ => None
      end
  | LockSessions => Some (set_stopping JoinSessions s)
  | JoinSessions =>
      if forallb finished (session_threads_ s) then Some (set_stopping NotStopping (set_threads [] s))
      else None
  end.

(** ** The acceptor *)

(** What [accept] returns. *)
Inductive Accept := AcceptFailed | Connected (p : Peer).

Definition new_thread (cfg : ServerConfig) (p : Peer) : Thread :=
  mkThread (p_env p) (p_net p) (new_conn cfg (p_fd p)) Polling.

(** One step; [None] when there is no acceptor or it waits for [sessions_mu_]. *)
Definition accept_step (r : Accept) (s : TcpServer) : option TcpServer :=
  match acceptor_ s with
  | LoopHead =>
      Some (if running_ s then
              if listen_fd_ s <? 0 then set_acceptor Returned s else set_acceptor (InAccept (listen_fd_ s)) s
            else set_acceptor Returned s)
  | InAccept _ =>
      Some (match r with
            | AcceptFailed => if running_ s then set_acceptor LoopHead s else set_acceptor Returned s
            | Connected p => set_acceptor (Spawning p) s
            end)
  | Spawning p =>
      match stopping s with
      | JoinSessions => None
      | _ => Some (set_acceptor LoopHead (set_threads (session_threads_ s ++ [new_thread (tcp_cfg s) p]) s))
      end
  | NoThread | Returned => None
  end.

(** ** A session thread *)

Definition thread_step (run : bool) (r : Ready) (t : Thread) (sv : Server) : res (Thread * Server) :=
  let c := t_conn t in
  match t_phase t with
  | Polling => Ok (go c (if run then InPoll else Finished) t, sv)
  | InPoll =>
      let! '(ws, ms, dis, c) := @session_read (t_env t) r c in
      Ok (go c (Writing ws ms dis) t, sv)
  | Writing [] ms dis => Ok (go c (Handling ms dis) t, sv)
  | Writing (w :: ws) ms dis =>
      let! '(written, c) := @write_all (t_net t) w c in
      if written : bool then Ok (go c (Writing ws ms dis) t, count_out sv)
      else Ok (go c (Handling ms true) t, sv)
  | Handling [] dis => Ok (go c (if dis then Finished else Polling) t, sv)
  | Handling (m :: ms) dis => Ok (go c (Locking m ms dis) t, count_in sv)
  | Locking m ms dis =>
      let! '(evs, sv) := handle_app m sv in
      Ok (go c (Reporting evs ms dis) t, sv)
  | Reporting [] ms dis => Ok (go c (Handling ms dis) t, sv)
  | Reporting (ev :: evs) ms dis =>
      let! '(failed, c, sv) := @send_report (t_env t) (t_net t) ev c sv in
      Ok (go c (if failed : bool then Handling ms true else Reporting evs ms dis) t, sv)
  | Finished => Ok (t, sv)
  end.

(** The application message a step handles under the book's lock. *)
Definition locked (t : Thread) : list Message :=
  match t_phase t with Locking m _ _ => [m] | _ => [] end.

(** What [recv] can deliver into the buffer of 8192 bytes. *)
Definition ready_ok (r : Ready) : Prop :=
  match r with Received data _ => 0 < zlen data ≤ 8192 | _ => True end.
#[global] Instance ready_ok_dec r : Decision (ready_ok r).
Proof. destruct r; apply _. Defined.

(** ** The process *)

(** An exception that leaves a thread, or a signal it does not handle, ends the
    process; so does undefined behaviour, as far as the model goes. *)
Inductive Outcome := Running (s : TcpServer) | Died (p : Phase).
Definition dies {A} (r : res A) : Prop := match r with Throw _ | Undef => True | Ok _ | Hang => False end.

(** The process when thread [i] has made a step. *)
Definition put (i : nat) (t : Thread) (sv : Server) (s : TcpServer) : TcpServer :=
  set_shared sv (set_threads (<[i := t]> (session_threads_ s)) s).

Section process.
(** The clocks and sockets clients may come with. *)
Context (W : Env → Net → Prop).

Definition admits (r : Accept) : Prop :=
  match r with AcceptFailed => True | Connected p => W (p_env p) (p_net p) end.

(** Steps of the acceptor, of [stop] and of the session threads, with the
    messages handled under the lock. *)
Inductive internal : list Message → TcpServer → Outcome → Prop :=
| int_accept r s s' : admits r → accept_step r s = Some s' → internal [] s (Running s')
| int_stop s s' : stop_step s = Some s' → internal [] s (Running s')
| int_thread i r t t' sv s :
    session_threads_ s !! i = Some t → t_phase t ≠ Finished → ready_ok r →
    thread_step (running_ s) r t (shared s) = Ok (t', sv) →
    internal (locked t) s (Running (put i t' sv s))
| int_dies i r t s :
    session_threads_ s !! i = Some t → t_phase t ≠ Finished → ready_ok r →
    dies (thread_step (running_ s) r t (shared s)) →
    internal (locked t) s (Died (t_phase t)).

Inductive step : list Message → TcpServer → Outcome → Prop :=
| step_internal l s o : internal l s o → step l s o
| step_start r s b s' : stopping s = NotStopping → start r s = Some (b, s') → step [] s (Running s')
| step_stop s : stopping s = NotStopping → step [] s (Running (stop_call s)).

(** Runs, with the messages in the order the lock was taken. *)
Inductive run : list Message → TcpServer → Outcome → Prop :=
| run_refl s : run [] s (Running s)
| run_step tr s s1 l o : run tr s (Running s1) → step l s1 o → run (tr ++ l) s o.

End process.

(** The steps that do not wait for anything outside the process: [poll] returns
    after 250 milliseconds at the latest, and [accept] returns, with an error,
    once its socket has been shut down. *)
Inductive prompt : TcpServer → Outcome → Prop :=
| prompt_accept s s' :
    (∀ fd, acceptor_ s = InAccept fd → listen_fd_ s < 0) → accept_step AcceptFailed s = Some s' → prompt s (Running s')
| prompt_stop s s' : stop_step s = Some s' → prompt s (Running s')
| prompt_thread i now t t' sv s :
    session_threads_ s !! i = Some t → t_phase t ≠ Finished →
    thread_step (running_ s) (Idle now) t (shared s) = Ok (t', sv) → prompt s (Running (put i t' sv s))
| prompt_dies i now t s :
    session_threads_ s !! i = Some t → t_phase t ≠ Finished →
    dies (thread_step (running_ s) (Idle now) t (shared s)) → prompt s (Died (t_phase t)).
