(* ===== verification/Stored.v ===== *)
(** * What the book holds, whatever the clients send

    The refinement theorems are about feeds that are admissible: no ClOrdID
    twice, quantities that add up to less than 2^63. This file asks nothing of
    the clients. Duplicate identifiers leave dangling pointers behind and
    quantities may wrap, so the lists are no longer well-formed; but one order
    survives: a link of a node always leads to an order that was allocated
    earlier ([prev]) or later ([next]). Following [next] therefore visits every
    live order at most once, and none of the loops over a level runs for ever.

    The operations are taken one by one, with a small logic of postconditions
    for code that may throw or be undefined but must not run for ever. The same
    pass shows that stored values stay in their types, and that whatever holds
    of the identifiers that come in holds of all that are stored and reported. *)

From S2P Require Import Prelude Types PriceLevel SortedMap OrderBook ProRata Matcher Text Messages Serializer Parser Session SessionProps SessionTheorems Server Reports.

(** ** Postconditions *)

(** [post w P r]: a value satisfies [P], and running for ever needs [w]. *)
Definition post {A} (w : Prop) (P : A → Prop) (r : res A) : Prop :=
  match r with Ok a => P a | Hang => w | _ => True end.

Lemma post_bind {A B} w (P : A → Prop) (Q : B → Prop) m k :
  post w P m → (∀ a, P a → post w Q (k a)) → post w Q (rbind m k).
Proof. destruct m; cbn; auto. Qed.
Lemma post_total {A} (P : A → Prop) r : post False P r → r ≠ Hang.
Proof. by destruct r. Qed.

(** Runs through a chain of calls, naming what each one returns. *)
Ltac next P := eapply (post_bind _ P); [|].

(** ** Links *)

(** Addresses are numbered in the order of allocation. *)
Definition linked (l : loc) (o : Order) : Prop :=
  (∀ p, o_prev o = Some p → (p < l)%positive) ∧ (∀ n, o_next o = Some n → (l < n)%positive).

(** The addresses from [cur] on, and how many there are. *)
Definition from (cur : option loc) (D : gset loc) : gset loc :=
  match cur with Some l => filter (λ x, (l ≤ x)%positive) D | None => ∅ end.
Definition left_from (cur : option loc) (D : gset loc) : nat := size (from cur D).

Lemma left_from_all cur D : (left_from cur D ≤ size D)%nat.
Proof. apply subseteq_size. unfold from. destruct cur; set_solver. Qed.
Lemma left_from_next l o D : l ∈ D → linked l o → (left_from (o_next o) D < left_from (Some l) D)%nat.
Proof.
  intros Hl [_ Hn]. assert (l ∈ from (Some l) D) as Hin by (apply elem_of_filter; split; [lia|done]).
  apply subset_size. destruct (o_next o) as [n|]; cbn [from]; [|set_solver].
  specialize (Hn n eq_refl). split; [|intros Hsub; apply Hsub in Hin; apply elem_of_filter in Hin as [? _]; lia].
  intros x [? ?]%elem_of_filter. apply elem_of_filter. split; [lia|done].
Qed.

(** ** Stored values *)

Definition in_i64 (z : Z) : Prop := - two63 ≤ z < two63.

(** The operations copy ClOrdIDs around without looking into them: what holds
    of the ones that come in holds of all that are stored and reported. *)
Section clords.
Context (okc : ClOrdID → Prop).

Record order_typed (o : Order) : Prop := {
  ot_id : in_u64 (o_id o);
  ot_session : in_u64 (o_session o);
  ot_price : in_i64 (o_price o);
  ot_orig : in_u64 (o_orig o);
  ot_leaves : in_u64 (o_leaves o);
  ot_clord : okc (o_clord o)
}.

(** The orders live at addresses of [D], up to [lim]. *)
Definition at_typed (lim : loc) (D : gset loc) (l : loc) (o : Order) : Prop :=
  order_typed o ∧ linked l o ∧ (l ≤ lim)%positive ∧ l ∈ D.
Definition heap_typed (lim : loc) (D : gset loc) (h : heap) : Prop := map_Forall (at_typed lim D) h.
(** Levels end before [lim]. *)
Definition level_typed (lim : loc) (lv : PriceLevel) : Prop :=
  in_u64 (count_ lv) ∧ in_u64 (total_qty_ lv) ∧ ∀ t, tail_ lv = Some t → (t < lim)%positive.
Definition side_typed (lim : loc) (m : smap PriceLevel) : Prop := Forall (λ x, in_i64 x.1 ∧ level_typed lim x.2) m.
Definition book_typed (lim : loc) (b : OrderBook) : Prop := side_typed lim (bids_ b) ∧ side_typed lim (asks_ b).
Definition event_typed (ev : Event) : Prop :=
  match ev with
  | EAck a => in_u64 (a_id a) ∧ okc (a_clord a)
  | ETrade t =>
      in_u64 (t_aggressor_id t) ∧ in_u64 (t_resting_id t) ∧ in_i64 (t_price t) ∧ in_u64 (t_qty t) ∧
      okc (t_aggressor_clord t)
  | ECancelAck c => okc (c_clord c) ∧ okc (c_orig_clord c)
  | EOrdReject r => okc (r_clord r) ∧ r_reason r = B "cancel: unknown order"
  | EReplaceAck _ => True
  end.

Lemma in_u64_0 : in_u64 0.
Proof. by vm_compute. Qed.
Lemma min_u64 a b : in_u64 a → in_u64 b → in_u64 (Z.min a b).
Proof. unfold in_u64. lia. Qed.
#[local] Hint Resolve u64_range in_u64_0 min_u64 : typed.

(** ** Store *)

Lemma heap_typed_grow lim lim' D D' h :
  (lim ≤ lim')%positive → D ⊆ D' → heap_typed lim D h → heap_typed lim' D' h.
Proof.
  intros Hl HD Hh l o Ho. destruct (Hh l o Ho) as (? & ? & ? & ?). split; [done|]. split; [done|]. split; [lia|by apply HD].
Qed.
Lemma heap_typed_own lim D h : heap_typed lim D h → heap_typed lim (dom h) h ∧ dom h ⊆ D.
Proof.
  intros Hh. split.
  - intros l o Ho. destruct (Hh l o Ho) as (? & ? & ? & _). split_and!; try done. by apply elem_of_dom_2 in Ho.
  - intros l [o Ho]%elem_of_dom. apply (Hh l o Ho).
Qed.
Lemma deref_typed w lim D h l : heap_typed lim D h → post w (at_typed lim D l) (deref h l).
Proof. intros Hh. unfold deref. destruct (h !! l) as [o|] eqn:Hl; [|done]. exact (Hh _ _ Hl). Qed.
Lemma store_typed w lim D h l f :
  heap_typed lim D h → (∀ o, at_typed lim D l o → at_typed lim D l (f o)) → post w (heap_typed lim D) (store h l f).
Proof.
  intros Hh Hf. unfold store. destruct (h !! l) as [o|] eqn:Hl; [|done]. cbn.
  apply map_Forall_insert_2; [|done]. apply Hf, (Hh _ _ Hl).
Qed.
Lemma set_prev_typed lim D l p o :
  (∀ x, p = Some x → (x < l)%positive) → at_typed lim D l o → at_typed lim D l (set_prev p o).
Proof. intros Hp ([] & [_ Hn] & H2). by split. Qed.
Lemma set_next_typed lim D l n o :
  (∀ x, n = Some x → (l < x)%positive) → at_typed lim D l o → at_typed lim D l (set_next n o).
Proof. intros Hn ([] & [Hp _] & H2). by split. Qed.
Lemma take_from_typed lim D l q o : at_typed lim D l o → at_typed lim D l (take_from q o).
Proof. intros ([] & H1 & H2). split; [|done]. split; try done. apply u64_range. Qed.
Lemma delete_typed lim D l h : heap_typed lim D h → heap_typed lim D (delete l h).
Proof. apply map_Forall_delete. Qed.
Lemma set_none_typed lim D l o :
  at_typed lim D l o → at_typed lim D l (set_prev None o) ∧ at_typed lim D l (set_next None o).
Proof. intros Ho. split; [by apply set_prev_typed|by apply set_next_typed]. Qed.
#[local] Hint Resolve deref_typed store_typed take_from_typed delete_typed : typed.

(** Appending an order behind everything a level may end with. *)
Lemma push_back_typed w lim D lv h :
  level_typed lim lv → heap_typed lim D h →
  post w (λ r, level_typed (Pos.succ lim) r.1 ∧ heap_typed lim D r.2) (push_back lim lv h).
Proof.
  intros (Hc & Ht & Htl) Hh. unfold push_back. next (heap_typed lim D).
  { apply store_typed; [done|]. intros x. by apply set_prev_typed. }
  intros h1 H1. next (heap_typed lim D); [apply store_typed; [done|]; apply set_none_typed|]. intros h2 H2.
  next (λ r : option loc * heap, heap_typed lim D r.2).
  { destruct (tail_ lv) as [t|]; [|done]. next (heap_typed lim D); [|by intros].
    apply store_typed; [done|]. intros o. apply set_next_typed. intros x [= <-]. by apply Htl. }
  intros [hd h3] H3. next (at_typed lim D lim); [by apply deref_typed|]. intros ord Ho.
  split; [|done]. split; [apply u64_range|]. split; [apply u64_range|]. cbn. intros t [= <-]. lia.
Qed.

Lemma unlink_typed w lim D o lv h :
  level_typed lim lv → heap_typed lim D h →
  post w (λ r, level_typed lim r.1 ∧ heap_typed lim D r.2) (unlink o lv h).
Proof.
  intros (Hc & Ht & Htl) Hh. unfold unlink. next (at_typed lim D o); [by apply deref_typed|]. intros o1 (_ & [Hp1 Hn1] & _).
  next (λ r : option loc * heap, heap_typed lim D r.2).
  { destruct (o_prev o1) as [p|]; [|done]. specialize (Hp1 p eq_refl). next (heap_typed lim D); [|by intros].
    apply store_typed; [done|]. intros x. apply set_next_typed. intros n Hn. specialize (Hn1 n Hn). lia. }
  intros [hd h1] H1. next (at_typed lim D o); [by apply deref_typed|]. intros o2 (_ & [Hp2 Hn2] & Hlim & _).
  next (λ r : option loc * heap, heap_typed lim D r.2 ∧ ∀ t, r.1 = Some t → (t < lim)%positive).
  { destruct (o_next o2) as [n|]; [|split; [done|intros t Hp; specialize (Hp2 t Hp); lia]].
    specialize (Hn2 n eq_refl). next (heap_typed lim D); [|by intros].
    apply store_typed; [done|]. intros x. apply set_prev_typed. intros p Hp. specialize (Hp2 p Hp). lia. }
  intros [tl h2] [H2 Htl2]. next (heap_typed lim D); [apply store_typed; [done|]; apply set_none_typed|]. intros h3 H3.
  next (heap_typed lim D); [apply store_typed; [done|]; apply set_none_typed|]. intros h4 H4.
  next (at_typed lim D o); [by apply deref_typed|]. intros o3 _. split; [|done]. by split; [apply u64_range|split; [apply u64_range|]].
Qed.

Lemma note_qty_delta_typed w lim d lv : level_typed lim lv → post w (level_typed lim) (note_qty_delta d lv).
Proof.
  intros (Hc & Ht & Htl). unfold note_qty_delta, add_i64. next (λ _ : Z, True); [by destruct (_ && _)|]. intros s _.
  split; [done|]. split; [apply u64_range|done].
Qed.

(** ** Book *)

Lemma level_typed_grow lim lim' lv : (lim ≤ lim')%positive → level_typed lim lv → level_typed lim' lv.
Proof. intros Hl (? & ? & Ht). split_and!; try done. intros t Hq. specialize (Ht t Hq). lia. Qed.
Lemma side_typed_grow lim lim' m : (lim ≤ lim')%positive → side_typed lim m → side_typed lim' m.
Proof. intros Hl Hm. eapply Forall_impl; [exact Hm|]. intros x [? ?]. split; [done|by eapply level_typed_grow]. Qed.
Lemma book_typed_grow lim lim' b : (lim ≤ lim')%positive → book_typed lim b → book_typed lim' b.
Proof. intros Hl []. split; by eapply side_typed_grow. Qed.
Lemma smap_find_typed lim m p lv : side_typed lim m → smap_find p m = Some lv → level_typed lim lv ∧ in_i64 p.
Proof. intros Hm Hf%smap_find_elem. unfold side_typed in Hm. rewrite Forall_forall in Hm. by apply Hm in Hf as [? ?]. Qed.
Lemma smap_set_typed lim ltb m p lv : side_typed lim m → in_i64 p → level_typed lim lv → side_typed lim (smap_set ltb p lv m).
Proof.
  intros Hm Hp Hl. unfold side_typed in *. induction Hm as [|[k w] m Hx Hm IH]; cbn [smap_set]; [by apply Forall_singleton|].
  destruct (k =? p); [by apply Forall_cons_2|]. destruct (ltb p k); [by repeat apply Forall_cons_2|]. by apply Forall_cons_2.
Qed.
Lemma smap_erase_typed lim m p : side_typed lim m → side_typed lim (smap_erase p m).
Proof.
  intros Hm. unfold side_typed in *. induction Hm as [|[k w] m Hx Hm IH]; cbn [smap_erase]; [by apply Forall_nil_2|].
  destruct (k =? p); [done|by apply Forall_cons_2].
Qed.
Lemma levels_typed lim buy b : book_typed lim b → side_typed lim (levels buy b).
Proof. intros []. by destruct buy. Qed.
Lemma set_levels_typed lim buy m b : side_typed lim m → book_typed lim b → book_typed lim (set_levels buy m b).
Proof. intros ? []. by destruct buy. Qed.
#[local] Hint Resolve levels_typed set_levels_typed smap_set_typed smap_erase_typed book_typed_grow : typed.

Lemma rest_typed w lim D b h :
  book_typed lim b → heap_typed lim D h →
  post w (λ r, book_typed (Pos.succ lim) r.1 ∧ heap_typed lim D r.2) (rest lim b h).
Proof.
  intros Hb Hh. unfold rest. next (at_typed lim D lim); [by apply deref_typed|]. intros o ([_ _ Hp _ _ _] & _).
  next (λ r : PriceLevel * heap, level_typed (Pos.succ lim) r.1 ∧ heap_typed lim D r.2).
  { apply push_back_typed; [|done]. destruct (smap_find _ _) as [lv|] eqn:Hf; cbn; [|by split_and!].
    by apply (smap_find_typed lim) in Hf as [? _]; [|apply levels_typed]. }
  intros [lv h1] [Hl H1]. next (at_typed lim D lim); [by apply deref_typed|]. intros o1 _. cbn [fst snd] in *.
  apply (book_typed_grow lim (Pos.succ lim)) in Hb; [|lia].
  assert (book_typed (Pos.succ lim) (set_levels (is_buy (o_side o)) (smap_set (cmp (is_buy (o_side o))) (o_price o) lv
    (levels (is_buy (o_side o)) b)) b)) as Hb' by auto with typed.
  destruct (index_ _ !! _); (split; [exact Hb'|]); [by apply delete_typed|exact H1].
Qed.

Lemma unlink_order_typed w lim D o b h :
  book_typed lim b → heap_typed lim D h → post w (λ r, book_typed lim r.1 ∧ heap_typed lim D r.2) (unlink_order o b h).
Proof.
  intros Hb Hh. unfold unlink_order. next (at_typed lim D o); [by apply deref_typed|]. intros ord ([_ _ Hp _ _ _] & _).
  destruct (smap_find _ _) as [lv|] eqn:Hf; [|done]. apply (smap_find_typed lim) in Hf as [Hl _]; [|by apply levels_typed].
  next (λ r : PriceLevel * heap, level_typed lim r.1 ∧ heap_typed lim D r.2); [by apply unlink_typed|].
  intros [lv1 h1] [Hl1 H1]. split; [|done]. cbn. auto with typed.
Qed.

Lemma cancel_typed w lim D s c b h :
  book_typed lim b → heap_typed lim D h → post w (λ r, book_typed lim r.1.2 ∧ heap_typed lim D r.2) (cancel s c b h).
Proof.
  intros Hb Hh. unfold cancel. destruct (index_ b !! (s, c)) as [l|]; [|done].
  eapply post_bind; [by apply (unlink_order_typed _ lim D)|]. intros [b1 h1] [Hb1 H1]. split; [done|]. by apply delete_typed.
Qed.

Lemma remove_typed w lim D o b h :
  book_typed lim b → heap_typed lim D h → post w (λ r, book_typed lim r.1 ∧ heap_typed lim D r.2) (remove o b h).
Proof.
  intros Hb Hh. unfold remove. eapply post_bind; [by apply (unlink_order_typed _ lim D)|]. intros [b1 h1] [Hb1 H1].
  next (at_typed lim D o); [by apply deref_typed|]. intros ord _.
  destruct (index_ b1 !! _); [|done]. split; [done|]. by apply delete_typed.
Qed.

(** ** Matcher *)

Definition slot_typed (s : Slot) : Prop := in_u64 (s_orig_leaves s) ∧ in_u64 (s_alloc s).

Lemma snapshot_typed fuel lim D h : ∀ cur,
  heap_typed lim D h → (left_from cur D < fuel)%nat → post False (Forall slot_typed) (snapshot fuel h cur).
Proof.
  induction fuel as [|fuel IH]; intros [l|] Hh Hf; cbn [snapshot]; try (exfalso; lia); try by apply Forall_nil_2.
  next (at_typed lim D l); [by apply deref_typed|]. intros o ([_ _ _ _ Hl _] & Hlk & _ & HD).
  pose proof (left_from_next l o D HD Hlk). eapply post_bind; [apply IH; [done|lia]|]. intros slots Hs.
  apply Forall_cons_2; [|done]. split; [done|apply in_u64_0].
Qed.

Lemma proportional_typed t T slots : ∀ a,
  0 ≤ T → Forall slot_typed slots → Forall slot_typed (proportional t T slots a).1.
Proof.
  intros a HT Hs. revert a. induction Hs as [|s slots [H1 H2] Hs IH]; intros a; cbn [proportional]; [by apply Forall_nil_2|].
  specialize (IH (u64 (a + u64 (t * s_orig_leaves s) / T))). destruct (proportional _ _ slots _). cbn in *.
  apply Forall_cons_2; [|done]. split; [done|]. cbn. pose proof (u64_range (t * s_orig_leaves s)) as Hu. unfold in_u64 in *.
  destruct (Z.eq_dec T 0) as [->|]; [by rewrite Zdiv_0_r|].
  split; [apply Z.div_pos; lia|]. apply Z.div_lt_upper_bound; nia.
Qed.
Lemma distribute_typed slots : ∀ r, Forall slot_typed slots → Forall slot_typed (distribute r slots).
Proof.
  intros r Hs. revert r. induction Hs as [|s slots [H1 H2] Hs IH]; intros r; cbn [distribute]; [by apply Forall_nil_2|].
  destruct (r =? 0); [by apply Forall_cons_2|]. apply Forall_cons_2; [|apply IH]. split; [done|apply u64_range].
Qed.
Lemma slots_total_nonneg slots : 0 ≤ slots_total slots.
Proof.
  unfold slots_total. assert (∀ t, 0 ≤ t → 0 ≤ foldl (λ t s, u64 (t + s_orig_leaves s)) t slots) as Hf; [|by apply Hf].
  induction slots as [|s slots IH]; intros t Ht; [done|]. apply IH, u64_range.
Qed.
Lemma allocate_typed slots a slots' : Forall slot_typed slots → allocate slots a = Some slots' → Forall slot_typed slots'.
Proof.
  intros Hs. unfold allocate. destruct (_ || _); [done|].
  pose proof (proportional_typed (Z.min a (slots_total slots)) (slots_total slots) slots 0 (slots_total_nonneg slots) Hs) as Hp.
  destruct (proportional _ _ slots 0) as [slots1 al]. intros [= <-]. by apply distribute_typed.
Qed.

Lemma trade_typed a r px q :
  order_typed a → order_typed r → in_i64 px → in_u64 q → event_typed (mk_trade a r px q).
Proof. by intros [] []. Qed.

Definition fill_typed (lim : loc) (D : gset loc) (r : heap * EventList * Z * Z) : Prop :=
  heap_typed lim D r.1.1.1 ∧ Forall event_typed r.1.1.2.

Lemma sub_i64_post w a b : post w (λ _ : Z, True) (sub_i64 a b).
Proof. unfold sub_i64, add_i64. by destruct (_ && _). Qed.

Lemma apply_slots_typed w lim D aggr px slots : ∀ h out f d,
  in_i64 px → Forall slot_typed slots → heap_typed lim D h → Forall event_typed out →
  post w (fill_typed lim D) (apply_slots aggr px slots h out f d).
Proof.
  induction slots as [|s slots IH]; intros h out f d Hpx Hs Hh Ho; cbn [apply_slots]; [by split|].
  apply Forall_cons in Hs as [[H1 H2] Hs]. destruct (_ =? 0); [by apply IH|].
  next (at_typed lim D aggr); [by apply deref_typed|]. intros a [Ha _].
  next (at_typed lim D (s_o s)); [by apply deref_typed|]. intros r [Hr _].
  next (heap_typed lim D); [auto with typed|]. intros h1 Hh1. eapply post_bind; [apply sub_i64_post|]. intros d1 _.
  apply IH; try done. apply Forall_app. split; [done|]. apply Forall_singleton. by apply trade_typed.
Qed.

Lemma fifo_loop_typed fuel lim D aggr px av : ∀ cur h out f d,
  in_i64 px → heap_typed lim D h → Forall event_typed out → (left_from cur D < fuel)%nat →
  post False (fill_typed lim D) (fifo_loop fuel aggr px av cur h out f d).
Proof.
  induction fuel as [|fuel IH]; intros [l|] h out f d Hpx Hh Ho Hf; cbn [fifo_loop]; try (exfalso; lia); [|by split].
  destruct (negb _); [by split|].
  next (at_typed lim D l); [by apply deref_typed|]. intros o (Hord & Hlk & _ & HD).
  pose proof (left_from_next l o D HD Hlk). destruct (_ =? 0); [apply IH; [done..|lia]|].
  next (at_typed lim D aggr); [by apply deref_typed|]. intros a [Ha _].
  next (heap_typed lim D); [auto with typed|]. intros h1 Hh1.
  eapply post_bind; [apply sub_i64_post|]. intros d1 _. apply IH; [done|done| |lia].
  apply Forall_app. split; [done|]. apply Forall_singleton. apply trade_typed; try done.
  apply min_u64; [apply u64_range|apply Hord].
Qed.

Definition level_fill_typed (lim : loc) (D : gset loc) (r : Quantity * PriceLevel * heap * EventList) : Prop :=
  level_typed lim r.1.1.2 ∧ heap_typed lim D r.1.2 ∧ Forall event_typed r.2.

(** A loop that starts on the store [h] has enough fuel. *)
Lemma list_fuel_enough cur (h : heap) : (left_from cur (dom h) < list_fuel h)%nat.
Proof. unfold list_fuel. pose proof (left_from_all cur (dom h)). rewrite size_dom in *. lia. Qed.

Lemma fill_level_typed algo lim D lv aggr px av h out :
  in_i64 px → level_typed lim lv → heap_typed lim D h → Forall event_typed out →
  post False (level_fill_typed lim D)
    (match algo with ProRata => fill_level_prorata | Fifo => fill_level_fifo end lv aggr px av h out).
Proof.
  intros Hpx Hl Hh0 Ho. destruct (heap_typed_own _ _ _ Hh0) as [Hh HD].
  assert (∀ r, fill_typed lim (dom h) r → post False (level_fill_typed lim D) (let '(h, out, filled, delta) := r in
    let! lv := note_qty_delta delta lv in let! h := store h aggr (take_from filled) in Ok (filled, lv, h, out))) as Hend.
  { intros [[[h1 o1] f] d] [H1 H2]. cbn [fst snd] in *. eapply post_bind; [by apply note_qty_delta_typed|]. intros lv1 Hl1.
    next (heap_typed lim (dom h)); [by auto with typed|]. intros h2 Hh2. split; [done|]. split; [|done].
    by eapply heap_typed_grow; [..|exact Hh2]. }
  destruct algo; [unfold fill_level_prorata|unfold fill_level_fifo].
  - eapply post_bind; [eapply snapshot_typed; [exact Hh|apply list_fuel_enough]|]. intros slots Hs.
    destruct (allocate slots av) as [slots'|] eqn:Ha; [|done].
    eapply post_bind; [eapply apply_slots_typed; try done; by eapply allocate_typed|]. exact Hend.
  - eapply post_bind; [eapply fifo_loop_typed; try done; apply list_fuel_enough|]. exact Hend.
Qed.

Definition mstate_typed (lim : loc) (D : gset loc) (s : MState) : Prop :=
  book_typed lim (m_book s) ∧ heap_typed lim D (m_heap s) ∧ Forall event_typed (m_out s).

Lemma on_level_typed algo lim D aggr opp px s :
  mstate_typed lim D s → post False (λ r, mstate_typed lim D r.2) (on_level algo aggr opp px s).
Proof.
  intros (Hb & Hh & Ho). unfold on_level. next (at_typed lim D aggr); [by apply deref_typed|]. intros a _.
  destruct (_ =? 0); [done|]. destruct (negb _); [done|].
  destruct (smap_find px _) as [lv|] eqn:Hf; [|done].
  apply (smap_find_typed lim) in Hf as [Hl Hp]; [|by apply levels_typed].
  eapply post_bind; [by apply (fill_level_typed _ lim D)|]. intros [[[f lv1] h1] o1] (Hl1 & Hh1 & Ho1). cbn [fst snd] in *.
  next (at_typed lim D aggr); [by apply deref_typed|]. intros a1 _. split; [|done]. cbn. auto with typed.
Qed.

(** The sweep frees orders behind it; the loop only goes forward. *)
Lemma sweep_loop_typed fuel lim D : ∀ cur s,
  mstate_typed lim D s → (left_from cur D < fuel)%nat → post False (mstate_typed lim D) (sweep_loop fuel cur s).
Proof.
  induction fuel as [|fuel IH]; intros [l|] s Hs Hf; cbn [sweep_loop]; try done; try (exfalso; lia).
  next (at_typed lim D l); [by apply deref_typed, Hs|]. intros o (_ & Hlk & _ & HD).
  pose proof (left_from_next l o D HD Hlk). destruct (_ =? 0); [|apply IH; [done|lia]].
  destruct Hs as (Hb & Hh & Ho). eapply post_bind; [by apply (remove_typed _ lim D)|]. intros [b1 h1] [Hb1 Hh1].
  by apply IH; [|lia].
Qed.
Lemma sweep_typed lim D opp px s : mstate_typed lim D s → post False (λ r, mstate_typed lim D r.2) (sweep opp px s).
Proof.
  intros (Hb & Hh0 & Ho). destruct (heap_typed_own _ _ _ Hh0) as [Hh HD]. unfold sweep. destruct (smap_find _ _); [|done].
  eapply post_bind; [apply (sweep_loop_typed _ lim (dom (m_heap s))); [done|apply list_fuel_enough]|].
  intros s1 (Hb1 & Hh1 & Ho1). split; [done|]. split; [|done]. by eapply heap_typed_grow; [..|exact Hh1].
Qed.

Lemma walk_keys_typed lim D buy fn keys : ∀ s,
  (∀ p s, mstate_typed lim D s → post False (λ r, mstate_typed lim D r.2) (fn p s)) → mstate_typed lim D s →
  post False (mstate_typed lim D) (walk_keys m_book put_book buy fn keys s).
Proof.
  intros s Hfn. assert (∀ p s, mstate_typed lim D s → mstate_typed lim D
    (put_book (set_levels buy (smap_erase p (levels buy (m_book s))) (m_book s)) s)) as Her.
  { intros p s1 (Hb & Hh & Ho). split; [|done]. cbn. auto with typed. }
  revert s. induction keys as [|p keys IH]; intros s Hs; cbn [walk_keys]; [done|].
  destruct (smap_find p _); [|done]. destruct (level_empty _); [by apply IH, Her|].
  eapply post_bind; [by apply Hfn|]. intros [c s1] Hs1. cbn [snd] in Hs1. destruct (negb c); [done|].
  destruct (smap_find p _); [|done]. destruct (level_empty _); [by apply IH, Her|by apply IH].
Qed.

(** The incoming order is the youngest. *)
Lemma submit_typed algo lim D s :
  mstate_typed lim D s → post False (mstate_typed (Pos.succ lim) D) (submit algo lim s).
Proof.
  intros (Hb & Hh & Ho). unfold submit, match_aggressive, walk.
  next (at_typed lim D lim); [by apply deref_typed|]. intros o [Hord _].
  assert (mstate_typed lim D (mkM (m_book s) (m_heap s) (m_out s ++ [EAck (mkAck (o_id o) (o_clord o))]))) as Hs1.
  { split; [done|]. split; [done|]. apply Forall_app. split; [done|]. apply Forall_singleton. split; apply Hord. }
  next (mstate_typed lim D).
  { next (at_typed lim D lim); [by apply deref_typed|]. intros a _. apply walk_keys_typed; [|done]. intros. by apply on_level_typed. }
  intros s2 Hs2. next (at_typed lim D lim); [by apply deref_typed, Hs2|]. intros o2 _. next (mstate_typed lim D).
  { apply walk_keys_typed; [|done]. intros. by apply sweep_typed. }
  intros s3 (Hb3 & Hh3 & Ho3). next (at_typed lim D lim); [by apply deref_typed|]. intros o3 _.
  assert (∀ h, heap_typed lim D h → heap_typed (Pos.succ lim) D h) as Hgrow.
  { intros h. apply heap_typed_grow; [lia|done]. }
  destruct (_ >? 0).
  - eapply post_bind; [by apply (rest_typed _ lim D)|]. intros [b4 h4] [Hb4 Hh4]. split; [done|]. split; [by apply Hgrow|done].
  - split; [eapply book_typed_grow; [|exact Hb3]; lia|]. split; [|done]. by apply Hgrow, delete_typed.
Qed.

(** ** The server *)

Record server_typed (sv : Server) : Prop := {
  sv_book : book_typed (fresh_ sv) (book_ sv);
  sv_heap : heap_typed (fresh_ sv) (dom (heap_ sv)) (heap_ sv);
  sv_id : in_u64 (next_order_id_ sv);
  sv_in : in_u64 (msgs_in_ sv);
  sv_out : in_u64 (msgs_out_ sv)
}.

Lemma new_server_typed algo : server_typed (new_server algo).
Proof.
  split; [by split; apply Forall_nil_2|apply map_Forall_empty|by vm_compute|apply in_u64_0..].
Qed.
Lemma count_in_typed sv : server_typed sv → server_typed (count_in sv).
Proof. intros []. split; try done. apply u64_range. Qed.
Lemma count_out_typed sv : server_typed sv → server_typed (count_out sv).
Proof. intros []. split; try done. apply u64_range. Qed.

Lemma scan_int_post w s : post w (λ _ : bool * Z, True) (scan_int s).
Proof. unfold scan_int. destruct (sign_of _). by destruct (digit_run _). Qed.
Lemma stoull_post w s : post w in_u64 (stoull s).
Proof.
  destruct (stoull s) as [n| | |] eqn:Hq; try done; [by apply stoull_range in Hq|]. exfalso. revert Hq.
  unfold stoull, scan_int. destruct (sign_of _). destruct (digit_run _); [done|]. cbn [rbind]. by destruct (_ <? _).
Qed.
Lemma signed_scan_range w lo hi s : post w (λ z, lo ≤ z ≤ hi) (signed_scan lo hi s).
Proof.
  unfold signed_scan. eapply post_bind; [apply scan_int_post|]. intros [neg v] _.
  set (z := if neg then - v else v). destruct (Z.leb_spec lo z); [|done]. destruct (Z.leb_spec z hi); [|done]. by split.
Qed.

(** The values a message contributes to the book and the reports. *)
Definition clords_ok (m : Message) : Prop := okc (value_or [] tag_ClOrdID m) ∧ okc (value_or [] tag_OrigClOrdID m).

Lemma order_of_typed w m id :
  in_u64 id → clords_ok m → post w (λ o, order_typed o ∧ o_prev o = None ∧ o_next o = None) (order_of m id).
Proof.
  intros Hid [Hc _]. unfold order_of. eapply post_bind; [apply signed_scan_range|]. intros px Hpx.
  eapply post_bind; [apply stoull_post|]. intros q Hq.
  split; [|done]. split; cbn; try done. cbv beta in Hpx. unfold in_i64. lia.
Qed.

Lemma handle_app_typed m sv :
  server_typed sv → clords_ok m → post False (λ r, Forall event_typed r.1 ∧ server_typed r.2) (handle_app m sv).
Proof.
  intros [Hb Hh Hid Hin Hout] Hc. unfold handle_app. destruct (bool_decide _); [|destruct (bool_decide _)].
  - eapply post_bind; [by apply order_of_typed|]. intros o (Ho & Hp & Hn).
    set (D := dom (<[fresh_ sv := o]> (heap_ sv))). next (mstate_typed (Pos.succ (fresh_ sv)) D).
    { apply submit_typed. split; [done|]. split; [|by apply Forall_nil_2]. apply map_Forall_insert_2.
      - split; [done|]. split; [by split; rewrite ?Hp, ?Hn|]. split; [done|]. apply elem_of_dom_2 with o. apply lookup_insert_eq.
      - eapply heap_typed_grow; [done| |exact Hh]. unfold D. rewrite dom_insert. set_solver. }
    intros s (Hb1 & Hh1 & Ho1). split; [done|]. split; try done; [|apply u64_range].
    by apply heap_typed_own in Hh1 as [? _].
  - eapply post_bind; [by apply (cancel_typed _ (fresh_ sv) (dom (heap_ sv)))|]. intros [[r b] h] [Hb1 Hh1]. cbn [fst snd] in *.
    split; [|by split; try done; apply heap_typed_own in Hh1 as [? _]].
    destruct Hc. apply Forall_singleton. by destruct (ok r).
  - split; [by apply Forall_nil_2|by split].
Qed.

End clords.

(** Nothing is asked of ClOrdIDs. *)
Definition any_clord (c : ClOrdID) : Prop := True.
