(* ===== verification/ThreadTheorems.v ===== *)
(** * Theorems about the threads of the server

    The book lock makes the server linearizable: whatever the interleaving of
    the threads, the shared book is the one the abstract server reaches on the
    application messages in the order the lock was taken. Handling a message
    never runs for ever, whatever the clients have sent. And [stop] ends unless
    a client does not read: whatever the threads are doing, no schedule runs
    forever once it has been called, and some step is possible unless a thread
    is inside a [send] that blocks, in which case [stop] never returns. *)

From Stdlib Require Import Relations Wellfounded.
From S2P Require Import Prelude Types PriceLevel SortedMap OrderBook BookRep BookProps ProRata Matcher FillProps MatchSpec MatchProps SubmitProps TradeProps Engine Text Messages Serializer Parser ParserProps CodecProps CodecTheorems Session SessionProps Resend SessionTheorems Server ServerTheorems Reports Threads Stored.

(** ** Linearization *)

(** The shared state up to the message counters. *)
Definition erase (sv : Server) : Server :=
  mkServer (matcher_ sv) (book_ sv) (heap_ sv) (fresh_ sv) (next_order_id_ sv) 0 0.

(** Writing changes only the counter of sent messages. *)
Definition unsent (sv : Server) : Server :=
  mkServer (matcher_ sv) (book_ sv) (heap_ sv) (fresh_ sv) (next_order_id_ sv) (msgs_in_ sv) 0.
(** The counter of received messages has counted [k] more, modulo 2^64. *)
Definition counts (k : Z) (sv sv' : Server) : Prop := ∀ n, msgs_in_ sv = u64 n → msgs_in_ sv' = u64 (n + k).

Lemma unsent_erase sv sv' : unsent sv' = unsent sv → erase sv' = erase sv ∧ counts 0 sv sv'.
Proof. intros [= H1 H2 H3 H4 H5 H6]. split; [unfold erase; congruence|]. intros n. rewrite Z.add_0_r. congruence. Qed.
Lemma count_in_counts sv : counts 1 sv (count_in sv).
Proof. intros n Hn. cbn [msgs_in_ count_in]. rewrite Hn. unfold u64. by rewrite Z.add_mod_idemp_l. Qed.
Lemma handle_app_counts m sv evs sv' : handle_app m sv = Ok (evs, sv') → msgs_in_ sv' = msgs_in_ sv.
Proof.
  unfold handle_app. destruct (bool_decide _).
  { destruct (order_of m (next_order_id_ sv)) as [o| | |]; try done. cbn [rbind]. destruct (submit _ _ _); try done. by intros [= _ <-]. }
  destruct (bool_decide _); [|by intros [= _ <-]].
  destruct (cancel _ _ (book_ sv) (heap_ sv)) as [[[r b] h]| | |]; try done. by intros [= _ <-].
Qed.

Lemma handle_app_erase m sv :
  handle_app m (erase sv) = let! '(evs, sv') := handle_app m sv in Ok (evs, erase sv').
Proof.
  unfold handle_app. destruct (bool_decide _).
  { cbn [next_order_id_ erase]. destruct (order_of m (next_order_id_ sv)) as [o| | |]; try done. cbn [rbind].
    cbn [matcher_ fresh_ book_ heap_ erase]. by destruct (submit _ _ _). }
  destruct (bool_decide _); [|done]. cbn [book_ heap_ erase].
  by destruct (cancel _ _ (book_ sv) (heap_ sv)) as [[[r b] h]| | |].
Qed.

Lemma run_apps_app ms ms' sv :
  run_apps (ms ++ ms') sv =
    let! '(evs, sv) := run_apps ms sv in
    let! '(evs', sv) := run_apps ms' sv in
    Ok (evs ++ evs', sv).
Proof.
  revert sv. induction ms as [|m ms IH]; intros sv; cbn [run_apps Datatypes.app rbind].
  { by destruct (run_apps ms' sv) as [[? ?]| | |]. }
  destruct (handle_app m sv) as [[evs sv1]| | |]; try done. cbn [rbind]. rewrite IH.
  destruct (run_apps ms sv1) as [[evs1 sv2]| | |]; try done. cbn [rbind].
  destruct (run_apps ms' sv2) as [[evs2 sv3]| | |]; try done. cbn [rbind]. by rewrite app_assoc.
Qed.

Lemma run_apps_one m sv : run_apps [m] sv = handle_app m sv.
Proof.
  cbn [run_apps]. destruct (handle_app m sv) as [[evs sv1]| | |]; try done. cbn [rbind]. by rewrite app_nil_r.
Qed.

Lemma send_report_erase `{Env} `{Net} ev c sv b c' sv' : send_report ev c sv = Ok (b, c', sv') → unsent sv' = unsent sv.
Proof.
  unfold send_report. destruct (report_body ev) as [body|]; [|by intros [= _ _ <-]].
  destruct (send_execution_report body (sess c)) as [w s].
  destruct (write_all _ _) as [[[] c1]| | |]; try done; by intros [= _ _ <-].
Qed.

(** A thread's step changes the shared book as its locked message does, and
    counts the message it goes to the lock with. *)
Lemma thread_step_erase run r t sv t' sv' :
  t_phase t ≠ Finished → thread_step run r t sv = Ok (t', sv') →
  (∃ evs, run_apps (locked t) (erase sv) = Ok (evs, erase sv')) ∧ counts (zlen (locked t')) sv sv'.
Proof.
  intros Hf. assert (∀ sv1 c p, unsent sv1 = unsent sv → locked (go c p t) = [] →
    (∃ evs, run_apps [] (erase sv) = Ok (evs, erase sv1)) ∧ counts (zlen (locked (go c p t))) sv sv1) as Hidle.
  { intros sv1 c p [He Hc]%unsent_erase ->. rewrite zlen_nil. split; [|done]. exists []. cbn. by rewrite He. }
  unfold thread_step. unfold locked at 1. destruct (t_phase t) as [| |[|w ws] ms dis|[|m ms] dis|m ms dis|[|ev evs] ms dis|]; [..|done].
  - intros [= <- <-]. apply Hidle; [done|by destruct run].
  - destruct (@session_read _ r (t_conn t)) as [[[[ws ms] dis] c]| | |]; try done. intros [= <- <-]. by apply Hidle.
  - intros [= <- <-]. by apply Hidle.
  - destruct (@write_all _ w (t_conn t)) as [[[] c]| | |]; try done; intros [= <- <-]; by apply Hidle.
  - intros [= <- <-]. apply Hidle; [done|by destruct dis].
  - intros [= <- <-]. split; [by exists []|]. apply count_in_counts.
  - rewrite run_apps_one, handle_app_erase. destruct (handle_app m sv) as [[evs sv1]| | |] eqn:Hm; try done.
    cbn [rbind]. intros [= <- <-]. split; [by exists evs|]. intros n. rewrite (handle_app_counts _ _ _ _ Hm).
    intros ->. change (zlen (locked _)) with 0. by rewrite Z.add_0_r.
  - intros [= <- <-]. by apply Hidle.
  - destruct (@send_report _ _ ev (t_conn t) sv) as [[[b c] sv1]| | |] eqn:Hs; try done. intros [= <- <-].
    apply Hidle; [exact (@send_report_erase _ _ _ _ _ _ _ _ Hs)|by destruct b].
Qed.

(** ** What the steps leave alone *)

Lemma start_keeps r s b s' :
  start r s = Some (b, s') → shared s' = shared s ∧ tcp_cfg s' = tcp_cfg s ∧ session_threads_ s' = session_threads_ s ∧
    ∀ p, acceptor_ s' = Spawning p → acceptor_ s = Spawning p.
Proof. destruct r; cbn [start]; [by intros [= _ <-]..|]. cbn. by destruct (acceptor_ s); intros [= _ <-]. Qed.
Lemma stop_call_keeps s :
  shared (stop_call s) = shared s ∧ tcp_cfg (stop_call s) = tcp_cfg s ∧ session_threads_ (stop_call s) = session_threads_ s ∧
    acceptor_ (stop_call s) = acceptor_ s.
Proof. unfold stop_call. by destruct (running_ s). Qed.
Lemma stop_step_keeps s s' :
  stop_step s = Some s' → shared s' = shared s ∧ tcp_cfg s' = tcp_cfg s ∧
    (session_threads_ s' = session_threads_ s ∨ session_threads_ s' = [] ∧ forallb finished (session_threads_ s) = true) ∧
    ∀ p, acceptor_ s' = Spawning p → acceptor_ s = Spawning p.
Proof.
  unfold stop_step. destruct (stopping s); try done.
  - intros [= <-]. by split_and!; try left.
  - destruct (acceptor_ s); try done; intros [= <-]; by split_and!; try left.
  - intros [= <-]. by split_and!; try left.
  - destruct (forallb _ _) eqn:Hf; try done. intros [= <-]. by split_and!; try right.
Qed.
Lemma accept_step_keeps r s s' :
  accept_step r s = Some s' → shared s' = shared s ∧ tcp_cfg s' = tcp_cfg s ∧ running_ s' = running_ s ∧
    listen_fd_ s' = listen_fd_ s ∧ stopping s' = stopping s ∧
    ((session_threads_ s' = session_threads_ s ∧
       ∀ p, acceptor_ s' = Spawning p → acceptor_ s = Spawning p ∨ r = Connected p) ∨
     ∃ p, acceptor_ s = Spawning p ∧ acceptor_ s' = LoopHead ∧
       session_threads_ s' = session_threads_ s ++ [new_thread (tcp_cfg s) p]).
Proof.
  unfold accept_step. destruct (acceptor_ s) as [| |fd|p|] eqn:Ha; try done.
  - intros [= <-]. destruct (running_ s) eqn:Hr; [destruct (_ <? _)|]; by split_and!; try left.
  - intros [= <-]. destruct r as [|q]; [destruct (running_ s) eqn:Hr|]; split_and!; try done; left;
      (split; [done|]); intros p Hp; by simplify_eq/=; auto.
  - destruct (stopping s) eqn:Hst; try done; intros [= <-]; split_and!; try done; right; by exists p.
Qed.

(** Everything about the threads that does not concern their interleaving: [I]
    of the shared state and [T] of every thread, given [F] of the threads. *)
Section holds.
Context (W : Env → Net → Prop) (cfg : ServerConfig) (I : Server → Prop) (T F : Thread → Prop).

Record holds (s : TcpServer) : Prop := {
  h_cfg : tcp_cfg s = cfg;
  h_shared : I (shared s);
  h_threads : Forall T (session_threads_ s);
  h_spawning p : acceptor_ s = Spawning p → W (p_env p) (p_net p)
}.

Lemma step_holds l s s' :
  (∀ p, W (p_env p) (p_net p) → T (new_thread cfg p)) →
  (∀ run r t sv t' sv', ready_ok r → T t → F t → I sv → thread_step run r t sv = Ok (t', sv') → T t' ∧ I sv') →
  Forall F (session_threads_ s) → holds s → step W l s (Running s') → holds s'.
Proof.
  intros Hnew Hthr HF [Hc Hs Ht Hp] Hstep. inversion Hstep as [? ? ? Hi|? ? ? ? ? Hst|]; subst;
    [inversion Hi as [? ? ? Hadm Ha|? ? Hs1|i r t t' sv ? Hl Hf Hr Hth|]; subst; clear Hi|..].
  - destruct (accept_step_keeps _ _ _ Ha) as (Hsh & Hcf & _ & _ & _ & [[Hts Hq]|(p & Hq & Hq' & Hts)]).
    + split; [congruence|by rewrite Hsh|by rewrite Hts|]. intros p [?| ->]%Hq; [by apply Hp|exact Hadm].
    + split; [congruence|by rewrite Hsh| |by rewrite Hq']. rewrite Hts. apply Forall_app. split; [done|].
      apply Forall_singleton. rewrite Hc. by apply Hnew, Hp.
  - destruct (stop_step_keeps _ _ Hs1) as (Hsh & Hcf & [Hts|[Hts _]] & Hq); (split; [congruence|by rewrite Hsh| |by intros p ?%Hq; apply Hp]);
      rewrite Hts; [done|by apply Forall_nil_2].
  - destruct (Hthr _ _ _ _ _ _ Hr ltac:(by eapply Forall_lookup_1) ltac:(by eapply Forall_lookup_1) Hs Hth) as [H1 H2].
    split; [done|done|by apply Forall_insert|exact Hp].
  - destruct (start_keeps _ _ _ _ Hst) as (Hsh & Hcf & Hts & Hq). split; [congruence|by rewrite Hsh|by rewrite Hts|by intros p ?%Hq; apply Hp].
  - destruct (stop_call_keeps s) as (Hsh & Hcf & Hts & Hq). split; [congruence|by rewrite Hsh|by rewrite Hts|rewrite Hq; exact Hp].
Qed.

End holds.

Lemma new_holds W (I : Server → Prop) (T : Thread → Prop) cfg : I (new_server (sc_algo cfg)) → holds W cfg I T (new_tcp cfg).
Proof. intros HI. split; [done|done|by apply Forall_nil_2|done]. Qed.

(** ** Counting *)

(** The messages that have been counted and wait for the book's lock. *)
Definition at_lock (s : TcpServer) : nat := sum_list ((λ t, length (locked t)) <$> session_threads_ s).

Lemma sum_insert {A} (f : A → nat) l i x y :
  l !! i = Some x → (sum_list (f <$> <[i := y]> l) + f x = sum_list (f <$> l) + f y)%nat.
Proof.
  revert i. induction l as [|z l IH]; intros [|i] Hi; [done|done|injection Hi as ->; csimpl; lia|].
  specialize (IH i Hi). change (<[S i := y]> (z :: l)) with (z :: <[i := y]> l). csimpl. lia.
Qed.
Lemma finished_sum (f : Thread → nat) ts :
  (∀ t, finished t = true → f t = 0%nat) → forallb finished ts = true → sum_list (f <$> ts) = 0%nat.
Proof.
  intros Hf. induction ts as [|t ts IH]; [done|]. cbn. intros [Ht Hts]%andb_true_iff. rewrite Hf, IH; done.
Qed.

Section threads.
Context (W : Env → Net → Prop).

Lemma step_erase l s s' :
  step W l s (Running s') →
  (∃ evs, run_apps l (erase (shared s)) = Ok (evs, erase (shared s'))) ∧
  ∀ n, messages_in s = u64 (n + Z.of_nat (at_lock s)) → messages_in s' = u64 (n + zlen l + Z.of_nat (at_lock s')).
Proof.
  assert (∀ s1, shared s1 = shared s → at_lock s1 = at_lock s → (∃ evs, run_apps [] (erase (shared s)) = Ok (evs, erase (shared s1))) ∧
    ∀ n, messages_in s = u64 (n + Z.of_nat (at_lock s)) → messages_in s1 = u64 (n + zlen (@nil Message) + Z.of_nat (at_lock s1))) as Hidle.
  { unfold messages_in. intros s1 -> ->. split; [by exists []|]. intros n. by rewrite zlen_nil, Z.add_0_r. }
  inversion 1 as [? ? ? Hi|? ? ? ? ? Hst|]; subst; [inversion Hi as [? ? ? Hadm Ha|? ? Hs|i r t t' sv ? Hl Hf Hr Ht|]; subst|..].
  - destruct (accept_step_keeps _ _ _ Ha) as (Hsh & _ & _ & _ & _ & [[Hts _]|(p & _ & _ & Hts)]); apply Hidle; try done;
      unfold at_lock; rewrite Hts; [done|]. rewrite fmap_app, sum_list_with_app. cbn. lia.
  - destruct (stop_step_keeps _ _ Hs) as (Hsh & _ & [Hts|[Hts Hfin]] & _); apply Hidle; try done; unfold at_lock; rewrite Hts; [done|].
    rewrite (finished_sum _ (session_threads_ s)); [done| |done]. intros t. unfold finished, locked. by destruct (t_phase t).
  - destruct (thread_step_erase _ _ _ _ _ _ Hf Ht) as [He Hc]. split; [exact He|]. intros n Hn. unfold messages_in in *. cbn [shared put set_shared].
    pose proof (sum_insert (λ t, length (locked t)) _ _ _ t' Hl) as Hsum. rewrite (Hc _ Hn). unfold at_lock, zlen in *. cbn. f_equal. lia.
  - destruct (start_keeps _ _ _ _ Hst) as (Hsh & _ & Hts & _). apply Hidle; [done|]. unfold at_lock. by rewrite Hts.
  - destruct (stop_call_keeps s) as (Hsh & _ & Hts & _). apply Hidle; [done|]. unfold at_lock. by rewrite Hts.
Qed.

Lemma run_erase tr s s' :
  run W tr s (Running s') →
  (∃ evs, run_apps tr (erase (shared s)) = Ok (evs, erase (shared s'))) ∧
  ∀ n, messages_in s = u64 (n + Z.of_nat (at_lock s)) → messages_in s' = u64 (n + zlen tr + Z.of_nat (at_lock s')).
Proof.
  intros Hr. remember (Running s') as o eqn:Ho. revert s' Ho.
  induction Hr as [s|tr s s1 l o Hr IH Hstep]; intros s'.
  { intros [= <-]. split; [by exists []|]. intros n. by rewrite zlen_nil, Z.add_0_r. }
  intros ->. destruct (IH _ eq_refl) as [(evs & He) Hc]. destruct (step_erase _ _ _ Hstep) as [(evs' & He') Hc'].
  split; [exists (evs ++ evs'); rewrite run_apps_app, He; cbn [rbind]; by rewrite He'|].
  intros n Hn. rewrite zlen_app, Z.add_assoc. by apply Hc', Hc.
Qed.

End threads.

Lemma serves_erase sv s : serves (erase sv) s → serves sv s.
Proof. done. Qed.

(** C3: linearizability and safety of the server. In every run of its threads,
    whatever their interleaving and the clients' clocks and sockets, whose locked
    messages are readable, do not reuse a ClOrdID and add up to less than 2^63:
    the process does not die while handling a message under the lock, and the
    shared book represents the one the abstract server reaches on the messages
    in lock order, so it is well-formed and uncrossed and the store holds
    exactly its orders; and [messages_in] has counted exactly these messages and
    the ones whose threads wait for the lock. *)
Theorem server_linearizable W cfg tr o ops :
  run W tr (new_tcp cfg) o → app_ops tr 1 = Ok ops → feed_ok [] ops → submitted_qty ops < two63 →
  (∀ m ms dis, o ≠ Died (Locking m ms dis)) ∧
  (∀ s, o = Running s →
     ∃ evs sA, a_apps (sc_algo cfg) tr (mkAServer a_empty 1 1) = Ok (evs, sA) ∧ serves (shared s) sA ∧
       messages_in s = u64 (zlen tr + Z.of_nat (at_lock s))).
Proof.
  intros Hrun Hops Hfeed Hq.
  destruct (run_apps_spec tr [] (new_server (sc_algo cfg)) (mkAServer a_empty 1 1) [] ops
    (new_server_serves _)) as (evs & sv & sA & ks & He & Ha & Hs & _);
    [by intros ? ? ?%not_elem_of_nil|done|by rewrite app_nil_r..|].
  split.
  - intros m ms dis ->. inversion Hrun as [|tr0 s0 s1 l o Hr Hstep]; subst.
    inversion Hstep as [? ? ? Hi| |]; subst. inversion Hi as [| | |i r t ? Hl Hf Hro Hdie]; subst.
    match goal with H : t_phase t = _ |- _ => rename H into Hlk end.
    destruct (run_erase _ _ _ _ Hr) as [(evs0 & He0) _]. change (erase (shared (new_tcp cfg))) with (new_server (sc_algo cfg)) in He0.
    rewrite run_apps_app, He0 in He. cbn [rbind] in He. unfold locked, thread_step in *. rewrite Hlk in *.
    rewrite run_apps_one, handle_app_erase in He. by destruct (handle_app m (shared s1)) as [[evs1 sv1]| | |].
  - intros s ->. destruct (run_erase _ _ _ _ Hrun) as [(evs0 & He0) Hc].
    change (erase (shared (new_tcp cfg))) with (new_server (sc_algo cfg)) in He0.
    rewrite He in He0. injection He0 as <- ->. exists evs, sA. split; [done|].
    split; [by apply serves_erase|]. by apply (Hc 0).
Qed.

(** ** Schedules that can be run *)

(** What one thread or the environment does next. *)
Inductive Action :=
| AStart (r : Socket)
| AStop
| AStopStep
| AAccept (r : Accept)
| AThread (i : nat) (r : Ready).

Definition play_step (a : Action) (s : TcpServer) : option (list Message * TcpServer) :=
  match a with
  | AStart r =>
      match stopping s, start r s with NotStopping, Some (_, s') => Some ([], s') | _, _ => None end
  | AStop => match stopping s with NotStopping => Some ([], stop_call s) | _ => None end
  | AStopStep => s' ← stop_step s; Some ([], s')
  | AAccept r => s' ← accept_step r s; Some ([], s')
  | AThread i r =>
      t ← session_threads_ s !! i;
      match finished t, bool_decide (ready_ok r), thread_step (running_ s) r t (shared s) with
      | false, true, Ok (t', sv) => Some (locked t, put i t' sv s)
      | _, _, _ => None
      end
  end.

Fixpoint play (acts : list Action) (tr : list Message) (s : TcpServer) : option (list Message * TcpServer) :=
  match acts with
  | [] => Some (tr, s)
  | a :: acts => '(l, s) ← play_step a s; play acts (tr ++ l) s
  end.

Definition action_ok (W : Env → Net → Prop) (a : Action) : Prop :=
  match a with AAccept r => admits W r | _ => True end.

Section play.
Context (W : Env → Net → Prop).

Lemma play_step_sound a s l s' : action_ok W a → play_step a s = Some (l, s') → step W l s (Running s').
Proof.
  intros Hok. destruct a as [r| | |r|i r]; cbn [play_step].
  - destruct (stopping s) eqn:Hst; try done. destruct (start r s) as [[b s1]|] eqn:Hs; try done.
    intros [= <- <-]. by eapply step_start.
  - destruct (stopping s) eqn:Hst; try done. intros [= <- <-]. by apply step_stop.
  - intros (s1 & Hs & [= <- <-])%bind_Some. by apply step_internal, int_stop.
  - intros (s1 & Hs & [= <- <-])%bind_Some. by eapply step_internal, int_accept.
  - intros (t & Ht & Hs)%bind_Some. destruct (finished t) eqn:Hf; try done.
    destruct (bool_decide_reflect (ready_ok r)) as [Hro|]; [|done].
    destruct (thread_step _ r t (shared s)) as [[t' sv]| | |] eqn:He; try done. injection Hs as <- <-.
    eapply step_internal, int_thread; [done| |done|done]. unfold finished in Hf. by destruct (t_phase t).
Qed.

Lemma play_sound acts : ∀ tr s0 s tr' s',
  Forall (action_ok W) acts → run W tr s0 (Running s) → play acts tr s = Some (tr', s') → run W tr' s0 (Running s').
Proof.
  induction acts as [|a acts IH]; intros tr s0 s tr' s' Hok Hrun; cbn [play]; [by intros [= <- <-]|].
  apply Forall_cons in Hok as [Ha Hok].
  intros ([l s1] & Hs & Hp)%bind_Some. eapply IH; [done| |exact Hp]. eapply run_step; [exact Hrun|by eapply play_step_sound].
Qed.

(** What the schedule [acts] leads to. *)
Definition played (cfg : ServerConfig) (acts : list Action) : list Message * TcpServer :=
  default ([], new_tcp cfg) (play acts [] (new_tcp cfg)).

Lemma played_run cfg acts :
  Forall (action_ok W) acts → (if play acts [] (new_tcp cfg) then true else false) = true →
  run W (played cfg acts).1 (new_tcp cfg) (Running (played cfg acts).2).
Proof.
  intros Hok Hp. unfold played. destruct (play acts [] (new_tcp cfg)) as [[tr s]|] eqn:He; [|done].
  by apply (play_sound acts [] (new_tcp cfg) (new_tcp cfg)); [|constructor|].
Qed.

End play.

(** Two clients log on; one sells, the other buys part of it and then sends a
    cancel request for the first one's order; the threads take turns. At the end
    the second client's thread waits for the lock with its cancel request. *)
Definition ex_client (mt : string) (n : Z) (rest : list (Z * bytes)) : bytes :=
  build kSohWire ((tag_MsgType, B mt) :: (tag_SenderCompID, B "CLI") :: (tag_TargetCompID, B "OBFIX") ::
    (tag_MsgSeqNum, to_string n) :: rest).
Definition ex_new_order (n : Z) (clord side px qty : string) : bytes :=
  ex_client "D" n [(tag_ClOrdID, B clord); (tag_Side, B side); (tag_Price, B px); (tag_OrderQty, B qty)].
Definition turns (n i : nat) : list Action := replicate n (AThread i (Idle 0)).
Definition reads (i : nat) (data : bytes) : list Action := [AThread i (Idle 0); AThread i (Received data 0)].
Definition ex_peer (fd : Z) : Accept := Connected (mkPeer ex_env ex_net fd).
Definition ex_world (e : Env) (n : Net) : Prop := e = ex_env ∧ n = ex_net.

Definition ex_logons : list Action :=
  [AStart (Listening 3 9876); AAccept AcceptFailed; AAccept (ex_peer 7); AAccept AcceptFailed; AAccept AcceptFailed;
   AAccept (ex_peer 8); AAccept AcceptFailed] ++
  reads 0 (ex_client "A" 1 []) ++ reads 1 (ex_client "A" 1 []) ++ turns 2 0 ++ turns 3 1 ++ turns 1 0.
Definition ex_schedule : list Action :=
  ex_logons ++
  reads 0 (ex_new_order 2 "S1" "2" "100" "30" ++ ex_new_order 3 "S2" "2" "101" "30") ++
  reads 1 (ex_new_order 2 "B1" "1" "100" "10" ++ ex_client "F" 3 [(tag_ClOrdID, B "X"); (tag_OrigClOrdID, B "S1")]) ++
  turns 2 0 ++ turns 2 1 ++ turns 2 0 ++ turns 1 1 ++ turns 3 0 ++ turns 4 1.

Definition ex_played : list Message * TcpServer := played default_config ex_schedule.

Lemma ex_peer_ok fd : admits ex_world (ex_peer fd).
Proof. by split. Qed.
Ltac actions_ok := repeat (apply Forall_cons_2; [first [exact (ex_peer_ok _)|exact Logic.I]|]); apply Forall_nil_2.

Lemma ex_played_run : run ex_world ex_played.1 (new_tcp default_config) (Running ex_played.2).
Proof. apply played_run; [unfold ex_schedule, ex_logons; cbn [turns reads replicate Datatypes.app]; actions_ok|vm_compute; reflexivity]. Qed.

Lemma server_linearizable_witness :
  msg_type <$> ex_played.1 = [B "D"; B "D"; B "D"] ∧ at_lock ex_played.2 = 1%nat ∧
  (∀ m ms dis, Running ex_played.2 ≠ Died (Locking m ms dis)) ∧
  (∀ s, Running ex_played.2 = Running s →
     ∃ evs sA, a_apps ProRata ex_played.1 (mkAServer a_empty 1 1) = Ok (evs, sA) ∧ serves (shared s) sA ∧
       messages_in s = u64 (zlen ex_played.1 + Z.of_nat (at_lock s))).
Proof.
  split; [vm_compute; reflexivity|]. split; [vm_compute; reflexivity|].
  apply (server_linearizable ex_world default_config ex_played.1 (Running ex_played.2) (ex_ops_of ex_played.1));
    [exact ex_played_run|vm_compute; reflexivity|decided|vm_compute; reflexivity].
Defined.

(** ** The book under arbitrary clients *)

(** What is known of the shared state when nothing is known of the clients. *)
Notation any_holds W cfg := (holds W cfg (server_typed any_clord) (λ _, True)).

Lemma thread_step_typed run r t sv t' sv' :
  server_typed any_clord sv → thread_step run r t sv = Ok (t', sv') → server_typed any_clord sv'.
Proof.
  intros Hs. unfold thread_step. destruct (t_phase t) as [| |[|w ws] ms dis|[|m ms] dis|m ms dis|[|ev evs] ms dis|].
  - by intros [= _ <-].
  - destruct (@session_read _ r (t_conn t)) as [[[[ws ms] dis] c]| | |]; try done. by intros [= _ <-].
  - by intros [= _ <-].
  - destruct (@write_all _ w (t_conn t)) as [[[] c]| | |]; try done; intros [= _ <-]; [by apply count_out_typed|done].
  - by intros [= _ <-].
  - intros [= _ <-]. by apply count_in_typed.
  - pose proof (handle_app_typed any_clord m sv Hs) as Hp. destruct (handle_app m sv) as [[evs sv1]| | |]; try done.
    intros [= _ <-]. by apply Hp.
  - by intros [= _ <-].
  - unfold send_report. destruct (report_body ev) as [body|]; [|by intros [= _ <-]].
    destruct (@send_execution_report _ body _) as [w s]. destruct (@write_all _ w _) as [[[] c]| | |]; try done;
      intros [= _ <-]; [by apply count_out_typed|done].
  - by intros [= _ <-].
Qed.

Lemma step_any W cfg l s s' : any_holds W cfg s → step W l s (Running s') → any_holds W cfg s'.
Proof.
  apply (step_holds W cfg _ _ (λ _, True)); [done| |by apply Forall_true].
  intros run r t sv t' sv' _ _ _ Hs Ht. split; [done|by eapply thread_step_typed].
Qed.

Lemma run_any W cfg tr s : run W tr (new_tcp cfg) (Running s) → any_holds W cfg s.
Proof.
  intros Hrun. remember (new_tcp cfg) as s0 eqn:Hs0. remember (Running s) as o eqn:Ho. revert s Ho.
  induction Hrun as [s1|tr s0 s1 l o Hrun IH Hstep]; intros s Ho; [|subst o; eapply step_any; [by apply IH|done]].
  injection Ho as <-. subst s1. apply new_holds, new_server_typed.
Qed.




(** ** Stopping *)

Definition in_poll (t : Thread) : nat := match t_phase t with InPoll => 1 | _ => 0 end.
Definition pending (t : Thread) : nat :=
  match t_phase t with
  | Writing _ ms _ | Handling ms _ | Reporting _ ms _ => 2 * length ms
  | Locking _ ms _ => 2 * length ms + 1
  | _ => 0
  end.
Definition thread_work (t : Thread) : nat :=
  match t_phase t with
  | Polling => 1
  | Writing ws _ _ => 3 + length ws
  | Handling _ _ => 2
  | Reporting evs _ _ => 3 + length evs
  | InPoll | Locking _ _ _ | Finished => 0
  end.
Definition acceptor_work (a : Acceptor) : nat :=
  match a with InAccept _ => 4 | Spawning _ => 3 | LoopHead => 1 | _ => 0 end.
Definition stop_work (p : Stopping) : nat :=
  match p with CloseListener => 4 | JoinAcceptor => 3 | LockSessions => 2 | JoinSessions => 1 | NotStopping => 0 end.

(** What is left to do once [running_] is false: the reads of threads that are
    still inside [poll], then the messages to handle, then everything else. *)
Definition work (s : TcpServer) : nat * (nat * nat) :=
  (sum_list (in_poll <$> session_threads_ s),
   (sum_list (pending <$> session_threads_ s),
    acceptor_work (acceptor_ s) + stop_work (stopping s) + sum_list (thread_work <$> session_threads_ s)))%nat.

Definition less : nat * (nat * nat) → nat * (nat * nat) → Prop :=
  slexprod nat (nat * nat) lt (slexprod nat nat lt lt).
Lemma less_wf : well_founded less.
Proof. apply wf_slexprod; [|apply wf_slexprod]; apply lt_wf. Qed.
Lemma less_intro a b c a' b' c' :
  (a' < a ∨ a' = a ∧ (b' < b ∨ b' = b ∧ c' < c))%nat → less (a', (b', c')) (a, (b, c)).
Proof. intros [?|[-> [?|[-> ?]]]]; [by left|right; by left|right; by right]. Qed.

Lemma thread_step_less r t sv t' sv' :
  t_phase t ≠ Finished → thread_step false r t sv = Ok (t', sv') →
  (in_poll t' < in_poll t ∨ in_poll t' = in_poll t ∧
     (pending t' < pending t ∨ pending t' = pending t ∧ thread_work t' < thread_work t))%nat.
Proof.
  unfold thread_step, in_poll, pending, thread_work.
  destruct (t_phase t) as [| |[|w ws] ms dis|[|m ms] dis|m ms dis|[|ev evs] ms dis|]; try done; intros _.
  - intros [= <- _]. cbn. lia.
  - destruct (@session_read _ r (t_conn t)) as [[[[ws ms] dis] c]| | |]; try done. intros [= <- _]. cbn. lia.
  - intros [= <- _]. cbn. lia.
  - destruct (@write_all _ w (t_conn t)) as [[[] c]| | |]; try done; intros [= <- _]; cbn; lia.
  - intros [= <- _]. cbn. destruct dis; cbn; lia.
  - intros [= <- _]. cbn. lia.
  - destruct (handle_app m sv) as [[evs sv1]| | |]; try done. intros [= <- _]. cbn. lia.
  - intros [= <- _]. cbn. lia.
  - destruct (@send_report _ _ ev (t_conn t) sv) as [[[[] c] sv1]| | |]; try done; intros [= <- _]; cbn; lia.
Qed.

Lemma accept_step_less r s s' : running_ s = false → accept_step r s = Some s' → less (work s') (work s).
Proof.
  intros Hr. unfold accept_step, work. rewrite Hr. destruct (acceptor_ s) as [| |fd|p|] eqn:Ha; try done.
  - intros [= <-]. cbn. apply less_intro. lia.
  - intros [= <-]. destruct r; cbn; apply less_intro; lia.
  - destruct (stopping s) eqn:Hst; try done; intros [= <-]; cbn; rewrite Hst, !fmap_app, !sum_list_with_app; cbn;
      rewrite !Nat.add_0_r; apply less_intro; lia.
Qed.
Lemma stop_step_less s s' : stop_step s = Some s' → less (work s') (work s) ∧ (running_ s = false → running_ s' = false).
Proof.
  intros Hs. unfold stop_step in Hs. unfold work. destruct (stopping s) eqn:Hst; try done.
  - injection Hs as <-. split; [|done]. cbn. apply less_intro. lia.
  - destruct (acceptor_ s); try done; injection Hs as <-; (split; [|done]); cbn; apply less_intro; lia.
  - injection Hs as <-. split; [|done]. cbn. apply less_intro. lia.
  - destruct (forallb _ _) eqn:Hall; try done. injection Hs as <-. split; [|done]. cbn.
    rewrite (finished_sum in_poll), (finished_sum pending), (finished_sum thread_work); try done; [apply less_intro; lia|..];
      intros t; unfold finished, in_poll, pending, thread_work; by destruct (t_phase t).
Qed.

Section stopping.
Context (W : Env → Net → Prop).

(** Every step once [running_] is false leaves less to do. *)
Lemma internal_less l s s' :
  running_ s = false → internal W l s (Running s') → less (work s') (work s) ∧ running_ s' = false.
Proof.
  intros Hr Hi. inversion Hi as [r ? ? Hadm Ha|? ? Hs|i r t t' sv ? Hl Hf Hro Ht|]; subst; clear Hi.
  - split; [by eapply accept_step_less|]. apply accept_step_keeps in Ha as (_ & _ & -> & _). done.
  - destruct (stop_step_less _ _ Hs). auto.
  - rewrite Hr in Ht. split; [|done]. pose proof (sum_insert pending _ _ _ t' Hl) as H1.
    pose proof (sum_insert thread_work _ _ _ t' Hl) as H2. pose proof (sum_insert in_poll _ _ _ t' Hl) as H3.
    pose proof (thread_step_less _ _ _ _ _ Hf Ht). unfold work. cbn. apply less_intro. lia.
Qed.

Definition moves (s s' : TcpServer) : Prop := ∃ l, internal W l s (Running s').

Lemma moves_finite s : running_ s = false → Acc (flip moves) s.
Proof.
  remember (work s) as w eqn:Hw. revert s Hw. induction (less_wf w) as [w _ IH]. intros s -> Hr.
  constructor. intros s' (l & Hi). destruct (internal_less l s s' Hr Hi) as [Hless Hr']. by eapply IH.
Qed.

(** What holds while [stop] runs and when it has returned. *)
Definition stop_inv (s : TcpServer) : Prop :=
  running_ s = false ∧
  (stopping s ≠ CloseListener → listen_fd_ s = -1) ∧
  (stopping s ≠ CloseListener → stopping s ≠ JoinAcceptor → acceptor_ s = NoThread) ∧
  (stopping s = NotStopping → session_threads_ s = []).

Lemma stop_call_inv s : running_ s = true → stop_inv (stop_call s).
Proof. intros Hr. unfold stop_call. rewrite Hr. by split. Qed.

Lemma stop_inv_moves s s' : stop_inv s → moves s s' → stop_inv s'.
Proof.
  intros (Hr & Hfd & Hacc & Hth) (l & Hi). pose proof (internal_less _ _ _ Hr Hi) as [_ Hr'].
  inversion Hi as [r ? ? Hadm Ha|? ? Hs|i r t t' sv ? Hl Hf Hro Ht|]; subst; clear Hi; (split; [done|]).
  - assert (stopping s = CloseListener ∨ stopping s = JoinAcceptor) as Hst.
    { unfold accept_step in Ha. destruct (stopping s); auto; rewrite Hacc in Ha by done; done. }
    apply accept_step_keeps in Ha as (_ & _ & _ & -> & -> & _). split; [done|]. destruct Hst as [-> | ->]; done.
  - unfold stop_step in Hs. destruct (stopping s) eqn:Est; try done.
    + injection Hs as <-. done.
    + destruct (acceptor_ s); try done; injection Hs as <-; cbn; split_and!; try done; by intros _; apply Hfd.
    + injection Hs as <-. cbn. split_and!; try done; intros; [by apply Hfd|by apply Hacc].
    + destruct (forallb _ _); try done. injection Hs as <-. cbn. split_and!; try done; intros; [by apply Hfd|by apply Hacc].
  - cbn. split; [done|]. split; [done|]. intros Hst. specialize (Hth Hst). by rewrite Hth in Hl.
Qed.

Lemma rtc_stop_inv s s' : stop_inv s → rtc moves s s' → stop_inv s'.
Proof. intros Hs. induction 1; eauto using stop_inv_moves. Qed.
Lemma rtc_any cfg s s' : any_holds W cfg s → rtc moves s s' → any_holds W cfg s'.
Proof. intros Hs. induction 1 as [|s s1 s' (l & Hi) _ IH]; [done|]. apply IH. eapply step_any; [done|by eapply step_internal]. Qed.

End stopping.

(** ** Clients that do not read *)

(** Inside a call of [send] that never returns. *)
Definition unread (t : Thread) : Prop :=
  match t_phase t with Writing (_ :: _) _ _ | Reporting (_ :: _) _ _ => True | _ => False end ∧
  (∀ run r sv, thread_step run r t sv = Hang) ∧ ∃ n b, @net_send (t_net t) (conn_fd (t_conn t)) n b = Blocks.

Lemma send_loop_hang `{Net} fuel : ∀ p c,
  (length p ≤ fuel)%nat → send_loop fuel p c = Hang → ∃ n b, net_send (conn_fd c) n b = Blocks.
Proof.
  induction fuel as [|fuel IH]; intros [|a p] c Hl; cbn [send_loop]; try done; [cbn in Hl; lia|].
  set (q := a :: p) in *. destruct (net_send (conn_fd c) (sends c) q) as [w| |] eqn:Hn; [|by eauto|done].
  destruct (Z.leb_spec w 0); [done|]. destruct (Z.gtb_spec w (zlen q)); [done|]. intros He.
  apply (IH (drop (Z.to_nat w) q) (transmit (take (Z.to_nat w) q) c)); [|done].
  rewrite length_drop. lia.
Qed.
Lemma write_all_hang `{Net} w c : write_all w c = Hang → ∃ n b, net_send (conn_fd c) n b = Blocks.
Proof. by apply send_loop_hang. Qed.

Lemma send_report_hang `{Env} `{Net} ev c sv :
  send_report ev c sv = Hang → (∀ sv', send_report ev c sv' = Hang) ∧ ∃ n b, net_send (conn_fd c) n b = Blocks.
Proof.
  unfold send_report. destruct (report_body ev) as [body|]; [|done].
  destruct (send_execution_report body (sess c)) as [w s].
  destruct (write_all w (set_sess s c)) as [[[] c1]| | |] eqn:Hw; try done. intros _. split; [done|].
  by apply write_all_hang in Hw.
Qed.

(** A thread that does not go on once [running_] is false is inside [send]. *)
Lemma thread_step_hang now t sv :
  server_typed any_clord sv → thread_step false (Idle now) t sv = Hang → unread t.
Proof.
  intros Hs. unfold unread, thread_step.
  destruct (t_phase t) as [| |[|w ws] ms dis|[|m ms] dis|m ms dis|[|ev evs] ms dis|]; try done.
  - cbn [session_read]. by destruct (@tick _ now (sess (t_conn t))).
  - destruct (@write_all _ w (t_conn t)) as [[[] c]| | |] eqn:Hw; try done. intros _. split; [done|]. split; [done|].
    exact (@write_all_hang _ _ _ Hw).
  - pose proof (handle_app_typed any_clord m sv Hs) as Hp. destruct (handle_app m sv) as [[evs sv1]| | |]; try done.
    by destruct Hp.
  - destruct (@send_report _ _ ev (t_conn t) sv) as [[[b c] sv1]| | |] eqn:Hr; try done. intros _.
    destruct (@send_report_hang _ _ _ _ _ Hr) as [Hall Hb]. split; [done|]. split; [|done]. intros _ _ sv'. by rewrite Hall.
Qed.

Lemma unread_writing t w ws ms dis :
  t_phase t = Writing (w :: ws) ms dis → @write_all (t_net t) w (t_conn t) = Hang → unread t.
Proof.
  intros Hp Hw. unfold unread, thread_step. rewrite Hp. split; [done|]. rewrite Hw. split; [done|]. exact (@write_all_hang _ _ _ Hw).
Qed.

Lemma prompt_internal W s o : prompt s o → ∃ l, internal W l s o.
Proof.
  intros [s1 s2 _ Ha|s1 s2 Hs|i now t t' sv s1 Hl Hf Ht|i now t s1 Hl Hf Hd].
  - exists []. by apply (int_accept W AcceptFailed).
  - exists []. by apply int_stop.
  - exists (locked t). by apply (int_thread W i (Idle now)).
  - exists (locked t). by apply (int_dies W i (Idle now)).
Qed.

Lemma unfinished ts : forallb finished ts = false → ∃ i t, ts !! i = Some t ∧ t_phase t ≠ Finished.
Proof.
  induction ts as [|t ts IH]; [done|]. cbn. destruct (finished t) eqn:Ef; cbn.
  - intros (i & t1 & Hi & Hf)%IH. by exists (S i), t1.
  - intros _. exists 0%nat, t. split; [done|]. intros Hp. unfold finished in Ef. by rewrite Hp in Ef.
Qed.

(** Some thread, or [stop] itself, can go on, but for clients that do not read. *)
Lemma stop_progress s :
  stop_inv s → server_typed any_clord (shared s) → stopping s ≠ NotStopping →
  (∃ o, prompt s o) ∨ ∃ t, t ∈ session_threads_ s ∧ unread t.
Proof.
  intros (Hr & Hfd & Hacc & Hth) Hsv Hst. destruct (stopping s) eqn:Est; try done.
  - left. eexists. apply prompt_stop. unfold stop_step. by rewrite Est.
  - left. assert (listen_fd_ s < 0) by (rewrite Hfd; [lia|done]).
    assert (∃ s', accept_step AcceptFailed s = Some s' ∨ stop_step s = Some s') as (s' & [Ha|Hs]).
    { unfold accept_step, stop_step. rewrite Est. destruct (acceptor_ s); by eauto. }
    + eexists. by eapply prompt_accept.
    + eexists. by apply prompt_stop.
  - left. eexists. apply prompt_stop. unfold stop_step. by rewrite Est.
  - destruct (forallb finished (session_threads_ s)) eqn:Hall.
    { left. eexists. apply prompt_stop. unfold stop_step. by rewrite Est, Hall. }
    apply unfinished in Hall as (i & t & Hi & Hf).
    destruct (thread_step false (Idle 0) t (shared s)) as [[t' sv]|e| |] eqn:He.
    + left. eexists. eapply (prompt_thread i 0); [done..|]. by rewrite Hr.
    + left. eexists. eapply (prompt_dies i 0); [done..|]. by rewrite Hr, He.
    + left. eexists. eapply (prompt_dies i 0); [done..|]. by rewrite Hr, He.
    + right. exists t. split; [by eapply list_elem_of_lookup_2|]. by eapply thread_step_hang.
Qed.

(** C21: [stop] ends and joins everything, unless a client does not read. Once
    it has been called on a running server, in whatever state its threads are:
    no schedule of the threads goes on forever; as long as [stop] has not
    returned, some step is possible that needs nothing from outside (a poll that
    times out, the [accept] that the shutdown of its socket ends, a lock that is
    free, a join whose thread has ended), or a session thread is inside a call
    of [send] that blocks because its client does not read; and when [stop] has
    returned the listening socket is closed, the acceptor has been joined and
    no session thread is left. *)
Theorem stop_terminates W cfg tr s :
  run W tr (new_tcp cfg) (Running s) → running_ s = true →
  Acc (flip (moves W)) (stop_call s) ∧
  ∀ s', rtc (moves W) (stop_call s) s' →
    (stopping s' ≠ NotStopping →
       (∃ l o, internal W l s' o ∧ prompt s' o) ∨ ∃ t, t ∈ session_threads_ s' ∧ unread t) ∧
    (stopping s' = NotStopping → running_ s' = false ∧ listen_fd_ s' = -1 ∧ acceptor_ s' = NoThread ∧
       session_threads_ s' = []).
Proof.
  intros Hrun Hr. pose proof (stop_call_inv s Hr) as Hs0. split; [by apply moves_finite; destruct Hs0|]. intros s' Hrtc.
  assert (any_holds W cfg (stop_call s)) as Ha.
  { destruct (run_any _ _ _ _ Hrun) as [H1 H2 _ H4]. destruct (stop_call_keeps s) as (E1 & E2 & _ & E4).
    split; [congruence|by rewrite E1|by apply Forall_true|by rewrite E4]. }
  pose proof (rtc_stop_inv W _ _ Hs0 Hrtc) as Hs'. pose proof (h_shared _ _ _ _ _ (rtc_any W cfg _ _ Ha Hrtc)) as Hsv. split.
  - intros Hst. destruct (stop_progress s' Hs' Hsv Hst) as [(o & Ho)|Hu]; [left|by right].
    destruct (prompt_internal W _ _ Ho) as (l & Hl). eauto.
  - destruct Hs' as (? & Hfd & Hacc & Hth). intros Hst. rewrite Hst in *. split_and!; auto.
Qed.

Lemma stop_terminates_witness :
  Acc (flip (moves ex_world)) (stop_call ex_played.2) ∧
  ∀ s', rtc (moves ex_world) (stop_call ex_played.2) s' →
    (stopping s' ≠ NotStopping →
       (∃ l o, internal ex_world l s' o ∧ prompt s' o) ∨ ∃ t, t ∈ session_threads_ s' ∧ unread t) ∧
    (stopping s' = NotStopping → running_ s' = false ∧ listen_fd_ s' = -1 ∧ acceptor_ s' = NoThread ∧
       session_threads_ s' = []).
Proof. apply (stop_terminates ex_world default_config ex_played.1); [exact ex_played_run|vm_compute; reflexivity]. Defined.

(** ** A client that does not read *)

Lemma unread_stays W i t s s' :
  session_threads_ s !! i = Some t → unread t → moves W s s' →
  session_threads_ s' !! i = Some t ∧ (stopping s ≠ NotStopping → stopping s' ≠ NotStopping).
Proof.
  intros Hi (Hph & Hhang & _) (l & Hint). inversion Hint as [r ? ? Hadm Ha|? ? Hs|j r t1 t' sv ? Hl Hf Hro Ht|]; subst; clear Hint.
  - apply accept_step_keeps in Ha as (_ & _ & _ & _ & -> & [[-> _]|(p & _ & _ & ->)]); [done|]. split; [|done].
    by apply lookup_app_l_Some.
  - unfold stop_step in Hs. destruct (stopping s); try done.
    + by injection Hs as <-.
    + destruct (acceptor_ s); try done; by injection Hs as <-.
    + by injection Hs as <-.
    + destruct (forallb _ _) eqn:Hall; [|done]. rewrite forallb_forall in Hall.
      assert (finished t = true) as Hfin by (apply Hall; by eapply list_elem_of_In, list_elem_of_lookup_2).
      unfold finished in Hfin. by destruct (t_phase t).
  - split; [|done]. cbn. destruct (decide (i = j)) as [->|Hne]; [|by rewrite list_lookup_insert_ne].
    assert (t1 = t) as -> by congruence. by rewrite Hhang in Ht.
Qed.

(** C32: one client that does not read keeps [stop] from returning. If a session
    thread is inside a call of [send] that blocks while [stop] runs, then
    whatever the other threads and clients do, the thread stays there and [stop]
    does not return. *)
Theorem stop_waits_for_reader W i t s :
  session_threads_ s !! i = Some t → unread t → stopping s ≠ NotStopping →
  ∀ s', rtc (moves W) s s' → session_threads_ s' !! i = Some t ∧ stopping s' ≠ NotStopping.
Proof.
  intros Hi Hu Hst s' Hr. induction Hr as [s|s s1 s' Hm Hr IH]; [done|].
  destruct (unread_stays W i t s s1 Hi Hu Hm) as [Hi1 Hst1]. auto.
Qed.

(** A client sends its Logon and never reads the answer; then [stop] is called. *)
Definition deaf_net : Net := mkNet (λ _ _ _, Blocks).
Definition deaf_schedule : list Action :=
  [AStart (Listening 3 9876); AAccept AcceptFailed; AAccept (Connected (mkPeer ex_env deaf_net 7)); AAccept AcceptFailed] ++
  reads 0 (ex_client "A" 1 []) ++ [AStop].
Definition deaf_played : list Message * TcpServer := played default_config deaf_schedule.
Definition deaf_thread : Thread :=
  default (new_thread default_config (mkPeer ex_env deaf_net 7)) (session_threads_ deaf_played.2 !! 0%nat).

Lemma some_default {A} (d : A) (x : option A) : (if x then true else false) = true → x = Some (default d x).
Proof. by destruct x. Qed.
Lemma deaf_unread : unread deaf_thread.
Proof.
  pose proof (some_default ([] : bytes) (match t_phase deaf_thread with Writing (w :: _) _ _ => Some w | _ => None end)
    ltac:(vm_compute; reflexivity)) as Hw.
  destruct (t_phase deaf_thread) as [| |[|w ws] ms dis| | | |] eqn:Hp; try discriminate Hw.
  eapply unread_writing; [exact Hp|].
  assert (t_net deaf_thread = deaf_net) as -> by (vm_compute; reflexivity).
  destruct w; [|reflexivity]. revert Hp. vm_compute. discriminate.
Qed.

Lemma stop_waits_for_reader_witness :
  stopping deaf_played.2 = CloseListener ∧
  ∀ s', rtc (moves (λ _ _, True)) deaf_played.2 s' →
    session_threads_ s' !! 0%nat = Some deaf_thread ∧ stopping s' ≠ NotStopping.
Proof.
  split; [vm_compute; reflexivity|].
  apply (stop_waits_for_reader (λ _ _, True) 0 deaf_thread deaf_played.2).
  - apply some_default. vm_compute. reflexivity.
  - exact deaf_unread.
  - vm_compute. discriminate.
Defined.

(** A client that has gone is worse: the flags of [send] are 0 and nothing
    handles SIGPIPE, so that the first write to it ends the process. *)
Lemma gone_client_kills W i t s w ws ms dis :
  session_threads_ s !! i = Some t → t_phase t = Writing (w :: ws) ms dis → w ≠ [] →
  @net_send (t_net t) (conn_fd (t_conn t)) (sends (t_conn t)) w = Sigpipe →
  internal W [] s (Died (Writing (w :: ws) ms dis)).
Proof.
  intros Hi Hp Hw Hn. rewrite <- Hp. replace [] with (locked t) by (unfold locked; by rewrite Hp).
  apply (int_dies W i Interrupted); [done|by rewrite Hp|done|]. unfold thread_step. rewrite Hp. unfold write_all.
  destruct w as [|a w]; [done|]. cbn [send_loop length]. by rewrite Hn.
Qed.
