(* ===== verification/Connections.v ===== *)
(** * Every connection of a running server

    The invariant of a session, with its outbound ring, was proved over calls
    of the session's interface. Here it is carried through the server: in every
    state the threads can reach, each connection's session satisfies it, and
    whatever waits to be handled or reported is free of the separator, so that
    every report that will be written is a well-formed message. *)

From S2P Require Import Prelude Types PriceLevel SortedMap OrderBook Matcher Text Messages Serializer Parser ParserProps CodecProps CodecTheorems Session SessionProps Resend SessionTheorems Server ServerTheorems Reports Threads Stored ThreadTheorems.

Definition clean_clord (c : ClOrdID) : Prop := kSohWire ∉ c.

Lemma wire_plain : plain_separator kSohWire.
Proof. by left. Qed.

Lemma clean_clords m : clean kSohWire m → clords_ok clean_clord m.
Proof.
  intros Hm. assert (∀ t, kSohWire ∉ value_or [] t m) as Hv; [|split; apply Hv].
  intros t. unfold value_or. destruct (get t m) eqn:Hg; cbn [default]; [by eapply clean_get|apply not_elem_of_nil].
Qed.

(** An event made of clean identifiers has a well-formed report. *)
Lemma event_body ev body :
  event_typed clean_clord ev → report_body ev = Some body → app_body kSohWire mt_ExecutionReport body.
Proof.
  assert (∀ ev, reportable kSohWire ev → report_body ev = Some body → app_body kSohWire mt_ExecutionReport body) as Hr.
  { intros e (b & Hb & Hok). rewrite Hb. by intros [= <-]. }
  pose proof wire_plain as Hp.
  destruct ev as [t|a|r|c|r]; cbn [event_typed]; intros He; [| | | |done]; apply Hr.
  - apply trade_reportable; [done|apply He].
  - apply ack_reportable; [done|apply He].
  - destruct He as [Hc Hreason]. destruct r as [c reason]. cbn [r_clord r_reason] in *. subst reason.
    eexists. split; [reflexivity|]. cbn [r_clord r_reason]. apply app_body_of; [done| |by vm_compute].
    repeat (apply Forall_cons_2; cbn [snd]; [first [exact Hc|literal]|]). apply Forall_nil_2.
  - destruct He as [Hc Ho]. eexists. split; [reflexivity|]. apply app_body_of; [done| |by vm_compute].
    repeat (apply Forall_cons_2; cbn [snd]; [first [exact Hc|exact Ho|literal]|]). apply Forall_nil_2.
Qed.

Section connections.
Context `{Env} `{Net}.

(** ** Messages for the application *)

Lemma handle_message_app m s st s' : handle_message m s = Ok (st, s') → app st = [] ∨ app st = [m].
Proof.
  unfold handle_message. destruct (seq m) as [sq| | |]; try done. cbn [rbind]. destruct (bool_decide _).
  { destruct (negb _); [intros [= <- _]; by left|]. unfold handle_logon, steady_now.
    destruct (match get tag_TargetCompID m with Some _ => _ | None => _ end); [intros [= <- _]; by left|].
    destruct (build_message _ _). intros [= <- _]. by left. }
  destruct (_ >? _); [destruct (build_resend_request _ _); intros [= <- _]; by left|].
  destruct (_ && _); [destruct (send_logout _ _); intros [= <- _]; by left|].
  intros [_ [[Ha _]|[Ha _]]]%dispatch_apps; auto.
Qed.

Lemma receive_apps fuel : ∀ total s st s',
  Separator (soh_ s) → zlen (in_buf_ s) < two64 - 7 → Forall (clean (soh_ s)) (app total) →
  receive fuel total s = Ok (st, s') → Forall (clean (soh_ s)) (app st).
Proof.
  induction fuel as [|fuel IH]; intros total s st s' Hsep Hl Ht He;
    (destruct (decide (in_buf_ s = [])) as [Hn|Hn]; [rewrite receive_nil in He by done; by injection He as <- <-|]).
  { cbn [receive] in He. by destruct (in_buf_ s). }
  rewrite receive_S in He by done. destruct (parse_one (soh_ s) (in_buf_ s)) as [pr| | |] eqn:Hp; try done. cbn [rbind] in He.
  destruct (err pr) eqn:Herr; try (destruct (send_logout _ s) as [w s1]; by injection He as <- <-); [|by injection He as <- <-].
  destruct (handle_message (msg pr) (accept pr s)) as [[st1 s1]| | |] eqn:Hm; try done. cbn [rbind] in He.
  destruct (accept_handled _ _ _ _ Hsep Hl Hp Herr Hm) as (_ & Hlen & (Hsoh & _)).
  assert (Forall (clean (soh_ s)) (app (add_step total st1))) as Ht'.
  { cbn [app add_step]. apply Forall_app. split; [done|].
    destruct (handle_message_app _ _ _ _ Hm) as [-> | ->]; [by apply Forall_nil_2|]. apply Forall_singleton. by eapply parsed_clean. }
  destruct (disconnect st1); [by injection He as <- <-|].
  rewrite <- Hsoh. eapply IH; [by rewrite Hsoh|unfold zlen in *; lia|by rewrite Hsoh|exact He].
Qed.

(** ** One connection *)

Definition conn_ok (c : Conn) : Prop := soh_ (sess c) = kSohWire ∧ sess_ok (sess c).

(** Room for another read and what it makes the session send. *)
Definition conn_fits (c : Conn) : Prop := out_seq_ (sess c) + zlen (in_buf_ (sess c)) + 8200 < two64.

#[local] Notation server_clean := (server_typed clean_clord).

Lemma write_all_conn b c : post True (λ r, sess r.2 = sess c) (write_all b c).
Proof.
  unfold write_all. generalize (length b). intros fuel. revert b c.
  induction fuel as [|fuel IH]; intros [|x b] c; cbn [send_loop]; try done.
  destruct (net_send _ _ _) as [w| |]; [|done|done]. destruct (_ <=? 0); [done|]. destruct (_ >? _); [done|].
  set (c1 := transmit _ c). change (sess c) with (sess c1). apply IH.
Qed.

Lemma tick_conn t s : EnvLaws (soh_ s) → sess_ok s → out_seq_ s + 1 < two64 → sess_ok (tick t s).2 ∧ soh_ (tick t s).2 = soh_ s.
Proof. intros Henv Hs Hlt. apply (api_step_ok s); [done|done|by apply api_tick]. Qed.

Lemma on_bytes_conn data s st s' :
  EnvLaws (soh_ s) → sess_ok s → zlen data ≤ 8192 → out_seq_ s + zlen (in_buf_ s) + 8200 < two64 →
  on_bytes data s = Ok (st, s') →
  sess_ok s' ∧ soh_ s' = soh_ s ∧ out_seq_ s' + 1 < two64 ∧ Forall (clean (soh_ s)) (app st).
Proof.
  intros Henv Hs Hd Hfit He. pose proof (so_seq _ Hs). unfold on_bytes in He.
  pose proof (receive_setup _ _ _ _ _ He) as (Hsoh & _). set (s0 := set_in_buf _ s) in *.
  assert (zlen (in_buf_ s0) = zlen (in_buf_ s) + zlen data) as Hl by apply zlen_app.
  change (out_seq_ s) with (out_seq_ s0) in *.
  pose proof (receive_apps _ no_step s0 _ _ (plain_separator_ok _ (so_sep _ Hs)) ltac:(lia) (Forall_nil_2 _) He) as Happ.
  apply receive_ok in He as [Hok Hle]; [|done|by apply (sess_ok_same s)|lia|lia].
  pose proof (zlen_nonneg (in_buf_ s')). split; [done|]. split; [done|]. split; [lia|done].
Qed.

Lemma session_read_conn r c :
  EnvLaws kSohWire → ready_ok r → conn_ok c → conn_fits c →
  post True (λ x, Forall (clean kSohWire) x.1.1.2 ∧ conn_ok x.2) (session_read r c).
Proof.
  intros Henv Hr [Hsoh Hok] Hfit. unfold conn_fits in Hfit. rewrite <- Hsoh in Henv.
  pose proof (zlen_nonneg (in_buf_ (sess c))). pose proof (so_seq _ Hok).
  destruct r as [| |t| |data t]; cbn [session_read]; try (by split; [apply Forall_nil_2|]).
  - destruct (tick_conn t (sess c) Henv Hok ltac:(lia)) as [Hok1 Hsoh1]. destruct (tick t (sess c)) as [st s1].
    split; [by apply Forall_nil_2|]. split; [|done]. cbn in *. congruence.
  - destruct (on_bytes data (sess c)) as [[st s1]| | |] eqn:Hb; try done. cbn [rbind].
    destruct (on_bytes_conn _ _ _ _ Henv Hok ltac:(apply Hr) Hfit Hb) as (Hok1 & Hsoh1 & Hlt & Happ).
    destruct (tick_conn t s1) as [Hok2 Hsoh2]; [by rewrite Hsoh1|done|done|]. destruct (tick t s1) as [tst s2].
    split; [by rewrite <- Hsoh|]. split; [|done]. cbn in *. congruence.
Qed.

Lemma send_report_conn ev c sv :
  EnvLaws kSohWire → conn_ok c → conn_fits c → server_clean sv → event_typed clean_clord ev →
  post True (λ x, conn_ok x.1.2 ∧ server_clean x.2) (send_report ev c sv).
Proof.
  intros Henv [Hsoh Hok] Hfit Hsv Hev. unfold send_report. destruct (report_body ev) as [body|] eqn:Hb; [|done].
  apply (event_body _ _ Hev) in Hb. unfold conn_fits in Hfit. pose proof (zlen_nonneg (in_buf_ (sess c))).
  destruct (api_step_ok (sess c) (send_execution_report body (sess c)).2) as [Hok1 Hsoh1];
    [by rewrite Hsoh|done|by apply api_report; [lia|rewrite Hsoh]|].
  destruct (send_execution_report body (sess c)) as [w s1]. cbn [snd] in *.
  eapply post_bind; [apply write_all_conn|]. intros [[] c1] Hc1; cbn [fst snd sess set_sess] in *.
  - split; [|by apply count_out_typed]. split; cbn [fst snd]; rewrite Hc1; [congruence|done].
  - split; [|done]. split; cbn [fst snd]; rewrite Hc1; [congruence|done].
Qed.

End connections.

#[local] Notation server_clean := (server_typed clean_clord).

(** ** Threads *)

Definition thread_ok (t : Thread) : Prop :=
  @EnvLaws (t_env t) kSohWire ∧ conn_ok (t_conn t) ∧
  match t_phase t with
  | Writing _ ms _ | Handling ms _ => Forall (clean kSohWire) ms
  | Locking m ms _ => Forall (clean kSohWire) (m :: ms)
  | Reporting evs ms _ => Forall (event_typed clean_clord) evs ∧ Forall (clean kSohWire) ms
  | _ => True
  end.

Lemma thread_step_ok run r t sv :
  ready_ok r → thread_ok t → conn_fits (t_conn t) → server_clean sv →
  post True (λ x, thread_ok x.1 ∧ server_clean x.2) (thread_step run r t sv).
Proof.
  intros Hr (Henv & Hc & Ht) Hfit Hs. unfold thread_step.
  destruct (t_phase t) as [| |[|w ws] ms dis|[|m ms] dis|m ms dis|[|ev evs] ms dis|] eqn:Hp.
  - split; [|done]. split; [done|]. split; [done|]. by destruct run.
  - eapply post_bind; [by apply (@session_read_conn (t_env t))|].
    by intros [[[ws ms] d] c1] [? ?].
  - by split.
  - eapply post_bind; [apply (@write_all_conn (t_net t))|]. intros [b c1] Hc1. cbn [snd] in Hc1.
    assert (conn_ok c1) as Hok by (unfold conn_ok; by rewrite Hc1). destruct b; (split; [done|]); [by apply count_out_typed|done].
  - split; [|done]. split; [done|]. split; [done|]. by destruct dis.
  - split; [done|]. by apply count_in_typed.
  - apply Forall_cons in Ht as [Hm Hms].
    pose proof (handle_app_typed clean_clord m sv Hs (clean_clords m Hm)) as Hpost.
    destruct (handle_app m sv) as [[evs sv1]| | |]; try done. by destruct Hpost.
  - by destruct Ht.
  - destruct Ht as [[Hev Hevs]%Forall_cons Hms]. eapply post_bind; [by apply (@send_report_conn (t_env t) (t_net t))|].
    intros [[[] c1] sv1] [? ?]; by split.
  - split; [|done]. split; [done|]. split; [done|]. cbn. by rewrite Hp.
Qed.

(** ** The process *)

Definition config_ok (cfg : ServerConfig) : Prop :=
  kSohWire ∉ sc_sender_comp_id cfg ∧ in_u64 (sc_heartbeat_secs cfg).

(** Clients whose clocks print times without the separator. *)
Definition plain_clocks (e : Env) (n : Net) : Prop := @EnvLaws e kSohWire.

(** The configuration, the shared state and every thread in order. *)
Notation tcp_ok W cfg := (holds W cfg (server_typed clean_clord) thread_ok).
Definition tcp_fits (s : TcpServer) : Prop := Forall (λ t, conn_fits (t_conn t)) (session_threads_ s).

(** Runs in which no buffer and no counter comes near 2^64. *)
Inductive fit_run (W : Env → Net → Prop) : list Message → TcpServer → Outcome → Prop :=
| fit_refl s : fit_run W [] s (Running s)
| fit_step tr s s1 l o : fit_run W tr s (Running s1) → tcp_fits s1 → step W l s1 o → fit_run W (tr ++ l) s o.

Lemma new_conn_ok cfg fd : config_ok cfg → conn_ok (new_conn cfg fd).
Proof.
  intros [Hme Hhb]. split; [done|]. apply new_session_ok; [by left|done|apply not_elem_of_nil|done|done].
Qed.

Lemma step_ok cfg l s s' :
  config_ok cfg → tcp_ok plain_clocks cfg s → tcp_fits s → step plain_clocks l s (Running s') → tcp_ok plain_clocks cfg s'.
Proof.
  intros Hcfg Hok Hfit. apply (step_holds _ _ _ _ (λ t, conn_fits (t_conn t))); [| |done|done].
  - intros p Hp. split; [done|]. split; [by apply new_conn_ok|done].
  - intros run r t sv t' sv' Hr Ht Hf Hs He. pose proof (thread_step_ok run r t sv Hr Ht Hf Hs) as Hpost. by rewrite He in Hpost.
Qed.

(** C31: every connection stays in order. In every state the server's threads
    can reach, whatever the clients send and however the threads interleave, as
    long as no buffer and no sequence number comes near 2^64 and the clocks print
    times without the separator: each session satisfies its invariant
    (identities free of the separator, the ring holding exactly the last messages
    sent, numbered consecutively up to the counter, each a serialized message
    with its own number); the messages waiting for the book lock and the
    identifiers of all resting orders and pending events are free of the
    separator, so that no client can break the framing of another client's
    reports. *)
Theorem connections_in_order cfg tr s :
  config_ok cfg → fit_run plain_clocks tr (new_tcp cfg) (Running s) → tcp_ok plain_clocks cfg s.
Proof.
  intros Hcfg Hrun. remember (new_tcp cfg) as s0 eqn:Hs0. remember (Running s) as o eqn:Ho. revert s Ho.
  induction Hrun as [s1|tr s0 s1 l o Hrun IH Hfit Hstep]; intros s Ho; [|subst o; eapply step_ok; [done|by apply IH|done|done]].
  injection Ho as <-. subst s1. apply new_holds, new_server_typed.
Qed.

(** ** A concrete run *)

#[global] Instance conn_fits_dec c : Decision (conn_fits c).
Proof. unfold conn_fits. apply _. Defined.
#[global] Instance tcp_fits_dec s : Decision (tcp_fits s).
Proof. unfold tcp_fits. apply _. Defined.

Fixpoint fits_along (acts : list Action) (s : TcpServer) : bool :=
  match acts with
  | [] => true
  | a :: acts => bool_decide (tcp_fits s) && match play_step a s with Some (_, s) => fits_along acts s | None => false end
  end.

Lemma play_fit W acts : ∀ tr s0 s,
  Forall (action_ok W) acts → fit_run W tr s0 (Running s) → fits_along acts s = true →
  ∃ x, play acts tr s = Some x ∧ fit_run W x.1 s0 (Running x.2).
Proof.
  induction acts as [|a acts IH]; intros tr s0 s Hok Hrun; cbn [play fits_along]; [by exists (tr, s)|].
  apply Forall_cons in Hok as [Ha Hok]. intros [Hf%bool_decide_eq_true Hfs]%andb_true_iff.
  destruct (play_step a s) as [[l s1]|] eqn:Hs; [|done]. cbn [mbind option_bind].
  apply IH; [done| |done]. eapply fit_step; [exact Hrun|done|by eapply play_step_sound].
Qed.

Lemma played_fit W cfg acts :
  Forall (action_ok W) acts → fits_along acts (new_tcp cfg) = true →
  fit_run W (played cfg acts).1 (new_tcp cfg) (Running (played cfg acts).2).
Proof.
  intros Hok Hf. destruct (play_fit W acts [] (new_tcp cfg) (new_tcp cfg) Hok (fit_refl _ _) Hf) as (x & Hx & Hr).
  unfold played. by rewrite Hx.
Qed.

Lemma connections_in_order_witness :
  length (session_threads_ ex_played.2) = 2%nat ∧ tcp_ok plain_clocks default_config ex_played.2.
Proof.
  split; [vm_compute; reflexivity|].
  apply (connections_in_order default_config ex_played.1); [split; decided|]. apply played_fit; [|vm_compute; reflexivity].
  assert (∀ fd, admits plain_clocks (ex_peer fd)) as Hp by (intros fd; apply ex_env_plain; by left).
  unfold ex_schedule, ex_logons; cbn [turns reads replicate Datatypes.app].
  repeat (apply Forall_cons_2; [first [exact (Hp _)|exact Logic.I]|]); apply Forall_nil_2.
Defined.
