(* ===== verification/Turns.v ===== *)
(** * A connection in the process

    [Server] and [Conversation] give a connection as a function: a turn of its
    loop, and the loop. [Threads] gives the same code as steps that interleave
    with other threads. This file relates the two: what [session_loop] computes
    is a run of the process, in which the acceptor has taken the client and its
    thread makes its steps. *)

From S2P Require Import Prelude Types OrderBook Matcher Text Messages Serializer Parser Session Server Reports Conversation Pieces Threads.

Section turns.
Context (W : Env → Net → Prop) {E : Env} {N : Net}.

(** ** Runs of the process *)

Definition reaches (s s' : TcpServer) : Prop := ∃ tr, run W tr s (Running s').

Lemma run_app tr tr' s s1 o : run W tr s (Running s1) → run W tr' s1 o → run W (tr ++ tr') s o.
Proof.
  intros H1 H2. remember s1 as s1' eqn:He. rewrite He in H1. revert He.
  induction H2 as [s2|tr' s2 s3 l o H2 IH Hst]; intros ->; [by rewrite app_nil_r|].
  rewrite app_assoc. econstructor; [by apply IH|done].
Qed.

#[global] Instance reaches_preorder : PreOrder reaches.
Proof.
  split; [intros s; exists []; constructor|]. intros s1 s2 s3 [tr H1] [tr' H2]. exists (tr ++ tr'). by eapply run_app.
Qed.
Lemma reaches_step l s s' : step W l s (Running s') → reaches s s'.
Proof. intros Hs. exists ([] ++ l). econstructor; [constructor|done]. Qed.

(** ** One turn *)

(** Thread [i] is at [p] with the connection [c] and the shared state [sv]. *)
Definition at_phase (i : nat) (c : Conn) (p : Phase) (sv : Server) (s : TcpServer) : Prop :=
  running_ s = true ∧ session_threads_ s !! i = Some (mkThread E N c p) ∧ shared s = sv.
(** The process with that thread and the shared state replaced. *)
Definition put_phase (i : nat) (c : Conn) (p : Phase) (sv : Server) (s : TcpServer) : TcpServer :=
  put i (mkThread E N c p) sv s.

Lemma put_put i c p sv c' p' sv' s : put_phase i c' p' sv' (put_phase i c p sv s) = put_phase i c' p' sv' s.
Proof. unfold put_phase, put, set_shared, set_threads. cbn. by rewrite list_insert_insert_eq. Qed.
Lemma put_same i c p sv s : at_phase i c p sv s → put_phase i c p sv s = s.
Proof. intros (_ & Hi & <-). unfold put_phase, put. rewrite list_insert_id by done. by destruct s. Qed.
Lemma put_at i c p sv c' p' sv' s : at_phase i c p sv s → at_phase i c' p' sv' (put_phase i c' p' sv' s).
Proof. intros (Hr & Hi & _). split; [done|]. split; [|done]. cbn. apply list_lookup_insert_eq. by eapply lookup_lt_Some. Qed.

(** One step of the thread and then more. *)
Lemma reaches_then i r c p sv c1 p1 sv1 c2 p2 sv2 s :
  at_phase i c p sv s → p ≠ Finished → ready_ok r →
  thread_step true r (mkThread E N c p) sv = Ok (mkThread E N c1 p1, sv1) →
  (∀ s1, at_phase i c1 p1 sv1 s1 → reaches s1 (put_phase i c2 p2 sv2 s1)) → reaches s (put_phase i c2 p2 sv2 s).
Proof.
  intros Hat Hp Hk Ht Hrest. transitivity (put_phase i c1 p1 sv1 s).
  - destruct Hat as (Hr & Hi & <-). eapply reaches_step, step_internal, int_thread; [exact Hi|done|exact Hk|]. by rewrite Hr.
  - rewrite <- (put_put i c1 p1 sv1 c2 p2 sv2 s). apply Hrest. by eapply put_at.
Qed.

Lemma write_reaches i ws ms dis : ∀ c sv failed c' sv' s,
  at_phase i c (Writing ws ms dis) sv s → write_out ws c sv = Ok (failed, c', sv') →
  reaches s (put_phase i c' (Handling ms (dis || failed)) sv' s).
Proof.
  induction ws as [|w ws IH]; intros c sv failed c' sv' s Hat; cbn [write_out].
  { intros [= <- <- <-]. rewrite orb_false_r.
    eapply (reaches_then i Interrupted c _ sv c (Handling ms dis) sv); [done..|]. intros s1 H1. by rewrite put_same. }
  destruct (write_all w c) as [[[] c1]| | |] eqn:Hw; try done; cbn [rbind].
  - intros He. eapply (reaches_then i Interrupted c _ sv c1 (Writing ws ms dis) (count_out sv)); [done..| |].
    + cbn [thread_step t_phase t_conn t_net]. by rewrite Hw.
    + intros s1 H1. by eapply IH.
  - intros [= <- <- <-]. rewrite orb_true_r.
    eapply (reaches_then i Interrupted c _ sv c1 (Handling ms true) sv); [done..| |].
    + cbn [thread_step t_phase t_conn t_net]. by rewrite Hw.
    + intros s1 H1. by rewrite put_same.
Qed.

Lemma reports_reach i evs ms dis : ∀ c sv failed c' sv' s,
  at_phase i c (Reporting evs ms dis) sv s → send_reports evs c sv = Ok (failed, c', sv') →
  reaches s (put_phase i c' (Handling ms (dis || failed)) sv' s).
Proof.
  induction evs as [|ev evs IH]; intros c sv failed c' sv' s Hat; cbn [send_reports].
  { intros [= <- <- <-]. rewrite orb_false_r.
    eapply (reaches_then i Interrupted c _ sv c (Handling ms dis) sv); [done..|]. intros s1 H1. by rewrite put_same. }
  destruct (send_report ev c sv) as [[[[] c1] sv1]| | |] eqn:Hw; try done; cbn [rbind].
  - intros [= <- <- <-]. rewrite orb_true_r.
    eapply (reaches_then i Interrupted c _ sv c1 (Handling ms true) sv1); [done..| |].
    + cbn [thread_step t_phase t_conn t_net t_env]. by rewrite Hw.
    + intros s1 H1. by rewrite put_same.
  - intros He. eapply (reaches_then i Interrupted c _ sv c1 (Reporting evs ms dis) sv1); [done..| |].
    + cbn [thread_step t_phase t_conn t_net t_env]. by rewrite Hw.
    + intros s1 H1. by eapply IH.
Qed.

Lemma apps_reach i ms : ∀ dis c sv dis' c' sv' s,
  at_phase i c (Handling ms dis) sv s → handle_apps ms dis c sv = Ok (dis', c', sv') →
  reaches s (put_phase i c' (if dis' then Finished else Polling) sv' s).
Proof.
  induction ms as [|m ms IH]; intros dis c sv dis' c' sv' s Hat; cbn [handle_apps].
  { intros [= <- <- <-]. eapply (reaches_then i Interrupted c _ sv c (if dis then Finished else Polling) sv); [done..|].
    intros s1 H1. by rewrite put_same. }
  destruct (handle_app m (count_in sv)) as [[evs sv1]| | |] eqn:Ha; try done. cbn [rbind].
  destruct (send_reports evs c sv1) as [[[failed c1] sv2]| | |] eqn:Hs; try done. cbn [rbind]. intros He.
  eapply (reaches_then i Interrupted c _ sv c (Locking m ms dis) (count_in sv)); [done..|]. intros s1 H1.
  eapply (reaches_then i Interrupted c _ (count_in sv) c (Reporting evs ms dis) sv1); [done..| |].
  { cbn [thread_step t_phase t_conn]. by rewrite Ha. }
  intros s2 H2. transitivity (put_phase i c1 (Handling ms (dis || failed)) sv2 s2); [by eapply reports_reach|].
  rewrite <- (put_put i c1 (Handling ms (dis || failed)) sv2 c' _ sv' s2). eapply IH; [by eapply put_at|done].
Qed.

(** What a turn computes, the process can do. *)
Lemma turn_reaches i r c sv dis c' sv' s :
  at_phase i c Polling sv s → ready_ok r → session_turn r c sv = Ok (dis, c', sv') →
  reaches s (put_phase i c' (if dis then Finished else Polling) sv' s).
Proof.
  intros Hat Hk. unfold session_turn, session_input.
  destruct (session_read r c) as [[[[ws ms] d] c1]| | |] eqn:Hr; try done. cbn [rbind].
  destruct (write_out ws c1 sv) as [[[failed c2] sv2]| | |] eqn:Hw; try done. cbn [rbind]. intros He.
  eapply (reaches_then i Interrupted c _ sv c InPoll sv); [done..|]. intros s0 H0.
  eapply (reaches_then i r c _ sv c1 (Writing ws ms d) sv); [done..| |].
  { cbn [thread_step t_phase t_conn t_env]. by rewrite Hr. }
  intros s1 H1. transitivity (put_phase i c2 (Handling ms (d || failed)) sv2 s1); [by eapply write_reaches|].
  rewrite <- (put_put i c2 (Handling ms (d || failed)) sv2 c' _ sv' s1). eapply apps_reach; [by eapply put_at|done].
Qed.

Lemma loop_reaches rs : ∀ i c sv dis c' sv' s,
  at_phase i c Polling sv s → Forall ready_ok rs → session_loop rs c sv = Ok (dis, c', sv') →
  reaches s (put_phase i c' (if dis then Finished else Polling) sv' s).
Proof.
  induction rs as [|r rs IH]; intros i c sv dis c' sv' s Hat Hk; cbn [session_loop].
  { intros [= <- <- <-]. by rewrite put_same. }
  apply Forall_cons in Hk as [Hk Hks].
  destruct (session_turn r c sv) as [[[d c1] sv1]| | |] eqn:Ht; try done. cbn [rbind].
  pose proof (turn_reaches i r c sv d c1 sv1 s Hat Hk Ht) as H1. destruct d; [by intros [= <- <- <-]|].
  intros He. etransitivity; [exact H1|]. rewrite <- (put_put i c1 Polling sv1 c' _ sv' s).
  eapply IH; [by eapply put_at|done|done].
Qed.

End turns.

(** C33: a connection is a run of the process. Whatever the socket delivers in
    reads that fit the buffer: if the loop of one connection, as the model of a
    single connection has it, computes something, then the process that starts
    on a listening socket and accepts that client, with its clocks and its
    socket, can get there, with the shared state and the connection the loop
    computes, and its thread waiting or returned as the loop says. *)
Theorem connection_reachable (W : Env → Net → Prop) (E : Env) (N : Net) cfg lfd port cli rs dis c' sv' :
  W E N → 0 ≤ lfd → Forall ready_ok rs →
  session_loop rs (new_conn cfg cli) (new_server (sc_algo cfg)) = Ok (dis, c', sv') →
  ∃ tr s, run W tr (new_tcp cfg) (Running s) ∧ running_ s = true ∧ bound_port_ s = port ∧ shared s = sv' ∧
    session_threads_ s = [mkThread E N c' (if dis then Finished else Polling)].
Proof.
  intros HW Hl Hk He. set (p := mkPeer E N cli).
  set (s1 := mkTcp cfg (new_server (sc_algo cfg)) true lfd port LoopHead [] NotStopping).
  set (s2 := set_threads [new_thread cfg p] s1).
  assert (reaches W (new_tcp cfg) s2) as H2.
  { transitivity s1; [by eapply reaches_step, (step_start _ (Listening lfd port) _ true)|].
    transitivity (set_acceptor (InAccept lfd) s1).
    { eapply reaches_step, step_internal, (int_accept _ AcceptFailed); [done|]. unfold accept_step. cbn.
      by destruct (Z.ltb_spec lfd 0); [lia|]. }
    transitivity (set_acceptor (Spawning p) s1);
      [by eapply reaches_step, step_internal, (int_accept _ (Connected p))|].
    by eapply reaches_step, step_internal, (int_accept _ AcceptFailed). }
  destruct (loop_reaches W rs 0 (new_conn cfg cli) (new_server (sc_algo cfg)) dis c' sv' s2) as [tr Htr]; [done..|].
  destruct H2 as [tr2 H2]. do 2 eexists. split; [eapply run_app; [exact H2|exact Htr]|]. done.
Qed.

(** The conversation of [Pieces], in the process. *)
#[local] Existing Instance talk_env.
Definition talk_done : bool * Conn * Server :=
  match session_loop talk_rs (new_conn default_config 5) (new_server (sc_algo default_config)) with
  | Ok r => r
  | _ => (true, new_conn default_config 5, new_server ProRata)
  end.

Definition talk_world (e : Env) (n : Net) : Prop := e = talk_env ∧ n = ex_net.

Lemma connection_reachable_witness :
  ∃ tr s, run talk_world tr (new_tcp default_config) (Running s) ∧ running_ s = true ∧ bound_port_ s = 9876 ∧
    shared s = talk_done.2 ∧
    session_threads_ s = [mkThread talk_env ex_net talk_done.1.2 (if talk_done.1.1 then Finished else Polling)].
Proof.
  apply (connection_reachable talk_world talk_env ex_net default_config 3 9876 5 talk_rs);
    [done|lia|decided|vm_compute; reflexivity].
Defined.
