(* ===== verification/Double.v ===== *)
(** * Doubles

    The [double] arithmetic the program uses: integers converted to doubles,
    products, quotients and differences, decimal literals, the conversion back
    to [std::uint64_t], and the text of [%.nf]. Doubles are binary64 with
    rounding to nearest even, as the Standard Library specifies them. *)

From Stdlib Require Import SpecFloat.
From S2P Require Import Prelude Types Text.

Notation double := spec_float.

(** ** Operations *)

Definition of_int (z : Z) : double := binary_normalize 53 1024 z 0 false.
Definition dmul : double → double → double := SFmul 53 1024.
Definition ddiv : double → double → double := SFdiv 53 1024.
Definition dsub : double → double → double := SFsub 53 1024.
Definition is_zero (d : double) : bool := match d with S754_zero _ => true | _ => false end.

(** A literal with [k] digits behind the point; both operands are exact, so
    that the quotient is the nearest double. *)
Definition decimal (n : Z) (k : nat) : double := ddiv (of_int n) (of_int (10 ^ Z.of_nat k)).

(** [static_cast<std::uint64_t>]: what is left of the point; undefined when
    that does not fit. *)
Definition whole (m : positive) (e : Z) : Z := Z.shiftl (Zpos m) e.
Definition to_u64 (d : double) : res Z :=
  match d with
  | S754_zero _ => Ok 0
  | S754_finite s m e =>
      let n := whole m e in
      if n =? 0 then Ok 0 else if s then Undef else if n <? two64 then Ok n else Undef
  | _ => Undef
  end.

(** ** Text *)

(** [a / b] rounded to the nearest integer, ties to even. *)
Definition div_even (a b : Z) : Z :=
  let q := a / b in
  let r := 2 * (a mod b) in
  if r <? b then q else if r >? b then q + 1 else if Z.even q then q else q + 1.

(** [%.pf]; the widest finite double has 309 digits. A NaN is printed without
    a sign. *)
Definition fixed_text (p : nat) (n : Z) : bytes :=
  let u := 10 ^ Z.of_nat p in
  let f := dec 20 (n mod u) in
  dec 310 (n / u) ++ B "." ++ replicate (p - length f) "0"%char ++ f.
Definition printf_f (p : nat) (d : double) : bytes :=
  let minus (s : bool) := if s then B "-" else [] in
  match d with
  | S754_nan => B "nan"
  | S754_infinity s => minus s ++ B "inf"
  | S754_zero s => minus s ++ fixed_text p 0
  | S754_finite s m e =>
      minus s ++ fixed_text p
        (if e <? 0 then div_even (Zpos m * 10 ^ Z.of_nat p) (2 ^ (- e)) else Zpos m * 2 ^ e * 10 ^ Z.of_nat p)
  end.

(** ** Examples *)

Example printf_f_secs : printf_f 6 (ddiv (of_int 1234567891) (of_int 1000000000)) = B "1.234568".
Proof. vm_compute. reflexivity. Qed.
Example printf_f_rate : printf_f 2 (ddiv (of_int 1000) (ddiv (of_int 0) (of_int 1000000000))) = B "inf".
Proof. vm_compute. reflexivity. Qed.
(** A tie of the decimal places, exact in binary. *)
Example printf_f_tie : printf_f 2 (decimal 125 3) = B "0.12".
Proof. vm_compute. reflexivity. Qed.
Example to_u64_999 : to_u64 (dmul (decimal 999 3) (of_int 1000)) = Ok 999.
Proof. vm_compute. reflexivity. Qed.

(** ** Rounding *)

(** Nothing but zeros has been shifted out. *)
Definition exact (r : shr_record) : bool := negb (shr_r r || shr_s r).

(** [r'] is [r] shifted right by [n] bits. *)
Definition shifted (n : Z) (r r' : shr_record) : Prop :=
  0 ≤ shr_m r' ∧ shr_m r' = shr_m r / 2 ^ n ∧ exact r' = (shr_m r mod 2 ^ n =? 0) && exact r.

Lemma shifted_trans a b r r' r'' : 0 ≤ a → 0 ≤ b → shifted a r r' → shifted b r' r'' → shifted (a + b) r r''.
Proof.
  intros Ha Hb (_ & Hm & He) (H0 & Hm' & He'). pose proof (Z.pow_pos_nonneg 2 a). pose proof (Z.pow_pos_nonneg 2 b).
  split; [done|]. rewrite Hm' , He', He, Hm, Z.pow_add_r, Z.div_div, Z.rem_mul_r by lia. split; [done|].
  pose proof (Z.mod_pos_bound (shr_m r) (2 ^ a)). pose proof (Z.mod_pos_bound (shr_m r / 2 ^ a) (2 ^ b)).
  set (x := shr_m r mod 2 ^ a) in *. set (y := (shr_m r / 2 ^ a) mod 2 ^ b) in *. clearbody x y.
  destruct (Z.eqb_spec x 0), (Z.eqb_spec y 0), (Z.eqb_spec (x + 2 ^ a * y) 0); cbn [andb]; try done; nia.
Qed.

Lemma shr_1_shifted r : 0 ≤ shr_m r → shifted 1 r (shr_1 r).
Proof.
  destruct r as [m x y]. cbn [shr_m]. intros Hm. unfold shifted. change (2 ^ 1) with 2.
  rewrite <- Z.div2_div, Zmod_even. destruct m as [|[p|p|]|p]; try lia; (split; [done|]); (split; [done|]);
    by destruct x, y.
Qed.

Lemma iter_shifted p : ∀ r, 0 ≤ shr_m r → shifted (Zpos p) r (SpecFloat.iter_pos shr_1 p r).
Proof.
  induction p as [p IH|p IH|]; intros r Hr; cbn [SpecFloat.iter_pos]; [..|by apply shr_1_shifted].
  - pose proof (shr_1_shifted r Hr) as H1. assert (0 ≤ shr_m (shr_1 r)) as Hr1 by apply H1.
    pose proof (IH _ Hr1) as H2. assert (0 ≤ shr_m (SpecFloat.iter_pos shr_1 p (shr_1 r))) as Hr2 by apply H2.
    replace (Zpos p~1) with (1 + Zpos p + Zpos p) by lia.
    eapply shifted_trans; [lia|lia|eapply shifted_trans; [lia|lia|done|done]|by apply IH].
  - pose proof (IH _ Hr) as H2. replace (Zpos p~0) with (Zpos p + Zpos p) by lia.
    eapply shifted_trans; [lia|lia|done|]. apply IH. apply H2.
Qed.

Lemma shr_shifted m e n :
  0 ≤ m → 0 ≤ n → (shr (Build_shr_record m false false) e n).2 = e + n ∧
    shifted n (Build_shr_record m false false) (shr (Build_shr_record m false false) e n).1.
Proof.
  intros Hm Hn. destruct n as [|p|p]; try lia; cbn [shr fst snd].
  - split; [lia|]. unfold shifted. cbn. by rewrite Z.div_1_r, Z.mod_1_r.
  - split; [done|]. by apply iter_shifted.
Qed.

(** Rounding to even goes up only when something was lost. *)
Lemma round_even_spec r :
  round_nearest_even (shr_m r) (loc_of_shr_record r) = shr_m r ∨
  exact r = false ∧ round_nearest_even (shr_m r) (loc_of_shr_record r) = shr_m r + 1.
Proof. destruct r as [m [] []]; cbn; try destruct (Z.even m); auto. Qed.

Lemma digits2_log2 m : 0 < m → Zdigits2 m = Z.log2 m + 1.
Proof.
  destruct m as [|p|p]; try lia. intros _. cbn [Zdigits2]. induction p as [p IH|p IH|]; cbn [digits2_pos]; try done.
  - rewrite Pos2Z.inj_succ, IH. change (Zpos p~1) with (2 * Zpos p + 1). rewrite Z.log2_succ_double by lia. lia.
  - rewrite Pos2Z.inj_succ, IH. change (Zpos p~0) with (2 * Zpos p). rewrite Z.log2_double by lia. lia.
Qed.

(** The second shift of the rounding only moves a carry out of the mantissa. *)
Definition finish (m e : Z) : double :=
  let '(r, e) := shr_fexp 53 1024 m e loc_Exact in
  match shr_m r with
  | Z0 => S754_zero false
  | Zpos m => if e <=? 1024 - 53 then S754_finite false m e else S754_infinity false
  | Zneg _ => S754_nan
  end.

Lemma to_u64_finite m e : whole m e < two64 → to_u64 (S754_finite false m e) = Ok (whole m e).
Proof. intros Hlt. cbn [to_u64]. destruct (Z.eqb_spec (whole m e) 0) as [->|]; [done|]. by rewrite (proj2 (Z.ltb_lt _ _) Hlt). Qed.

Lemma shiftl_neg a e : e ≤ 0 → Z.shiftl a e = a / 2 ^ (- e).
Proof. intros He. rewrite <- (Z.opp_involutive e) at 1. by rewrite Z.shiftl_opp_r, Z.shiftr_div_pow2 by lia. Qed.

Lemma shr_fexp_small m e :
  0 ≤ m < 2 ^ 53 → -1074 ≤ e → shr_fexp 53 1024 m e loc_Exact = (Build_shr_record m false false, e).
Proof.
  intros Hm He. unfold shr_fexp, fexp, emin. assert (Zdigits2 m ≤ 53) as Hd.
  { destruct (Z.eq_dec m 0) as [->|]; [done|]. rewrite digits2_log2 by lia.
    assert (Z.log2 m < 53) by (apply Z.log2_lt_pow2; lia). lia. }
  destruct (Z.max (Zdigits2 m + e - 53) (3 - 1024 - 53) - e) eqn:E; cbn [shr shr_record_of_loc]; [done|lia|done].
Qed.

Lemma finish_whole m e : 0 ≤ m ≤ 2 ^ 53 → -1074 ≤ e ≤ 0 → to_u64 (finish m e) = Ok (Z.shiftl m e).
Proof.
  intros Hm He. assert (∀ p e, whole p e ≤ Zpos p ∨ 0 < e) as Hle.
  { intros p x. destruct (Z.lt_ge_cases 0 x); [by right|left]. unfold whole. rewrite shiftl_neg by lia.
    apply Z.div_le_upper_bound; [lia|]. pose proof (Z.pow_pos_nonneg 2 (- x)). nia. }
  unfold finish. destruct (Z.eq_dec m (2 ^ 53)) as [->|].
  - change (shr_fexp 53 1024 (2 ^ 53) e loc_Exact) with
      (shr (Build_shr_record (2 ^ 53) false false) e (Z.max (54 + e - 53) (-1074) - e)).
    replace (Z.max (54 + e - 53) (-1074) - e) with 1 by lia.
    change (shr (Build_shr_record (2 ^ 53) false false) e 1) with (Build_shr_record (2 ^ 52) false false, e + 1).
    cbn [shr_m]. rewrite (proj2 (Z.leb_le (e + 1) _)) by lia.
    change (2 ^ 52) with (Zpos 4503599627370496). cbv beta iota. 
    assert (whole 4503599627370496 (e + 1) = Z.shiftl (2 ^ 53) e) as Hs.
    { unfold whole. change (2 ^ 53) with (Z.shiftl 4503599627370496 1). rewrite Z.shiftl_shiftl by lia. f_equal. lia. }
    rewrite to_u64_finite; [by rewrite Hs|]. rewrite Hs, shiftl_neg by lia.
    pose proof (Z.pow_pos_nonneg 2 (- e)). apply Z.div_lt_upper_bound; [lia|]. nia.
  - rewrite shr_fexp_small by lia. cbn [shr_m]. destruct m as [|p|p]; [by rewrite Z.shiftl_0_l| |lia].
    rewrite (proj2 (Z.leb_le e _)) by lia. rewrite to_u64_finite; [done|]. destruct (Hle p e); lia.
Qed.

Lemma shr_fexp_shifted m e :
  0 ≤ m → ∃ n r, shr_fexp 53 1024 m e loc_Exact = (r, e + n) ∧ shifted n (Build_shr_record m false false) r ∧
    n = Z.max 0 (Z.max (Zdigits2 m + e - 53) (-1074) - e).
Proof.
  intros Hm. unfold shr_fexp, fexp, emin. change (3 - 1024 - 53) with (-1074). cbn [shr_record_of_loc].
  set (n := Z.max (Zdigits2 m + e - 53) (-1074) - e). destruct (Z.lt_ge_cases n 0).
  - exists 0, (Build_shr_record m false false). split; [|split; [|lia]].
    + destruct n; [lia|lia|]. cbn [shr]. by rewrite Z.add_0_r.
    + unfold shifted. cbn. by rewrite Z.div_1_r, Z.mod_1_r.
  - destruct (shr_shifted m e n Hm) as [H2 H1]; [lia|]. destruct (shr _ e n) as [r e'] eqn:E. cbn [fst snd] in *. subst e'.
    exists n, r. split; [done|]. split; [done|]. lia.
Qed.

(** A rounded value below 2^53 has as its whole part that of the exact value,
    or that of the next integer when the exact value is not one. *)
Lemma round_whole m e :
  e < 0 → Zpos m / 2 ^ (- e) < 2 ^ 53 →
  ∃ t, to_u64 (binary_round_aux 53 1024 false (Zpos m) e loc_Exact) = Ok t ∧
    Zpos m / 2 ^ (- e) ≤ t ∧ 2 ^ (- e) * (t - 1) < Zpos m.
Proof.
  intros He Hlt. set (M := Zpos m) in *. assert (0 < M) as HM by done. clearbody M. clear m.
  pose proof (Z.log2_spec M HM) as [Hlo Hhi]. assert (0 < 2 ^ (- e)) as HD by (apply Z.pow_pos_nonneg; lia).
  assert (Z.log2 M < 53 - e) as Hlog.
  { apply Z.log2_lt_pow2; [done|]. replace (53 - e) with (53 + - e) by lia. rewrite Z.pow_add_r by lia.
    pose proof (Z.div_mod M (2 ^ (- e)) ltac:(lia)). pose proof (Z.mod_pos_bound M (2 ^ (- e)) HD). nia. }
  destruct (shr_fexp_shifted M e) as (n & r & Hr & (H0 & Hm & Hx) & Hn); [lia|]. cbn [shr_m] in *.
  rewrite digits2_log2 in Hn by done. pose proof (Z.log2_nonneg M).
  assert (0 < 2 ^ n) as Hpn by (apply Z.pow_pos_nonneg; lia).
  set (k := - (e + n)). assert (- e = n + k) as HDk by lia. assert (0 < 2 ^ k) as Hpk by (apply Z.pow_pos_nonneg; lia).
  assert (2 ^ (- e) = 2 ^ n * 2 ^ k) as HDe by (rewrite HDk; apply Z.pow_add_r; lia).
  assert (shr_m r < 2 ^ 53) as Hf.
  { rewrite Hm. apply Z.div_lt_upper_bound; [done|]. rewrite <- Z.pow_add_r by lia.
    eapply Z.lt_le_trans; [exact Hhi|]. apply Z.pow_le_mono_r; lia. }
  unfold binary_round_aux. rewrite Hr. set (m' := round_nearest_even _ _).
  assert (shr_m r ≤ m' ≤ 2 ^ 53) as Hm' by (unfold m'; destruct (round_even_spec r) as [-> | [_ ->]]; lia).
  exists (m' / 2 ^ k). split; [|rewrite HDe].
  - pose proof (finish_whole m' (e + n) ltac:(lia) ltac:(lia)) as Hfin. unfold finish in Hfin.
    rewrite shiftl_neg in Hfin by lia. exact Hfin.
  - split; [rewrite <- Z.div_div by lia; rewrite <- Hm; apply Z.div_le_mono; lia|].
    pose proof (Z.mul_div_le m' (2 ^ k) Hpk) as Ht. set (t := m' / 2 ^ k) in *.
    pose proof (Z.div_mod M (2 ^ n) ltac:(lia)) as Hdm. rewrite <- Hm in Hdm. pose proof (Z.mod_pos_bound M (2 ^ n) Hpn).
    unfold m' in Ht. destruct (round_even_spec r) as [Hq | [Hi Hq]]; rewrite Hq in Ht; [nia|].
    rewrite Hx in Hi. destruct (Z.eqb_spec (M mod 2 ^ n) 0); [done|]. nia.
Qed.

Lemma iter_xO p k : Zpos (Pos.iter xO p k) = Zpos p * 2 ^ Zpos k.
Proof.
  induction k as [|k IH] using Pos.peano_ind; [cbn; lia|]. rewrite Pos.iter_succ, Pos2Z.inj_xO, IH, Pos2Z.inj_succ, Z.pow_succ_r; lia.
Qed.

(** Integers below 2^53 are doubles. *)
Lemma of_int_exact p :
  Zpos p < 2 ^ 53 → ∃ m k, of_int (Zpos p) = S754_finite false m (- k) ∧ 0 ≤ k ∧ Zpos m = Zpos p * 2 ^ k.
Proof.
  intros Hp. set (d := Z.log2 (Zpos p)). assert (0 ≤ d < 53) as Hd.
  { split; [apply Z.log2_nonneg|]. by apply Z.log2_lt_pow2. }
  assert (∃ m, shl_align p 0 (fexp 53 1024 (Zpos (digits2_pos p) + 0)) = (m, d - 52) ∧ Zpos m = Zpos p * 2 ^ (52 - d))
    as (m & Hm & Hv).
  { change (Zpos (digits2_pos p)) with (Zdigits2 (Zpos p)). rewrite digits2_log2 by lia. fold d.
    unfold fexp, emin, shl_align. rewrite Z.sub_0_r.
    replace (Z.max (d + 1 + 0 - 53) (3 - 1024 - 53)) with (d - 52) by lia.
    destruct (d - 52) as [|k|k] eqn:E; [|lia|].
    - exists p. split; [done|]. replace (52 - d) with 0 by lia. lia.
    - exists (Pos.iter xO p k). split; [done|]. rewrite iter_xO. do 2 f_equal. lia. }
  assert (Zpos m < 2 ^ 53) as Hlt.
  { rewrite Hv. pose proof (Z.log2_spec (Zpos p) ltac:(lia)) as [_ Hhi]. fold d in Hhi.
    replace 53 with (Z.succ d + (52 - d)) by lia. rewrite Z.pow_add_r by lia.
    apply Z.mul_lt_mono_pos_r; [apply Z.pow_pos_nonneg; lia|done]. }
  exists m, (52 - d). split; [|split; [lia|done]]. unfold of_int, binary_normalize, binary_round. rewrite Hm.
  unfold binary_round_aux. rewrite shr_fexp_small by lia. cbn [loc_of_shr_record shr_m round_nearest_even].
  rewrite shr_fexp_small by lia. cbn [shr_m]. rewrite (proj2 (Z.leb_le (d - 52) _)) by lia. f_equal. lia.
Qed.

(** The whole part of the product of a double between 0 and 1 and an integer
    below 2^53 is that of the exact product [m * 2^e * n], or the next integer. *)
Lemma dmul_whole m e n :
  e < 0 → Zpos m ≤ 2 ^ (- e) → 0 < n < 2 ^ 53 →
  ∃ t, to_u64 (dmul (S754_finite false m e) (of_int n)) = Ok t ∧
    Zpos m * n / 2 ^ (- e) ≤ t ∧ 2 ^ (- e) * (t - 1) < Zpos m * n.
Proof.
  intros He Hm Hn. destruct n as [|p|p]; [lia| |lia]. destruct (of_int_exact p) as (m' & k & Hp & Hk & Hv); [lia|].
  rewrite Hp. cbn [dmul SFmul xorb]. assert (0 < 2 ^ (- e)) as HD by (apply Z.pow_pos_nonneg; lia).
  assert (0 < 2 ^ k) as HK by (apply Z.pow_pos_nonneg; lia).
  assert (2 ^ (- (e + - k)) = 2 ^ (- e) * 2 ^ k) as HDK.
  { replace (- (e + - k)) with (- e + k) by lia. apply Z.pow_add_r; lia. }
  destruct (round_whole (m * m') (e + - k)) as (t & Ht & H1 & H2); [lia| |].
  - rewrite HDK, Pos2Z.inj_mul, Hv. apply Z.div_lt_upper_bound; [nia|]. nia.
  - rewrite HDK, Pos2Z.inj_mul, Hv in H1, H2. exists t. split; [done|].
    replace (Zpos m * (Zpos p * 2 ^ k)) with (Zpos m * Zpos p * 2 ^ k) in H1, H2 by lia.
    rewrite Z.div_mul_cancel_r in H1 by lia. split; [done|]. nia.
Qed.
