(* ===== verification/Histogram.v ===== *)
(** * The latency histogram

    Models [src/obs/histogram.h]: 64 buckets by binary logarithm, with counts
    modulo 2^64, and quantiles at a [double]. *)

From Stdlib Require Import SpecFloat.
From S2P Require Import Prelude Types Text Double.

Record LogHistogram := mkHist { buckets_ : list Z; count_ : Z; sum_ : Z }.
Definition new_histogram : LogHistogram := mkHist (replicate 64 0) 0 0.

(** The loop [while (ns >>= 1) ++b]. *)
Fixpoint bucket_loop (fuel : nat) (ns b : Z) : res Z :=
  match fuel with
  | O => Hang
  | S fuel =>
      let ns := Z.shiftr ns 1 in
      if ns =? 0 then Ok b else bucket_loop fuel ns (b + 1)
  end.
Definition bucket_for (ns : Z) : res Z :=
  let! b := bucket_loop 64 ns 0 in
  Ok (if b >=? 64 then 63 else b).

(** [buckets_[i] += v]; an index outside the vector is undefined. *)
Definition add_at (i v : Z) (l : list Z) : res (list Z) :=
  if i <? 0 then Undef
  else match l !! Z.to_nat i with
       | Some x => Ok (<[Z.to_nat i := u64 (x + v)]> l)
       | None => Undef
       end.

Definition record (ns : Z) (h : LogHistogram) : res LogHistogram :=
  let ns := if ns =? 0 then 1 else ns in
  let! b := bucket_for ns in
  let! bs := add_at b 1 (buckets_ h) in
  Ok (mkHist bs (u64 (count_ h + 1)) (u64 (sum_ h + ns))).

(** [1ull << n]. *)
Definition shl_one (n : Z) : res Z := if n >=? 64 then Undef else Ok (u64 (Z.shiftl 1 n)).

(** The scan over the buckets from index [b] on. *)
Fixpoint scan (b : Z) (bs : list Z) (acc target : Z) : res Z :=
  match bs with
  | [] => shl_one 63
  | x :: bs =>
      let acc := u64 (acc + x) in
      if acc >=? target then shl_one (b + 1) else scan (b + 1) bs acc target
  end.
Definition count (h : LogHistogram) : Z := count_ h.
Definition sum (h : LogHistogram) : Z := sum_ h.

(** The cast of [q * count_]. *)
Definition rank (q : double) (h : LogHistogram) : res Z := to_u64 (dmul q (of_int (count_ h))).
Definition quantile (q : double) (h : LogHistogram) : res Z :=
  if count_ h =? 0 then Ok 0 else let! target := rank q h in scan 0 (buckets_ h) 0 target.

Definition merge (other h : LogHistogram) : LogHistogram :=
  mkHist (zip_with (λ x y, u64 (x + y)) (buckets_ h) (buckets_ other)) (u64 (count_ h + count_ other))
    (u64 (sum_ h + sum_ other)).

(** Recording a list of samples, first one first. *)
Fixpoint record_all (xs : list Z) (h : LogHistogram) : res LogHistogram :=
  match xs with
  | [] => Ok h
  | x :: xs => let! h := record x h in record_all xs h
  end.

(** ** Buckets *)

Lemma bucket_loop_log2 fuel : ∀ ns b,
  0 < ns → Z.log2 ns < Z.of_nat fuel → bucket_loop fuel ns b = Ok (b + Z.log2 ns).
Proof.
  induction fuel as [|fuel IH]; intros ns b Hns Hf; [pose proof (Z.log2_nonneg ns); lia|]. cbn [bucket_loop].
  destruct (Z.eq_dec (Z.log2 ns) 0) as [H0|H0].
  - assert (ns = 1) as -> by (pose proof (Z.log2_null ns); lia). cbn. by rewrite Z.add_0_r.
  - pose proof (Z.log2_nonneg ns). assert (2 ≤ ns) as H2 by (destruct (Z.eq_dec ns 1) as [->|]; [by destruct H0|lia]).
    assert (0 < Z.shiftr ns 1) as Hs by (rewrite Z.shiftr_div_pow2 by lia; apply Z.div_str_pos; lia).
    destruct (Z.eqb_spec (Z.shiftr ns 1) 0); [lia|].
    assert (Z.log2 (Z.shiftr ns 1) = Z.log2 ns - 1) as Hl.
    { rewrite Z.log2_shiftr by done. lia. }
    rewrite IH by lia. rewrite Hl. f_equal. lia.
Qed.

Lemma log2_u64 ns : 0 < ns < two64 → 0 ≤ Z.log2 ns < 64.
Proof. intros Hns. split; [apply Z.log2_nonneg|]. apply Z.log2_lt_pow2; [lia|]. change (2 ^ 64) with two64. lia. Qed.

Lemma bucket_for_log2 ns : 0 < ns < two64 → bucket_for ns = Ok (Z.log2 ns).
Proof.
  intros Hns. pose proof (log2_u64 ns Hns). unfold bucket_for. rewrite bucket_loop_log2 by lia. cbn [rbind].
  rewrite Z.add_0_l. destruct (Z.geb_spec (Z.log2 ns) 64); [lia|done].
Qed.

(** ** What the histogram holds *)

(** The value a sample counts as, and the number of samples in a bucket. *)
Definition sample (x : Z) : Z := if x =? 0 then 1 else x.
Definition in_bucket (b : Z) (xs : list Z) : list Z := filter (λ x, Z.log2 (sample x) = b) xs.

Definition summary (xs : list Z) : LogHistogram :=
  mkHist ((λ b, u64 (zlen (in_bucket (Z.of_nat b) xs))) <$> seq 0 64) (u64 (zlen xs)) (u64 (sumz (sample <$> xs))).

Lemma sample_range x : in_u64 x → 0 < sample x < two64.
Proof. unfold in_u64, sample. intros. destruct (Z.eqb_spec x 0); lia. Qed.

Lemma seq_64_lookup i : (i < 64)%nat → seq 0 64 !! i = Some i.
Proof. intros. by apply lookup_seq. Qed.

Lemma in_bucket_snoc b xs x :
  zlen (in_bucket b (xs ++ [x])) = zlen (in_bucket b xs) + (if decide (Z.log2 (sample x) = b) then 1 else 0).
Proof.
  unfold in_bucket. rewrite filter_app, zlen_app, filter_cons, filter_nil.
  by destruct (decide (Z.log2 (sample x) = b)).
Qed.

Lemma record_summary xs x : in_u64 x → record x (summary xs) = Ok (summary (xs ++ [x])).
Proof.
  intros Hx. pose proof (sample_range _ Hx) as Hs. pose proof (log2_u64 _ Hs) as Hl. unfold record. fold (sample x).
  rewrite bucket_for_log2 by done. cbn [rbind]. unfold add_at. destruct (Z.ltb_spec (Z.log2 (sample x)) 0); [lia|].
  set (b := Z.to_nat (Z.log2 (sample x))). assert (b < 64)%nat as Hb by lia. cbn [buckets_ summary].
  rewrite list_lookup_fmap, seq_64_lookup by done. cbn [fmap option_fmap option_map rbind count_ sum_].
  unfold summary. cbn [count_ sum_]. rewrite !u64_add_l. f_equal. f_equal.
  - apply list_eq_same_length with (n := 64%nat); [by rewrite length_fmap, length_seq|
      by rewrite length_insert, length_fmap, length_seq|].
    intros i x1 x2 Hi H1 H2. rewrite list_lookup_fmap, seq_64_lookup in H2 by done. injection H2 as <-.
    rewrite in_bucket_snoc. destruct (decide (i = b)) as [->|Hne].
    + rewrite list_lookup_insert_eq in H1 by (rewrite length_fmap, length_seq; lia). injection H1 as <-.
      rewrite decide_True by (unfold b; lia). done.
    + rewrite list_lookup_insert_ne, list_lookup_fmap, seq_64_lookup in H1 by done. injection H1 as <-.
      rewrite decide_False by (unfold b in Hne; lia). by rewrite Z.add_0_r.
  - by rewrite zlen_app.
  - rewrite fmap_app, sumz_app. cbn. f_equal. lia.
Qed.

Lemma record_all_summary ys : ∀ xs, Forall in_u64 ys → record_all ys (summary xs) = Ok (summary (xs ++ ys)).
Proof.
  induction ys as [|y ys IH]; intros xs Hys; cbn [record_all]; [by rewrite app_nil_r|].
  apply Forall_cons in Hys as [Hy Hys]. rewrite record_summary by done. cbn [rbind].
  rewrite IH by done. by rewrite <- app_assoc.
Qed.

Lemma summary_nil : summary [] = new_histogram.
Proof. reflexivity. Qed.

Lemma merge_summary xs ys : merge (summary ys) (summary xs) = summary (xs ++ ys).
Proof.
  unfold merge, summary. cbn [buckets_ count_ sum_]. autorewrite with obfix. rewrite fmap_app, sumz_app. f_equal.
  rewrite zip_with_fmap_l, zip_with_fmap_r, zip_with_diag. apply list_fmap_ext. intros _ b _.
  rewrite u64_add_l, u64_add_r. unfold in_bucket. by rewrite filter_app, zlen_app.
Qed.

(** ** Quantiles *)

(** The number of samples in the buckets before [k]. *)
Definition below (k : Z) (xs : list Z) : Z := zlen (filter (λ x, Z.log2 (sample x) < k) xs).

Lemma below_succ k xs : below (k + 1) xs = below k xs + zlen (in_bucket k xs).
Proof.
  unfold below, in_bucket. induction xs as [|x xs IH]; [done|]. rewrite !filter_cons.
  repeat destruct (decide _); rewrite ?zlen_cons; lia.
Qed.
Lemma below_all k xs : Forall (λ x, sample x < 2 ^ k) xs → Forall in_u64 xs → 0 ≤ k → below k xs = zlen xs.
Proof.
  intros Hlt Hu Hk. unfold below. rewrite filter_id; [done|]. intros x Hin.
  rewrite Forall_forall in Hlt, Hu. apply Z.log2_lt_pow2; [apply (sample_range _ (Hu _ Hin))|by apply Hlt].
Qed.
Lemma below_range k xs : 0 ≤ below k xs ≤ zlen xs.
Proof. unfold below, zlen. pose proof (length_filter (λ x, Z.log2 (sample x) < k) xs). lia. Qed.

Lemma below_0 xs : Forall in_u64 xs → below 0 xs = 0.
Proof.
  intros Hu. unfold below. rewrite filter_none; [done|]. eapply Forall_impl; [exact Hu|].
  intros x _. pose proof (Z.log2_nonneg (sample x)). lia.
Qed.

Lemma scan_summary xs target n : ∀ b,
  (b + n = 64)%nat → zlen xs < two64 → Forall in_u64 xs → below (Z.of_nat b) xs < target ≤ zlen xs →
  ∃ k, 0 ≤ k < 64 ∧ below k xs < target ≤ below (k + 1) xs ∧
    scan (Z.of_nat b) ((λ b, u64 (zlen (in_bucket (Z.of_nat b) xs))) <$> seq b n) (below (Z.of_nat b) xs) target =
      shl_one (k + 1).
Proof.
  induction n as [|n IH]; intros b Hb Hl Hu Ht.
  { assert (b = 64%nat) as -> by lia. rewrite below_all in Ht; [lia| |done|lia].
    eapply Forall_impl; [exact Hu|]. intros x Hx. apply (sample_range _ Hx). }
  cbn [seq fmap list_fmap scan]. rewrite u64_add_r, <- below_succ.
  replace (Z.of_nat b + 1) with (Z.of_nat (S b)) by lia. pose proof (below_range (Z.of_nat (S b)) xs).
  rewrite u64_small by (unfold in_u64; lia). destruct (Z.geb_spec (below (Z.of_nat (S b)) xs) target).
  - exists (Z.of_nat b). split; [lia|]. replace (Z.of_nat b + 1) with (Z.of_nat (S b)) by lia. split; [lia|done].
  - apply IH; [lia|done|done|lia].
Qed.

Lemma shl_one_pow n : 0 ≤ n < 64 → shl_one n = Ok (2 ^ n).
Proof.
  intros Hn. unfold shl_one. destruct (Z.geb_spec n 64); [lia|]. rewrite Z.shiftl_1_l. f_equal.
  apply u64_small. unfold in_u64. change two64 with (2 ^ 64). split; [apply Z.pow_nonneg; lia|].
  apply Z.pow_lt_mono_r; lia.
Qed.

(** The element of rank [i] of a sorted list, by how many are below a bound. *)
Lemma sorted_rank l i v c :
  StronglySorted Z.le l → l !! i = Some v →
  (c ≤ v → zlen (filter (λ x, x < c) l) ≤ Z.of_nat i) ∧ (v < c → Z.of_nat i < zlen (filter (λ x, x < c) l)).
Proof.
  intros Hs. revert i. induction Hs as [|x l Hs IH Hx]; intros [|i] Hi; try done; rewrite filter_cons.
  - injection Hi as ->. destruct (decide (v < c)).
    + split; [lia|]. intros _. rewrite zlen_cons. pose proof (zlen_nonneg (filter (λ x, x < c) l)). lia.
    + split; [|lia]. intros Hc. assert (filter (λ x, x < c) l = []) as ->; [|by rewrite zlen_nil].
      rewrite filter_none; [done|]. eapply Forall_impl; [exact Hx|]. cbn. lia.
  - destruct (IH i Hi) as [IH1 IH2]. assert (x ≤ v) as Hxv by (eapply Forall_lookup_1 in Hx; [exact Hx|exact Hi]).
    destruct (decide (x < c)); rewrite ?zlen_cons; split; intros Hc; try specialize (IH1 Hc); try specialize (IH2 Hc); lia.
Qed.

Lemma below_count k xs : Forall in_u64 xs → 0 ≤ k → below k xs = zlen (filter (λ x, x < 2 ^ k) (sample <$> xs)).
Proof.
  intros Hu Hk. unfold below. induction Hu as [|x xs Hx Hu IH]; [done|]. csimpl. rewrite !filter_cons.
  pose proof (sample_range x Hx). pose proof (Z.log2_lt_pow2 (sample x) k).
  repeat destruct (decide _); rewrite ?zlen_cons; try lia; tauto.
Qed.

(** ** Theorems *)

(** The histogram counts. Recording samples into an empty histogram never
    fails, and leaves in bucket [b] the number of samples whose binary
    logarithm is [b] (a zero counting as one), and their number and sum, all
    modulo 2^64. *)
Theorem histogram_counts xs :
  Forall in_u64 xs → record_all xs new_histogram = Ok (summary xs).
Proof. intros Hxs. rewrite <- summary_nil. by apply record_all_summary. Qed.

Lemma histogram_counts_witness : record_all [0; 5; 1000; 18446744073709551615] new_histogram =
  Ok (summary [0; 5; 1000; 18446744073709551615]).
Proof. apply histogram_counts. decided. Defined.

(** Merging two histograms is recording both lists of samples. *)
Theorem merge_records xs ys :
  Forall in_u64 xs → Forall in_u64 ys →
  ∃ hx hy, record_all xs new_histogram = Ok hx ∧ record_all ys new_histogram = Ok hy ∧
    record_all (xs ++ ys) new_histogram = Ok (merge hy hx).
Proof.
  intros Hx Hy. exists (summary xs), (summary ys). rewrite <- summary_nil, !record_all_summary by (done || by apply Forall_app).
  by rewrite merge_summary.
Qed.

Lemma merge_records_witness : ∃ hx hy, record_all [3; 4] new_histogram = Ok hx ∧
  record_all [4; 9] new_histogram = Ok hy ∧ record_all ([3; 4] ++ [4; 9]) new_histogram = Ok (merge hy hx).
Proof. apply merge_records; decided. Defined.

(** The scan finds the bucket of the sample of rank [target]. *)
Lemma scan_rank xs target v :
  Forall (λ x, 0 ≤ x < two63) xs → zlen xs < two64 →
  1 ≤ target → merge_sort Z.le (sample <$> xs) !! Z.to_nat (target - 1) = Some v →
  scan 0 (buckets_ (summary xs)) 0 target = Ok (2 ^ (Z.log2 v + 1)).
Proof.
  intros Hxs Hl Ht Hv.
  assert (Forall in_u64 xs) as Hu by (eapply Forall_impl; [exact Hxs|]; unfold in_u64; cbn; lia).
  set (l := merge_sort Z.le (sample <$> xs)) in *.
  assert (l ≡ₚ sample <$> xs) as Hp by apply merge_sort_Permutation.
  assert (StronglySorted Z.le l) as Hs by (apply (StronglySorted_merge_sort _)).
  assert (target ≤ zlen xs) as Ht2.
  { apply lookup_lt_Some in Hv. rewrite Hp, length_fmap in Hv. unfold zlen. lia. }
  destruct (scan_summary xs target 64 0) as (k & Hk & Hb & He); [done..| |].
  { change (Z.of_nat 0) with 0. rewrite below_0 by done. lia. }
  assert (k < 63) as Hk63.
  { destruct (Z.lt_ge_cases k 63) as [?|Hge]; [done|]. assert (k = 63) as -> by lia.
    rewrite (below_all 63) in Hb; [lia| |done|lia]. eapply Forall_impl; [exact Hxs|]. unfold sample. cbn.
    intros x Hx. destruct (x =? 0); change (2 ^ 63) with two63; lia. }
  replace (Z.log2 v) with k.
  - change (Z.of_nat 0) with 0 in He. rewrite below_0, shl_one_pow in He by (done || lia). exact He.
  - symmetry. rewrite !below_count in Hb by (done || lia). unfold zlen in Hb. rewrite <- !Hp in Hb.
    destruct (sorted_rank l _ v (2 ^ k) Hs Hv) as [_ H1]. destruct (sorted_rank l _ v (2 ^ (k + 1)) Hs Hv) as [H2 _].
    apply Z.log2_unique; [lia|]. rewrite <- Z.add_1_r. unfold zlen in *. lia.
Qed.

(** A rank of zero stops at the first bucket, whatever the samples. *)
Lemma scan_rank_zero xs : scan 0 (buckets_ (summary xs)) 0 0 = Ok 2.
Proof.
  cbn [summary buckets_ seq fmap list_fmap scan].
  match goal with |- context [u64 ?a >=? 0] => pose proof (u64_range a) as Hr; unfold in_u64 in Hr;
    destruct (Z.geb_spec (u64 a) 0); [|lia] end. reflexivity.
Qed.

(** The floating-point rank, and what the scan makes of it. *)
Lemma quantile_summary xs m e :
  Forall (λ x, 0 ≤ x < two63) xs → xs ≠ [] → zlen xs < 2 ^ 53 → e < 0 → Zpos m ≤ 2 ^ (- e) →
  ∃ t r, rank (S754_finite false m e) (summary xs) = Ok t ∧ quantile (S754_finite false m e) (summary xs) = Ok r ∧
    Zpos m * zlen xs / 2 ^ (- e) ≤ t ∧ 2 ^ (- e) * (t - 1) < Zpos m * zlen xs ∧
    (t = 0 ∧ r = 2 ∨ ∃ v, merge_sort Z.le (sample <$> xs) !! Z.to_nat (t - 1) = Some v ∧ r = 2 ^ (Z.log2 v + 1) ∧ v < r ≤ 2 * v).
Proof.
  intros Hxs Hne Hl He Hm.
  assert (0 < zlen xs) as H0 by (destruct xs; [done|]; rewrite zlen_cons; pose proof (zlen_nonneg xs); lia).
  destruct (dmul_whole m e (zlen xs) He Hm ltac:(lia)) as (t & Ht & H1 & H2). unfold quantile, rank.
  replace (count_ (summary xs)) with (zlen xs) by (cbn [count_ summary]; rewrite u64_small; [done|unfold in_u64; lia]).
  rewrite (proj2 (Z.eqb_neq (zlen xs) 0)), Ht by lia. cbn [rbind]. assert (0 < 2 ^ (- e)) by (apply Z.pow_pos_nonneg; lia).
  assert (0 ≤ t) as Ht0 by (eapply Z.le_trans; [|exact H1]; apply Z.div_pos; lia).
  destruct (Z.eq_dec t 0) as [-> |Hnz].
  { exists 0, 2. rewrite scan_rank_zero. do 4 (split; [done|]). by left. }
  assert (is_Some (merge_sort Z.le (sample <$> xs) !! Z.to_nat (t - 1))) as [v Hv].
  { apply lookup_lt_is_Some_2. rewrite merge_sort_Permutation, length_fmap. unfold zlen in *. nia. }
  exists t, (2 ^ (Z.log2 v + 1)). rewrite (scan_rank xs t v) by (done || lia). do 4 (split; [done|]). right. exists v.
  split; [done|]. split; [done|]. assert (0 < v) as Hv0.
  { apply list_elem_of_lookup_2 in Hv. rewrite merge_sort_Permutation in Hv. apply list_elem_of_fmap in Hv as (x & -> & Hx).
    rewrite Forall_forall in Hxs. specialize (Hxs x Hx). unfold sample. cbn in Hxs. destruct (Z.eqb_spec x 0); lia. }
  destruct (Z.log2_spec v Hv0) as [Hlo Hhi]. rewrite <- Z.add_1_r in Hhi. rewrite Z.pow_add_r in * by (pose proof (Z.log2_nonneg v); lia). lia.
Qed.

Lemma quantile_defined xs q m e :
  q = S754_finite false m e → Forall (λ x, 0 ≤ x < two63) xs → zlen xs < 2 ^ 53 → e < 0 → Zpos m ≤ 2 ^ (- e) →
  ∃ r, quantile q (summary xs) = Ok r.
Proof.
  intros -> Hxs Hl He Hm. destruct xs as [|x xs]; [by exists 0|].
  destruct (quantile_summary (x :: xs) m e) as (t & r & _ & Hr & _); [done..|]. by exists r.
Qed.


Definition hist_of (xs : list Z) : LogHistogram :=
  match record_all xs new_histogram with Ok h => h | _ => new_histogram end.


(** With one sample the median has rank zero: [quantile] returns 2 for a
    latency of a millisecond. *)
Theorem quantile_rank_zero : quantile (decimal 50 2) (hist_of [1000000]) = Ok 2.
Proof. vm_compute. reflexivity. Qed.

(** A sample of 2^63 or more in the bucket of the rank makes [quantile]
    shift by the width of the type. *)
Theorem quantile_shift_undefined :
  quantile (decimal 50 2) (hist_of [9223372036854775808; 9223372036854775808]) = Undef.
Proof. vm_compute. reflexivity. Qed.
