(* ===== verification/Logger.v ===== *)
(** * The logger

    Models [src/obs/logger.h]: one line on the error stream per call, printed
    with [%.*s], which takes its precision as an [int] and stops at a NUL. Also
    the layout of the JSON lines the benchmarks print. *)

From S2P Require Import Prelude Types Text.

Definition nul : ascii := char_of 0.
Definition newline : ascii := char_of 10.
Definition quote : ascii := char_of 34.

(** A line of the JSON texts the benchmarks print, and what separates two. *)
Definition json_line (k v : bytes) : bytes := B "  " ++ [quote] ++ k ++ [quote] ++ B ": " ++ v.
Definition json_sep : bytes := B "," ++ [newline].

Fixpoint until_nul (s : bytes) : bytes :=
  match s with
  | c :: s => if Ascii.eqb c nul then [] else c :: until_nul s
  | [] => []
  end.

(** [%.*s] of a view: at most its size cast to [int]. A negative precision
    counts as none, and the read then runs past the view. *)
Definition fmt_view (v : bytes) : res bytes :=
  let prec := i32 (zlen v) in
  if prec <? 0 then Undef else Ok (take (Z.to_nat prec) (until_nul v)).

Definition log_line (level tag msg : bytes) : res bytes :=
  let! t := fmt_view tag in
  let! m := fmt_view msg in
  Ok (level ++ t ++ B ": " ++ m ++ [newline]).
Definition log_info (tag msg : bytes) : res bytes := log_line (B "[INFO] ") tag msg.
Definition log_warn (tag msg : bytes) : res bytes := log_line (B "[WARN] ") tag msg.

(** ** What is printed *)

(** What a view prints: the whole of it when it is plain. *)
Definition printable (v : bytes) : Prop := nul ∉ v ∧ zlen v < two31.
#[global] Instance printable_dec v : Decision (printable v).
Proof. unfold printable. apply _. Defined.

Lemma until_nul_plain v : nul ∉ v → until_nul v = v.
Proof.
  induction v as [|c v IH]; intros Hv; [done|]. apply not_elem_of_cons in Hv as [Hc Hv]. cbn [until_nul].
  destruct (Ascii.eqb_spec c nul); [congruence|]. by rewrite IH.
Qed.
Lemma until_nul_length v : (length (until_nul v) ≤ length v)%nat.
Proof. induction v as [|c v IH]; [done|]. cbn [until_nul]. destruct (Ascii.eqb c nul); cbn [length]; lia. Qed.

Lemma fmt_view_short v : zlen v < two31 → fmt_view v = Ok (until_nul v).
Proof.
  intros Hl. pose proof (zlen_nonneg v). unfold fmt_view. rewrite i32_small by lia.
  destruct (Z.ltb_spec (zlen v) 0); [lia|]. rewrite take_ge; [done|].
  pose proof (until_nul_length v). unfold zlen. lia.
Qed.
Lemma fmt_view_plain v : printable v → fmt_view v = Ok v.
Proof. intros [Hn Hl]. by rewrite fmt_view_short, until_nul_plain. Qed.

Lemma log_line_plain level tag msg :
  printable tag → printable msg → log_line level tag msg = Ok (level ++ tag ++ B ": " ++ msg ++ [newline]).
Proof. intros Ht Hm. unfold log_line. by rewrite !fmt_view_plain. Qed.
