(* ===== verification/Main.v ===== *)
(** * The command line

    Models [main] of [src/main.cpp]: the options, the [MATCH_ALGO] environment
    variable. What [main] does with the configuration is in [Process]. *)

From S2P Require Import Prelude Types ProRata Matcher Text Session Server Threads.

(** ** Options *)

Definition set_host (v : bytes) (c : ServerConfig) : ServerConfig :=
  mkServerConfig v (sc_port c) (sc_sender_comp_id c) (sc_heartbeat_secs c) (sc_algo c).
Definition set_port (v : Z) (c : ServerConfig) : ServerConfig :=
  mkServerConfig (sc_host c) v (sc_sender_comp_id c) (sc_heartbeat_secs c) (sc_algo c).
Definition set_cfg_algo (v : MatchAlgo) (c : ServerConfig) : ServerConfig :=
  mkServerConfig (sc_host c) (sc_port c) (sc_sender_comp_id c) (sc_heartbeat_secs c) v.

(** The cast to [std::uint16_t]. *)
Definition u16 (z : Z) : Z := z mod 65536.
Definition algo_of (v : bytes) : MatchAlgo := if bool_decide (v = B "fifo") then Fifo else ProRata.

Definition initial_config : ServerConfig := set_port 9876 (set_host (B "127.0.0.1") default_config).

(** The loop over [argv] from index 1 on; an option without a value is passed
    over, as is any other word. *)
Fixpoint parse_args (args : list bytes) (c : ServerConfig) : res ServerConfig :=
  match args with
  | a :: ((v :: rest') as rest) =>
      if bool_decide (a = B "--port") then let! p := stoi v in parse_args rest' (set_port (u16 p) c)
      else if bool_decide (a = B "--host") then parse_args rest' (set_host v c)
      else if bool_decide (a = B "--algo") then parse_args rest' (set_cfg_algo (algo_of v) c)
      else parse_args rest c
  | _ => Ok c
  end.

(** The configuration; [env] is the value of [MATCH_ALGO]. *)
Definition main_config (args : list bytes) (env : option bytes) : res ServerConfig :=
  let! c := parse_args args initial_config in
  Ok (match env with Some v => set_cfg_algo (algo_of v) c | None => c end).

(** ** Theorems *)

(** Options as a user means them, and how they are written. *)
Inductive Setting := SPort (n : Z) | SHost (h : bytes) | SAlgo (a : MatchAlgo).
Definition written (o : Setting) : list bytes :=
  match o with
  | SPort n => [B "--port"; to_string n]
  | SHost h => [B "--host"; h]
  | SAlgo a => [B "--algo"; match a with Fifo => B "fifo" | ProRata => B "prorata" end]
  end.
Definition apply_setting (c : ServerConfig) (o : Setting) : ServerConfig :=
  match o with SPort n => set_port n c | SHost h => set_host h c | SAlgo a => set_cfg_algo a c end.
Definition setting_ok (o : Setting) : Prop := match o with SPort n => 0 ≤ n < 65536 | _ => True end.
#[global] Instance setting_ok_dec o : Decision (setting_ok o).
Proof. destruct o; apply _. Defined.

Lemma stoi_to_string n : 0 ≤ n < two31 → stoi (to_string n) = Ok n.
Proof. intros Hn. apply signed_scan_to_string; [unfold in_u64|]; lia. Qed.

Lemma parse_args_setting o rest c :
  setting_ok o → parse_args (written o ++ rest) c = parse_args rest (apply_setting c o).
Proof.
  intros Ho. destruct o as [n|h|a]; cbn [written Datatypes.app parse_args].
  - rewrite bool_decide_eq_true_2 by done. cbn in Ho. rewrite stoi_to_string by lia. cbn [rbind].
    unfold u16. by rewrite Z.mod_small.
  - by rewrite bool_decide_eq_false_2, bool_decide_eq_true_2 by done.
  - rewrite !(bool_decide_eq_false_2 (B "--algo" = _)), bool_decide_eq_true_2 by done. by destruct a.
Qed.

(** C37: the command line is read back. Options written out, in any order and
    number, set exactly what they say, a later one overriding an earlier one of
    its kind; without MATCH_ALGO nothing else changes, and with it the
    algorithm is the variable's, whatever the options say. *)
Theorem options_roundtrip os env :
  Forall setting_ok os →
  main_config (mjoin (written <$> os)) env =
    Ok (let c := foldl apply_setting initial_config os in
        match env with Some v => set_cfg_algo (algo_of v) c | None => c end).
Proof.
  intros Hos. unfold main_config. generalize initial_config. induction Hos as [|o os Ho _ IH]; intros c; [done|].
  change (mjoin (written <$> o :: os)) with (written o ++ mjoin (written <$> os)).
  rewrite parse_args_setting by done. apply IH.
Qed.

Lemma options_roundtrip_witness :
  main_config (mjoin (written <$> [SAlgo Fifo; SPort 80; SHost (B "::1"); SPort 8080])) (Some (B "lifo")) =
    Ok (let c := foldl apply_setting initial_config [SAlgo Fifo; SPort 80; SHost (B "::1"); SPort 8080] in
        match Some (B "lifo") with Some v => set_cfg_algo (algo_of v) c | None => c end).
Proof. apply options_roundtrip. decided. Defined.

(** A port outside 16 bits is not refused but reduced modulo 2^16. *)
Theorem port_wraps n env :
  0 ≤ n < two31 → ∃ c, main_config [B "--port"; to_string n] env = Ok c ∧ sc_port c = n mod 65536.
Proof.
  intros Hn. unfold main_config. cbn [parse_args]. rewrite bool_decide_eq_true_2, stoi_to_string by done.
  cbn [rbind]. eexists. split; [done|]. by destruct env.
Qed.

Lemma port_wraps_witness :
  ∃ c, main_config [B "--port"; to_string 65616] None = Ok c ∧ sc_port c = 65616 mod 65536.
Proof. apply port_wraps. lia. Defined.
