(* ===== verification/Process.v ===== *)
(** * The server process

    Models [main] of [src/main.cpp] from start to exit: the two log lines, the
    flag [g_stop] that the signal handler sets, the wait loop, the call of
    [stop], and the destructor of the server. The threads of the server go on
    in between, as in [Threads]. The theorem says that the process ends with
    code 1 exactly when the server could not start, and with code 0 only after
    everything has been joined; and that a signal leads there, unless a client
    does not read what it is sent. *)

From S2P Require Import Prelude Types Matcher Text Session Server Threads Stored ThreadTheorems Logger Main.

(** ** Starting *)

(** Where [main] is: in its wait loop, inside [srv.stop()], or returned. *)
Inductive MainPhase := Waiting | InStop | Exited (code : Z).
Record Process := mkProcess { phase : MainPhase; g_stop : bool; srv : TcpServer; log : bytes }.

(** The address [start] binds: [inet_pton] writes nothing when it cannot read
    the host, and the zeroed address stands for every interface. *)
Definition bind_address (inet_pton : bytes → option Z) (c : ServerConfig) : Z := default 0 (inet_pton (sc_host c)).

(** What [start] logs; [err] is the text [strerror] gives. *)
Definition start_log (r : Socket) (err : bytes) : res bytes :=
  match r with BindFailed => log_warn (B "tcp") (B "bind failed: " ++ err) | _ => Ok [] end.

Definition bound_port (s : TcpServer) : Z := bound_port_ s.

(** The destructor of [TcpServer] calls [stop]. *)
Definition destroy (s : TcpServer) : TcpServer := stop_call s.

(** [main] up to its wait loop. Assigning to a joinable thread would end the
    process. *)
Definition main_begin (args : list bytes) (env : option bytes) (r : Socket) (err : bytes) : res Process :=
  let! c := main_config args env in
  let! l0 := start_log r err in
  match start r (new_tcp c) with
  | Some (true, s) =>
      let! l := log_info (B "main") (B "listening on " ++ sc_host c ++ B ":" ++ to_string (bound_port s)) in
      Ok (mkProcess Waiting false s (l0 ++ l))
  | Some (false, s) =>
      let! l := log_warn (B "main") (B "server failed to start") in
      Ok (mkProcess (Exited 1) false (destroy s) (l0 ++ l))
  | None => Undef
  end.

(** ** Running *)

Definition on_sig (p : Process) : Process := mkProcess (phase p) true (srv p) (log p).

(** One turn of the wait loop. *)
Definition wait_turn (p : Process) : Process :=
  if g_stop p then mkProcess InStop (g_stop p) (stop_call (srv p)) (log p) else p.

(** After [stop]: the return, with the destructor's second call of [stop]. *)
Definition main_return (p : Process) : Process := mkProcess (Exited 0) (g_stop p) (destroy (srv p)) (log p).

Section process.
Context (W : Env → Net → Prop).

(** The steps of [main] itself; it comes back from its sleep after 100
    milliseconds, and from [stop] when [stop] has returned. *)
Inductive main_move : Process → Process → Prop :=
| move_turn p : phase p = Waiting → main_move p (wait_turn p)
| move_return p : phase p = InStop → stopping (srv p) = NotStopping → main_move p (main_return p).
(** The steps of the process but for signals. *)
Inductive proc_move : Process → Process → Prop :=
| move_main p p' : main_move p p' → proc_move p p'
| move_server p l s :
    (∀ code, phase p ≠ Exited code) → internal W l (srv p) (Running s) →
    proc_move p (mkProcess (phase p) (g_stop p) s (log p)).
Inductive proc_step : Process → Process → Prop :=
| proc_moves p p' : proc_move p p' → proc_step p p'
| proc_signal p : phase p = Waiting ∨ phase p = InStop → proc_step p (on_sig p).

(** ** Invariant *)

Definition at_rest (s : TcpServer) : Prop :=
  running_ s = false ∧ listen_fd_ s = -1 ∧ acceptor_ s = NoThread ∧ session_threads_ s = [] ∧ stopping s = NotStopping.

Definition proc_inv (cfg : ServerConfig) (started : bool) (p : Process) : Prop :=
  any_holds W cfg (srv p) ∧
  match phase p with
  | Waiting => started = true ∧ running_ (srv p) = true ∧ stopping (srv p) = NotStopping
  | InStop => started = true ∧ stop_inv (srv p)
  | Exited code => code = (if started then 0 else 1) ∧ at_rest (srv p)
  end.

Lemma internal_waiting l s s' :
  stopping s = NotStopping → internal W l s (Running s') → running_ s' = running_ s ∧ stopping s' = NotStopping.
Proof.
  intros Hst. inversion 1 as [r ? ? Hadm Ha|? ? Hs| |]; subst; [|unfold stop_step in Hs; by rewrite Hst in Hs|done].
  apply accept_step_keeps in Ha as (_ & _ & -> & _ & -> & _). done.
Qed.

(** The second call of [stop] does nothing. *)
Lemma destroy_at_rest s : stop_inv s → stopping s = NotStopping → destroy s = s ∧ at_rest s.
Proof.
  intros (Hr & Hfd & Ha & Ht) Hst. unfold destroy, stop_call, at_rest. rewrite Hr. rewrite Hst in *. split_and!; auto.
Qed.

Lemma any_stop_call cfg s : any_holds W cfg s → any_holds W cfg (stop_call s).
Proof.
  intros [H1 H2 _ H4]. destruct (stop_call_keeps s) as (E1 & E2 & _ & E4).
  split; [congruence|by rewrite E1|by apply Forall_true|by rewrite E4].
Qed.

Lemma proc_step_inv cfg b p p' : proc_inv cfg b p → proc_step p p' → proc_inv cfg b p'.
Proof.
  intros [Ha Hp] Hs. inversion Hs as [? ? Hm|? Hph]; subst; clear Hs;
    [inversion Hm as [? ? Hmm|? l s Hph Hi]; subst; clear Hm; [inversion Hmm as [? Hph|? Hph Hst]; subst; clear Hmm|]|].
  - unfold wait_turn. destruct (g_stop p); [|by split]. rewrite Hph in Hp. destruct Hp as (-> & Hr & Hst).
    split; [by apply any_stop_call|]. split; [done|]. by apply stop_call_inv.
  - rewrite Hph in Hp. destruct Hp as [-> Hp]. destruct (destroy_at_rest _ Hp Hst) as [Hd Hr].
    unfold proc_inv. cbn [phase srv main_return]. rewrite Hd. by split.
  - split; [eapply step_any; [exact Ha|by eapply step_internal]|].
    cbn [phase srv]. destruct (phase p) as [| |code] eqn:E; [..|by destruct (Hph code)].
    + destruct Hp as (-> & Hr & Hst). apply internal_waiting in Hi as [-> ->]; done.
    + destruct Hp as [-> Hp]. split; [done|]. eapply (stop_inv_moves W); [done|by eexists].
  - by split.
Qed.
Lemma proc_steps_inv cfg b p p' : proc_inv cfg b p → rtc proc_step p p' → proc_inv cfg b p'.
Proof. intros Hp. induction 1; eauto using proc_step_inv. Qed.

(** The flag is never reset. *)
Lemma flag_stays p p' : g_stop p = true → rtc proc_step p p' → g_stop p' = true.
Proof.
  intros Hg. induction 1 as [|p p1 p' Hs _ IH]; [done|]. apply IH.
  inversion Hs as [? ? Hq|]; subst; [|done]. inversion Hq as [? ? Hm|]; subst; [|done].
  inversion Hm; subst; [|done]. unfold wait_turn. by rewrite Hg.
Qed.

Lemma exited_stuck code p p' : phase p = Exited code → proc_move p p' → False.
Proof.
  intros Hp Hm. inversion Hm as [? ? Hmm|? l s Hx]; subst; [|by destruct (Hx code)]. inversion Hmm; subst; congruence.
Qed.

(** Once [stop] has been called the process comes to its end. *)
Lemma stop_finite s : Acc (flip (moves W)) s → ∀ p, srv p = s → phase p = InStop → Acc (flip proc_move) p.
Proof.
  induction 1 as [s _ IH]. intros p Hs Hph. constructor. intros p' Hm. red in Hm.
  inversion Hm as [? ? Hmm|? l s' Hne Hi]; subst; [inversion Hmm as [? Hw|? _ Hst]; subst; [congruence|]|].
  - constructor. intros p'' Hm'. destruct (exited_stuck 0 (main_return p) p''); [done|exact Hm'].
  - eapply IH; [|done|done]. by exists l.
Qed.

End process.

(** ** Theorem *)

Definition is_listening (r : Socket) : bool := match r with Listening _ _ => true | _ => false end.
Definition main_log (c : ServerConfig) (r : Socket) (err : bytes) : bytes :=
  match r with
  | Listening _ port => B "[INFO] main: listening on " ++ sc_host c ++ B ":" ++ to_string port ++ [newline]
  | BindFailed => B "[WARN] tcp: bind failed: " ++ err ++ [newline] ++ B "[WARN] main: server failed to start" ++ [newline]
  | _ => B "[WARN] main: server failed to start" ++ [newline]
  end.

Lemma main_begin_inv W args env r err c p :
  main_config args env = Ok c → main_begin args env r err = Ok p → proc_inv W c (is_listening r) p.
Proof.
  intros Hc. pose proof (new_holds W (server_typed any_clord) (λ _, True) c (new_server_typed _ _)) as [H1 H2 H3 H4].
  unfold main_begin. rewrite Hc. cbn [rbind]. destruct (start_log r err) as [l0| | |]; try done.
  cbn [rbind]. destruct r; cbn [start].
  1-3: destruct (log_warn _ _); try done; by intros [= <-].
  change (acceptor_ _) with NoThread. cbn [bound_port]. destruct (log_info _ _); try done. by intros [= <-].
Qed.

Lemma main_begin_log args env r err c :
  main_config args env = Ok c → printable (B "bind failed: " ++ err) →
  (∀ fd port, r = Listening fd port → printable (B "listening on " ++ sc_host c ++ B ":" ++ to_string port)) →
  ∃ p, main_begin args env r err = Ok p ∧ log p = main_log c r err.
Proof.
  intros Hc He Hh. unfold main_begin. rewrite Hc. cbn [rbind].
  destruct r as [| |port|fd port]; cbn [start_log start]; unfold log_warn, log_info.
  2: rewrite (log_line_plain _ (B "tcp")); [|decided|exact He].
  4: { change (acceptor_ _) with NoThread. cbn [rbind]. rewrite log_line_plain; [|decided|by apply (Hh fd)].
    cbn [rbind]. eexists. split; [done|]. cbn [log Datatypes.app]. unfold main_log. app_normal. }
  all: rewrite (log_line_plain _ (B "main")) by decided; cbn [rbind]; eexists; (split; [done|]);
    cbn [log Datatypes.app]; unfold main_log; app_normal.
Qed.

(** C34: the life of the process. [main] on readable options always gets past
    its start and logs exactly one of the documented lines (two when [bind]
    fails). From there, whatever the clients, the threads and the signals do:
    when [main] has returned, the server is not running, its listening socket
    is closed, the acceptor and every session thread have been joined, and the
    exit code is 0 if the server had started and 1 if not. While [main] waits
    its next turn is possible, and once a signal has come, however long that
    turn takes to come, it does not go on waiting but calls [stop]. Once in
    [stop] the process cannot run forever; and until [main] returns it has a
    step that needs nothing from outside, or a session thread is inside a call
    of [send] that blocks because its client does not read. *)
Theorem main_lifecycle W args env r err c :
  main_config args env = Ok c → printable (B "bind failed: " ++ err) →
  (∀ fd port, r = Listening fd port → printable (B "listening on " ++ sc_host c ++ B ":" ++ to_string port)) →
  ∃ p0, main_begin args env r err = Ok p0 ∧ log p0 = main_log c r err ∧
  ∀ p, rtc (proc_step W) p0 p →
    (∀ code, phase p = Exited code → code = (if is_listening r then 0 else 1) ∧ at_rest (srv p)) ∧
    (phase p = Waiting → ∃ p', main_move p p') ∧
    (g_stop p = true → ∀ p1 p2, rtc (proc_step W) p p1 → main_move p1 p2 → phase p1 = Waiting →
       phase p2 = InStop ∧ srv p2 = stop_call (srv p1)) ∧
    (phase p = InStop →
       Acc (flip (proc_move W)) p ∧
       ((∃ p', main_move p p') ∨ (∃ l o, internal W l (srv p) o ∧ prompt (srv p) o) ∨
        ∃ t, t ∈ session_threads_ (srv p) ∧ unread t)).
Proof.
  intros Hc He Hh. destruct (main_begin_log args env r err c Hc He Hh) as (p0 & Hp0 & Hlog).
  exists p0. split; [done|]. split; [done|]. intros p Hr.
  destruct (proc_steps_inv W c (is_listening r) _ _ (main_begin_inv W _ _ _ _ _ _ Hc Hp0) Hr) as [Ha Hp].
  split_and!.
  - intros code Hph. by rewrite Hph in Hp.
  - intros Hph. eexists. by apply move_turn.
  - intros Hg p1 p2 H1 Hm Hw. pose proof (flag_stays W _ _ Hg H1) as Hg1. inversion Hm as [? _|? Hph]; subst; [|congruence].
    unfold wait_turn. by rewrite Hg1.
  - intros Hph. rewrite Hph in Hp. destruct Hp as [_ Hp]. split.
    { eapply stop_finite; [|done|done]. apply moves_finite. by destruct Hp. }
    assert (stopping (srv p) = NotStopping ∨ stopping (srv p) ≠ NotStopping) as [Hst|Hst]
      by (destruct (stopping (srv p)); auto).
    { left. eexists. by apply move_return. }
    right. destruct (stop_progress _ Hp (h_shared _ _ _ _ _ Ha) Hst) as [(o & Ho)|Hu]; [left|by right].
    destruct (prompt_internal W _ _ Ho) as (l & Hl). eauto.
Qed.

Lemma main_lifecycle_witness :
  ∃ p0, main_begin [B "--port"; B "80"] None (Listening 3 80) [] = Ok p0 ∧
    log p0 = main_log (set_port 80 initial_config) (Listening 3 80) [] ∧
  ∀ p, rtc (proc_step ex_world) p0 p →
    (∀ code, phase p = Exited code → code = (if is_listening (Listening 3 80) then 0 else 1) ∧ at_rest (srv p)) ∧
    (phase p = Waiting → ∃ p', main_move p p') ∧
    (g_stop p = true → ∀ p1 p2, rtc (proc_step ex_world) p p1 → main_move p1 p2 → phase p1 = Waiting →
       phase p2 = InStop ∧ srv p2 = stop_call (srv p1)) ∧
    (phase p = InStop →
       Acc (flip (proc_move ex_world)) p ∧
       ((∃ p', main_move p p') ∨ (∃ l o, internal ex_world l (srv p) o ∧ prompt (srv p) o) ∨
        ∃ t, t ∈ session_threads_ (srv p) ∧ unread t)).
Proof.
  apply (main_lifecycle ex_world [B "--port"; B "80"] None (Listening 3 80) [] (set_port 80 initial_config)).
  - vm_compute. reflexivity.
  - decided.
  - intros fd port [= <- <-]. decided.
Defined.

(** A host that is not an IPv4 address is not refused: the server listens on
    every interface, and the log names the host it was given. *)
Lemma unreadable_host_binds_all inet_pton c :
  inet_pton (sc_host c) = None → bind_address inet_pton c = 0.
Proof. unfold bind_address. by intros ->. Qed.
