(* ===== verification/ReplayBench.v ===== *)
(** * The replay benchmark: its client

    Models the client of [bench/replay_bench.cpp]: the orders it sends, how it
    waits for a report and drains the socket, and the loop that pairs the two.
    What the socket delivers is a script: pieces of data, or polls and reads
    that end a loop; what [send] returns is the class [Net]. The random price
    offsets and the measured times are the class [BenchEnv]. [main] is in
    [BenchMain]. *)

From S2P Require Import Prelude Histogram Types PriceLevel SortedMap OrderBook BookRep BookProps ProRata Matcher FillProps MatchSpec MatchProps SubmitProps TradeProps Engine Text Messages Serializer Parser ParserProps CodecProps CodecTheorems Session SessionProps Resend UtcClock SessionTheorems Server ServerTheorems Reports Conversation.

(** ** Messages *)

Definition bench_time : bytes := B "20260513-00:00:00.000".
Definition bench_body (sq : SeqNum) (clord : bytes) (side : ascii) (px qty : Z) : list (Z * bytes) :=
  [(tag_MsgType, mt_NewOrderSingle); (tag_SenderCompID, B "CLIENT"); (tag_TargetCompID, B "OBFIX");
   (tag_MsgSeqNum, to_string sq); (tag_SendingTime, bench_time); (tag_ClOrdID, clord); (tag_Symbol, B "SYM");
   (tag_Side, [side]); (tag_OrderQty, to_string qty); (tag_Price, to_string px); (tag_OrdType, B "2");
   (tag_TransactTime, bench_time)].
Definition logon_fields : list (Z * bytes) :=
  [(tag_MsgType, mt_Logon); (tag_SenderCompID, B "CLIENT"); (tag_TargetCompID, B "OBFIX");
   (tag_MsgSeqNum, B "1"); (tag_SendingTime, bench_time); (108, B "30")].
Definition bench_logon : bytes := build kSohWire logon_fields.

(** The order of iteration [i] of a block, with the price offset [off]. *)
Definition block_body (base : SeqNum) (i : nat) (off : Z) : list (Z * bytes) :=
  let sq := u64 (base + Z.of_nat i) in
  bench_body sq (B "o-" ++ to_string sq) (if Nat.even i then "1"%char else "2"%char) (10000 + off) 100.

(** ** The socket *)

(** Data that [recv] returns, a poll that finds nothing, or the end. *)
Inductive Delivery := Data (b : bytes) | Nothing | Ended.

Fixpoint drain_nonblocking (script : list Delivery) (buf : bytes) : bool * bytes * list Delivery :=
  match script with
  | Data b :: script => drain_nonblocking script (buf ++ b)
  | Nothing :: script => (true, buf, script)
  | Ended :: script => (false, buf, script)
  | [] => (true, buf, [])
  end.

(** The inner loop of [wait_for_exec_report]: [Some] when it returns. *)
Fixpoint pop_report (fuel : nat) (buf : bytes) : res (option bool * bytes) :=
  match buf, fuel with
  | [], _ => Ok (None, [])
  | _, O => Hang
  | _, S fuel =>
      let! r := parse_one kSohWire buf in
      match err r with
      | Incomplete => Ok (None, buf)
      | None_ =>
          let buf := drop (Z.to_nat (consumed r)) buf in
          if bool_decide (msg_type (msg r) = mt_ExecutionReport) then Ok (Some true, buf) else pop_report fuel buf
      | _ => Ok (Some false, [])
      end
  end.

(** The outer loop; a poll that times out, a passed deadline and a read
    that fails all end it. *)
Fixpoint wait_for_exec_report (script : list Delivery) (buf : bytes) : res (bool * bytes * list Delivery) :=
  let! '(r, buf) := pop_report (length buf) buf in
  match r with
  | Some ok => Ok (ok, buf, script)
  | None =>
      match script with
      | Data b :: script => wait_for_exec_report script (buf ++ b)
      | _ :: script => Ok (false, buf, script)
      | [] => Ok (false, buf, [])
      end
  end.

(** The [k]-th draw of the price offset and the nanoseconds between the two
    clock readings of that iteration. *)
Class BenchEnv := mkBenchEnv { px_off : nat → Z; elapsed : nat → Z }.

(** The client: its socket, what it has sent, the receive buffer, what the
    socket will deliver, and the number of draws so far. *)
Record Client := mkClient {
  cl_fd : Z;
  cl_sends : nat;
  cl_wire : bytes;
  cl_buf : bytes;
  cl_script : list Delivery;
  cl_draws : nat
}.
Definition cl_transmit (b : bytes) (c : Client) : Client :=
  mkClient (cl_fd c) (S (cl_sends c)) (cl_wire c ++ b) (cl_buf c) (cl_script c) (cl_draws c).
Definition cl_input (buf : bytes) (script : list Delivery) (c : Client) : Client :=
  mkClient (cl_fd c) (cl_sends c) (cl_wire c) buf script (cl_draws c).
Definition cl_draw (c : Client) : Client :=
  mkClient (cl_fd c) (cl_sends c) (cl_wire c) (cl_buf c) (cl_script c) (S (cl_draws c)).

Section client.
Context `{Net} `{BenchEnv}.

(** The [while] loop of [send_all]; a count beyond the rest would move the
    pointer out of it. *)
Fixpoint send_all_loop (fuel : nat) (p : bytes) (c : Client) : res (bool * Client) :=
  match p, fuel with
  | [], _ => Ok (true, c)
  | _, O => Hang
  | _, S fuel =>
      match net_send (cl_fd c) (cl_sends c) p with
      | Blocks => Hang
      | Sigpipe => Throw broken_pipe
      | Count w =>
          if w <=? 0 then Ok (false, cl_transmit [] c)
          else if w >? zlen p then Undef
          else send_all_loop fuel (drop (Z.to_nat w) p) (cl_transmit (take (Z.to_nat w) p) c)
      end
  end.
Definition send_all (p : bytes) (c : Client) : res (bool * Client) := send_all_loop (length p) p c.

(** The loop of [run_block] from iteration [i] on. *)
Fixpoint run_block (measure : bool) (n : nat) (base : SeqNum) (i : nat) (c : Client) (hist : LogHistogram) :
    res (bool * Client * LogHistogram) :=
  match n with
  | O => Ok (true, c, hist)
  | S n =>
      let msg := build kSohWire (block_body base i (px_off (cl_draws c))) in
      let ns := elapsed (cl_draws c) in
      let! '(sent, c) := send_all msg (cl_draw c) in
      if negb sent then Ok (false, c, hist)
      else
        let! '(ok, buf, script) := wait_for_exec_report (cl_script c) (cl_buf c) in
        let c := cl_input buf script c in
        if negb ok then Ok (false, c, hist)
        else
          let! hist := if measure then record (u64 ns) hist else Ok hist in
          let '(ok, buf, script) := drain_nonblocking (cl_script c) (cl_buf c) in
          let c := cl_input buf script c in
          if negb ok then Ok (false, c, hist) else run_block measure n base (S i) c hist
  end.

End client.

(** ** What a measurement waits for *)

Definition payload (script : list Delivery) : bytes :=
  mjoin ((λ d, match d with Data b => b | _ => [] end) <$> script).

Lemma drain_payload script : ∀ buf ok buf' script',
  drain_nonblocking script buf = (ok, buf', script') → buf' ++ payload script' = buf ++ payload script.
Proof.
  induction script as [|[b| |] script IH]; intros buf ok buf' script'; cbn [drain_nonblocking]; try by intros [= _ <- <-].
  intros ->%IH. unfold payload. csimpl. by rewrite app_assoc.
Qed.

(** The stream read on from behind its first message. *)
Lemma decodes_first soh buf more m ms r :
  Separator soh → zlen (buf ++ more) < two64 - 7 → decodes soh (buf ++ more) (m :: ms) →
  parse_one soh buf = Ok r → err r ≠ Incomplete →
  err r = None_ ∧ msg r = m ∧ decodes soh (drop (Z.to_nat (consumed r)) buf ++ more) ms.
Proof.
  intros Hsep Hz Hd Hp Hi. pose proof (parse_one_more soh buf more r Hz Hp Hi) as Hp'.
  inversion Hd as [|w rest m' ms' Hw Hrest Heq]; subst. rewrite <- Heq, Hw in Hp'. injection Hp' as <-.
  cbn [err msg consumed]. split; [done|]. split; [done|].
  destruct (parse_consumed soh buf (mkParseResult None_ (zlen w) m)) as [_ Hle];
    [rewrite zlen_app in Hz; pose proof (zlen_nonneg more); lia|done|done|]. cbn [consumed] in Hle.
  rewrite <- drop_app_le by (unfold zlen in *; lia). rewrite <- Heq.
  unfold zlen. rewrite Nat2Z.id, drop_app_length. done.
Qed.

Lemma pop_report_first fuel : ∀ buf more ms r buf',
  zlen (buf ++ more) < two64 - 7 → decodes kSohWire (buf ++ more) ms →
  Forall (λ m, msg_type m = mt_ExecutionReport) ms → pop_report fuel buf = Ok (r, buf') →
  match r with
  | Some ok => ok = true ∧ ms ≠ [] ∧ decodes kSohWire (buf' ++ more) (drop 1 ms) ∧ zlen buf' ≤ zlen buf
  | None => buf' = buf
  end.
Proof.
  intros buf more ms r buf' Hz Hd Hall. destruct fuel as [|fuel], buf as [|c buf]; cbn [pop_report];
    try by intros [= <- <-]. set (b := c :: buf) in *.
  destruct (parse_one kSohWire b) as [pr| | |] eqn:Hp; try done. cbn [rbind].
  destruct (decide (err pr = Incomplete)) as [Hi|Hi]; [rewrite Hi; by intros [= <- <-]|].
  destruct ms as [|m ms].
  { by inversion Hd. }
  destruct (decodes_first _ b more m ms pr wire_separator Hz Hd Hp Hi) as (-> & -> & Hd').
  apply Forall_cons in Hall as [Hm _]. rewrite bool_decide_eq_true_2 by done. intros [= <- <-].
  split_and!; try done. unfold zlen. rewrite length_drop. lia.
Qed.

Lemma wait_first script : ∀ buf ms buf' script',
  zlen (buf ++ payload script) < two64 - 7 → decodes kSohWire (buf ++ payload script) ms →
  Forall (λ m, msg_type m = mt_ExecutionReport) ms →
  wait_for_exec_report script buf = Ok (true, buf', script') →
  ms ≠ [] ∧ decodes kSohWire (buf' ++ payload script') (drop 1 ms) ∧
  zlen (buf' ++ payload script') ≤ zlen (buf ++ payload script).
Proof.
  induction script as [|d script IH]; intros buf ms buf' script' Hz Hd Hall; cbn [wait_for_exec_report];
    (destruct (pop_report (length buf) buf) as [[r b]| | |] eqn:Hp; try done); cbn [rbind];
    pose proof (pop_report_first _ _ _ _ _ _ Hz Hd Hall Hp) as Hr; 
    (destruct r as [ok|];
     [destruct Hr as (-> & ? & ? & ?); intros [= <- <-]; (split; [done|]); (split; [done|]); rewrite !zlen_app; lia|]); [done|].
  destruct d as [x| |]; try done. subst b. intros Hw.
  assert (payload (Data x :: script) = x ++ payload script) as Hpl by done. rewrite Hpl, app_assoc in *.
  by apply (IH (buf ++ x)).
Qed.

(** What an iteration leaves alone of the client, and what it has sent. *)
Lemma send_all_keeps `{Net} fuel : ∀ p c ok c',
  send_all_loop fuel p c = Ok (ok, c') →
  cl_fd c' = cl_fd c ∧ cl_buf c' = cl_buf c ∧ cl_script c' = cl_script c ∧ cl_draws c' = cl_draws c ∧
  (ok = true → cl_wire c' = cl_wire c ++ p).
Proof.
  induction fuel as [|fuel IH]; intros [|a p] c ok c'; cbn [send_all_loop]; try done.
  1,2: intros [= <- <-]; by rewrite app_nil_r.
  set (q := a :: p) in *. destruct (net_send (cl_fd c) (cl_sends c) q) as [w| |]; try done.
  destruct (Z.leb_spec w 0); [by intros [= <- <-]|]. destruct (Z.gtb_spec w (zlen q)); [done|].
  intros (Q1 & Q2 & Q3 & Q4 & Q5)%IH. do 4 (split; [done|]). intros Hok. rewrite (Q5 Hok). cbn [cl_wire cl_transmit].
  by rewrite <- app_assoc, take_drop.
Qed.

(** On a socket whose peer reads, everything is sent. *)
Lemma send_all_up `{Net} (L : NetLaws) fuel : ∀ p c,
  (length p ≤ fuel)%nat → up (cl_fd c) → ∃ c', send_all_loop fuel p c = Ok (true, c').
Proof.
  induction fuel as [|fuel IH]; intros [|a p] c Hf Hup; cbn [send_all_loop]; try (cbn in Hf; lia); [by eexists..|].
  set (q := a :: p) in *. destruct (Hup (cl_sends c) q ltac:(done)) as (w & Hn & Hpos). rewrite Hn.
  apply net_send_le in Hn as Hw. destruct (Z.leb_spec w 0); [lia|]. destruct (Z.gtb_spec w (zlen q)); [lia|].
  apply IH; [rewrite length_drop; lia|done].
Qed.
Lemma send_all_whole `{Net} (L : NetLaws) p c :
  up (cl_fd c) → ∃ c', send_all p c = Ok (true, c') ∧ cl_fd c' = cl_fd c ∧ cl_buf c' = cl_buf c ∧
    cl_script c' = cl_script c ∧ cl_draws c' = cl_draws c ∧ cl_wire c' = cl_wire c ++ p.
Proof.
  intros Hup. destruct (send_all_up L (length p) p c) as (c' & He); [done..|]. exists c'. split; [done|].
  destruct (send_all_keeps _ _ _ _ _ He) as (? & ? & ? & ? & Hw). split_and!; auto.
Qed.

(** The times of [n] iterations from draw [k] on, and their orders. *)
Definition times `{BenchEnv} (k n : nat) : list Z := (λ j, u64 (elapsed j)) <$> List.seq k n.
Fixpoint sent_orders `{BenchEnv} (base : SeqNum) (i k n : nat) : list (list (Z * bytes)) :=
  match n with
  | O => []
  | S n => block_body base i (px_off k) :: sent_orders base (S i) (S k) n
  end.

(** C39: the n-th measurement ends at the n-th report. Whatever the orders
    are and however the bytes arrive, when a block of [n] iterations succeeds
    on a stream of ExecutionReports, the client has sent exactly its [n]
    orders and its waits have consumed exactly the first [n] reports: a report
    left over from one order is what the next order's measurement waits for.
    The times it measured are what the histogram has recorded, one per
    iteration. *)
Theorem nth_wait_takes_nth_report `{Net} `{BenchEnv} measure n base i c hist ms c' hist' :
  zlen (cl_buf c ++ payload (cl_script c)) < two64 - 7 →
  decodes kSohWire (cl_buf c ++ payload (cl_script c)) ms →
  Forall (λ m, msg_type m = mt_ExecutionReport) ms →
  run_block measure n base i c hist = Ok (true, c', hist') →
  (n ≤ length ms)%nat ∧ decodes kSohWire (cl_buf c' ++ payload (cl_script c')) (drop n ms) ∧
  cl_wire c' = cl_wire c ++ mjoin (build kSohWire <$> sent_orders base i (cl_draws c) n) ∧
  (if measure then record_all (times (cl_draws c) n) hist = Ok hist' else hist' = hist).
Proof.
  revert i c ms hist. induction n as [|n IH]; intros i c ms hist Hz Hd Hall; cbn [run_block].
  { intros [= <- <-]. split; [lia|]. split; [done|]. split; [by rewrite app_nil_r|by destruct measure]. }
  set (m0 := build kSohWire _).
  unfold send_all. destruct (send_all_loop (length m0) m0 (cl_draw c)) as [[[] c1]| | |] eqn:He; try done. cbn [rbind negb].
  apply send_all_keeps in He as (Hfd & Hb & Hsc & Hdr & Hw). specialize (Hw eq_refl).
  cbn [cl_draw cl_fd cl_buf cl_script cl_draws cl_wire] in *. rewrite Hb, Hsc.
  destruct (wait_for_exec_report (cl_script c) (cl_buf c)) as [[[[] b1] sc1]| | |] eqn:Hwt; try done. cbn [rbind negb].
  destruct (wait_first _ _ _ _ _ Hz Hd Hall Hwt) as (Hne & Hd1 & Hz1). destruct ms as [|m ms]; [done|]. cbn [drop] in Hd1.
  apply Forall_cons in Hall as [_ Hall].
  destruct (if measure then _ else _) as [h1| | |] eqn:Hh; try done. cbn [rbind cl_script cl_buf cl_input].
  destruct (drain_nonblocking sc1 b1) as [[[] b2] sc2] eqn:Hdn; [|done]. apply drain_payload in Hdn. cbn [negb]. intros Hrun.
  destruct (IH (S i) (cl_input b2 sc2 (cl_input b1 sc1 c1)) ms h1) as (Hlen & Hd2 & Hw2 & Hrec);
    cbn [cl_input cl_buf cl_script cl_draws cl_wire] in *; [rewrite Hdn; lia|by rewrite Hdn|done|done|].
  rewrite Hdr in Hw2, Hrec. split; [cbn; lia|]. split; [done|]. split.
  { rewrite Hw2, Hw, <- app_assoc. done. }
  destruct measure; [|congruence]. unfold times in *. cbn [List.seq]. rewrite fmap_cons. cbn [record_all].
  by rewrite Hh.
Qed.

(** Three orders: the second one trades, so that the report of its trade is
    what the third one's wait takes. *)
Definition ex_report (n : Z) (clord : string) (exec : string) : bytes :=
  build kSohWire [(tag_MsgType, mt_ExecutionReport); (tag_MsgSeqNum, to_string n); (tag_ClOrdID, B clord);
    (tag_ExecType, B exec)].
Definition ex_read (w : bytes) : Message :=
  match parse_one kSohWire w with Ok r => msg r | _ => empty_message end.
Definition ex_script : list Delivery :=
  [Data (ex_report 2 "o-2" "0"); Nothing; Data (ex_report 3 "o-3" "0" ++ ex_report 4 "o-3" "F"); Nothing; Nothing].
Definition ex_reports : list Message :=
  [ex_read (ex_report 2 "o-2" "0"); ex_read (ex_report 3 "o-3" "0"); ex_read (ex_report 4 "o-3" "F")].

Lemma ex_script_decodes : decodes kSohWire ([] ++ payload ex_script) ex_reports.
Proof.
  change ([] ++ payload ex_script) with (ex_report 2 "o-2" "0" ++ ex_report 3 "o-3" "0" ++ ex_report 4 "o-3" "F" ++ []).
  repeat (apply decodes_cons; [vm_compute; reflexivity|]). constructor.
Qed.

#[global] Instance ex_bench_env : BenchEnv :=
  mkBenchEnv (λ k, Z.of_nat (k mod 11) - 5) (λ k, 40000 + 15000 * Z.of_nat k).
Definition ex_client : Client := mkClient 4 0 [] [] ex_script 0.
Definition ex_client_done : Client :=
  match run_block true 3 2 0 ex_client new_histogram with Ok (_, c, _) => c | _ => ex_client end.

Lemma nth_wait_takes_nth_report_witness :
  (3 ≤ length ex_reports)%nat ∧
  decodes kSohWire (cl_buf ex_client_done ++ payload (cl_script ex_client_done)) (drop 3 ex_reports) ∧
  cl_wire ex_client_done = cl_wire ex_client ++ mjoin (build kSohWire <$> sent_orders 2 0 (cl_draws ex_client) 3) ∧
  record_all (times (cl_draws ex_client) 3) new_histogram = Ok (hist_of [40000; 55000; 70000]).
Proof.
  apply (nth_wait_takes_nth_report true 3 2 0 ex_client new_histogram ex_reports);
    [vm_compute; reflexivity|exact ex_script_decodes|decided|vm_compute; reflexivity].
Defined.

(** ** The orders of a block *)

(** The messages and orders of the iterations from [i] on. *)
Fixpoint block_bodies (base : SeqNum) (i : nat) (offs : list Z) : list (list (Z * bytes)) :=
  match offs with
  | [] => []
  | off :: offs => block_body base i off :: block_bodies base (S i) offs
  end.
Fixpoint block_ops (base : SeqNum) (i : nat) (id : OrderId) (offs : list Z) : list Op :=
  match offs with
  | [] => []
  | off :: offs =>
      OpSubmit (mkOrder id 0 (B "o-" ++ to_string (u64 (base + Z.of_nat i))) (if Nat.even i then Buy else Sell) Limit
                  (10000 + off) 100 100 0 None None) :: block_ops base (S i) (u64 (id + 1)) offs
  end.

Lemma block_body_ok base i off : body_ok kSohWire (block_body base i off).
Proof.
  assert (plain_separator kSohWire) as Hp by by left.
  assert (∀ z, kSohWire ∉ to_string z) as Hn by (intros z; by apply to_string_clean).
  unfold block_body, bench_body. set (x := to_string (u64 (base + Z.of_nat i))) in *. pose proof (Hn (u64 (base + Z.of_nat i))) as Hx.
  fold x in Hx. set (y := to_string (10000 + off)). pose proof (Hn (10000 + off)) as Hy. fold y in Hy.
  assert (kSohWire ∉ B "o-" ++ x) as Hc by (apply not_elem_of_app; split; [literal|done]).
  set (cl := B "o-" ++ x) in *. clearbody x y cl. split; [|split; decided].
  repeat (apply Forall_cons_2; [split; [by vm_compute|cbn [snd]; first [assumption|literal|idtac]]|]); [|by apply Forall_nil_2].
  destruct (Nat.even i); literal.
Qed.

Lemma block_order base i off id :
  0 ≤ 10000 + off < two63 →
  app_op (read_back (block_body base i off)) id =
    Ok (Some (OpSubmit (mkOrder id 0 (B "o-" ++ to_string (u64 (base + Z.of_nat i))) (if Nat.even i then Buy else Sell)
          Limit (10000 + off) 100 100 0 None None))).
Proof.
  intros Hoff. pose proof (block_body_ok base i off) as Hok.
  assert (∀ t v, (t, v) ∈ block_body base i off → get t (read_back (block_body base i off)) = Some v) as Hget
    by (intros; by apply body_value).
  set (m := read_back _) in *. clearbody m. unfold block_body, bench_body in Hget.
  unfold app_op, order_of, value_or, msg_type. fold (get tag_MsgType m).
  rewrite (Hget tag_MsgType mt_NewOrderSingle), (Hget tag_Price (to_string (10000 + off))),
    (Hget tag_OrderQty (to_string 100)), (Hget tag_ClOrdID (B "o-" ++ to_string (u64 (base + Z.of_nat i)))),
    (Hget tag_Side [if Nat.even i then "1"%char else "2"%char]) by (rewrite !elem_of_cons; tauto).
  rewrite bool_decide_eq_true_2 by done. cbn [from_option Datatypes.id]. unfold stoll. rewrite signed_scan_to_string by (unfold in_u64; lia). cbn [rbind].
  rewrite stoull_to_string by decided. cbn [rbind front]. by destruct (Nat.even i).
Qed.

Lemma block_app_ops base offs : ∀ i id,
  Forall (λ off, -5 ≤ off ≤ 5) offs →
  app_ops (read_back <$> block_bodies base i offs) id = Ok (block_ops base i id offs).
Proof.
  induction offs as [|off offs IH]; intros i id Ho; cbn [block_bodies block_ops]; [done|].
  apply Forall_cons in Ho as [H1 Ho]. rewrite fmap_cons. cbn [app_ops]. rewrite block_order by lia. cbn [rbind next_id].
  by rewrite IH.
Qed.

Lemma block_keys base offs : ∀ i id,
  order_key <$> submitted (block_ops base i id offs) =
    (λ k, (0, B "o-" ++ to_string (u64 (base + Z.of_nat k)))) <$> List.seq i (length offs).
Proof.
  induction offs as [|off offs IH]; intros i id; [done|]. cbn [block_ops length List.seq]. unfold submitted in *. csimpl.
  by rewrite IH.
Qed.

Lemma block_leaves base offs : ∀ i id, o_leaves <$> submitted (block_ops base i id offs) = replicate (length offs) 100.
Proof.
  induction offs as [|off offs IH]; intros i id; [done|]. cbn [block_ops length replicate]. unfold submitted in *. csimpl.
  by rewrite IH.
Qed.

(** The engine's and the server's safety theorems apply to the block. *)
Lemma block_feed base offs :
  0 ≤ base → base + zlen offs < two64 → Forall (λ off, -5 ≤ off ≤ 5) offs →
  ∃ ops, app_ops (read_back <$> block_bodies base 0 offs) 1 = Ok ops ∧ feed_ok [] ops ∧
    submitted_qty ops = 100 * zlen offs.
Proof.
  intros Hb Hl Ho.
  exists (block_ops base 0 1 offs). split; [by apply block_app_ops|].
  assert (submitted_qty (block_ops base 0 1 offs) = 100 * zlen offs) as Hsum.
  { unfold submitted_qty. rewrite block_leaves, sumz_const. unfold zlen. lia. }
  split; [|done]. split.
  + rewrite app_nil_l, block_keys. apply NoDup_fmap_2_strong; [|apply NoDup_seq].
    intros x y Hx%elem_of_seq Hy%elem_of_seq [= He].
    unfold zlen in *. rewrite !u64_small in He by (unfold in_u64; lia).
    apply to_string_inj in He; unfold in_u64; lia.
  + apply (Forall_fmap o_leaves (Z.le 0)). rewrite block_leaves. by apply Forall_replicate.
Qed.

(** The benchmark's own feed is admissible. The orders of a block, whatever
    the random offsets, are serialized so that the server reads them back as
    limit orders of 100 with distinct ClOrdIDs; the feed satisfies what the
    engine's and the server's safety theorems ask for. *)
Theorem bench_feed_admissible base offs :
  0 ≤ base → base + zlen offs < two64 → 100 * zlen offs < two63 → Forall (λ off, -5 ≤ off ≤ 5) offs →
  Forall (λ b, ∀ rest, zlen (build kSohWire b ++ rest) < two64 →
    parse_one kSohWire (build kSohWire b ++ rest) =
      Ok (mkParseResult None_ (zlen (build kSohWire b)) (read_back b))) (block_bodies base 0 offs) ∧
  ∃ ops, app_ops (read_back <$> block_bodies base 0 offs) 1 = Ok ops ∧ feed_ok [] ops ∧
    submitted_qty ops = 100 * zlen offs ∧ submitted_qty ops < two63.
Proof.
  intros Hb Hl Hq Ho. split.
  - clear. generalize 0%nat. induction offs as [|off offs IH]; intros i; cbn [block_bodies]; [by apply Forall_nil_2|].
    apply Forall_cons_2; [|apply IH]. intros rest Hz. apply build_parses; [apply _|apply block_body_ok|done].
  - destruct (block_feed base offs) as (ops & H1 & H2 & H3); [done..|]. exists ops. split; [done|]. split; [done|]. lia.
Qed.

Lemma bench_feed_admissible_witness :
  Forall (λ b, ∀ rest, zlen (build kSohWire b ++ rest) < two64 →
    parse_one kSohWire (build kSohWire b ++ rest) =
      Ok (mkParseResult None_ (zlen (build kSohWire b)) (read_back b))) (block_bodies 2 0 [3; -5; 0]) ∧
  ∃ ops, app_ops (read_back <$> block_bodies 2 0 [3; -5; 0]) 1 = Ok ops ∧ feed_ok [] ops ∧
    submitted_qty ops = 100 * zlen [3; -5; 0] ∧ submitted_qty ops < two63.
Proof. apply (bench_feed_admissible 2 [3; -5; 0]); [lia|by vm_compute|by vm_compute|decided]. Defined.
