(* ===== verification/BenchRun.v ===== *)
(** * The replay benchmark against the server

    Puts the client of [ReplayBench] and the server of [Conversation] together:
    the server answers each order in a turn of its own, what it writes reaches
    the client in pieces, and the client goes on to the next order as soon as
    its wait has taken a report. *)

From S2P Require Import Prelude Double Histogram Types PriceLevel SortedMap OrderBook BookRep BookProps ProRata Matcher FillProps MatchSpec MatchProps SubmitProps TradeProps Engine Text Messages Serializer Parser ParserProps CodecProps CodecTheorems Session SessionProps Resend UtcClock SessionTheorems Server ServerTheorems Reports Conversation Pieces ReplayBench.

(** ** Reports in a stream *)

(** The number of reports among messages. *)
Definition report_count (ms : list Message) : nat := length (filter is_report ms).

Lemma report_count_cons m ms : report_count (m :: ms) = (report_count [m] + report_count ms)%nat.
Proof. unfold report_count. change (m :: ms) with ([m] ++ ms). by rewrite filter_app, length_app. Qed.

(** Reading whole messages off [b], [k] of them reports, leaves [b']. *)
Inductive takes : nat → bytes → bytes → Prop :=
| takes_refl b : takes 0 b b
| takes_msg w b m k b' :
    parse_one kSohWire (w ++ b) = Ok (mkParseResult None_ (zlen w) m) → takes k b b' →
    takes (report_count [m] + k) (w ++ b) b'.

Lemma takes_trans i j b b1 b2 : takes i b b1 → takes j b1 b2 → takes (i + j) b b2.
Proof. induction 1 as [|w b m k b' Hp Ht IH]; intros Hj; [done|]. rewrite <- Nat.add_assoc. constructor; auto. Qed.

Lemma takes_more k b b' more : zlen (b ++ more) < two64 - 7 → takes k b b' → takes k (b ++ more) (b' ++ more).
Proof.
  intros Hz Ht. induction Ht as [|w b m k b' Hp Ht IH]; [constructor|]. rewrite <- app_assoc in *. constructor.
  - rewrite app_assoc. apply parse_one_more; [by rewrite <- app_assoc|done|done].
  - apply IH. rewrite zlen_app in Hz. pose proof (zlen_nonneg w). lia.
Qed.

Lemma takes_len k b b' : takes k b b' → zlen b' ≤ zlen b.
Proof. induction 1 as [|w]; [done|]. rewrite zlen_app. pose proof (zlen_nonneg w). lia. Qed.

Lemma takes_decodes s ms : decodes kSohWire s ms → takes (report_count ms) s [].
Proof. induction 1; [constructor|]. rewrite report_count_cons. by constructor. Qed.

(** The stream starts with messages among which there are [k] reports. *)
Definition holds (k : nat) (b : bytes) : Prop := ∃ j b', takes j b b' ∧ (k ≤ j)%nat.

Lemma holds_0 b : holds 0 b.
Proof. exists 0%nat, b. split; [constructor|done]. Qed.

Lemma holds_more k b more : zlen (b ++ more) < two64 - 7 → holds k b → holds k (b ++ more).
Proof. intros Hz (j & b' & Ht & Hk). exists j, (b' ++ more). split; [by apply takes_more|done]. Qed.

(** What has been taken is no longer held, and nothing else is lost. *)
Lemma takes_holds k j b b' : takes k b b' → holds j b → holds (j - k) b'.
Proof.
  intros Ht. revert j. induction Ht as [|w b m k b' Hp Ht IH]; intros j Hj; [by rewrite Nat.sub_0_r|].
  rewrite Nat.sub_add_distr. apply IH. destruct Hj as (i & c & Hc & Hji). inversion Hc as [|v b2 m2 i2 ? Hp2 Hc2 Hi Hb]; subst.
  { replace (j - report_count [m])%nat with 0%nat by lia. apply holds_0. }
  rewrite Hb in Hp2. rewrite Hp in Hp2. injection Hp2 as Hl <-.
  apply app_inj_1 in Hb as [_ ->]; [|unfold zlen in Hl; lia]. exists i2, c. split; [done|lia].
Qed.

(** ** Taking a report *)

(** A stream that holds a report starts with a message. *)
Lemma holds_first b :
  zlen b < two64 - 7 → holds 1 b →
  ∃ w rest m, b = w ++ rest ∧ w ≠ [] ∧ parse_one kSohWire b = Ok (mkParseResult None_ (zlen w) m).
Proof.
  intros Hz (j & b' & Ht & Hj). destruct Ht as [|w b m k b' Hp Ht]; [lia|]. exists w, b, m. split; [done|]. split; [|done].
  intros ->. destruct (parse_consumed kSohWire _ _ Hz Hp eq_refl) as [Hc _]. by cbn in Hc.
Qed.

(** The inner loop finds the first report that is there, or takes everything
    that is whole. *)
Lemma pop_report_spec fuel : ∀ buf more,
  (length buf ≤ fuel)%nat → zlen (buf ++ more) < two64 - 7 → holds 1 (buf ++ more) →
  ∃ r buf', pop_report fuel buf = Ok (r, buf') ∧
    match r with Some ok => ok = true ∧ takes 1 buf buf' | None => takes 0 buf buf' ∧ more ≠ [] end.
Proof.
  induction fuel as [|fuel IH]; intros buf more Hf Hz Hh; destruct (holds_first _ Hz Hh) as (w & rest & m & Hs & Hne & Hp).
  { destruct buf; [|cbn in Hf; lia]. exists None, []. split; [done|]. split; [constructor|].
    intros ->. destruct w; [done|]. discriminate. }
  destruct buf as [|a buf].
  { exists None, []. split; [done|]. split; [constructor|]. intros ->. destruct w; [done|]. discriminate. }
  set (b := a :: buf) in *. destruct (parse_prefix_defined b more _ Hz Hp) as [r Hr]. cbn [pop_report]. fold b.
  rewrite Hr. cbn [rbind]. destruct (decide (err r = Incomplete)) as [Hi|Hi].
  { exists None, b. rewrite Hi. split; [done|]. split; [constructor|]. intros ->. rewrite app_nil_r in Hp.
    rewrite Hp in Hr. injection Hr as <-. done. }
  pose proof (parse_one_more kSohWire b more r Hz Hr Hi) as Hr'. rewrite Hp in Hr'. injection Hr' as <-. cbn [err msg consumed].
  assert (zlen b < two64 - 7) as Hzb by (rewrite zlen_app in Hz; pose proof (zlen_nonneg more); lia).
  destruct (parse_consumed kSohWire _ _ Hzb Hr eq_refl) as [Hc1 Hc2]. cbn [consumed] in *.
  replace (Z.to_nat (zlen w)) with (length w) by (unfold zlen; lia).
  assert (b = w ++ drop (length w) b) as Hb.
  { rewrite <- (take_drop (length w) b) at 1. f_equal.
    rewrite <- (take_app_le b more), Hs, take_app_length by (unfold zlen in *; lia). done. }
  set (b' := drop (length w) b) in *. assert (takes (report_count [m] + 0) b b') as Ht.
  { rewrite Hb. constructor; [by rewrite <- Hb|constructor]. }
  unfold report_count in Ht. case_bool_decide as Hm.
  - exists (Some true), b'. split; [done|]. split; [done|]. rewrite filter_cons_True in Ht by done. exact Ht.
  - rewrite filter_cons_False in Ht by done. pose proof (takes_more _ _ _ more Hz Ht) as Htm.
    destruct (IH b' more) as (r' & b2 & He & Hb2).
    + unfold b'. rewrite length_drop. destruct w; [done|]. cbn in *. lia.
    + pose proof (takes_len _ _ _ Htm). lia.
    + by apply (takes_holds _ 1 _ _ Htm).
    + exists r', b2. split; [done|]. destruct r'; destruct Hb2 as [H1 H2]; split; try done; by apply (takes_trans 0 _ _ b').
Qed.

(** Pieces of the stream, as the socket delivers them within a round. *)
Definition arriving (ps : list bytes) : list Delivery := Data <$> ps.

(** The wait succeeds within a round whose bytes complete a report. *)
Lemma wait_spec ps : ∀ buf rest,
  zlen (buf ++ mjoin ps) < two64 - 7 → holds 1 (buf ++ mjoin ps) →
  ∃ buf' ps', wait_for_exec_report (arriving ps ++ rest) buf = Ok (true, buf', arriving ps' ++ rest) ∧
    takes 1 (buf ++ mjoin ps) (buf' ++ mjoin ps').
Proof.
  induction ps as [|p ps IH]; intros buf rest Hz Hh;
    destruct (pop_report_spec (length buf) buf _ (le_n _) Hz Hh) as (r & b & He & Hr).
  - destruct r as [ok|]; [|by destruct Hr as [_ []]]. destruct Hr as [-> Ht]. exists b, [].
    split; [|by apply takes_more]. destruct rest; cbn [arriving fmap list_fmap Datatypes.app wait_for_exec_report]; by rewrite He.
  - cbn [arriving fmap list_fmap Datatypes.app wait_for_exec_report]. rewrite He. cbn [rbind].
    destruct r as [ok|]; destruct Hr as [H1 H2].
    + subst ok. exists b, (p :: ps). split; [done|]. by apply takes_more.
    + change (mjoin (p :: ps)) with (p ++ mjoin ps) in *. pose proof (takes_more _ _ _ _ Hz H1) as Ht.
      rewrite app_assoc in Ht. rewrite (app_assoc b) in Ht. pose proof (takes_len _ _ _ Ht) as Hle.
      destruct (IH (b ++ p) rest) as (b2 & ps2 & He2 & Ht2).
      * rewrite app_assoc in Hz. lia.
      * apply (takes_holds _ 1 _ _ Ht). by rewrite <- app_assoc.
      * exists b2, ps2. split; [done|]. rewrite app_assoc. by apply (takes_trans 0 1 _ _ _ Ht Ht2).
Qed.

Lemma drain_spec ps : ∀ buf rest, drain_nonblocking (arriving ps ++ Nothing :: rest) buf = (true, buf ++ mjoin ps, rest).
Proof.
  induction ps as [|p ps IH]; intros buf rest; cbn [arriving fmap list_fmap Datatypes.app drain_nonblocking].
  - by rewrite app_nil_r.
  - unfold arriving in IH. rewrite IH. by rewrite <- app_assoc.
Qed.

(** ** A block *)

(** What reaches the client during each iteration, and the script of that:
    at the end of a round the drain finds nothing more. *)
Definition round_bytes (rounds : list (list bytes)) : bytes := mjoin (mjoin <$> rounds).
Definition round_script (rounds : list (list bytes)) : list Delivery := mjoin ((λ ps, arriving ps ++ [Nothing]) <$> rounds).

(** By the end of its round, every iteration's report is there. *)
Definition in_time (buf : bytes) (rounds : list (list bytes)) : Prop :=
  ∀ j, (j < length rounds)%nat → holds (S j) (buf ++ round_bytes (take (S j) rounds)).

Lemma in_time_next buf ps rounds buf' :
  zlen (buf ++ round_bytes (ps :: rounds)) < two64 - 7 → takes 1 (buf ++ mjoin ps) buf' →
  in_time buf (ps :: rounds) → in_time buf' rounds.
Proof.
  intros Hz Ht Hin j Hj. specialize (Hin (S j)). cbn [length take] in Hin. specialize (Hin ltac:(lia)).
  change (round_bytes (ps :: take (S j) rounds)) with (mjoin ps ++ round_bytes (take (S j) rounds)) in Hin.
  rewrite app_assoc in Hin. eapply (takes_holds 1 (S (S j))); [|exact Hin]. apply takes_more; [|done].
  eapply Z.le_lt_trans; [|exact Hz]. change (round_bytes (ps :: rounds)) with (mjoin ps ++ round_bytes rounds).
  rewrite <- (take_drop (S j) rounds) at 2. unfold round_bytes. rewrite fmap_app, join_app, !zlen_app.
  match goal with |- context [zlen (mjoin (mjoin <$> drop ?a ?b))] => pose proof (zlen_nonneg (mjoin (mjoin <$> drop a b))) end. lia.
Qed.

Lemma block_completes `{Net} `{BenchEnv} (L : NetLaws) measure base rounds : ∀ i c ys rest,
  up (cl_fd c) → cl_script c = round_script rounds ++ rest →
  zlen (cl_buf c ++ round_bytes rounds) < two64 - 7 → in_time (cl_buf c) rounds →
  let n := length rounds in
  ∃ c', run_block measure n base i c (summary ys) =
      Ok (true, c', summary (if measure then ys ++ times (cl_draws c) n else ys)) ∧
    cl_fd c' = cl_fd c ∧ cl_script c' = rest ∧ cl_draws c' = (cl_draws c + n)%nat ∧
    cl_wire c' = cl_wire c ++ wires (sent_orders base i (cl_draws c) n) ∧
    takes n (cl_buf c ++ round_bytes rounds) (cl_buf c').
Proof.
  induction rounds as [|ps rounds IH]; intros i c ys rest Hup Hsc Hz Hin; cbn [length].
  { exists c. cbn [run_block]. split; [destruct measure; cbn; by rewrite ?app_nil_r|]. split; [done|].
    split; [done|]. split; [lia|]. split; [by rewrite app_nil_r|]. rewrite app_nil_r. constructor. }
  cbn [run_block]. set (m0 := build kSohWire _).
  destruct (send_all_whole L m0 (cl_draw c) Hup) as (c1 & He & Hfd & Hb & Hs1 & Hdr & Hw).
  cbn [cl_draw cl_fd cl_buf cl_script cl_draws cl_wire] in *. rewrite He. cbn [rbind negb]. rewrite Hb, Hs1, Hsc.
  change (round_script (ps :: rounds) ++ rest) with (((arriving ps ++ [Nothing]) ++ round_script rounds) ++ rest).
  change (round_bytes (ps :: rounds)) with (mjoin ps ++ round_bytes rounds) in *.
  assert (zlen (cl_buf c ++ mjoin ps) < two64 - 7) as Hz1.
  { rewrite app_assoc, zlen_app in Hz. pose proof (zlen_nonneg (round_bytes rounds)). lia. }
  destruct (wait_spec ps (cl_buf c) (Nothing :: round_script rounds ++ rest) Hz1) as (b1 & ps1 & Hwt & Ht).
  { specialize (Hin 0%nat ltac:(cbn; lia)). unfold round_bytes in Hin. cbn in Hin. by rewrite app_nil_r in Hin. }
  replace (((arriving ps ++ [Nothing]) ++ round_script rounds) ++ rest) with (arriving ps ++ Nothing :: round_script rounds ++ rest)
    by (by rewrite <- !app_assoc).
  rewrite Hwt. cbn [rbind negb cl_input cl_script cl_buf].
  set (ys1 := if measure then ys ++ [u64 (elapsed (cl_draws c))] else ys).
  assert ((if measure then record (u64 (elapsed (cl_draws c))) (summary ys) else Ok (summary ys)) = Ok (summary ys1)) as ->.
  { unfold ys1. destruct measure; [|done]. apply record_summary, u64_range. }
  cbn [rbind]. rewrite drain_spec. cbn [negb].
  set (c2 := cl_input (b1 ++ mjoin ps1) (round_script rounds ++ rest) (cl_input b1 (arriving ps1 ++ Nothing :: round_script rounds ++ rest) c1)).
  pose proof (takes_more _ _ _ (round_bytes rounds) ltac:(by rewrite <- app_assoc) Ht) as Ht2. rewrite <- app_assoc in Ht2.
  destruct (IH (S i) c2 ys1 rest) as (c3 & He3 & Hfd3 & Hsc3 & Hdr3 & Hw3 & Ht3); cbn [c2 cl_input cl_fd cl_script cl_buf cl_draws cl_wire].
  - by rewrite Hfd.
  - done.
  - pose proof (takes_len _ _ _ Ht2). lia.
  - by apply (in_time_next (cl_buf c) ps).
  - cbn [c2 cl_input cl_fd cl_script cl_buf cl_draws cl_wire] in *. rewrite Hdr in *. exists c3. split.
    { rewrite He3. unfold ys1. destruct measure; [|done]. unfold times. cbn [List.seq]. by rewrite fmap_cons, <- app_assoc. }
    split; [congruence|]. split; [done|]. split; [lia|]. split.
    { rewrite Hw3, Hw, <- app_assoc. done. }
    by apply (takes_trans 1 _ _ _ _ Ht2 Ht3).
Qed.

(** ** The server's turns *)

(** The loop of a connection, with what each turn writes. *)
Fixpoint session_turns `{Env} `{Net} (rs : list Ready) (c : Conn) (sv : Server) : res (bool * list bytes * Conn * Server) :=
  match rs with
  | [] => Ok (false, [], c, sv)
  | r :: rs =>
      let! '(dis, c', sv) := session_turn r c sv in
      let stream := drop (length (wire c)) (wire c') in
      if dis : bool then Ok (true, [stream], c', sv)
      else let! '(dis, streams, c, sv) := session_turns rs c' sv in Ok (dis, stream :: streams, c, sv)
  end.

(** An order the application acts on, and the read that brings it. *)
Definition answered (b : list (Z * bytes)) : Prop := ∀ id, ∃ op, app_op (read_back b) id = Ok (Some op).
Definition alone (x : list (Z * bytes) * Z) : Ready := received ([x.1], x.2).

(** Whole messages with a report among them. *)
Definition reporting (stream : bytes) : Prop := ∃ ms, decodes kSohWire stream ms ∧ (1 ≤ report_count ms)%nat.

Lemma a_app_events algo b s evs s' : answered b → a_app algo (read_back b) s = Ok (evs, s') → evs ≠ [].
Proof.
  intros Hb. unfold a_app. destruct (Hb (as_id s)) as [op ->]. cbn [rbind]. destruct op as [o|sid c]; [|by intros [= <- _]].
  unfold a_submit. destruct (match_side _ _ _) as [[ab tr] a']. by intros [= <- _].
Qed.

Lemma says_reporting s stream s' evs :
  says s stream s' evs → evs ≠ [] → zlen stream < two64 - 7 → reporting stream.
Proof.
  intros Hs Hne Hz. destruct (Hs Hz) as (ms & Hd & _ & _ & Hr). exists ms. split; [done|].
  apply Forall2_length in Hr. unfold report_count. rewrite Hr. destruct evs; [done|]. cbn. lia.
Qed.

(** Every order is answered in its own turn by a stream with a report. *)
Lemma turns_report `{Env} `{Net} (L : NetLaws) xs : ∀ n c sv s ks ops evs s',
  EnvLaws kSohWire → up (conn_fd c) → talks n (sess c) → 0 < n → n + zlen xs ≤ two64 →
  client_orders n xs.*1 → Forall (λ b, answered b ∧ zlen (build kSohWire b) ≤ 8192) xs.*1 →
  serves sv s → keys_within ks (as_book s) → app_ops (read_back <$> xs.*1) (as_id s) = Ok ops →
  feed_ok ks ops → total (as_book s) + submitted_qty ops < two63 →
  a_apps (matcher_ sv) (read_back <$> xs.*1) s = Ok (evs, s') → out_seq_ (sess c) + zlen xs + zlen evs < two64 →
  ∃ streams c' sv', session_turns (alone <$> xs) c sv = Ok (false, streams, c', sv') ∧ length streams = length xs ∧
    serves sv' s' ∧ talks (n + zlen xs) (sess c') ∧
    (zlen (mjoin streams) < two64 - 7 → Forall reporting streams).
Proof.
  induction xs as [|[b t] xs IH]; intros n c sv s ks ops evs s' Henv Hup Ht Hn Hle Hbs Hans Hs Hks Hops Hf Htot Ha Hlt.
  { cbn in Ha. injection Ha as <- <-. exists [], c, sv. rewrite zlen_nil, Z.add_0_r. split; [done|]. split; [done|].
    split; [done|]. split; [done|]. intros _. by apply Forall_nil_2. }
  rewrite !fmap_cons in *. cbn [fst] in *. apply Forall_cons in Hans as [[Hb Hz] Hans]. destruct Hbs as [Hbo Hbs].
  rewrite zlen_cons in *. change (read_back b :: (read_back <$> xs.*1)) with ((read_back <$> [b]) ++ (read_back <$> xs.*1)) in *.
  destruct (apps_split _ _ _ _ _ _ _ Hops Ha) as (ops1 & ops2 & evs1 & evs2 & s1 & -> & -> & Hops1 & Hops2 & Ha1 & Ha2).
  rewrite zlen_app in Hlt.
  pose proof (zlen_nonneg xs). pose proof (zlen_nonneg evs1). pose proof (zlen_nonneg evs2).
  assert (wires [b] = build kSohWire b) as Hwb by (unfold wires; cbn; by rewrite app_nil_r).
  destruct (order_turn L n ([b], t) ops2 c sv s ks ops1 evs1 s1)
    as (c1 & sv1 & ks1 & st1 & He1 & Hs1 & Hm1 & (Hks1 & Hf1 & Ht1) & Hid1 & Hfd1 & Htk1 & Hw1 & Hsay1 & Ho1); try done;
    [change (n + 1 ≤ two64); lia|cbn [fst]; rewrite Hwb; lia|lia|].
  change (zlen ([b], t).1) with 1 in *.
  destruct (IH (n + 1) c1 sv1 s1 ks1 ops2 evs2 s')
    as (streams & c2 & sv2 & He2 & Hlen & Hs2 & Htk2 & Hrep); try done;
    [by rewrite Hfd1|lia|lia|by rewrite Hid1|by rewrite Hm1|lia|].
  exists (st1 :: streams), c2, sv2. cbn [session_turns]. change (alone (b, t)) with (received ([b], t)).
  rewrite He1. cbn [rbind]. rewrite He2, Hw1, drop_app_length. cbn [rbind]. split; [done|]. split; [cbn; lia|]. split; [done|].
  split; [by replace (n + (zlen xs + 1)) with (n + 1 + zlen xs) by lia|]. rewrite mjoin_cons, zlen_app.
  pose proof (zlen_nonneg st1). pose proof (zlen_nonneg (mjoin streams)). intros Hzz.
  apply Forall_cons_2; [|apply Hrep; lia]. eapply says_reporting; [done| |lia].
  cbn in Ha1. destruct (a_app _ _ _) as [[ev sx]| | |] eqn:Hax; try done. cbn in Ha1. injection Ha1 as <- <-.
  rewrite app_nil_r. by eapply a_app_events.
Qed.

Lemma reporting_takes streams :
  Forall reporting streams → zlen (mjoin streams) < two64 - 7 →
  ∃ k, takes k (mjoin streams) [] ∧ (length streams ≤ k)%nat.
Proof.
  induction 1 as [|st streams (ms & Hd & Hk) _ IH]; [intros _; exists 0%nat; split; [constructor|done]|].
  rewrite mjoin_cons. intros Hz. pose proof Hz as Hz'. rewrite zlen_app in Hz'. pose proof (zlen_nonneg st).
  destruct IH as (k & Ht & Hle); [lia|]. exists (report_count ms + k)%nat. split; [|cbn; lia].
  eapply takes_trans; [|exact Ht]. by apply (takes_more _ _ []), takes_decodes.
Qed.

(** Rounds that bring all that the server wrote in answer to their order are
    in time; [buf] is what is left of earlier whole messages. *)
Lemma delivered_in_time streams rounds buf ms :
  zlen (buf ++ mjoin streams) < two64 - 7 → Forall reporting streams →
  Forall2 (λ st ps, mjoin ps = st) streams rounds → decodes kSohWire buf ms → in_time buf rounds.
Proof.
  intros Hz Hrep Hall Hms j Hj. pose proof (Forall2_length _ _ _ Hall) as Hlen.
  assert (round_bytes (take (S j) rounds) = mjoin (take (S j) streams)) as ->.
  { unfold round_bytes. f_equal. apply (Forall2_take _ _ _ (S j)) in Hall.
    induction Hall as [|st ps sts pss <- _ IH]; [done|]. csimpl. by rewrite IH. }
  assert (zlen (buf ++ mjoin (take (S j) streams)) < two64 - 7) as Hz1.
  { rewrite <- (take_drop (S j) streams), join_app, app_assoc, zlen_app in Hz. pose proof (zlen_nonneg (mjoin (drop (S j) streams))). lia. }
  destruct (reporting_takes (take (S j) streams)) as (k & Ht & Hk).
  { by apply Forall_take. }
  { rewrite zlen_app in Hz1. pose proof (zlen_nonneg buf). lia. }
  exists (report_count ms + k)%nat, []. rewrite length_take in Hk. split; [|lia].
  eapply takes_trans; [|exact Ht]. by apply (takes_more _ _ []), takes_decodes.
Qed.

(** ** The benchmark's orders *)

Lemma sent_orders_bodies `{BenchEnv} base n : ∀ i k, sent_orders base i k n = block_bodies base i (px_off <$> List.seq k n).
Proof. induction n as [|n IH]; intros i k; [done|]. cbn [sent_orders List.seq]. rewrite fmap_cons. cbn [block_bodies]. by rewrite IH. Qed.

Lemma sent_orders_app `{BenchEnv} base n n' : ∀ i k,
  sent_orders base i k (n + n') = sent_orders base i k n ++ sent_orders base (i + n) (k + n) n'.
Proof.
  induction n as [|n IH]; intros i k; cbn [sent_orders Nat.add Datatypes.app]; [by rewrite !Nat.add_0_r|].
  rewrite IH. by rewrite !Nat.add_succ_l, <- !Nat.add_succ_r.
Qed.

(** The second block goes on where an even first block ends. *)
Lemma sent_orders_shift `{BenchEnv} base m n : ∀ i k,
  Nat.even m = true → sent_orders (base + Z.of_nat m) i k n = sent_orders base (i + m) k n.
Proof.
  induction n as [|n IH]; intros i k Hm; [done|]. cbn [sent_orders]. rewrite IH by done. f_equal.
  unfold block_body. rewrite Nat.even_add, Hm, Nat2Z.inj_add.
  replace (base + Z.of_nat m + Z.of_nat i) with (base + (Z.of_nat i + Z.of_nat m)) by lia. by destruct (Nat.even i).
Qed.

Lemma block_client_orders base offs : ∀ i,
  0 ≤ base → base + Z.of_nat i + zlen offs < two64 → client_orders (base + Z.of_nat i) (block_bodies base i offs).
Proof.
  induction offs as [|off offs IH]; intros i Hb Hl; cbn [block_bodies client_orders]; [done|]. rewrite zlen_cons in Hl.
  pose proof (zlen_nonneg offs). split.
  - split; [apply block_body_ok|]. unfold block_body, bench_body. rewrite u64_small by (unfold in_u64; lia).
    split; [rewrite !elem_of_cons; tauto|]. apply Exists_exists. exists mt_NewOrderSingle. split; [decided|left].
  - replace (base + Z.of_nat i + 1) with (base + Z.of_nat (S i)) by lia. apply IH; lia.
Qed.

Lemma dec_max fuel n : (length (dec fuel n) ≤ fuel)%nat.
Proof.
  revert n. induction fuel as [|fuel IH]; intros n; cbn [dec]; [done|]. destruct (n <? 10); [cbn; lia|].
  rewrite length_app. cbn [length]. specialize (IH (n / 10)). lia.
Qed.
Lemma to_string_max n : (length (to_string n) ≤ 21)%nat.
Proof. unfold to_string. pose proof (dec_max 20 n). pose proof (dec_max 20 (- n)). destruct (n <? 0); cbn [length]; lia. Qed.

Lemma body_bytes_max soh b : (length (body_bytes soh b) ≤ foldr (λ (f : Z * bytes) k, 23 + length f.2 + k) 0 b)%nat.
Proof.
  induction b as [|[t v] b IH]; [done|]. unfold body_bytes in *. rewrite fmap_cons, mjoin_cons, length_app.
  cbn [foldr snd]. unfold field at 1. cbn [fst snd].
  rewrite length_app. cbn [length]. rewrite length_app. cbn [length]. pose proof (to_string_max t). lia.
Qed.

(** Every order of the benchmark fits in one read of the server. *)
Lemma block_body_size base i off : zlen (build kSohWire (block_body base i off)) ≤ 8192.
Proof.
  unfold build, header, trailer. pose proof (body_bytes_max kSohWire (block_body base i off)) as Hb.
  unfold zlen. rewrite !length_app. set (bb := body_bytes _ _) in *.
  pose proof (to_string_max (Z.of_nat (length bb))). set (cs := checksum _). clearbody cs.
  assert (length (format_checksum cs) = 3%nat) by done.
  clearbody bb.
  pose proof (to_string_max (u64 (base + Z.of_nat i))). pose proof (to_string_max (10000 + off)).
  unfold block_body, bench_body in Hb. cbn [foldr snd] in Hb. rewrite length_app in Hb.
  change (length (to_string 100)) with 3%nat in Hb.
  cbn [length B String.list_ascii_of_string bench_time mt_NewOrderSingle kBegin] in *. lia.
Qed.
