(* ===== verification/BenchMain.v ===== *)
(** * The replay benchmark: its process

    Models [main] of [bench/replay_bench.cpp]: the options, the server it
    starts, the connection, the wait for the Logon's answer, the two blocks,
    and the JSON report. The theorem puts it together with the server. *)

From Stdlib Require Import SpecFloat.
From S2P Require Import Prelude Double Histogram Types PriceLevel SortedMap OrderBook BookRep BookProps ProRata Matcher FillProps MatchSpec MatchProps SubmitProps TradeProps Engine Text Messages Serializer Parser ParserProps CodecProps CodecTheorems Session SessionProps Resend UtcClock SessionTheorems Server ServerTheorems Reports Conversation Pieces Threads Logger Main Process ReplayBench BenchRun.

(** ** Options *)

Record BenchOpts := mkBenchOpts { n_msgs : Z; out_path : bytes; bench_algo : MatchAlgo; smoke : bool }.
Definition default_opts : BenchOpts := mkBenchOpts 100000 [] ProRata false.

(** The loop over [argv] from index 1 on. *)
Fixpoint bench_args (args : list bytes) (o : BenchOpts) : res BenchOpts :=
  match args with
  | [] => Ok o
  | a :: rest =>
      match rest with
      | v :: rest' =>
          if bool_decide (a = B "--n") then
            let! n := stoull v in bench_args rest' (mkBenchOpts n (out_path o) (bench_algo o) (smoke o))
          else if bool_decide (a = B "--out") then
            bench_args rest' (mkBenchOpts (n_msgs o) v (bench_algo o) (smoke o))
          else if bool_decide (a = B "--algo") then
            bench_args rest' (mkBenchOpts (n_msgs o) (out_path o) (algo_of v) (smoke o))
          else if bool_decide (a = B "--smoke") then bench_args rest (mkBenchOpts 1000 (out_path o) (bench_algo o) true)
          else bench_args rest o
      | [] => if bool_decide (a = B "--smoke") then Ok (mkBenchOpts 1000 (out_path o) (bench_algo o) true) else Ok o
      end
  end.

Definition bench_config (a : MatchAlgo) : ServerConfig :=
  mkServerConfig (B "127.0.0.1") 0 (B "OBFIX") (sc_heartbeat_secs default_config) a.

(** ** Connecting *)

(** [sock] is what [socket] returns. *)
Definition connect_loopback (sock : Z) (connected : bool) : Z :=
  if sock <? 0 then -1 else if connected then sock else -1.

(** The loop that waits for the Logon's answer; the [poll] at its end only
    passes time. *)
Fixpoint wait_logon (fuel : nat) (script : list Delivery) (buf : bytes) : res (bytes * list Delivery) :=
  let '(ok, buf, script) := drain_nonblocking script buf in
  if negb ok then Ok (buf, script)
  else
    let! r := parse_one kSohWire buf in
    match err r with
    | None_ => Ok (drop (Z.to_nat (consumed r)) buf, script)
    | _ => match fuel with O => Hang | S fuel => wait_logon fuel script buf end
    end.

(** ** The report *)

Definition seconds (total_ns : Z) : double := ddiv (of_int total_ns) (of_int 1000000000).
Definition average (h : LogHistogram) : Z := if count h =? 0 then 0 else sum h / count h.
Definition bench_text (o : BenchOpts) (total_ns avg p50 p95 p99 p999 : Z) : bytes :=
  let secs := seconds total_ns in
  let mps := ddiv (of_int (n_msgs o)) secs in
  B "{" ++ [newline] ++
  json_line (B "n_messages") (to_string (n_msgs o)) ++ json_sep ++
  json_line (B "algo") ([quote] ++ (match bench_algo o with ProRata => B "prorata" | Fifo => B "fifo" end) ++ [quote]) ++ json_sep ++
  json_line (B "wall_seconds") (printf_f 6 secs) ++ json_sep ++
  json_line (B "msgs_per_sec") (printf_f 2 mps) ++ json_sep ++
  json_line (B "avg_ns") (to_string avg) ++ json_sep ++
  json_line (B "p50_ns") (to_string p50) ++ json_sep ++
  json_line (B "p95_ns") (to_string p95) ++ json_sep ++
  json_line (B "p99_ns") (to_string p99) ++ json_sep ++
  json_line (B "p999_ns") (to_string p999) ++ json_sep ++
  json_line (B "smoke") (if smoke o then B "true" else B "false") ++ [newline] ++
  B "}" ++ [newline].
Definition bench_report (o : BenchOpts) (total_ns : Z) (h : LogHistogram) : res bytes :=
  let! p50 := quantile (decimal 50 2) h in
  let! p95 := quantile (decimal 95 2) h in
  let! p99 := quantile (decimal 99 2) h in
  let! p999 := quantile (decimal 999 3) h in
  Ok (snprintf 2048 (bench_text o total_ns (average h) p50 p95 p99 p999)).

(** ** The process *)

(** How it ends: the exit code, the two output streams, the file written, the
    server when [stop] has been called, and the client. *)
Record Finished := mkFinished {
  code : Z;
  stderr : bytes;
  stdout : bytes;
  file : option (bytes * bytes);
  f_srv : TcpServer;
  f_client : option Client
}.
Definition failed (msg : bytes) (s : TcpServer) (c : option Client) : res Finished :=
  Ok (mkFinished 1 msg [] None (stop_call s) c).

Section main.
Context `{Net} `{BenchEnv}.

(** [main] from the connection on. *)
Definition bench_client (o : BenchOpts) (s : TcpServer) (total_ns : Z) (c : Client) : res Finished :=
  let! '(_, c) := send_all bench_logon c in
  let! '(buf, script) := wait_logon (length (cl_script c)) (cl_script c) (cl_buf c) in
  let c := cl_input buf script c in
  let! '(ok, c, _) := if smoke o then Ok (true, c, new_histogram) else run_block false 2000 2 0 c new_histogram in
  if negb ok then failed (B "warmup failed" ++ [newline]) s (Some c)
  else
    let! '(ok, c, hist) := run_block true (Z.to_nat (n_msgs o)) (if smoke o then 2 else 2002) 0 c new_histogram in
    if negb ok then failed (B "measure block failed" ++ [newline]) s (Some c)
    else
      let! text := bench_report o total_ns hist in
      Ok (mkFinished 0 [] text (if bool_decide (out_path o = []) then None else Some (out_path o, text))
            (stop_call s) (Some c)).

(** [r] is how the server's sockets turn out, [script] what the client's
    socket delivers, [total_ns] the time the measured block takes. *)
Definition bench_main (args : list bytes) (r : Socket) (sock : Z) (connected : bool) (script : list Delivery)
    (total_ns : Z) : res Finished :=
  let! o := bench_args args default_opts in
  match start r (new_tcp (bench_config (bench_algo o))) with
  | None => Undef
  | Some (false, s) => failed (B "server start failed" ++ [newline]) s None
  | Some (true, s) =>
      let fd := connect_loopback sock connected in
      if fd <? 0 then failed [] s None
      else bench_client o s total_ns (mkClient fd 0 [] [] script 0)
  end.

End main.

(** ** The report is whole *)

Lemma printf_f_max p d : (p ≤ 20)%nat → (length (printf_f p d) ≤ 332)%nat.
Proof.
  intros Hp. assert (∀ n, (length (fixed_text p n) ≤ 331)%nat) as Hf.
  { intros n. unfold fixed_text. rewrite !length_app, length_replicate. pose proof (dec_max 310 (n / 10 ^ Z.of_nat p)).
    pose proof (dec_max 20 (n mod 10 ^ Z.of_nat p)). cbn [length B String.list_ascii_of_string]. lia. }
  destruct d as [s|s| |s m e]; cbn [printf_f].
  2: destruct s; cbn; lia.
  2: cbn; lia.
  all: match goal with |- context [fixed_text ?q ?n] => specialize (Hf n); set (x := fixed_text q n) in *; clearbody x end;
    rewrite length_app; destruct s; cbn [length B String.list_ascii_of_string]; lia.
Qed.

Lemma bench_text_fits o total_ns avg p50 p95 p99 p999 :
  snprintf 2048 (bench_text o total_ns avg p50 p95 p99 p999) = bench_text o total_ns avg p50 p95 p99 p999.
Proof.
  apply snprintf_fits. unfold bench_text, json_line, json_sep.
  pose proof (to_string_max (n_msgs o)). pose proof (to_string_max avg). pose proof (to_string_max p50).
  pose proof (to_string_max p95). pose proof (to_string_max p99). pose proof (to_string_max p999).
  pose proof (printf_f_max 6 (seconds total_ns) ltac:(lia)).
  pose proof (printf_f_max 2 (ddiv (of_int (n_msgs o)) (seconds total_ns)) ltac:(lia)).
  rewrite !length_app. cbn [length B String.list_ascii_of_string].
  destruct (bench_algo o), (smoke o); cbn [length B String.list_ascii_of_string]; lia.
Qed.

(** ** The Logon's answer *)

(** The wait ends in the round that completes the answer. *)
Lemma wait_logon_spec qs ps w m : ∀ fuel buf extra rest,
  (length qs ≤ fuel)%nat → zlen (w ++ extra) < two64 - 7 →
  parse_one kSohWire (w ++ extra) = Ok (mkParseResult None_ (zlen w) m) →
  zlen (buf ++ round_bytes qs) < zlen w → buf ++ round_bytes qs ++ mjoin ps = w ++ extra →
  wait_logon fuel (round_script (qs ++ [ps]) ++ rest) buf = Ok (extra, rest).
Proof.
  induction qs as [|q qs IH]; intros fuel buf extra rest Hf Hz Hp Hlt Hs.
  - change (round_script ([] ++ [ps]) ++ rest) with (((arriving ps ++ [Nothing]) ++ []) ++ rest).
    change (buf ++ mjoin ps = w ++ extra) in Hs.
    rewrite app_nil_r, <- app_assoc. cbn [Datatypes.app] in *. destruct fuel; cbn [wait_logon];
      rewrite drain_spec, Hs, Hp; cbn [rbind err consumed negb]; unfold zlen; by rewrite Nat2Z.id, drop_app_length.
  - change (round_script ((q :: qs) ++ [ps]) ++ rest) with (((arriving q ++ [Nothing]) ++ round_script (qs ++ [ps])) ++ rest).
    change (round_bytes (q :: qs)) with (mjoin q ++ round_bytes qs) in *. rewrite <- !app_assoc in *. cbn [Datatypes.app].
    destruct fuel as [|fuel]; [cbn in Hf; lia|]. cbn [wait_logon]. rewrite drain_spec. cbn [negb].
    destruct (partial_incomplete w extra m (buf ++ mjoin q) (round_bytes qs ++ mjoin ps)) as (r & Hr & Hi); try done.
    { by rewrite <- Hs, <- app_assoc. }
    { rewrite !zlen_app in *. pose proof (zlen_nonneg (round_bytes qs)). lia. }
    rewrite Hr. cbn [rbind]. rewrite Hi. apply IH; [cbn in Hf; lia|done|done|by rewrite <- app_assoc|by rewrite <- app_assoc].
Qed.

Lemma drain_open script : ∀ buf,
  Ended ∉ script → ∃ more script', drain_nonblocking script buf = (true, buf ++ more, script') ∧ Ended ∉ script' ∧
    zlen (buf ++ more ++ payload script') = zlen (buf ++ payload script).
Proof.
  induction script as [|[b| |] script IH]; intros buf Hs; cbn [drain_nonblocking].
  - exists [], []. by rewrite app_nil_r.
  - apply not_elem_of_cons in Hs as [_ Hs]. destruct (IH (buf ++ b) Hs) as (more & script' & -> & He & Hz).
    exists (b ++ more), script'. rewrite app_assoc. split; [done|]. split; [done|].
    change (payload (Data b :: script)) with (b ++ payload script). rewrite !zlen_app in *. lia.
  - apply not_elem_of_cons in Hs as [_ Hs]. exists [], script. by rewrite app_nil_r.
  - by destruct Hs; left.
Qed.

(** A malformed answer is waited on for as long as the connection stays open. *)
Lemma wait_logon_malformed fuel : ∀ script buf r,
  Ended ∉ script → zlen (buf ++ payload script) < two64 - 7 →
  parse_one kSohWire buf = Ok r → err r ≠ Incomplete → err r ≠ None_ → wait_logon fuel script buf = Hang.
Proof.
  induction fuel as [|fuel IH]; intros script buf r Hs Hz Hp Hi Hn; cbn [wait_logon];
    destruct (drain_open script buf Hs) as (more & script' & -> & Hs' & Hzz); cbn [negb];
    (assert (parse_one kSohWire (buf ++ more) = Ok r) as Hp';
     [apply parse_one_more; [rewrite <- Hzz in Hz; rewrite !zlen_app in *; pose proof (zlen_nonneg (payload script')); lia|done|done]|]);
    rewrite Hp'; cbn [rbind].
  - by destruct (err r).
  - rewrite (IH script' (buf ++ more) r); [by destruct (err r)|done|by rewrite <- app_assoc, Hzz|done|done|done].
Qed.

(** ** What the benchmark sends *)

Definition bench_warm (o : BenchOpts) : nat := if smoke o then 0 else 2000.
Definition bench_size (o : BenchOpts) : nat := bench_warm o + Z.to_nat (n_msgs o).
Definition bench_orders `{BenchEnv} (o : BenchOpts) : list (list (Z * bytes)) := sent_orders 2 0 0 (bench_size o).

Lemma bench_logon_ok : client_logon (B "OBFIX") 1 logon_fields.
Proof. split_and!; decided. Qed.

Lemma bench_sender a : kSohWire ∉ sc_sender_comp_id (bench_config a).
Proof. change (kSohWire ∉ B "OBFIX"). decided. Qed.
Lemma bench_heartbeat a : in_u64 (sc_heartbeat_secs (bench_config a)).
Proof. by vm_compute. Qed.

Lemma bench_orders_length `{BenchEnv} o : length (bench_orders o) = bench_size o.
Proof.
  unfold bench_orders. generalize (bench_size o) 0%nat. intros n. induction n as [|n IH]; intros i; [done|].
  cbn [sent_orders length]. by rewrite IH.
Qed.

Lemma block_answered base i off : -5 ≤ off ≤ 5 → answered (block_body base i off).
Proof. intros Ho id. eexists. apply block_order. lia. Qed.

Lemma bench_orders_answered `{BenchEnv} o :
  (∀ k, -5 ≤ px_off k ≤ 5) → Forall (λ b, answered b ∧ zlen (build kSohWire b) ≤ 8192) (bench_orders o).
Proof.
  intros Ho. unfold bench_orders. generalize (bench_size o) 0%nat. intros n.
  induction n as [|n IH]; intros i; cbn [sent_orders]; [by apply Forall_nil_2|]. apply Forall_cons_2; [|apply IH].
  split; [by apply block_answered|apply block_body_size].
Qed.

(** The server answers the Logon and every order. *)
Lemma bench_served `{Env} `{Net} `{BenchEnv} (L : NetLaws) o sfd t0 ts :
  EnvLaws kSohWire → up sfd → 0 ≤ n_msgs o < 2 ^ 53 → (∀ k, -5 ≤ px_off k ≤ 5) → length ts = bench_size o →
  ∃ evs s', a_apps (bench_algo o) (read_back <$> bench_orders o) (mkAServer a_empty 1 1) = Ok (evs, s') ∧
    (2 + zlen (bench_orders o) + zlen evs < two64 →
     ∃ stream streams conn sv,
       session_turns (Received bench_logon t0 :: (alone <$> zip (bench_orders o) ts))
         (new_conn (bench_config (bench_algo o)) sfd) (new_server (bench_algo o)) = Ok (false, stream :: streams, conn, sv) ∧
       length streams = bench_size o ∧ serves sv s' ∧
       (zlen (stream ++ mjoin streams) < two64 - 7 →
        Forall reporting streams ∧ ∃ m ms, decodes kSohWire stream (m :: ms))).
Proof.
  intros Henv Hup Hn Ho Hts. set (orders := bench_orders o).
  assert (zlen orders = Z.of_nat (bench_size o)) as Hlen by (unfold zlen; by rewrite <- (bench_orders_length o)).
  assert (Z.of_nat (bench_size o) < 2 ^ 53 + 2000) as Hsize by (unfold bench_size, bench_warm; destruct (smoke o); lia).
  set (offs := px_off <$> List.seq 0 (bench_size o)).
  assert (zlen offs = Z.of_nat (bench_size o)) as Hoffs by (unfold zlen, offs; by rewrite length_fmap, length_seq).
  assert (orders = block_bodies 2 0 offs) as Hbodies by apply sent_orders_bodies.
  destruct (block_feed 2 offs) as (ops & Hops & Hfeed & Hqty);
    [lia|lia|apply Forall_fmap, Forall_forall; intros k _; apply Ho|]. rewrite <- Hbodies in Hops.
  assert (total a_empty + submitted_qty ops < two63) as Htot by (change (total a_empty) with 0; lia).
  assert (keys_within [] a_empty) as Hks by (by intros ? ? ?%not_elem_of_nil).
  assert (length orders = bench_size o) as Hlo by apply bench_orders_length.
  pose proof (bench_orders_answered o Ho) as Hans. fold orders in Hans.
  assert (client_orders (1 + 1) orders) as Hco.
  { rewrite Hbodies. change (1 + 1) with (2 + Z.of_nat 0). apply block_client_orders; lia. }
  clearbody orders. clear Hbodies.
  pose proof (new_server_serves (bench_algo o)) as Hsv. set (sA := mkAServer a_empty 1 1) in *.
  destruct (run_apps_spec (read_back <$> orders) [] (new_server (bench_algo o)) sA [] ops)
    as (evs & _ & s' & _ & _ & Ha & _); try done; [by rewrite app_nil_r|by rewrite app_nil_r|].
  change (matcher_ (new_server (bench_algo o))) with (bench_algo o) in Ha.
  exists evs, s'. split; [done|]. intros Hlt. pose proof (zlen_nonneg evs).
  assert ((zip orders ts).*1 = orders) as Hfst by (apply fst_zip; lia).
  assert (zlen (zip orders ts) = zlen orders) as Hzl by (unfold zlen; by rewrite <- Hfst at 2; rewrite length_fmap).
  destruct (logon_turn L 1 t0 logon_fields (bench_config (bench_algo o)) sfd (new_server (bench_algo o)) Henv Hup)
    as (c1 & k & He1 & Htk1 & _ & Hfd1 & Ho1 & Hd1); [apply bench_sender|apply bench_heartbeat|lia|exact bench_logon_ok|by vm_compute|].
  destruct (turns_report L (zip orders ts) (1 + 1) c1 (Nat.iter k count_out (new_server (bench_algo o))) sA [] ops evs s')
    as (streams & c2 & sv2 & He2 & Hl2 & Hs2 & _ & Hrep);
    [exact Henv|by rewrite Hfd1|exact Htk1|lia|lia|by rewrite Hfst|by rewrite Hfst|by apply serves_count_out|exact Hks|
     by rewrite Hfst|exact Hfeed|exact Htot|by rewrite Hfst, count_out_matcher|lia|].
  exists (wire c1), streams, c2, sv2. cbn [session_turns]. unfold bench_logon. rewrite He1. cbn [rbind]. rewrite He2. cbn [rbind].
  split; [done|]. split; [rewrite Hl2; unfold zlen in Hzl, Hlen; lia|]. split; [done|].
  rewrite zlen_app. pose proof (zlen_nonneg (wire c1)). pose proof (zlen_nonneg (mjoin streams)). intros Hz.
  split; [apply Hrep; lia|apply Hd1; lia].
Qed.

(** ** What the client does with the answers *)

Lemma round_bytes_app r1 r2 : round_bytes (r1 ++ r2) = round_bytes r1 ++ round_bytes r2.
Proof. unfold round_bytes. by rewrite fmap_app, join_app. Qed.
Lemma round_script_app r1 r2 : round_script (r1 ++ r2) = round_script r1 ++ round_script r2.
Proof. unfold round_script. by rewrite fmap_app, join_app. Qed.

Lemma in_time_app buf r1 r2 buf' :
  zlen (buf ++ round_bytes (r1 ++ r2)) < two64 - 7 → in_time buf (r1 ++ r2) →
  takes (length r1) (buf ++ round_bytes r1) buf' → in_time buf' r2.
Proof.
  intros Hz Hin Ht j Hj. specialize (Hin (length r1 + j)%nat). rewrite length_app in Hin. specialize (Hin ltac:(lia)).
  rewrite <- Nat.add_succ_r, firstn_app_2, round_bytes_app, app_assoc in Hin.
  replace (S j) with (length r1 + S j - length r1)%nat at 1 by lia. eapply takes_holds; [|exact Hin].
  apply takes_more; [|done]. rewrite round_bytes_app, <- (take_drop (S j) r2), round_bytes_app in Hz.
  rewrite !zlen_app in *. pose proof (zlen_nonneg (round_bytes (drop (S j) r2))). lia.
Qed.

Lemma in_time_prefix buf r1 r2 : in_time buf (r1 ++ r2) → in_time buf r1.
Proof. intros Hin j Hj. specialize (Hin j). rewrite length_app, take_app_le in Hin by lia. apply Hin. lia. Qed.

(** Both blocks, the first one not measured. *)
Lemma blocks_complete `{Net} `{BenchEnv} (L : NetLaws) o c rounds rest :
  up (cl_fd c) → cl_draws c = 0%nat → length rounds = bench_size o → cl_script c = round_script rounds ++ rest →
  zlen (cl_buf c ++ round_bytes rounds) < two64 - 7 → in_time (cl_buf c) rounds →
  ∃ c1 c2, (if smoke o then Ok (true, c, new_histogram) else run_block false 2000 2 0 c new_histogram) = Ok (true, c1, new_histogram) ∧
    run_block true (Z.to_nat (n_msgs o)) (if smoke o then 2 else 2002) 0 c1 new_histogram =
      Ok (true, c2, summary (times (bench_warm o) (Z.to_nat (n_msgs o)))) ∧
    cl_wire c2 = cl_wire c ++ wires (bench_orders o) ∧ cl_script c2 = rest.
Proof.
  intros Hup Hdr Hlen Hsc Hz Hin. set (n := Z.to_nat (n_msgs o)). unfold bench_orders, bench_size, bench_warm in *. fold n in Hlen |- *.
  destruct (smoke o).
  - exists c. destruct (block_completes L true 2 rounds 0 c [] rest Hup Hsc Hz Hin) as (c2 & He & _ & Hs2 & _ & Hw2 & _).
    cbn [Datatypes.app Nat.add] in *. rewrite Hdr, summary_nil, Hlen in *. by exists c2.
  - set (w := 2000%nat) in *. assert (Nat.even w = true) as Hev by done. assert (2002 = 2 + Z.of_nat w) as -> by done.
    clearbody w. set (r1 := take w rounds). set (r2 := drop w rounds).
    assert (rounds = r1 ++ r2) as Hr by (symmetry; apply take_drop). rewrite Hr in *.
    assert (length r1 = w) as Hl1 by (unfold r1; rewrite length_take; rewrite length_app in Hlen; unfold r1, r2 in Hlen; rewrite length_take, length_drop in Hlen; lia).
    assert (length r2 = n) as Hl2 by (rewrite length_app in Hlen; lia). clearbody r1 r2.
    destruct (block_completes L false 2 r1 0 c [] (round_script r2 ++ rest)) as (c1 & He1 & Hfd1 & Hs1 & Hd1 & Hw1 & Ht1).
    { done. }
    { by rewrite Hsc, round_script_app, app_assoc. }
    { rewrite round_bytes_app, app_assoc, zlen_app in Hz. pose proof (zlen_nonneg (round_bytes r2)). lia. }
    { by eapply in_time_prefix. }
    rewrite Hdr, Hl1, summary_nil in *. cbn [Nat.add] in Hd1.
    destruct (block_completes L true (2 + Z.of_nat w) r2 0 c1 [] rest) as (c2 & He2 & _ & Hs2 & _ & Hw2 & _).
    { by rewrite Hfd1. }
    { done. }
    { rewrite round_bytes_app, app_assoc in Hz.
      pose proof (takes_len _ _ _ (takes_more _ _ _ (round_bytes r2) Hz Ht1)). lia. }
    { eapply in_time_app; [exact Hz|done|by rewrite Hl1]. }
    rewrite Hl2, Hd1, summary_nil in *. exists c1, c2. split; [done|]. split; [done|]. split; [|done].
    rewrite Hw2, Hw1, sent_orders_shift, sent_orders_app by done. unfold wires. by rewrite fmap_app, join_app, <- app_assoc.
Qed.

(** The four quantiles of a histogram. *)
Definition bench_quantiles (h : LogHistogram) (p50 p95 p99 p999 : Z) : Prop :=
  quantile (decimal 50 2) h = Ok p50 ∧ quantile (decimal 95 2) h = Ok p95 ∧
  quantile (decimal 99 2) h = Ok p99 ∧ quantile (decimal 999 3) h = Ok p999.

Lemma bench_report_ok o total_ns xs :
  Forall (λ x, 0 ≤ x < two63) xs → zlen xs < 2 ^ 53 →
  ∃ p50 p95 p99 p999, bench_quantiles (summary xs) p50 p95 p99 p999 ∧
    bench_report o total_ns (summary xs) = Ok (bench_text o total_ns (average (summary xs)) p50 p95 p99 p999).
Proof.
  intros Hxs Hl. unfold bench_report.
  destruct (quantile_defined xs (decimal 50 2) 4503599627370496 (-53)) as [p50 Hp50]; [by vm_compute|done|done|done|by vm_compute|].
  destruct (quantile_defined xs (decimal 95 2) 8556839292003942 (-53)) as [p95 Hp95]; [by vm_compute|done|done|done|by vm_compute|].
  destruct (quantile_defined xs (decimal 99 2) 8917127262193582 (-53)) as [p99 Hp99]; [by vm_compute|done|done|done|by vm_compute|].
  destruct (quantile_defined xs (decimal 999 3) 8998192055486251 (-53)) as [p999 Hp999]; [by vm_compute|done|done|done|by vm_compute|].
  rewrite Hp50, Hp95, Hp99, Hp999. cbn [rbind]. rewrite bench_text_fits. by exists p50, p95, p99, p999.
Qed.

Lemma times_range `{BenchEnv} o :
  (∀ k, (k < bench_size o)%nat → 0 ≤ elapsed k < two63) →
  Forall (λ x, 0 ≤ x < two63) (times (bench_warm o) (Z.to_nat (n_msgs o))).
Proof.
  intros He. apply Forall_fmap, Forall_forall. intros k Hk%elem_of_seq. cbn. specialize (He k).
  rewrite u64_small; [|unfold in_u64]; unfold bench_size in *; lia.
Qed.

(** [main] on what the server answered. *)
Lemma bench_main_ok `{Net} `{BenchEnv} (L : NetLaws) args o lfd port sock w extra m qs ps rounds rest total_ns :
  0 ≤ sock → up sock → bench_args args default_opts = Ok o → 0 ≤ n_msgs o < 2 ^ 53 →
  (∀ k, (k < bench_size o)%nat → 0 ≤ elapsed k < two63) →
  zlen (w ++ extra) < two64 - 7 → parse_one kSohWire (w ++ extra) = Ok (mkParseResult None_ (zlen w) m) →
  zlen (round_bytes qs) < zlen w → round_bytes (qs ++ [ps]) = w ++ extra →
  length rounds = bench_size o → zlen (extra ++ round_bytes rounds) < two64 - 7 → in_time extra rounds →
  let h := summary (times (bench_warm o) (Z.to_nat (n_msgs o))) in
  ∃ p50 p95 p99 p999 srv c, bench_quantiles h p50 p95 p99 p999 ∧
    let text := bench_text o total_ns (average h) p50 p95 p99 p999 in
    bench_main args (Listening lfd port) sock true (round_script (qs ++ [ps]) ++ round_script rounds ++ rest) total_ns =
      Ok (mkFinished 0 [] text (if bool_decide (out_path o = []) then None else Some (out_path o, text)) srv (Some c)) ∧
    cl_wire c = bench_logon ++ wires (bench_orders o) ∧ cl_script c = rest.
Proof.
  intros Hsock Hup Hargs Hn Hel Hz Hp Hqs Hbytes Hlen Hzr Hin h. unfold bench_main. rewrite Hargs. cbn [rbind start].
  change (acceptor_ _) with NoThread. unfold connect_loopback. cbv beta iota.
  destruct (Z.ltb_spec sock 0); [lia|]. destruct (Z.ltb_spec sock 0); [lia|].
  set (c0 := mkClient sock 0 [] [] _ 0). unfold bench_client.
  destruct (send_all_whole L bench_logon c0 Hup) as (c1 & He & Hfd & Hb & Hs & Hdr & Hw). rewrite He. cbn [rbind]. rewrite Hb, Hs. cbn [c0 cl_buf cl_script cl_fd cl_draws cl_wire] in *.
  rewrite (wait_logon_spec qs ps w m _ [] extra (round_script rounds ++ rest)); [|..].
  2: { rewrite length_app, round_script_app, length_app. apply Nat.le_trans with (length (round_script qs)); [|lia].
    clear. induction qs as [|q qs IH]; [done|]. change (round_script (q :: qs)) with ((arriving q ++ [Nothing]) ++ round_script qs).
    rewrite !length_app. cbn [length]. lia. }
  2,3,4: done.
  2: { rewrite <- Hbytes, round_bytes_app. cbn [Datatypes.app]. f_equal. unfold round_bytes. cbn. by rewrite app_nil_r. }
  cbn [rbind]. set (c2 := cl_input extra _ c1).
  destruct (blocks_complete L o c2 rounds rest) as (c3 & c4 & Hb1 & Hb2 & Hw4 & Hs4);
    cbn [c2 cl_input cl_fd cl_draws cl_script cl_buf]; [by rewrite Hfd|done|done|done|done|done|].
  rewrite Hb1. cbn [rbind negb]. rewrite Hb2. cbn [rbind negb]. fold h.
  destruct (bench_report_ok o total_ns (times (bench_warm o) (Z.to_nat (n_msgs o)))) as (p50 & p95 & p99 & p999 & Hqs' & Hrep).
  { by apply times_range. }
  { unfold zlen, times. rewrite length_fmap, length_seq. lia. }
  fold h in Hrep. rewrite Hrep. cbn [rbind]. exists p50, p95, p99, p999. do 2 eexists. split; [exact Hqs'|]. split; [done|]. split; [|done].
  rewrite Hw4. cbn [c2 cl_input cl_wire]. by rewrite Hw.
Qed.

(** ** Theorem *)

(** C38: the benchmark completes. Whatever the random prices, the clocks and the
    pieces in which bytes arrive: the benchmark's server answers the Logon and
    every order, each in the turn that reads it, and its book becomes the
    abstract server's. When the client sees those answers (the Logon's first;
    then, within each iteration, enough for one report per order so far, which
    holds in particular when each iteration sees all that its order caused)
    [main] exits with code 0, has sent exactly the Logon and the orders, and
    prints, and writes to the file if one was given, the whole JSON text with
    the average and the four quantiles of the times of the measured iterations
    (and of no other). *)
Theorem bench_completes `{Env} `{Net} `{BenchEnv} args o lfd port sock sfd t0 ts total_ns :
  NetLaws → EnvLaws kSohWire → 0 ≤ sock → up sock → up sfd → bench_args args default_opts = Ok o →
  0 ≤ n_msgs o < 2 ^ 53 → (∀ k, -5 ≤ px_off k ≤ 5) → (∀ k, (k < bench_size o)%nat → 0 ≤ elapsed k < two63) →
  length ts = bench_size o →
  ∃ evs s', a_apps (bench_algo o) (read_back <$> bench_orders o) (mkAServer a_empty 1 1) = Ok (evs, s') ∧
    (2 + zlen (bench_orders o) + zlen evs < two64 →
     ∃ stream streams conn sv,
       session_turns (Received bench_logon t0 :: (alone <$> zip (bench_orders o) ts))
         (new_conn (bench_config (bench_algo o)) sfd) (new_server (bench_algo o)) = Ok (false, stream :: streams, conn, sv) ∧
       serves sv s' ∧
       (zlen (stream ++ mjoin streams) < two64 - 7 →
        ∃ w extra, stream = w ++ extra ∧
         (∀ rounds, Forall2 (λ st ps, mjoin ps = st) streams rounds → in_time extra rounds) ∧
         ∀ qs ps rounds rest,
           zlen (round_bytes qs) < zlen w → round_bytes (qs ++ [ps]) = stream →
           length rounds = bench_size o → zlen (extra ++ round_bytes rounds) < two64 - 7 → in_time extra rounds →
           ∃ p50 p95 p99 p999 srv c,
             let h := summary (times (bench_warm o) (Z.to_nat (n_msgs o))) in
             bench_quantiles h p50 p95 p99 p999 ∧
             let text := bench_text o total_ns (average h) p50 p95 p99 p999 in
             bench_main args (Listening lfd port) sock true (round_script (qs ++ [ps]) ++ round_script rounds ++ rest) total_ns =
               Ok (mkFinished 0 [] text (if bool_decide (out_path o = []) then None else Some (out_path o, text)) srv (Some c)) ∧
             cl_wire c = bench_logon ++ wires (bench_orders o) ∧ cl_script c = rest)).
Proof.
  intros L Henv Hsock Hup1 Hup2 Hargs Hn Ho Hel Hts.
  destruct (bench_served L o sfd t0 ts Henv Hup2 Hn Ho Hts) as (evs & s' & Ha & Hserved).
  exists evs, s'. split; [done|]. intros Hlt. destruct (Hserved Hlt) as (stream & streams & conn & sv & He & Hl & Hs & Hd).
  exists stream, streams, conn, sv. split; [done|]. split; [done|]. intros Hz. destruct (Hd Hz) as (Hrep & m & ms & Hdec).
  inversion Hdec as [|w extra m' ms' Hp Hrest Heq]; subst. exists w, extra. split; [done|]. split.
  - intros rounds Hall. eapply delivered_in_time; [|done|done|done].
    rewrite <- app_assoc, zlen_app in Hz. pose proof (zlen_nonneg w). lia.
  - intros qs ps rounds rest Hqs Hbytes Hlen Hzr Hin. rewrite zlen_app in Hz. pose proof (zlen_nonneg (mjoin streams)).
    apply (bench_main_ok L args o lfd port sock w extra m qs ps rounds rest total_ns Hsock Hup1 Hargs Hn Hel ltac:(lia) Hp Hqs
      Hbytes Hlen Hzr Hin).
Qed.

(** Two orders, measured without a warm-up, over the system clock. *)
#[local] Existing Instance talk_env.
Definition smoke_args : list bytes := [B "--smoke"; B "--n"; B "2"; B "--algo"; B "fifo"].
Definition smoke_opts : BenchOpts := mkBenchOpts 2 [] Fifo true.

Lemma bench_completes_witness :
  ∃ evs s', a_apps (bench_algo smoke_opts) (read_back <$> bench_orders smoke_opts) (mkAServer a_empty 1 1) = Ok (evs, s') ∧
    (2 + zlen (bench_orders smoke_opts) + zlen evs < two64 →
     ∃ stream streams conn sv,
       session_turns (Received bench_logon 0 :: (alone <$> zip (bench_orders smoke_opts) [secs 1; secs 70]))
         (new_conn (bench_config (bench_algo smoke_opts)) 5) (new_server (bench_algo smoke_opts)) =
           Ok (false, stream :: streams, conn, sv) ∧
       serves sv s' ∧
       (zlen (stream ++ mjoin streams) < two64 - 7 →
        ∃ w extra, stream = w ++ extra ∧
         (∀ rounds, Forall2 (λ st ps, mjoin ps = st) streams rounds → in_time extra rounds) ∧
         ∀ qs ps rounds rest,
           zlen (round_bytes qs) < zlen w → round_bytes (qs ++ [ps]) = stream →
           length rounds = bench_size smoke_opts → zlen (extra ++ round_bytes rounds) < two64 - 7 → in_time extra rounds →
           ∃ p50 p95 p99 p999 srv c,
             let h := summary (times (bench_warm smoke_opts) (Z.to_nat (n_msgs smoke_opts))) in
             bench_quantiles h p50 p95 p99 p999 ∧
             let text := bench_text smoke_opts 250000 (average h) p50 p95 p99 p999 in
             bench_main smoke_args (Listening 3 4000) 4 true (round_script (qs ++ [ps]) ++ round_script rounds ++ rest) 250000 =
               Ok (mkFinished 0 [] text (if bool_decide (out_path smoke_opts = []) then None else Some (out_path smoke_opts, text))
                     srv (Some c)) ∧
             cl_wire c = bench_logon ++ wires (bench_orders smoke_opts) ∧ cl_script c = rest)).
Proof.
  apply (bench_completes smoke_args smoke_opts 3 4000 4 5 0 [secs 1; secs 70] 250000);
    [exact ex_net_laws|exact talk_env_laws|lia|exact (ex_net_up 4)|exact (ex_net_up 5)|vm_compute; reflexivity|done| | |reflexivity].
  - intros k. cbn [px_off ex_bench_env]. pose proof (Nat.mod_upper_bound k 11). lia.
  - intros k Hk. change (k < 2)%nat in Hk. cbn [elapsed ex_bench_env]. lia.
Defined.

(** The same run evaluated, every answer delivered in two pieces. *)
Definition smoke_streams : list bytes :=
  match session_turns (Received bench_logon 0 :: (alone <$> zip (bench_orders smoke_opts) [secs 1; secs 70]))
          (new_conn (bench_config Fifo) 5) (new_server Fifo) with
  | Ok (_, streams, _, _) => streams
  | _ => []
  end.
Example smoke_run :
  match bench_main smoke_args (Listening 3 4000) 4 true
          (round_script ((λ s, [take 10 s; drop 10 s]) <$> smoke_streams)) 250000 with
  | Ok f => code f = 0 ∧ stdout f = bench_text smoke_opts 250000 47500 65536 65536 65536 65536
  | _ => False
  end.
Proof. vm_compute. split; reflexivity. Qed.
