(* ===== verification/Layout.v ===== *)
(** * Layout of the benchmark's structures

    The cache-line study ([bench/cacheline_study.cpp]) compares structures that
    differ only in [alignas(64)]. This file gives the layout of a standard-layout
    structure (LP64: every member at the next multiple of its alignment, the size
    rounded up to the alignment of the whole), the four structures of the study,
    and which cache lines they and the loop of [fifo_fill] touch. *)

From S2P Require Import Prelude Types.

(** ** Structures *)

Record ctype := mkType { sizeof : Z; alignof : Z }.
Notation member := (string * ctype)%type.

Definition t_u64 : ctype := mkType 8 8.
Definition t_i64 : ctype := mkType 8 8.
Definition t_char : ctype := mkType 1 1.
Definition t_pointer : ctype := mkType 8 8.

Definition align_up (n a : Z) : Z := (n + a - 1) / a * a.

(** The offsets of the members from [off] on, and the end of the last one. *)
Fixpoint place (off : Z) (ms : list member) : list Z * Z :=
  match ms with
  | [] => ([], off)
  | (_, m) :: ms =>
      let o := align_up off (alignof m) in
      let '(os, e) := place (o + sizeof m) ms in
      (o :: os, e)
  end.

(** A structure declared with [alignas(spec)]; 1 when there is none. *)
Definition struct (spec : Z) (ms : list member) : ctype :=
  let a := foldr Z.max spec (alignof <$> ms.*2) in
  mkType (align_up (place 0 ms).2 a) a.

Definition offset (name : string) (ms : list member) : option Z :=
  (list_to_map (zip ms.*1 (place 0 ms).1) : gmap string Z) !! name.

(** ** The structures of the study *)

Definition order_members : list member :=
  [("id", t_u64); ("side", t_char); ("price", t_i64); ("orig_qty", t_u64); ("leaves_qty", t_u64);
   ("prev", t_pointer); ("next", t_pointer)]%string.
Definition level_members : list member :=
  [("head", t_pointer); ("tail", t_pointer); ("count", t_u64); ("total_qty", t_u64)]%string.

Definition baseline_Order : ctype := struct 1 order_members.
Definition baseline_PriceLevel : ctype := struct 1 level_members.
Definition aligned_Order : ctype := struct 64 order_members.
Definition aligned_PriceLevel : ctype := struct 64 level_members.

(** The program's own [Order]; the layout of [std::string] is the library's. *)
Definition program_Order (str : ctype) : ctype :=
  struct 1 [("id", t_u64); ("session", t_u64); ("clord_id", str); ("side", t_char); ("type", t_char); ("price", t_i64);
            ("orig_qty", t_u64); ("leaves_qty", t_u64); ("ts", t_u64); ("prev", t_pointer); ("next", t_pointer)]%string.

(** ** Cache lines *)

Definition line (a : Z) : Z := a / 64.
(** The object at [a] lies in one line. *)
Definition one_line (a : Z) (t : ctype) : Prop := line a = line (a + sizeof t - 1).
(** The lines that [fifo_fill] touches in the order at [a]: its loop reads and
    writes [leaves_qty] and reads [next], eight bytes each at a multiple of eight. *)
Definition fill_lines (a : Z) : list Z :=
  remove_dups ((λ name, line (a + default 0 (offset name order_members))) <$> ["leaves_qty"; "next"]%string).

(** ** Layout is sound *)

Ltac divisions := Z.to_euclidean_division_equations; nia.

Lemma align_up_spec n a : 0 < a → (a | align_up n a) ∧ n ≤ align_up n a < n + a.
Proof.
  intros Ha. unfold align_up. split; [by exists ((n + a - 1) / a)|].
  pose proof (Z.div_mod (n + a - 1) a ltac:(lia)). pose proof (Z.mod_pos_bound (n + a - 1) a Ha). lia.
Qed.

Definition type_ok (t : ctype) : Prop := 0 < alignof t ∧ 0 ≤ sizeof t.

(** Every member is aligned, lies behind the one before, and ends in time. *)
Lemma place_sound ms : ∀ off,
  Forall type_ok ms.*2 →
  off ≤ (place off ms).2 ∧
  Forall2 (λ o t, (alignof t | o) ∧ off ≤ o ∧ o + sizeof t ≤ (place off ms).2) (place off ms).1 ms.*2.
Proof.
  induction ms as [|[name t] ms IH]; intros off Hok; cbn [place]; [split; [done|constructor]|].
  csimpl in *. apply Forall_cons in Hok as [[Ha Hs] Hok]. destruct (align_up_spec off (alignof t) Ha) as [Hd Hb].
  destruct (IH (align_up off (alignof t) + sizeof t) Hok) as [He Hms].
  destruct (place _ ms) as [os e]. cbn [fst snd] in *. split; [lia|]. csimpl. constructor; [split; [done|lia]|].
  eapply Forall2_impl; [exact Hms|]. intros o t' (H1 & H2 & H3). split; [done|lia].
Qed.

Lemma struct_aligned spec ms :
  0 < spec → let t := struct spec ms in spec ≤ alignof t ∧ (alignof t | sizeof t) ∧ (place 0 ms).2 ≤ sizeof t < (place 0 ms).2 + alignof t.
Proof.
  intros Hs. assert (spec ≤ foldr Z.max spec (alignof <$> ms.*2)) as Ha.
  { induction ms as [|m ms IH]; csimpl; lia. }
  split; [exact Ha|]. apply align_up_spec. eapply Z.lt_le_trans; [exact Hs|exact Ha].
Qed.

(** ** Lines *)

(** Objects whose alignment is a multiple of a line share no line with another
    object: no false sharing. *)
Lemma no_false_sharing t a a' i j :
  (64 | alignof t) → (alignof t | a) → (alignof t | a') → a ≠ a' →
  (alignof t | sizeof t) → (a + sizeof t ≤ a' ∨ a' + sizeof t ≤ a) →
  0 ≤ i < sizeof t → 0 ≤ j < sizeof t → line (a + i) ≠ line (a' + j).
Proof.
  intros H64 Ha Ha' Hne Hs Hov Hi Hj. assert (64 | a) as [q ->] by by etrans. assert (64 | a') as [q' ->] by by etrans.
  assert (64 | sizeof t) as [n Hn] by by etrans. unfold line. rewrite Hn in *. clear - Hov Hi Hj. divisions.
Qed.

Lemma study_sizes :
  baseline_Order = mkType 56 8 ∧ baseline_PriceLevel = mkType 32 8 ∧
  aligned_Order = mkType 64 64 ∧ aligned_PriceLevel = mkType 64 64.
Proof. vm_compute. done. Qed.

(** What [alignas(64)] changes: an aligned order is one cache line, and the loop
    of [fifo_fill] touches one line per order. A baseline order, at the sixteen
    byte alignment of [new], straddles two lines unless it happens to start one;
    the loop touches a second line only when it starts a quarter into one. *)
Theorem study_lines a :
  ((alignof aligned_Order | a) → one_line a aligned_Order ∧ length (fill_lines a) = 1%nat) ∧
  ((16 | a) → (one_line a baseline_Order ↔ (64 | a)) ∧ (length (fill_lines a) = 2%nat ↔ a mod 64 = 16)).
Proof.
  assert (fill_lines a = remove_dups [line (a + 32); line (a + 48)]) as -> by reflexivity.
  destruct study_sizes as (-> & _ & -> & _). unfold one_line, line. cbn [sizeof alignof].
  assert (∀ x y : Z, length (remove_dups [x; y]) = if decide (x = y) then 1%nat else 2%nat) as Hlen.
  { intros x y. destruct (decide (x = y)) as [-> |Hne]; unfold remove_dups, decide_rel;
      (destruct (list_elem_of_dec y []) as [Hy|_]; [by apply not_elem_of_nil in Hy|]);
      destruct (list_elem_of_dec _ [y]) as [Hx|Hx]; rewrite list_elem_of_singleton in Hx; done. }
  rewrite Hlen. split; intros [q ->].
  - split; [divisions|]. rewrite decide_True; [done|divisions].
  - split; [split; [intros Hl; exists (q / 4); divisions|intros [p Hp]; divisions]|].
    destruct (decide _) as [He|He]; split; try done; divisions.
Qed.

(** The study's [Order] is not the program's, whatever the size of a string. *)
Lemma program_order_larger str : type_ok str → sizeof baseline_Order < sizeof (program_Order str).
Proof.
  intros [Ha Hs]. destruct study_sizes as (-> & _). unfold program_Order.
  match goal with |- context [struct 1 ?ms] => destruct (struct_aligned 1 ms ltac:(lia)) as (_ & _ & He & _); eapply Z.lt_le_trans; [|exact He] end.
  cbn [place snd sizeof alignof t_u64 t_char t_i64 t_pointer]. destruct (align_up_spec 16 (alignof str) Ha) as [_ Hb].
  change (align_up (align_up 0 8 + 8) 8 + 8) with 16. revert Hb. generalize (align_up 16 (alignof str)). intros o Hb.
  cbn [sizeof]. unfold align_up. divisions.
Qed.
