(* ===== verification/CachelineStudy.v ===== *)
(** * The cache-line study

    Models [bench/cacheline_study.cpp]: the level code, the runs, and [main]
    with its options and its report. The two variants of the study differ only
    in [alignas] and have the same code; the random quantities and the measured
    times are the class [StudyEnv]. The theorem says what the measured calls
    compute, that both variants do the same work, and that the study ends. *)

From Stdlib Require Import SpecFloat.
From S2P Require Import Prelude Types Text Double Histogram Session UtcClock Logger.

(** ** Data *)

Notation addr := positive.

Record BOrder := mkBOrder {
  b_id : Z;
  b_side : ascii;
  b_price : Z;
  b_orig_qty : Z;
  b_leaves_qty : Z;
  b_prev : option addr;
  b_next : option addr
}.
Record BLevel := mkBLevel { l_head : option addr; l_tail : option addr; l_count : Z; l_total_qty : Z }.
Definition new_level : BLevel := mkBLevel None None 0 0.

Notation pool := (gmap addr BOrder).
Definition read (h : pool) (l : addr) : res BOrder :=
  match h !! l with Some o => Ok o | None => Undef end.
Definition write (h : pool) (l : addr) (f : BOrder → BOrder) : res pool :=
  match h !! l with Some o => Ok (<[l := f o]> h) | None => Undef end.

Definition with_links (p n : option addr) (o : BOrder) : BOrder :=
  mkBOrder (b_id o) (b_side o) (b_price o) (b_orig_qty o) (b_leaves_qty o) p n.
Definition with_next (n : option addr) (o : BOrder) : BOrder :=
  mkBOrder (b_id o) (b_side o) (b_price o) (b_orig_qty o) (b_leaves_qty o) (b_prev o) n.
Definition with_leaves (q : Z) (o : BOrder) : BOrder :=
  mkBOrder (b_id o) (b_side o) (b_price o) (b_orig_qty o) q (b_prev o) (b_next o).

(** ** Operations *)

Definition push (o : addr) (l : BLevel) (h : pool) : res (BLevel * pool) :=
  let! h := write h o (with_links (l_tail l) None) in
  let! '(hd, h) :=
    match l_tail l with
    | Some t => let! h := write h t (with_next (Some o)) in Ok (l_head l, h)
    | None => Ok (Some o, h)
    end in
  let! ord := read h o in
  Ok (mkBLevel hd (Some o) (u64 (l_count l + 1)) (u64 (l_total_qty l + b_leaves_qty ord)), h).

(** The [for] loop of [fifo_fill]; [total] is [l.total_qty]. *)
Fixpoint fill_loop (fuel : nat) (want : Z) (cur : option addr) (h : pool) (total filled : Z) :
    res (pool * Z * Z) :=
  match cur with
  | None => Ok (h, total, filled)
  | Some l =>
      if negb (filled <? want) then Ok (h, total, filled)
      else
        match fuel with
        | O => Hang
        | S fuel =>
            let! o := read h l in
            let q := Z.min (u64 (want - filled)) (b_leaves_qty o) in
            let! h := write h l (with_leaves (u64 (b_leaves_qty o - q))) in
            fill_loop fuel want (b_next o) h (u64 (total - q)) (u64 (filled + q))
        end
  end.
Definition fifo_fill (l : BLevel) (want : Z) (h : pool) : res (Z * BLevel * pool) :=
  let! '(h, total, filled) := fill_loop (S (size h)) want (l_head l) h (l_total_qty l) 0 in
  Ok (filled, mkBLevel (l_head l) (l_tail l) (l_count l) total, h).

(** The second variant: the same members under [alignas(64)] (see [Layout]), and
    its own copy of the code. *)
Definition aligned_push (o : addr) (l : BLevel) (h : pool) : res (BLevel * pool) :=
  let! h := write h o (with_links (l_tail l) None) in
  let! '(hd, h) :=
    match l_tail l with
    | Some t => let! h := write h t (with_next (Some o)) in Ok (l_head l, h)
    | None => Ok (Some o, h)
    end in
  let! ord := read h o in
  Ok (mkBLevel hd (Some o) (u64 (l_count l + 1)) (u64 (l_total_qty l + b_leaves_qty ord)), h).
Fixpoint aligned_fill_loop (fuel : nat) (want : Z) (cur : option addr) (h : pool) (total filled : Z) :
    res (pool * Z * Z) :=
  match cur with
  | None => Ok (h, total, filled)
  | Some l =>
      if negb (filled <? want) then Ok (h, total, filled)
      else
        match fuel with
        | O => Hang
        | S fuel =>
            let! o := read h l in
            let q := Z.min (u64 (want - filled)) (b_leaves_qty o) in
            let! h := write h l (with_leaves (u64 (b_leaves_qty o - q))) in
            aligned_fill_loop fuel want (b_next o) h (u64 (total - q)) (u64 (filled + q))
        end
  end.
Definition aligned_fifo_fill (l : BLevel) (want : Z) (h : pool) : res (Z * BLevel * pool) :=
  let! '(h, total, filled) := aligned_fill_loop (S (size h)) want (l_head l) h (l_total_qty l) 0 in
  Ok (filled, mkBLevel (l_head l) (l_tail l) (l_count l) total, h).

(** ** Runs *)

(** The [k]-th quantity a new generator draws (every run seeds its own), the
    nanoseconds measured around a fill of a run, and those of the whole run. *)
Class StudyEnv := mkStudyEnv { qd : nat → Z; fill_ns : nat → nat → Z; wall_ns : nat → Z }.

Record Fill := mkFill { filled : Z; level_after : BLevel; pool_after : pool }.
Record Result := mkResult { r_hist : LogHistogram; total_seconds : double; r_iters : Z }.

(** [pool.reserve]: a vector of pointers holds at most 2^60 - 1. *)
Definition reserve (n : Z) : res unit := if n >? 1152921504606846975 then Throw length_error else Ok tt.

Section run.
Context `{StudyEnv} (PUSH : addr → BLevel → pool → res (BLevel * pool)).
Context (FILL : BLevel → Z → pool → res (Z * BLevel * pool)).

(** The inner loop from [k] on: a new order per draw, pushed; [d] counts the
    draws of the run. *)
Fixpoint push_all (n : nat) (i resting k : Z) (d : nat) (next : addr) (l : BLevel) (h : pool) :
    res (BLevel * pool * addr) :=
  match n with
  | O => Ok (l, h, next)
  | S n =>
      let q := qd d in
      let! '(l, h) := PUSH next l (<[next := mkBOrder (u64 (i * resting + k)) "1"%char 0 q q None None]> h) in
      push_all n i resting (k + 1) (S d) (Pos.succ next) l h
  end.

(** The outer loop from iteration [i] of run [r] on. What each fill returns is
    kept, with the level and the orders as it leaves them. *)
Fixpoint run_loop (r n : nat) (i : nat) (resting : Z) (d : nat) (next : addr) (h : pool) (hist : LogHistogram) :
    res (list Fill * LogHistogram) :=
  match n with
  | O => Ok ([], hist)
  | S n =>
      let! '(l, h, next) := push_all (Z.to_nat resting) (Z.of_nat i) resting 0 d next new_level h in
      let! '(filled, l, h) := FILL l (l_total_qty l) h in
      let! hist := record (u64 (fill_ns r i)) hist in
      let! '(fills, hist) := run_loop r n (S i) resting (d + Z.to_nat resting) next h hist in
      Ok (mkFill filled l h :: fills, hist)
  end.
Definition run_variant (r : nat) (n_iters resting : Z) : res (list Fill * Result) :=
  let! _ := reserve (u64 (n_iters * resting)) in
  let! '(fills, hist) := run_loop r (Z.to_nat n_iters) 0 resting 0 1 ∅ new_histogram in
  Ok (fills, mkResult hist (ddiv (of_int (wall_ns r)) (of_int 1000000000)) n_iters).

End run.

(** ** The process *)

Record StudyOpts := mkStudyOpts { n_iters : Z; resting : Z; study_out : bytes }.
Definition study_defaults : StudyOpts := mkStudyOpts 50000 8 [].

Fixpoint study_args (args : list bytes) (o : StudyOpts) : res StudyOpts :=
  match args with
  | [] => Ok o
  | a :: rest =>
      match rest with
      | v :: rest' =>
          if bool_decide (a = B "--n") then let! n := stoull v in study_args rest' (mkStudyOpts n (resting o) (study_out o))
          else if bool_decide (a = B "--resting") then
            let! n := stoull v in study_args rest' (mkStudyOpts (n_iters o) n (study_out o))
          else if bool_decide (a = B "--out") then study_args rest' (mkStudyOpts (n_iters o) (resting o) v)
          else if bool_decide (a = B "--smoke") then study_args rest (mkStudyOpts 5000 (resting o) (study_out o))
          else study_args rest o
      | [] => Ok (if bool_decide (a = B "--smoke") then mkStudyOpts 5000 (resting o) (study_out o) else o)
      end
  end.

Definition dzero : double := S754_zero false.
Definition mean_ns (r : Result) : double :=
  if r_iters r =? 0 then dzero else ddiv (dmul (total_seconds r) (of_int 1000000000)) (of_int (r_iters r)).
Definition delta_pct (base other : double) : double := dmul (ddiv (dsub other base) base) (of_int 100).
Definition study_text (o : StudyOpts) (base alig : Result) (b50 b99 a50 a99 : Z) : bytes :=
  let base_mean := mean_ns base in
  let alig_mean := mean_ns alig in
  let delta_mean := if is_zero base_mean then dzero else delta_pct base_mean alig_mean in
  let delta_p99 := if b99 =? 0 then dzero else delta_pct (of_int b99) (of_int a99) in
  B "{" ++ [newline] ++
  json_line (B "n_iters") (to_string (n_iters o)) ++ json_sep ++
  json_line (B "resting_per_level") (to_string (resting o)) ++ json_sep ++
  json_line (B "baseline_mean_ns") (printf_f 2 base_mean) ++ json_sep ++
  json_line (B "baseline_p50_ns") (to_string b50) ++ json_sep ++
  json_line (B "baseline_p99_ns") (to_string b99) ++ json_sep ++
  json_line (B "aligned_mean_ns") (printf_f 2 alig_mean) ++ json_sep ++
  json_line (B "aligned_p50_ns") (to_string a50) ++ json_sep ++
  json_line (B "aligned_p99_ns") (to_string a99) ++ json_sep ++
  json_line (B "delta_mean_pct") (printf_f 2 delta_mean) ++ json_sep ++
  json_line (B "delta_p99_pct") (printf_f 2 delta_p99) ++ [newline] ++
  B "}" ++ [newline].

(** How the study ends: what it prints and the file it writes. *)
Record Study := mkStudy { base_fills : list Fill; alig_fills : list Fill; st_stdout : bytes; st_file : option (bytes * bytes) }.

Definition study_main `{StudyEnv} (args : list bytes) : res Study :=
  let! o := study_args args study_defaults in
  let! _ := run_variant push fifo_fill 0 1000 (resting o) in
  let! '(base_fills, base) := run_variant push fifo_fill 1 (n_iters o) (resting o) in
  let! '(alig_fills, alig) := run_variant aligned_push aligned_fifo_fill 2 (n_iters o) (resting o) in
  let! b50 := quantile (decimal 50 2) (r_hist base) in
  let! b99 := quantile (decimal 99 2) (r_hist base) in
  let! a50 := quantile (decimal 50 2) (r_hist alig) in
  let! a99 := quantile (decimal 99 2) (r_hist alig) in
  let text := snprintf 1024 (study_text o base alig b50 b99 a50 a99) in
  Ok (mkStudy base_fills alig_fills text (if bool_decide (study_out o = []) then None else Some (study_out o, text))).

(** ** Chains of orders *)

(** Following [next] from [cur] visits these orders with these quantities. *)
Fixpoint chain (h : pool) (cur : option addr) (es : list (addr * Z)) : Prop :=
  match es with
  | [] => cur = None
  | (l, q) :: es => cur = Some l ∧ ∃ o, h !! l = Some o ∧ b_leaves_qty o = q ∧ chain h (b_next o) es
  end.

Lemma chain_frame h h' es : ∀ cur,
  chain h cur es → (∀ l, l ∈ es.*1 → h' !! l = h !! l) → chain h' cur es.
Proof.
  induction es as [|[l q] es IH]; intros cur; cbn [chain]; [done|]. intros (-> & o & Ho & Hq & Hc) Heq.
  split; [done|]. exists o. split; [rewrite Heq; [done|left]|]. split; [done|]. apply IH; [done|].
  intros l' Hl'. apply Heq. by right.
Qed.
Lemma chain_insert h cur es l o : chain h cur es → l ∉ es.*1 → chain (<[l := o]> h) cur es.
Proof. intros Hc Hl. eapply chain_frame; [done|]. intros l' Hl'. apply lookup_insert_ne. by intros ->. Qed.

Lemma chain_size h cur es : chain h cur es → NoDup es.*1 → (length es ≤ size h)%nat.
Proof.
  intros Hc Hnd. rewrite <- (length_fmap fst es), <- size_dom, <- (size_list_to_set (C := gset addr) es.*1 Hnd).
  apply subseteq_size. intros l Hl%elem_of_list_to_set. revert cur Hc. clear Hnd.
  induction es as [|[l' q] es IH]; intros cur Hc; [by apply not_elem_of_nil in Hl|].
  destruct Hc as (-> & o & Ho & _ & Hc). apply elem_of_cons in Hl as [->|Hl]; [by apply elem_of_dom_2 in Ho|by eapply IH].
Qed.

(** Linking a new order behind the last one. *)
Lemma chain_link h es : ∀ cur t qt ot o q ord,
  chain h cur (es ++ [(t, qt)]) → NoDup (es ++ [(t, qt)]).*1 → o ∉ (es ++ [(t, qt)]).*1 →
  h !! t = Some ot → h !! o = Some ord → b_next ord = None → b_leaves_qty ord = q →
  chain (<[t := with_next (Some o) ot]> h) cur ((es ++ [(t, qt)]) ++ [(o, q)]).
Proof.
  induction es as [|[l ql] es IH]; intros cur t qt ot o q ord Hc Hnd Ho Ht Hord Hnx Hq; cbn [Datatypes.app chain] in *.
  - destruct Hc as (-> & ot' & Ht' & Hqt & _). assert (ot' = ot) as -> by congruence. split; [done|]. exists (with_next (Some o) ot).
    split; [apply lookup_insert_eq|]. split; [done|]. cbn. split; [done|]. exists ord.
    rewrite lookup_insert_ne; [by rewrite Hnx|]. intros ->. apply Ho. left.
  - destruct Hc as (-> & ol & Hl & Hql & Hc). csimpl in *. apply NoDup_cons in Hnd as [Hnl Hnd].
    apply not_elem_of_cons in Ho as [Hne Ho]. split; [done|]. exists ol. split; [|split; [done|by eapply IH]].
    rewrite lookup_insert_ne; [done|]. intros ->. apply Hnl. rewrite fmap_app. set_solver.
Qed.

(** ** The level *)

Record level_ok (h : pool) (l : BLevel) (es : list (addr * Z)) : Prop := {
  lo_chain : chain h (l_head l) es;
  lo_tail : l_tail l = fst <$> last es;
  lo_nodup : NoDup es.*1;
  lo_count : l_count l = u64 (zlen es);
  lo_total : l_total_qty l = u64 (sumz es.*2)
}.

Lemma push_spec h l es o ord :
  level_ok h l es → o ∉ es.*1 → h !! o = Some ord →
  ∃ l' h', push o l h = Ok (l', h') ∧ level_ok h' l' (es ++ [(o, b_leaves_qty ord)]) ∧ dom h' = dom h.
Proof.
  intros [Hc Ht Hnd Hcnt Htot] Ho Hord. unfold push, write. rewrite Hord. cbn [rbind].
  set (ord1 := with_links (l_tail l) None ord). set (h1 := <[o := ord1]> h).
  assert (chain h1 (l_head l) es) as Hc1 by (by apply chain_insert).
  assert (NoDup (es ++ [(o, b_leaves_qty ord)]).*1) as Hnd'.
  { rewrite fmap_app. apply NoDup_app. split; [done|]. split; [set_solver|apply NoDup_singleton]. }
  assert (u64 (l_total_qty l + b_leaves_qty ord) = u64 (sumz (es ++ [(o, b_leaves_qty ord)]).*2)) as Htot'.
  { rewrite Htot, u64_add_l, fmap_app, sumz_app. cbn. f_equal. lia. }
  assert (u64 (l_count l + 1) = u64 (zlen (es ++ [(o, b_leaves_qty ord)]))) as Hcnt' by (by rewrite Hcnt, u64_add_l, zlen_app).
  assert (dom h1 = dom h) as Hdom by (unfold h1; rewrite dom_insert_lookup_L; [done|by eexists]).
  destruct es as [|[t qt] es _] using rev_ind.
  - cbn in Ht, Hc. rewrite Ht. cbn [rbind]. unfold read, h1. rewrite lookup_insert_eq. cbn [rbind].
    do 2 eexists. split; [done|]. split; [|done]. split; try done. cbn. split; [done|]. exists ord1.
    by rewrite lookup_insert_eq.
  - rewrite last_snoc in Ht. cbn in Ht. rewrite Ht. cbn [rbind].
    assert (∃ ot, h1 !! t = Some ot) as (ot & Hot).
    { clear -Hc1. revert Hc1. generalize (l_head l). induction es as [|[l0 q0] es IH]; intros cur; cbn [Datatypes.app chain].
      - intros (_ & ot & Hot & _). by exists ot.
      - intros (_ & ? & _ & _ & Hc). by eapply IH. }
    rewrite Hot. cbn [rbind]. assert (t ≠ o) as Hne by (intros ->; apply Ho; rewrite fmap_app; set_solver).
    unfold read. rewrite lookup_insert_ne by done. unfold h1 at 1. rewrite lookup_insert_eq. cbn [rbind].
    do 2 eexists. split; [done|]. split.
    + split; [|by rewrite last_snoc|done|done|done].
      apply (chain_link h1 es (l_head l) t qt ot o _ ord1); try done. apply lookup_insert_eq.
    + rewrite dom_insert_lookup_L; [done|by eexists].
Qed.

(** ** The fill *)

Lemma fill_loop_spec es : ∀ fuel h cur filled,
  (length es ≤ fuel)%nat → chain h cur es → NoDup es.*1 → Forall (λ q, 0 < q) es.*2 → 0 ≤ filled →
  filled + sumz es.*2 < two64 →
  ∃ h', fill_loop fuel (filled + sumz es.*2) cur h (sumz es.*2) filled = Ok (h', 0, filled + sumz es.*2) ∧
    chain h' cur ((λ e, (e.1, 0)) <$> es) ∧ dom h' = dom h ∧ (∀ l, l ∉ es.*1 → h' !! l = h !! l).
Proof.
  induction es as [|[l q] es IH]; intros fuel h cur filled Hfu Hc Hnd Hpos Hf Hlt.
  { cbn in Hc. subst cur. exists h. change (sumz [].*2) with 0. rewrite Z.add_0_r. by destruct fuel. }
  destruct fuel as [|fuel]; [cbn in Hfu; lia|]. destruct Hc as (-> & o & Ho & Hq & Hc).
  change (((l, q) :: es).*1) with (l :: es.*1) in *. change (((l, q) :: es).*2) with (q :: es.*2) in *. cbn [length] in Hfu.
  apply NoDup_cons in Hnd as [Hl Hnd]. apply Forall_cons in Hpos as [Hq0 Hpos]. rewrite sumz_cons in Hlt. rewrite sumz_cons.
  assert (0 ≤ sumz es.*2) as Hnn by (apply sumz_nonneg; eapply Forall_impl; [exact Hpos|]; cbn; lia).
  cbn [fill_loop]. destruct (Z.ltb_spec filled (filled + (q + sumz es.*2))); [|lia]. cbn [negb].
  unfold read, write. rewrite Ho. cbn [rbind]. rewrite Hq.
  rewrite (u64_small (filled + (q + sumz es.*2) - filled)) by (unfold in_u64; lia).
  replace (Z.min (filled + (q + sumz es.*2) - filled) q) with q by lia. rewrite Z.sub_diag.
  replace (q + sumz es.*2 - q) with (sumz es.*2) by lia.
  rewrite (u64_small (sumz es.*2)), (u64_small (filled + q)) by (unfold in_u64; lia). change (u64 0) with 0.
  set (h1 := <[l := with_leaves 0 o]> h).
  destruct (IH fuel h1 (b_next o) (filled + q)) as (h' & He & Hc' & Hd & Hfr); try done; [lia|by apply chain_insert|lia|lia|].
  rewrite Z.add_assoc. exists h'. split; [done|]. split; [|split].
  - split; [done|]. exists (with_leaves 0 o). rewrite Hfr by done. split; [apply lookup_insert_eq|]. done.
  - rewrite Hd. unfold h1. rewrite dom_insert_lookup_L; [done|by eexists].
  - intros l' [Hne Hl']%not_elem_of_cons. rewrite Hfr by done. by apply lookup_insert_ne.
Qed.

(** ** Whole runs *)

Definition below_next (h : pool) (next : addr) : Prop := ∀ l, l ∈ dom h → (l < next)%positive.

Section study.
Context `{StudyEnv}.

(** The quantities drawn from number [d] on. *)
Definition draws (d n : nat) : list Z := qd <$> seq d n.

Lemma push_all_spec n i resting : ∀ k d next l h es,
  level_ok h l es → below_next h next → (∀ a, a ∈ es.*1 → a ∈ dom h) →
  ∃ l' h' next' es', push_all push n i resting k d next l h = Ok (l', h', next') ∧ level_ok h' l' (es ++ es') ∧
    es'.*2 = draws d n ∧ below_next h' next'.
Proof.
  induction n as [|n IH]; intros k d next l h es Hl Hn Hes; cbn [push_all].
  { exists l, h, next, []. by rewrite app_nil_r. }
  assert (next ∉ dom h) as Hfr by (intros Hin%Hn; lia).
  assert (next ∉ es.*1) as Hfe by (intros Hin%Hes; done). set (q := qd d).
  set (ord := mkBOrder (u64 (i * resting + k)) "1"%char 0 q q None None). set (h0 := <[next := ord]> h).
  assert (level_ok h0 l es) as Hl0 by (destruct Hl; split; [by apply chain_insert|done..]).
  destruct (push_spec h0 l es next ord Hl0 Hfe) as (l1 & h1 & He & Hl1 & Hd); [apply lookup_insert_eq|].
  rewrite He. cbn [rbind]. assert (dom h1 = {[next]} ∪ dom h) as Hd1 by (rewrite Hd; apply dom_insert_L).
  destruct (IH (k + 1) (S d) (Pos.succ next) l1 h1 (es ++ [(next, q)])) as (l2 & h2 & n2 & es2 & He2 & Hl2 & Hq2 & Hn2).
  - done.
  - intros a. rewrite Hd1, elem_of_union, elem_of_singleton. intros [->|Ha%Hn]; lia.
  - intros a. rewrite fmap_app, elem_of_app, Hd1. intros [Ha%Hes|Ha]; set_solver.
  - exists l2, h2, n2, ((next, q) :: es2). rewrite He2, <- app_assoc in *. split; [done|]. split; [done|].
    split; [|done]. unfold draws in *. cbn [seq]. csimpl. by rewrite Hq2.
Qed.

Lemma fifo_fill_all h l es :
  level_ok h l es → Forall (λ q, 0 < q) es.*2 → sumz es.*2 < two64 →
  ∃ l' h', fifo_fill l (l_total_qty l) h = Ok (sumz es.*2, l', h') ∧ l_total_qty l' = 0 ∧ l_count l' = l_count l ∧
    chain h' (l_head l') ((λ e, (e.1, 0)) <$> es) ∧ dom h' = dom h.
Proof.
  intros [Hc Ht Hnd Hcnt Htot] Hpos Hlt. assert (0 ≤ sumz es.*2) as Hnn.
  { apply sumz_nonneg. eapply Forall_impl; [exact Hpos|]. cbn. lia. }
  rewrite u64_small in Htot by (unfold in_u64; lia). pose proof (chain_size _ _ _ Hc Hnd).
  destruct (fill_loop_spec es (S (size h)) h (l_head l) 0) as (h' & He & Hc' & Hd & _); try done; [lia|].
  unfold fifo_fill. rewrite Htot. rewrite Z.add_0_l in He. rewrite He. cbn [rbind]. by do 2 eexists.
Qed.

(** The quantities of the levels of [n] iterations, [m] orders each. *)
Fixpoint level_draws (d m n : nat) : list (list Z) :=
  match n with
  | O => []
  | S n => draws d m :: level_draws (d + m) m n
  end.

(** A fill has taken everything: the quantities [qs] add up to what it returned,
    the level says 0, and all its orders are there with nothing left. *)
Definition drained (qs : list Z) (f : Fill) : Prop :=
  filled f = sumz qs ∧ l_total_qty (level_after f) = 0 ∧ l_count (level_after f) = u64 (zlen qs) ∧
  ∃ os, NoDup os ∧ length os = length qs ∧ chain (pool_after f) (l_head (level_after f)) ((λ o, (o, 0)) <$> os).

Lemma draws_positive d m :
  (∀ k, 1 ≤ qd k ≤ 1000) → Z.of_nat m * 1000 < two64 → Forall (λ q, 0 < q) (draws d m) ∧ sumz (draws d m) < two64.
Proof.
  intros Hq Hm. assert (Forall (λ q, 1 ≤ q ≤ 1000) (draws d m)) as Hall by (apply Forall_fmap, Forall_forall; intros k _; apply Hq).
  split; [eapply Forall_impl; [exact Hall|]; cbn; lia|].
  assert (sumz (draws d m) ≤ 1000 * zlen (draws d m)) as Hs.
  { induction Hall as [|q l Hq' _ IH]; [done|]. rewrite sumz_cons, zlen_cons. lia. }
  unfold zlen, draws in Hs. rewrite length_fmap, length_seq in Hs. unfold draws. lia.
Qed.

Lemma run_loop_spec r n resting :
  (∀ k, 1 ≤ qd k ≤ 1000) → 0 ≤ resting → resting * 1000 < two64 → ∀ i d next h ys, below_next h next →
  ∃ fills, run_loop push fifo_fill r n i resting d next h (summary ys) =
      Ok (fills, summary (ys ++ ((λ j, u64 (fill_ns r j)) <$> seq i n))) ∧
    Forall2 drained (level_draws d (Z.to_nat resting) n) fills.
Proof.
  intros Hq Hr0 Hr. induction n as [|n IH]; intros i d next h ys Hn; cbn [run_loop level_draws seq].
  { exists []. rewrite app_nil_r. split; [done|constructor]. }
  destruct (push_all_spec (Z.to_nat resting) (Z.of_nat i) resting 0 d next new_level h [])
    as (l & h1 & n1 & es & He & Hl & Heq & Hn1); [|done|set_solver|].
  { split; try done. apply NoDup_nil_2. }
  destruct (draws_positive d (Z.to_nat resting)) as [Hpos Hsum]; [done|lia|]. rewrite <- Heq in *.
  rewrite He. cbn [rbind Datatypes.app]. destruct (fifo_fill_all h1 l es Hl Hpos Hsum) as (l2 & h2 & He2 & H0 & Hcnt & Hc & Hd).
  rewrite He2. cbn [rbind]. rewrite record_summary by apply u64_range. cbn [rbind].
  destruct (IH (S i) (d + Z.to_nat resting)%nat n1 h2 (ys ++ [u64 (fill_ns r i)])) as (fills & Hf & Hall); [intros a; rewrite Hd; apply Hn1|].
  rewrite Hf. cbn [rbind]. exists (mkFill (sumz es.*2) l2 h2 :: fills). split; [by rewrite fmap_cons, <- app_assoc|].
  constructor; [|done]. split; [done|]. split; [done|]. destruct Hl as [_ _ Hnd Hcount _]. cbn [level_after pool_after].
  split; [by rewrite Hcnt, Hcount; unfold zlen; rewrite length_fmap|]. exists es.*1. split; [done|].
  split; [by rewrite !length_fmap|]. by rewrite <- list_fmap_compose.
Qed.

Definition run_times (r : nat) (n : Z) : list Z := (λ j, u64 (fill_ns r j)) <$> seq 0 (Z.to_nat n).
Definition run_result (r : nat) (n : Z) : Result :=
  mkResult (summary (run_times r n)) (ddiv (of_int (wall_ns r)) (of_int 1000000000)) n.

Lemma run_variant_spec r n resting :
  (∀ k, 1 ≤ qd k ≤ 1000) → 0 ≤ resting → resting * 1000 < two64 → u64 (n * resting) < 2 ^ 60 →
  ∃ fills, run_variant push fifo_fill r n resting = Ok (fills, run_result r n) ∧
    Forall2 drained (level_draws 0 (Z.to_nat resting) (Z.to_nat n)) fills.
Proof.
  intros Hq Hr0 Hr Hres. unfold run_variant, reserve. destruct (Z.gtb_spec (u64 (n * resting)) 1152921504606846975); [lia|].
  destruct (run_loop_spec r (Z.to_nat n) resting Hq Hr0 Hr 0 0 1 ∅ []) as (fills & Hf & Hall); [by intros l Hl%not_elem_of_empty|].
  exists fills. cbn [rbind]. rewrite <- summary_nil, Hf. done.
Qed.

(** The second variant's copy of the code is the same code. *)
Lemma aligned_run_same r n resting : run_variant aligned_push aligned_fifo_fill r n resting = run_variant push fifo_fill r n resting.
Proof. reflexivity. Qed.

Lemma run_quantiles r n :
  0 ≤ n < 2 ^ 53 → (∀ j, 0 ≤ fill_ns r j < two63) →
  ∃ p50 p99, quantile (decimal 50 2) (summary (run_times r n)) = Ok p50 ∧ quantile (decimal 99 2) (summary (run_times r n)) = Ok p99.
Proof.
  intros Hn Hf. assert (Forall (λ x, 0 ≤ x < two63) (run_times r n)) as Hall.
  { apply Forall_fmap, Forall_forall. intros j _. cbn. rewrite u64_small; [apply Hf|]. specialize (Hf j). unfold in_u64. lia. }
  assert (zlen (run_times r n) < 2 ^ 53) as Hl by (unfold zlen, run_times; rewrite length_fmap, length_seq; lia).
  destruct (quantile_defined (run_times r n) (decimal 50 2) 4503599627370496 (-53)) as [p50 Hp]; [by vm_compute|done|done|done|by vm_compute|].
  destruct (quantile_defined (run_times r n) (decimal 99 2) 8917127262193582 (-53)) as [p99 Hp']; [by vm_compute|done|done|done|by vm_compute|].
  by exists p50, p99.
Qed.

End study.

(** ** Theorem *)

(** C40: the study. For the quantities the generator draws and readable
    options whose pool fits, [main] runs to its end without undefined
    behaviour. In both variants, each with its own code, every measured fill
    returns the sum of the quantities drawn for its level and leaves the level
    with a total of 0 and all its orders linked with nothing left; both
    variants draw the same quantities. The quantiles it prints are those of the
    times measured, one per iteration, and the text goes to standard output and
    to the file if one was given. *)
Theorem study_fills_levels `{StudyEnv} args o :
  study_args args study_defaults = Ok o → (∀ k, 1 ≤ qd k ≤ 1000) → (∀ r j, 0 ≤ fill_ns r j < two63) →
  0 ≤ n_iters o < 2 ^ 53 → 0 ≤ resting o → resting o * 1000 < two64 →
  u64 (1000 * resting o) < 2 ^ 60 → u64 (n_iters o * resting o) < 2 ^ 60 →
  let levels := level_draws 0 (Z.to_nat (resting o)) (Z.to_nat (n_iters o)) in
  ∃ fills fills' b50 b99 a50 a99,
    let text := snprintf 1024 (study_text o (run_result 1 (n_iters o)) (run_result 2 (n_iters o)) b50 b99 a50 a99) in
    study_main args = Ok (mkStudy fills fills' text (if bool_decide (study_out o = []) then None else Some (study_out o, text))) ∧
    Forall2 drained levels fills ∧ Forall2 drained levels fills' ∧
    quantile (decimal 50 2) (summary (run_times 1 (n_iters o))) = Ok b50 ∧
    quantile (decimal 99 2) (summary (run_times 1 (n_iters o))) = Ok b99 ∧
    quantile (decimal 50 2) (summary (run_times 2 (n_iters o))) = Ok a50 ∧
    quantile (decimal 99 2) (summary (run_times 2 (n_iters o))) = Ok a99.
Proof.
  intros Ho Hq Hf Hn Hr0 Hr Hw Hp levels. unfold study_main. rewrite Ho. cbn [rbind]. rewrite (aligned_run_same 2).
  destruct (run_variant_spec 0 1000 (resting o)) as (fw & -> & _); [done..|].
  destruct (run_variant_spec 1 (n_iters o) (resting o)) as (fb & -> & Hb); [done..|].
  destruct (run_variant_spec 2 (n_iters o) (resting o)) as (fa & -> & Ha); [done..|]. cbn [rbind r_hist run_result].
  destruct (run_quantiles 1 (n_iters o)) as (b50 & b99 & Hb50 & Hb99); [done|done|].
  destruct (run_quantiles 2 (n_iters o)) as (a50 & a99 & Ha50 & Ha99); [done|done|].
  exists fb, fa, b50, b99, a50, a99. rewrite Hb50, Hb99, Ha50, Ha99. cbn [rbind]. done.
Qed.

Definition ex_study_env : StudyEnv :=
  mkStudyEnv (λ k, 1 + Z.of_nat k * 377 mod 1000) (λ r j, 40 + (Z.of_nat r + Z.of_nat j) mod 5) (λ r, 900 + Z.of_nat r).
#[local] Existing Instance ex_study_env.
Definition ex_study_args : list bytes := [B "--n"; B "3"; B "--resting"; B "2"].
Definition ex_study_opts : StudyOpts := mkStudyOpts 3 2 [].

Lemma study_fills_levels_witness :
  let levels := level_draws 0 2 3 in
  ∃ fills fills' b50 b99 a50 a99,
    let text := snprintf 1024 (study_text ex_study_opts (run_result 1 3) (run_result 2 3) b50 b99 a50 a99) in
    study_main ex_study_args = Ok (mkStudy fills fills' text None) ∧
    Forall2 drained levels fills ∧ Forall2 drained levels fills' ∧
    quantile (decimal 50 2) (summary (run_times 1 3)) = Ok b50 ∧ quantile (decimal 99 2) (summary (run_times 1 3)) = Ok b99 ∧
    quantile (decimal 50 2) (summary (run_times 2 3)) = Ok a50 ∧ quantile (decimal 99 2) (summary (run_times 2 3)) = Ok a99.
Proof.
  apply (study_fills_levels ex_study_args ex_study_opts); [vm_compute; reflexivity| | |done|done|done|by vm_compute|by vm_compute].
  - intros k. cbn [qd ex_study_env]. pose proof (Z.mod_pos_bound (Z.of_nat k * 377) 1000). lia.
  - intros r j. cbn [fill_ns ex_study_env]. pose proof (Z.mod_pos_bound (Z.of_nat r + Z.of_nat j) 5). lia.
Defined.

(** A small study evaluated: three levels of two orders per run. *)
Example study_run :
  match study_main [B "--resting"; B "2"; B "--n"; B "3"] with
  | Ok s => filled <$> base_fills s = [379; 887; 1395] ∧ filled <$> alig_fills s = [379; 887; 1395]
  | _ => False
  end.
Proof. vm_compute. split; reflexivity. Qed.
